(* ===== verification/_CoqProject ===== *)
-Q . S2P
Prelude.v
LittleEndian.v
Utf8.v
Protocol.v
Codec.v
Payloads.v
Frame.v
Pdo.v
SafetyGate.v
SpscQueue.v
DcSync.v
Realtime.v
Adapter.v
Paths.v
Scanner.v
EventLog.v
Json.v
Config.v
Clock.v
IoMap.v
BusIo.v
Discovery.v
Cycle.v
Threads.v
Sockets.v
Connection.v
Daemon.v
Telemetry.v
Control.v
Requests.v
System.v
Guarantees.v
Delivery.v
Lifecycle.v
Main.v
Counters.v
Timed.v
Assembly.v
ClientLibrary.v
ClientHandle.v
ClientSession.v
Publication.v
Interop.v
