(* ===== verification/Prelude.v ===== *)
(** * EC-Systemcore: a verification development

    EC-Systemcore is a daemon that drives EtherCAT buses (through the SOEM
    master) on behalf of local clients. One controller client may hold the
    right to drive outputs; observers may read. The program is C++ under
    [src/daemon]; this library models its core and proves what makes it safe.

    ** The program and the files that model it

    - [protocol.hpp], the wire protocol. [LittleEndian] has the integer
      primitives, [Utf8] the text validator, [Protocol] the enums, records,
      encoders and decoders, [Codec] the reader of field lists and its lemmas,
      [Payloads] the theorem that each decoder accepts exactly the encodings,
      [Frame] EncodeFrame and the incremental FrameDecoder.
    - [safety.hpp]. [Pdo] has the packed process-data images, [SafetyGate] the
      gate that arbitrates the controller (Module [Gate]) and the rate limit
      (Module [RateLimit]).
    - [dc_sync.hpp] is [DcSync] (Module [Dc]), [realtime.hpp] is [Realtime],
      [adapter_identity.hpp] is [Adapter] (identities, locks and their
      resolution) and [Scanner] (the scan of sysfs and udev),
      [mini_json.hpp] is [Json].
    - [main.cpp]. [Config] is LoadConfigText, [SpscQueue] the ring between the
      threads, [Clock] the deadlines of the bus thread, [IoMap] the IO map,
      ZeroOutputs, ValidateTopology and ValidateOutput, [BusIo]
      ApplyOutputCommands, EnforcePerSubDeviceFreshness and PublishInputs,
      [Cycle] the bus thread (Run, Initialize, RunCyclic, CloseContext,
      RaiseFault) interleaved with the main thread's SetSafety and QueueOutput
      and with the other buses, [Threads] what the thread does to the variables
      it shares and that it stops, [Counters] the counters both threads use and
      the timing that is measured in each cycle, [Discovery] the report of the
      topology, [Timed] the bus thread again, from the first statement of Run,
      with its real-time configuration, sleep, deadlines and timing counters,
      built on the actions of [Cycle].
    - [main.cpp], the control plane. [Sockets] has the answers of the socket
      calls and a queue of frames that is being sent, [Connection] is a client's
      connection: its outgoing queue, flushing, token bucket and authorisation. [Daemon] has the
      state of the daemon and its operations: every message handler, closing
      and broadcasting, the epoch, fault, timeout and adapter handling, and the
      accept, read and poll functions over the answers of the socket calls.
      [Telemetry] is the status, the bus information and the publication of
      inputs. [Control] and [Requests] have the invariant of the control plane
      and show that every operation keeps it; [System] has the constructor, the
      events that can happen, reachability, and one turn of Daemon::Run;
      [Guarantees] the theorems about every reachable state; [Delivery] what
      a pass of a bus thread delivers, up to an acknowledged write that reaches
      the wire, and what becomes of a barrier frame that is lost; [Publication] that complete input snapshots reach
      the subscribers.
    - [main.cpp], around the control plane. [Lifecycle] is OpenSocket, the whole
      of Run, FlushClientsFor, Shutdown and the destructor; [Main] is RunMain
      and main, with the functions that ask the system at the start;
      [EventLog] (Module [EventLog]) the log files; [Paths] the strings, paths
      and bounded reads these use.
    - [client.cpp], the client library. [Assembly] reassembles input images,
      [ClientLibrary] (Module [Client]) has the operations of the client,
      [ClientHandle] the handle with its moves and its destruction,
      [ClientSession] the invariants and theorems of the client. [Interop] puts
      the client and the daemon together.

    How they interact: a client's bytes go through the frame decoder and a
    payload decoder; the gate authorises a write; ValidateOutput checks it
    against the validated topology; the command enters the ring; the bus
    thread applies it to the IO map if its epoch is still the current one, and
    transmits the map after a second look at the epoch. [Guarantees] puts the
    chain together: [wire_authorised] goes from the frame on the wire back to
    the request that the daemon accepted and the lease it was accepted under;
    [write_reaches_wire] of [Delivery] goes the other way.

    [System.reached] lets operations of the main thread and actions of the bus
    threads follow each other in any order. An operation of the main thread
    reads the clock once; bus threads act between its operations, and the
    finer interleaving inside SetSafety is the subject of [Cycle]. Clients
    may send anything, adapters may come and go, and the socket calls may give
    any answer their documentation allows ([event_ok], [send_contract]). The
    fields [granted] and [wrapped] of the daemon, and [sent] and [accepted] of
    a bus, are histories: no operation looks at them. [wrapped] says that the
    64-bit epoch or client counter has come round; the end-to-end theorems
    speak of runs in which that has not happened.

    ** Conventions

    A fixed-width integer is a [Z] in its range, with the wrap-around of a
    [static_cast] written out ([to_u8] .. [to_u64]); signed division truncates
    ([Z.quot], [Z.rem]). Bytes and strings are lists of [Z]. [return false] and
    an empty [std::optional] are [None]; an exception is an error value. A
    method is a function from the object's record to its result and the new
    record. Time is an argument. A C array indexed by SubDevice is a list.

    Results of system calls are arguments: a list of answers has one entry per
    call, or per iteration of the loop that makes the calls, and its end is the
    deadline or the signal that ends the loop. In the client library an answer
    [SendCount n] is the room in the socket. A [Filesystem] is what one scan of
    the adapters finds, and does not change during it; the directory of the log
    and the [Endpoint] (the socket path and the lock that daemons share) are
    state.

    ** What the theorems show

    - Wire format: every payload decoder accepts exactly the canonical
      encodings and inverts its encoder; a stream of frames cut anywhere is
      decoded to the frames, nothing else is accepted, and the buffer is
      bounded.
    - Safety gate: it refines an abstract lease; one epoch has one writer; a
      revocation fences all earlier commands; outputs are enabled only by the
      holder; both watchdogs are exact.
    - Bus: a topology is accepted exactly when it is the configured one; a command the main
      thread accepts is one the bus thread can apply; the last fresh command
      of the current epoch wins; stale outputs are zeroed; a publication is a
      whole snapshot.
    - Races: the ring is a FIFO without slot races under stale loads; however
      the threads interleave, a frame carries only commands of the epoch it is
      sent under; an epoch is reported applied only after a confirmed zero
      frame; a latched fault silences every bus.
    - Progress: with outputs permitted, the epoch observed and no fault latched,
      a pass of the bus thread whose frame is confirmed empties the queue, sends
      one frame with the last acceptable command of each SubDevice and returns
      to the head of its loop; an accepted write is in the frame of the next
      such pass, provided the command is not newer than the clock sample of its
      drain; a new epoch is acknowledged by the pass that first sees it if the
      frame of that pass is confirmed, and otherwise not until the epoch moves
      again. The invariant [Cycle.inv_agreed] says that the sizes the main
      thread checks a write against are those of the open context. The theorems
      about commands ([cycle_delivers], [write_reaches_wire]) count actions of
      the bus thread while the others wait; in that of the epoch barrier the
      other threads may act in between as long as they keep the epoch, the
      running flag and the link; that of the lost barrier and the safety
      theorems hold for every interleaving.
    - Control plane: a process image on the wire shows zeros or the data of a
      request of an authorised controller that held the lease under that
      epoch; one epoch has one writing client; a bus permits outputs only for
      a connected controller and only behind a barrier on every bus; faults,
      timeouts and adapter changes silence every bus at once; observers cannot
      touch outputs; clients and queues stay bounded; flushing sends queued
      bytes once and in order; Stop ends the bus thread; one turn of Run stays
      in the reachable states.
    - Life: however the daemon ends, every bus thread is stopped and the last
      frame on each bus has all outputs at zero ([Cycle.inv_parked]); a whole
      run leaves the lock free and nobody in control; the lock keeps two
      daemons from opening the same socket; a daemon starts only with a checked
      configuration and safe paths; --resolve-adapters predicts which buses
      start.
    - Client library: it never speaks for a session that is gone, its view of
      the session is truthful, polling sends the heartbeats that are due, what
      it hands out are whole images, a write has one of the documented outcomes;
      a snapshot the daemon publishes is reassembled, and the oldest images make
      room for it; client and daemon agree on the handshake; an implementation
      has one owner and is torn down once.
    - Event log: the number of files is bounded by the limit, by what was there
      at the start and by the removals that fail; files with new names are
      bounded in size and hold whole lines; an event is one line whatever the
      message.
    - Configuration, JSON, adapters: an accepted configuration is in range and
      has no duplicates; the JSON parser is total within its limits; a lock
      is enforced; a scan finds identities in normal form that can be locked,
      and USB attributes come from below the sysfs root only.
    - Clocks: no signed overflow in the clock controller, synchronisation
      needs twenty stable cycles, an unlocked clock faults; deadlines catch up
      without drift, and stay on the grid of the first one.

    ** Fuel and bounds

    Loops that are not structural carry fuel, and the fuel is proved enough:
    the frame loop has one more than the buffered bytes; the string loop of
    the JSON parser the length of the input and its value recursion twice the
    length plus two ([Parse_total] shows that fuel never runs out); the drain
    of the command queue has the capacity of the ring; the normalisation of a
    [timespec] two rounds; joining a bus thread [join_fuel] = 536 of its steps
    ([Stop_joins]); CloseClient a depth of one ([CloseClient_unfold]); the walk
    up the device tree 16 directories, as in the code.

    ** Assumptions

    SOEM and the network are arguments ([Io], [InitIo], [ecx_contextt]). What is
    relied on is [soem_layout]: the fields have their types, two SubDevices
    have no output bit in common, and received frames do not overwrite
    outputs. [EC_MAXSLAVE] is a parameter. In [Cycle] the epochs passed to
    SetSafety do not go back, as the gate guarantees short of 2^64
    revocations. [canonical_ok] is what the documentation says of
    [std::filesystem::weakly_canonical]; a [Filesystem] has one text per path, so
    that an attribute file of sysfs that is itself a symbolic link counts as being
    at the path of the link. The directory of the log is changed by the log alone.
    After a frame the IO map has new inputs and the outputs that were sent: SOEM
    copies the whole datagram back, and the bus is taken to return the outputs as
    they were.

    ** What does not hold

    Some theorems record behaviour that is hardly meant: [second_daemon_unlinks]
    (a daemon that is refused removes the socket of the one that runs),
    [lost_barrier_sticks] (if the one frame of an epoch's barrier is lost, outputs
    cannot be enabled in that epoch), [loopback_unrestricted] (the documentation
    restricts the interface lo, the daemon does not),
    [log_never_resumes] (after a lack of space no event reaches a file any more),
    [drain_race_loses_command] (a command accepted while the bus thread drains
    its queue is dropped), the witness of [hello_agreement] (the client library
    refuses to observe while outputs are enabled) and [rejection_hidden] in the
    client library.

    ** Not modelled

    Allocation failures other than that of the client's implementation; the
    text of log lines and of what is printed, the topology report apart; the
    signal handlers, which only clear a flag; the timing counters reach the
    control plane of [System] as arbitrary values, not through [Timed]; SOEM
    itself; the Java, Python and web clients. *)

From stdpp Require Export base list numbers option strings.
From Stdlib Require Export ZArith Lia.
From Stdlib Require Import Ascii.

Open Scope Z_scope.

(** ** Machine integers

    A [w]-bit unsigned value of the source is a [Z]; [in_u8] .. [in_u64] are
    the ranges of the fixed-width types, [to_u8] .. [to_u64] the wrap-around
    of a [static_cast] or of unsigned arithmetic. *)

Abbreviation U8_MAX := 255 (only parsing).
Abbreviation U16_MAX := 65535 (only parsing).
Abbreviation U32_MAX := 4294967295 (only parsing).
Abbreviation U64_MAX := 18446744073709551615 (only parsing).
Abbreviation I32_MIN := (-2147483648) (only parsing).
Abbreviation I32_MAX := 2147483647 (only parsing).
Abbreviation I64_MIN := (-9223372036854775808) (only parsing).
Abbreviation I64_MAX := 9223372036854775807 (only parsing).

Definition in_u8 (z : Z) : Prop := 0 <= z <= U8_MAX.
Definition in_u16 (z : Z) : Prop := 0 <= z <= U16_MAX.
Definition in_u32 (z : Z) : Prop := 0 <= z <= U32_MAX.
Definition in_u64 (z : Z) : Prop := 0 <= z <= U64_MAX.
Definition in_i64 (z : Z) : Prop := I64_MIN <= z <= I64_MAX.

Definition to_u8 (z : Z) : Z := z mod 256.
Definition to_u16 (z : Z) : Z := z mod 65536.
Definition to_u32 (z : Z) : Z := z mod 4294967296.
Definition to_u64 (z : Z) : Z := z mod 18446744073709551616.

(** ** Byte strings

    [std::vector<std::uint8_t>], [std::span] and [std::string] are lists of
    [Z]; [bytes_ok] says that every element is a byte. *)

Abbreviation bytes := (list Z) (only parsing).

Definition bytes_ok (l : bytes) : Prop := Forall in_u8 l.

Definition zlen {A} (l : list A) : Z := Z.of_nat (length l).

(** [l[i]], for an index the caller has checked. *)
Definition byte_at (l : bytes) (i : Z) : Z := default 0 (l !! Z.to_nat i).

(** The bytes of a string literal of the source. *)
Definition byte_of_ascii (c : ascii) : Z := Z.of_N (N_of_ascii c).

Fixpoint str (s : string) : bytes :=
  match s with
  | EmptyString => []
  | String c s => byte_of_ascii c :: str s
  end.

(** [b ? 1U : 0U]. *)
Definition bit (b : bool) : Z := if b then 1 else 0.

Declare Scope ec_scope.
Delimit Scope ec_scope with ec.

(** [require b ;; k]: the guard of an early [return false]. *)
Notation "'require' b ;; k" := (if b then k else None)
  (at level 100, b at level 99, k at level 100, right associativity,
   format "'[v' 'require'  b  ;; '/' k ']'") : ec_scope.

Open Scope ec_scope.

(** ** Tactics *)

(** Split every [if] of the goal and of the hypotheses on its condition. *)
Ltac split_ifs :=
  repeat match goal with
  | |- context [if ?b then _ else _] => destruct b eqn:?
  | H : context [if ?b then _ else _] |- _ => destruct b eqn:?
  end.

(** [lia] with division and remainder by constants. *)
Ltac dlia := Z.to_euclidean_division_equations; lia.

(** [lia] for boolean comparisons over [Z.of_nat], whose sign it loses there. *)
Ltac blia :=
  rewrite ?Nat2Z.inj_succ in *; unfold Z.succ in *;
  repeat match goal with
  | |- context [Z.of_nat ?n] =>
      let k := fresh "k" in
      pose proof (Nat2Z.is_nonneg n); set (k := Z.of_nat n) in *; clearbody k
  end; lia.

(** Case analysis on the first failing step of an [option] computation. *)
Ltac opt_inv :=
  repeat match goal with
  | H : Some _ = Some _ |- _ => apply (inj Some) in H
  | H : None = Some _ |- _ => discriminate H
  | H : Some _ = None |- _ => discriminate H
  | H : (if ?b then _ else None) = Some _ |- _ =>
      let E := fresh "Hguard" in destruct b eqn:E; [|discriminate H]
  | H : (if ?b then None else _) = Some _ |- _ =>
      let E := fresh "Hguard" in destruct b eqn:E; [discriminate H|]
  | H : (?m ≫= _) = Some _ |- _ =>
      let x := fresh "x" in let E := fresh "Hread" in
      destruct m as [x|] eqn:E; [cbn [mbind option_bind] in H|discriminate H]
  end.

(** Turn a list whose length is a numeral into its elements. *)
Ltac explode l :=
  repeat match goal with
  | H : length l = O |- _ => destruct l; [clear H|discriminate H]
  | H : length l = S _ |- _ =>
      destruct l as [|? l]; [discriminate H|cbn [length] in H; apply eq_add_S in H]
  end.

(** ** Length and byte lemmas *)

Lemma zlen_nonneg {A} (l : list A) : 0 <= zlen l.
Proof. unfold zlen; lia. Qed.

Lemma zlen_app {A} (l k : list A) : zlen (l ++ k) = zlen l + zlen k.
Proof. unfold zlen; rewrite length_app; lia. Qed.

Lemma zlen_nil {A} : zlen (@nil A) = 0.
Proof. reflexivity. Qed.

Lemma zlen_cons {A} (x : A) l : zlen (x :: l) = 1 + zlen l.
Proof. unfold zlen; cbn [length]; lia. Qed.

Lemma zlen_nil_inv {A} (l : list A) : zlen l = 0 -> l = [].
Proof. unfold zlen; destruct l; cbn [length]; [done|lia]. Qed.

Lemma zlen_to_nat {A} (l : list A) : Z.to_nat (zlen l) = length l.
Proof. unfold zlen; lia. Qed.

Lemma zlen_length {A} (l : list A) n : zlen l = Z.of_nat n -> length l = n.
Proof. unfold zlen; lia. Qed.

Lemma bytes_ok_app l k : bytes_ok (l ++ k) <-> bytes_ok l /\ bytes_ok k.
Proof. unfold bytes_ok; rewrite Forall_app; tauto. Qed.

Lemma bytes_ok_cons b l : bytes_ok (b :: l) <-> in_u8 b /\ bytes_ok l.
Proof. unfold bytes_ok; rewrite Forall_cons; tauto. Qed.

Lemma bytes_ok_nil : bytes_ok [].
Proof. constructor. Qed.

Lemma bytes_ok_take n l : bytes_ok l -> bytes_ok (take n l).
Proof. apply Forall_take. Qed.

Lemma bytes_ok_drop n l : bytes_ok l -> bytes_ok (drop n l).
Proof. apply Forall_drop. Qed.

Lemma in_u8_bit b : in_u8 (bit b).
Proof. destruct b; unfold in_u8, bit; lia. Qed.

Lemma byte_at_ok l i : bytes_ok l -> in_u8 (byte_at l i).
Proof.
  intros Hl. unfold byte_at. destruct (l !! Z.to_nat i) as [b|] eqn:E; cbn.
  - by eapply Forall_lookup_1.
  - unfold in_u8; lia.
Qed.

Lemma bit_neqb_0 z : 0 <= z <= 1 -> bit (negb (z =? 0)) = z.
Proof. intros; unfold bit; destruct (Z.eqb_spec z 0); cbn; lia. Qed.

Lemma bit_le_1 b : 0 <= bit b <= 1.
Proof. destruct b; cbn; lia. Qed.

Lemma negb_bit_eqb_0 b : negb (bit b =? 0) = b.
Proof. by destruct b. Qed.

(** ** Bitwise lemmas *)

Lemma lor_shiftl_add a b n :
  0 <= n -> 0 <= a < 2 ^ n -> Z.lor a (Z.shiftl b n) = a + b * 2 ^ n.
Proof.
  intros Hn Ha. rewrite Z.shiftl_mul_pow2 by done.
  symmetry. apply Z.add_nocarry_lor.
  apply Z.bits_inj'. intros i Hi. rewrite Z.land_spec, Z.bits_0.
  destruct (Z.lt_ge_cases i n) as [Hin|Hin].
  - rewrite Z.mul_pow2_bits_low by done. apply andb_false_r.
  - assert (Z.testbit a i = false) as ->; [|done].
    rewrite <- (Z.mod_small a (2 ^ n)) by done.
    by apply Z.mod_pow2_bits_high.
Qed.

Lemma land_255 v : Z.land v 255 = v mod 256.
Proof. exact (Z.land_ones v 8 ltac:(lia)). Qed.

Create Rewrite HintDb zlen.
#[export] Hint Rewrite @zlen_app @zlen_nil @zlen_cons : zlen.
Create HintDb ec.
#[export] Hint Resolve in_u8_bit byte_at_ok bytes_ok_nil bytes_ok_take bytes_ok_drop : ec.
