(* ===== verification/LittleEndian.v ===== *)
(** * Little-endian integers on the wire

    [AppendLe16/32/64] and [ReadLe16/32/64] of
    src/daemon/include/ec_systemcore/protocol.hpp, and the two reference
    functions they are proved equal to: [le_split n v], the [n] low bytes of
    [v], and [le_join l], the integer a byte list denotes. *)

From S2P Require Import Prelude.

(** ** The operations of the source *)

Definition AppendLe16 (destination : bytes) (value : Z) : bytes :=
  destination ++ [Z.land value 255] ++ [Z.land (Z.shiftr value 8) 255].

(** The loop [for (shift = first; shift < bits; shift += 8)]: [n] bytes from
    [shift] on. *)
Fixpoint append_le_loop (destination : bytes) (value shift : Z) (n : nat) : bytes :=
  match n with
  | O => destination
  | S n =>
      append_le_loop (destination ++ [Z.land (Z.shiftr value shift) 255])
                     value (shift + 8) n
  end.

Definition AppendLe32 (destination : bytes) (value : Z) : bytes :=
  append_le_loop destination value 0 4.

Definition AppendLe64 (destination : bytes) (value : Z) : bytes :=
  append_le_loop destination value 0 8.

Definition ReadLe16 (data : bytes) (offset : Z) : option Z :=
  if (zlen data <? offset) || (zlen data - offset <? 2) then None
  else Some (Z.lor (byte_at data offset)
                   (Z.shiftl (byte_at data (offset + 1)) 8)).

(** The loop [decoded |= bytes[offset + index] << (index * 8)]. *)
Fixpoint read_le_loop (data : bytes) (offset decoded index : Z) (n : nat) : Z :=
  match n with
  | O => decoded
  | S n =>
      read_le_loop data offset
        (Z.lor decoded (Z.shiftl (byte_at data (offset + index)) (index * 8)))
        (index + 1) n
  end.

Definition ReadLe32 (data : bytes) (offset : Z) : option Z :=
  if (zlen data <? offset) || (zlen data - offset <? 4) then None
  else Some (read_le_loop data offset 0 0 4).

Definition ReadLe64 (data : bytes) (offset : Z) : option Z :=
  if (zlen data <? offset) || (zlen data - offset <? 8) then None
  else Some (read_le_loop data offset 0 0 8).

(** ** Reference functions *)

Fixpoint le_split (n : nat) (v : Z) : bytes :=
  match n with
  | O => []
  | S n => v mod 256 :: le_split n (v / 256)
  end.

Fixpoint le_join (l : bytes) : Z :=
  match l with
  | [] => 0
  | b :: l => b + 256 * le_join l
  end.

(** ** Inverse lemmas *)

Lemma length_le_split n v : length (le_split n v) = n.
Proof. revert v; induction n as [|n IH]; intros v; cbn; [done|by rewrite IH]. Qed.

Lemma zlen_le_split n v : zlen (le_split n v) = Z.of_nat n.
Proof. unfold zlen. by rewrite length_le_split. Qed.

Lemma zlen_le_split_2 v : zlen (le_split 2 v) = 2.
Proof. apply zlen_le_split. Qed.
Lemma zlen_le_split_4 v : zlen (le_split 4 v) = 4.
Proof. apply zlen_le_split. Qed.
Lemma zlen_le_split_8 v : zlen (le_split 8 v) = 8.
Proof. apply zlen_le_split. Qed.

#[export] Hint Rewrite zlen_le_split_2 zlen_le_split_4 zlen_le_split_8 : zlen.

Lemma bytes_ok_le_split n v : bytes_ok (le_split n v).
Proof.
  revert v; induction n as [|n IH]; intros v; cbn; [constructor|].
  constructor; [unfold in_u8; pose proof (Z.mod_pos_bound v 256); lia|apply IH].
Qed.

Lemma le_split_join l : bytes_ok l -> le_split (length l) (le_join l) = l.
Proof.
  induction 1 as [|b l Hb _ IH]; cbn [le_split le_join length]; [done|].
  unfold in_u8 in Hb. rewrite (Z.mul_comm 256), Z.mod_add, Z.div_add by lia.
  rewrite Z.mod_small, Z.div_small, Z.add_0_l by lia. by rewrite IH.
Qed.

Lemma le_join_split n v : 0 <= v < 2 ^ (8 * Z.of_nat n) -> le_join (le_split n v) = v.
Proof.
  revert v; induction n as [|n IH]; intros v Hv; cbn [le_split le_join].
  - change (2 ^ (8 * Z.of_nat 0)) with 1 in Hv; lia.
  - rewrite IH; [pose proof (Z.div_mod v 256); lia|].
    rewrite Nat2Z.inj_succ, Z.mul_succ_r, Z.pow_add_r in Hv by lia.
    change (2 ^ 8) with 256 in Hv.
    split; [apply Z.div_pos; lia|apply Z.div_lt_upper_bound; lia].
Qed.

Lemma le_join_bound l : bytes_ok l -> 0 <= le_join l < 2 ^ (8 * zlen l).
Proof.
  induction 1 as [|b l Hb _ IH]; cbn [le_join]; [done|].
  rewrite zlen_cons, Z.mul_add_distr_l, Z.pow_add_r by (pose proof (zlen_nonneg l); lia).
  unfold in_u8 in Hb. change (2 ^ (8 * 1)) with 256. lia.
Qed.

(** ** The source's loops compute the reference functions *)

Lemma AppendLe16_split d v : AppendLe16 d v = d ++ le_split 2 v.
Proof.
  unfold AppendLe16. rewrite !land_255, Z.shiftr_div_pow2 by lia. done.
Qed.

Lemma append_le_loop_split n d v shift :
  0 <= shift ->
  append_le_loop d v shift n = d ++ le_split n (v / 2 ^ shift).
Proof.
  revert d shift; induction n as [|n IH]; intros d shift Hs; cbn [append_le_loop le_split].
  - by rewrite app_nil_r.
  - rewrite IH, land_255, Z.shiftr_div_pow2 by lia.
    rewrite Z.pow_add_r, <- Z.div_div by lia.
    by rewrite <- app_assoc.
Qed.

Lemma AppendLe32_split d v : AppendLe32 d v = d ++ le_split 4 v.
Proof. unfold AppendLe32. rewrite append_le_loop_split by lia. by rewrite Z.div_1_r. Qed.

Lemma AppendLe64_split d v : AppendLe64 d v = d ++ le_split 8 v.
Proof. unfold AppendLe64. rewrite append_le_loop_split by lia. by rewrite Z.div_1_r. Qed.

Lemma take_S_byte_at (data : bytes) i n :
  0 <= i < zlen data ->
  take (S n) (drop (Z.to_nat i) data)
  = byte_at data i :: take n (drop (Z.to_nat (i + 1)) data).
Proof.
  intros Hi. unfold byte_at.
  destruct (lookup_lt_is_Some_2 data (Z.to_nat i)) as [b Hb]; [unfold zlen in Hi; lia|].
  rewrite Hb, (drop_S _ _ _ Hb). cbn. do 2 f_equal.
  f_equal. lia.
Qed.

Lemma read_le_loop_join n data offset decoded index :
  bytes_ok data -> 0 <= offset -> 0 <= index ->
  offset + index + Z.of_nat n <= zlen data ->
  0 <= decoded < 2 ^ (index * 8) ->
  read_le_loop data offset decoded index n
  = decoded
    + 2 ^ (index * 8) * le_join (take n (drop (Z.to_nat (offset + index)) data)).
Proof.
  intros Hd Ho. revert decoded index; induction n as [|n IH];
    intros decoded index Hi Hlen Hdec; cbn [read_le_loop].
  - rewrite take_0. cbn. lia.
  - pose proof (byte_at_ok data (offset + index) Hd) as Hb. unfold in_u8 in Hb.
    rewrite lor_shiftl_add by lia. rewrite IH; try lia.
    + rewrite take_S_byte_at by lia. cbn [le_join].
      rewrite Z.mul_add_distr_r, Z.pow_add_r by lia.
      change (2 ^ (1 * 8)) with 256.
      replace (offset + index + 1) with (offset + (index + 1)) by lia. ring.
    + rewrite Z.mul_add_distr_r, Z.pow_add_r by lia.
      change (2 ^ (1 * 8)) with 256. nia.
Qed.

(** A successful read of [n] bytes at [offset]. *)
Definition le_read (n : nat) (data : bytes) (offset : Z) : option Z :=
  if zlen data - offset <? Z.of_nat n then None
  else Some (le_join (take n (drop (Z.to_nat offset) data))).

Lemma read_guard (data : bytes) offset n :
  0 <= n ->
  (zlen data <? offset) || (zlen data - offset <? n) = (zlen data - offset <? n).
Proof. lia. Qed.

Lemma ReadLe16_read data offset :
  bytes_ok data -> 0 <= offset -> ReadLe16 data offset = le_read 2 data offset.
Proof.
  intros Hd Ho. unfold ReadLe16, le_read. rewrite read_guard by lia.
  change (Z.of_nat 2) with 2. destruct (Z.ltb_spec (zlen data - offset) 2); [done|].
  pose proof (byte_at_ok data offset Hd) as Hb0. unfold in_u8 in Hb0.
  rewrite lor_shiftl_add by lia. rewrite !take_S_byte_at, take_0 by lia.
  cbn [le_join]. f_equal. lia.
Qed.

Lemma ReadLe32_read data offset :
  bytes_ok data -> 0 <= offset -> ReadLe32 data offset = le_read 4 data offset.
Proof.
  intros Hd Ho. unfold ReadLe32, le_read. rewrite read_guard by lia.
  change (Z.of_nat 4) with 4. destruct (Z.ltb_spec (zlen data - offset) 4); [done|].
  rewrite read_le_loop_join by (done || lia). f_equal. rewrite Z.add_0_r. lia.
Qed.

Lemma ReadLe64_read data offset :
  bytes_ok data -> 0 <= offset -> ReadLe64 data offset = le_read 8 data offset.
Proof.
  intros Hd Ho. unfold ReadLe64, le_read. rewrite read_guard by lia.
  change (Z.of_nat 8) with 8. destruct (Z.ltb_spec (zlen data - offset) 8); [done|].
  rewrite read_le_loop_join by (done || lia). f_equal. rewrite Z.add_0_r. lia.
Qed.

(** ** Reading back what was appended *)

Lemma le_read_app n pre v post :
  0 <= v < 2 ^ (8 * Z.of_nat n) ->
  le_read n (pre ++ le_split n v ++ post) (zlen pre) = Some v.
Proof.
  intros Hv. unfold le_read. rewrite !zlen_app.
  assert (zlen (le_split n v) = Z.of_nat n) as Hn by (unfold zlen; by rewrite length_le_split).
  pose proof (zlen_nonneg post).
  destruct (Z.ltb_spec (zlen pre + (zlen (le_split n v) + zlen post) - zlen pre) (Z.of_nat n)); [lia|].
  rewrite zlen_to_nat, drop_app_length, take_app_le by (rewrite length_le_split; lia).
  rewrite take_ge by (rewrite length_le_split; lia). by rewrite le_join_split.
Qed.

Lemma le_read_Some n data offset v :
  bytes_ok data -> 0 <= offset -> le_read n data offset = Some v ->
  take n (drop (Z.to_nat offset) data) = le_split n v
  /\ offset + Z.of_nat n <= zlen data /\ 0 <= v < 2 ^ (8 * Z.of_nat n).
Proof.
  intros Hd Ho. unfold le_read.
  destruct (Z.ltb_spec (zlen data - offset) (Z.of_nat n)) as [|Hlen]; [done|].
  intros [= <-].
  assert (length (take n (drop (Z.to_nat offset) data)) = n) as Hn
    by (rewrite length_take, length_drop; unfold zlen in Hlen; lia).
  split; [|split; [lia|]].
  - rewrite <- Hn at 2. rewrite le_split_join; [done|by auto with ec].
  - rewrite <- Hn at 3. fold (zlen (take n (drop (Z.to_nat offset) data))).
    apply le_join_bound. by auto with ec.
Qed.
