(* ===== verification/Utf8.v ===== *)
(** * UTF-8 validation and encoding

    [protocol::IsValidUtf8] (protocol.hpp), the parser's own
    [Json::Parser::isValidUtf8] (mini_json.hpp), which also accepts U+0000,
    and the encoder at the end of [Json::Parser::appendUnicodeEscape].
    Both validators are shown to accept exactly the concatenations of
    encoded Unicode scalar values. *)

From S2P Require Import Prelude.

(** ** The operations of the source *)

(** The lead byte: the number of continuation bytes and the code point bits
    it carries. *)
Definition utf8_lead (first : Z) : option (nat * Z) :=
  if Z.land first 0xe0 =? 0xc0 then Some (1%nat, Z.land first 0x1f)
  else if Z.land first 0xf0 =? 0xe0 then Some (2%nat, Z.land first 0x0f)
  else if Z.land first 0xf8 =? 0xf0 then Some (3%nat, Z.land first 0x07)
  else None.

(** The [for] loop over the continuation bytes. *)
Fixpoint utf8_continuations (n : nat) (rest : bytes) (codePoint : Z)
    : option (Z * bytes) :=
  match n with
  | O => Some (codePoint, rest)
  | S n =>
      match rest with
      | [] => None
      | byte :: rest =>
          if negb (Z.land byte 0xc0 =? 0x80) then None
          else utf8_continuations n rest
                 (Z.lor (Z.shiftl codePoint 6) (Z.land byte 0x3f))
      end
  end.

(** Overlong forms, values above U+10FFFF and surrogates. *)
Definition utf8_rejected (continuations : nat) (codePoint : Z) : bool :=
  ((Nat.eqb continuations 1) && (codePoint <? 0x80)) ||
  ((Nat.eqb continuations 2) && (codePoint <? 0x800)) ||
  ((Nat.eqb continuations 3) && (codePoint <? 0x10000)) ||
  (0x10ffff <? codePoint) ||
  ((0xd800 <=? codePoint) && (codePoint <=? 0xdfff)).

(** The [while] loop, on the unread suffix of the text; every turn reads at
    least one byte, so the length of the text is enough fuel. *)
Fixpoint utf8_loop (accept_nul : bool) (fuel : nat) (text : bytes) : bool :=
  match text with
  | [] => true
  | first :: rest =>
      match fuel with
      | O => false
      | S fuel =>
          if negb accept_nul && (first =? 0) then false
          else if first <=? 0x7f then utf8_loop accept_nul fuel rest
          else
            match utf8_lead first with
            | None => false
            | Some (count, bits) =>
                if zlen text <=? Z.of_nat count then false
                else
                  match utf8_continuations count rest bits with
                  | None => false
                  | Some (codePoint, rest) =>
                      if utf8_rejected count codePoint then false
                      else utf8_loop accept_nul fuel rest
                  end
            end
      end
  end.

Definition IsValidUtf8 (text : bytes) : bool :=
  utf8_loop false (length text) text.

Definition isValidUtf8 (value : bytes) : bool :=
  utf8_loop true (length value) value.

(** The [encoded] array of [appendUnicodeEscape]. *)
Definition utf8_encode (codePoint : Z) : bytes :=
  if codePoint <=? 0x7f then [codePoint]
  else if codePoint <=? 0x7ff then
    [Z.lor 0xc0 (Z.shiftr codePoint 6); Z.lor 0x80 (Z.land codePoint 0x3f)]
  else if codePoint <=? 0xffff then
    [Z.lor 0xe0 (Z.shiftr codePoint 12);
     Z.lor 0x80 (Z.land (Z.shiftr codePoint 6) 0x3f);
     Z.lor 0x80 (Z.land codePoint 0x3f)]
  else
    [Z.lor 0xf0 (Z.shiftr codePoint 18);
     Z.lor 0x80 (Z.land (Z.shiftr codePoint 12) 0x3f);
     Z.lor 0x80 (Z.land (Z.shiftr codePoint 6) 0x3f);
     Z.lor 0x80 (Z.land codePoint 0x3f)].

(** ** Specification: Unicode scalar values *)

Definition scalar (cp : Z) : Prop :=
  0 <= cp <= 0x10ffff /\ ~ (0xd800 <= cp <= 0xdfff).

Definition accepted (accept_nul : bool) (cp : Z) : Prop :=
  scalar cp /\ (accept_nul = false -> cp <> 0).

Definition utf8_text (cps : list Z) : bytes := concat (map utf8_encode cps).

(** ** Arithmetic views of the bit operations *)

Lemma byte_decide (P : Z -> Prop) `{forall b, Decision (P b)} :
  forallb (fun b => bool_decide (P b)) (map Z.of_nat (seq 0 256)) = true ->
  forall b, in_u8 b -> P b.
Proof.
  rewrite forallb_forall. intros Hall b Hb. apply (bool_decide_eq_true_1 (P b)), Hall, in_map_iff.
  exists (Z.to_nat b). unfold in_u8 in Hb. rewrite in_seq. lia.
Qed.

Lemma utf8_lead_arith b : in_u8 b ->
  utf8_lead b =
    if (192 <=? b) && (b <? 224) then Some (1%nat, b - 192)
    else if (224 <=? b) && (b <? 240) then Some (2%nat, b - 224)
    else if (240 <=? b) && (b <? 248) then Some (3%nat, b - 240)
    else None.
Proof. revert b. apply (byte_decide _). vm_compute. reflexivity. Qed.

Lemma continuation_arith b : in_u8 b ->
  (Z.land b 0xc0 =? 0x80) = (128 <=? b) && (b <? 192)
  /\ (128 <= b < 192 -> Z.land b 0x3f = b - 128).
Proof. revert b. apply (byte_decide _). vm_compute. reflexivity. Qed.

Lemma lor_shiftl_6 cp x : 0 <= x < 64 -> Z.lor (Z.shiftl cp 6) x = cp * 64 + x.
Proof. intros. rewrite Z.lor_comm, lor_shiftl_add by lia. lia. Qed.

Lemma lor_high a x n : 0 <= n -> 0 <= x < 2 ^ n -> Z.lor (a * 2 ^ n) x = a * 2 ^ n + x.
Proof.
  intros Hn Hx. rewrite <- Z.shiftl_mul_pow2, Z.lor_comm by done.
  rewrite lor_shiftl_add, Z.shiftl_mul_pow2 by done. lia.
Qed.

Lemma land_63 v : Z.land v 0x3f = v mod 64.
Proof. exact (Z.land_ones v 6 ltac:(lia)). Qed.

Lemma lor_80 v : Z.lor 0x80 (Z.land v 0x3f) = 128 + v mod 64.
Proof.
  rewrite land_63. apply (lor_high 2 (v mod 64) 6); [lia|].
  apply (Z.mod_pos_bound v 64); lia.
Qed.

Lemma utf8_encode_arith cp : 0 <= cp <= 0x10ffff ->
  utf8_encode cp =
    if cp <? 128 then [cp]
    else if cp <? 2048 then [192 + cp / 64; 128 + cp mod 64]
    else if cp <? 65536 then
      [224 + cp / 4096; 128 + (cp / 64) mod 64; 128 + cp mod 64]
    else
      [240 + cp / 262144; 128 + (cp / 4096) mod 64;
       128 + (cp / 64) mod 64; 128 + cp mod 64].
Proof.
  intros Hcp. unfold utf8_encode. rewrite !lor_80, !Z.shiftr_div_pow2 by lia.
  change (2 ^ 6) with 64. change (2 ^ 12) with 4096. change (2 ^ 18) with 262144.
  destruct (Z.leb_spec cp 0x7f), (Z.ltb_spec cp 128); try lia; [done|].
  destruct (Z.leb_spec cp 0x7ff), (Z.ltb_spec cp 2048); try lia.
  { f_equal. apply (lor_high 6 _ 5); [lia|]. change (2 ^ 5) with 32. dlia. }
  destruct (Z.leb_spec cp 0xffff), (Z.ltb_spec cp 65536); try lia.
  { f_equal. apply (lor_high 14 _ 4); [lia|]. change (2 ^ 4) with 16. dlia. }
  f_equal. apply (lor_high 30 _ 3); [lia|]. change (2 ^ 3) with 8. dlia.
Qed.

(** ** One multi-byte sequence *)

Lemma utf8_continuations_spec n rest bits cp rest' :
  bytes_ok rest -> utf8_continuations n rest bits = Some (cp, rest') ->
  exists conts, rest = conts ++ rest' /\ length conts = n /\
    Forall (fun b => 128 <= b < 192) conts /\
    cp = fold_left (fun acc b => acc * 64 + (b - 128)) conts bits.
Proof.
  revert rest bits. induction n as [|n IH]; intros rest bits Hok; cbn.
  - intros [= -> ->]. by exists [].
  - destruct rest as [|b rest]; [done|]. apply bytes_ok_cons in Hok as [Hb Hok].
    destruct (continuation_arith b Hb) as [-> Hlow].
    destruct ((128 <=? b) && (b <? 192)) eqn:Eb; cbn; [|done]. intros Hrec.
    rewrite Hlow, lor_shiftl_6 in Hrec by lia.
    destruct (IH _ _ Hok Hrec) as (conts & -> & Hlen & Hall & ->).
    exists (b :: conts). cbn. split_and!; [done|lia|constructor; [lia|done]|done].
Qed.

Lemma utf8_continuations_complete conts rest bits :
  Forall (fun b => 128 <= b < 192) conts ->
  utf8_continuations (length conts) (conts ++ rest) bits
  = Some (fold_left (fun acc b => acc * 64 + (b - 128)) conts bits, rest).
Proof.
  intros Hall. revert bits. induction Hall as [|b conts Hb _ IH]; intros bits; cbn; [done|].
  destruct (continuation_arith b ltac:(unfold in_u8; lia)) as [-> Hlow].
  destruct ((128 <=? b) && (b <? 192)) eqn:Eb; cbn; [|lia].
  by rewrite Hlow, lor_shiftl_6, IH by lia.
Qed.

(** A lead byte and its continuation bytes that pass the checks are the
    encoding of the scalar value they denote. *)
Lemma utf8_sequence_encode first count bits conts cp :
  in_u8 first -> utf8_lead first = Some (count, bits) ->
  length conts = count -> Forall (fun b => 128 <= b < 192) conts ->
  cp = fold_left (fun acc b => acc * 64 + (b - 128)) conts bits ->
  utf8_rejected count cp = false ->
  128 <= cp /\ scalar cp /\ first :: conts = utf8_encode cp.
Proof.
  intros Hf Hlead Hlen Hall Hcp Hrej. rewrite utf8_lead_arith in Hlead by done.
  unfold utf8_rejected in Hrej. unfold in_u8 in Hf.
  split_ifs; try discriminate; injection Hlead as <- <-; explode conts; cbn in Hcp, Hrej;
    rewrite ?Forall_cons in Hall; destruct_and?;
    (split; [lia|split; [unfold scalar; lia|]]);
    rewrite utf8_encode_arith by lia;
    split_ifs; try lia; repeat (f_equal; try dlia).
Qed.

Lemma utf8_encode_sequence cp :
  128 <= cp -> scalar cp ->
  exists first count bits conts,
    utf8_encode cp = first :: conts /\ in_u8 first /\ 0x7f < first /\
    utf8_lead first = Some (count, bits) /\ length conts = count /\
    Forall (fun b => 128 <= b < 192) conts /\
    cp = fold_left (fun acc b => acc * 64 + (b - 128)) conts bits /\
    utf8_rejected count cp = false.
Proof.
  intros Hlo [Hhi Hsur]. rewrite utf8_encode_arith by done.
  split_ifs; try dlia.
  - exists (192 + cp / 64), 1%nat, (cp / 64), [128 + cp mod 64].
    rewrite utf8_lead_arith by (unfold in_u8; dlia). unfold in_u8, utf8_rejected; cbn.
    rewrite Forall_singleton. split_and!; try done; try dlia.
    split_ifs; try dlia. repeat f_equal; dlia.
  - exists (224 + cp / 4096), 2%nat, (cp / 4096), [128 + (cp / 64) mod 64; 128 + cp mod 64].
    rewrite utf8_lead_arith by (unfold in_u8; dlia). unfold in_u8, utf8_rejected; cbn.
    rewrite Forall_cons, Forall_singleton. split_and!; try done; try dlia.
    split_ifs; try dlia. repeat f_equal; dlia.
  - exists (240 + cp / 262144), 3%nat, (cp / 262144),
      [128 + (cp / 4096) mod 64; 128 + (cp / 64) mod 64; 128 + cp mod 64].
    rewrite utf8_lead_arith by (unfold in_u8; dlia). unfold in_u8, utf8_rejected; cbn.
    rewrite !Forall_cons, Forall_nil. split_and!; try done; try dlia.
    split_ifs; try dlia. repeat f_equal; dlia.
Qed.

(** ** The validators *)

Lemma utf8_loop_sound nul fuel text :
  bytes_ok text -> utf8_loop nul fuel text = true ->
  exists cps, Forall (accepted nul) cps /\ text = utf8_text cps.
Proof.
  revert text. induction fuel as [|fuel IH]; intros [|first rest] Hok; cbn [utf8_loop];
    try (intros _; by exists []); [done|].
  apply bytes_ok_cons in Hok as [Hf Hok]. unfold in_u8 in Hf.
  destruct (negb nul && (first =? 0)) eqn:En; [done|].
  destruct (Z.leb_spec first 0x7f) as [Hle|Hgt].
  - intros Hrec. destruct (IH _ Hok Hrec) as (cps & Hcps & ->).
    exists (first :: cps). split.
    + constructor; [|done]. unfold accepted, scalar. destruct nul; cbn in En; lia.
    + cbn. rewrite utf8_encode_arith by lia.
      by rewrite (proj2 (Z.ltb_lt first 128)) by lia.
  - destruct (utf8_lead first) as [[count bits]|] eqn:El; [|done].
    destruct (zlen (first :: rest) <=? Z.of_nat count); [done|].
    destruct (utf8_continuations count rest bits) as [[cp rest']|] eqn:Ec; [|done].
    destruct (utf8_rejected count cp) eqn:Er; [done|]. intros Hrec.
    destruct (utf8_continuations_spec _ _ _ _ _ Hok Ec) as (conts & -> & Hlen & Hall & Hcp).
    apply bytes_ok_app in Hok as [_ Hok].
    destruct (utf8_sequence_encode first count bits conts cp) as (Hlo & Hsc & Henc);
      [done..|].
    destruct (IH _ Hok Hrec) as (cps & Hcps & ->).
    exists (cp :: cps). split; [constructor; [split; [done|lia]|done]|].
    cbn. by rewrite <- Henc.
Qed.

Lemma utf8_encode_length cp : (1 <= length (utf8_encode cp))%nat.
Proof. unfold utf8_encode. split_ifs; cbn; lia. Qed.

Lemma utf8_loop_complete nul cps fuel :
  Forall (accepted nul) cps -> (length (utf8_text cps) <= fuel)%nat ->
  utf8_loop nul fuel (utf8_text cps) = true.
Proof.
  intros Hall. revert fuel. induction Hall as [|cp cps [Hsc Hnul] _ IH]; intros fuel;
    [by destruct fuel|].
  change (utf8_text (cp :: cps)) with (utf8_encode cp ++ utf8_text cps).
  rewrite length_app. pose proof (utf8_encode_length cp). intros Hfuel.
  destruct fuel as [|fuel]; [lia|].
  destruct (Z.ltb_spec cp 128) as [Hlo|Hhi].
  - destruct Hsc as [Hr _]. revert Hfuel. rewrite utf8_encode_arith by lia.
    rewrite (proj2 (Z.ltb_lt cp 128)) by lia. cbn. intros Hfuel.
    destruct (negb nul && (cp =? 0)) eqn:En; [destruct nul; cbn in En; [done|lia]|].
    rewrite (proj2 (Z.leb_le cp 127)) by lia. apply IH. lia.
  - destruct (utf8_encode_sequence cp Hhi Hsc)
      as (first & count & bits & conts & Henc & Hf & Hgt & Hlead & Hlen & Hc & Hcp & Hrej).
    rewrite Henc in *. cbn [app utf8_loop length] in *.
    destruct (negb nul && (first =? 0)) eqn:En; [destruct nul; cbn in En; lia|].
    destruct (Z.leb_spec first 0x7f); [lia|]. rewrite Hlead.
    rewrite zlen_cons, zlen_app. subst count.
    destruct (Z.leb_spec (1 + (zlen conts + zlen (utf8_text cps))) (Z.of_nat (length conts)));
      [pose proof (zlen_nonneg (utf8_text cps)); unfold zlen in *; lia|].
    rewrite utf8_continuations_complete by done.
    rewrite <- Hcp, Hrej. apply IH. lia.
Qed.

Lemma utf8_loop_iff nul text :
  bytes_ok text ->
  utf8_loop nul (length text) text = true <->
  exists cps, Forall (accepted nul) cps /\ text = utf8_text cps.
Proof.
  intros Hok. split; [by apply utf8_loop_sound|].
  intros (cps & Hall & ->). by apply utf8_loop_complete.
Qed.

Lemma utf8_loop_app nul a b :
  bytes_ok a -> bytes_ok b ->
  utf8_loop nul (length a) a = true -> utf8_loop nul (length b) b = true ->
  utf8_loop nul (length (a ++ b)) (a ++ b) = true.
Proof.
  intros Ha Hb. rewrite !utf8_loop_iff by (try apply bytes_ok_app; done).
  intros (ca & Hca & ->) (cb & Hcb & ->). exists (ca ++ cb).
  split; [by apply Forall_app|]. unfold utf8_text. by rewrite map_app, concat_app.
Qed.

Lemma utf8_encode_bytes_ok cp : 0 <= cp <= 0x10ffff -> bytes_ok (utf8_encode cp).
Proof.
  intros H. rewrite utf8_encode_arith by done. unfold bytes_ok, in_u8.
  split_ifs; repeat constructor; dlia.
Qed.

(** [protocol::IsValidUtf8] accepts a byte string exactly when it is the
    concatenation of the UTF-8 encodings of Unicode scalar values other than
    U+0000: no overlong form, no surrogate, nothing above U+10FFFF, no
    truncated sequence. *)
Theorem IsValidUtf8_spec (text : bytes) :
  bytes_ok text ->
  IsValidUtf8 text = true <->
  exists cps, Forall (fun cp => scalar cp /\ cp <> 0) cps /\ text = utf8_text cps.
Proof.
  intros Hok. unfold IsValidUtf8. rewrite utf8_loop_iff by done.
  split; intros (cps & Hall & ->); exists cps; (split; [|done]).
  - apply (Forall_impl _ _ _ Hall). intros cp [Hsc Hnul]. by split; [|apply Hnul].
  - apply (Forall_impl _ _ _ Hall). by intros cp [Hsc Hnul].
Qed.

Lemma IsValidUtf8_spec_witness :
  bytes_ok [0xe2; 0x82; 0xac; 0x41] /\
  (IsValidUtf8 [0xe2; 0x82; 0xac; 0x41] = true <->
   exists cps, Forall (fun cp => scalar cp /\ cp <> 0) cps
               /\ [0xe2; 0x82; 0xac; 0x41] = utf8_text cps).
Proof.
  assert (bytes_ok [0xe2; 0x82; 0xac; 0x41]) as Hok
    by (repeat constructor; unfold in_u8; lia).
  split; [exact Hok|exact (IsValidUtf8_spec _ Hok)].
Defined.
