(* ===== verification/Protocol.v ===== *)
(** * The ECSC protocol, version 1: enumerations and payload codecs

    src/daemon/include/ec_systemcore/protocol.hpp without the frame layer
    (which is Frame.v). Each [struct ...Payload] is a [Record]; each
    [Encode...Payload] returns the payload bytes, the empty list standing for
    the [return {}] of a rejected argument; each [Decode...Payload] returns
    the structure it fills in, [None] standing for [return false] (an object
    that was partly filled in before a [false] is discarded by every caller,
    and no caller passes a null pointer).

    An enumeration whose values are checked before use is an [Inductive] with
    its numeric [..._code]; a raw code that has not been checked is a [Z]. *)

From S2P Require Import Prelude LittleEndian Utf8.

(** ** Constants *)

Definition kMagic : bytes := [0x45; 0x43; 0x53; 0x43].
Definition kVersion : Z := 1.
Definition kEnvelopeSize : Z := 12.
Definition kLengthPrefixSize : Z := 4.
Definition kMinimumFrameLength : Z := kEnvelopeSize.
Definition kMaximumFrameLength : Z := 8192.
Definition kMaximumBufferedInput : Z := 2 * (kLengthPrefixSize + kMaximumFrameLength).
Definition kMaximumOutputWrite : Z := 1024.
Definition kMaximumPdoChunk : Z := 1024.
Definition kMaximumPdoImage : Z := 1024 * 1024.
Definition kMaximumBusInfo : Z := 2048.

(** ** Enumerations *)

Inductive MessageType :=
| Hello | Heartbeat | OutputEnable | OutputWrite | ClearCounters
| ReleaseControl | SubscribeInputs | AdapterUnlock | AdapterRescan
| HelloAck | Status | Ack | PdoInput | BusInfo | Error | OutputsDisabled.

Definition MessageType_code (t : MessageType) : Z :=
  match t with
  | Hello => 0x01 | Heartbeat => 0x02 | OutputEnable => 0x03 | OutputWrite => 0x04
  | ClearCounters => 0x05 | ReleaseControl => 0x06 | SubscribeInputs => 0x07
  | AdapterUnlock => 0x08 | AdapterRescan => 0x09
  | HelloAck => 0x80 | Status => 0x81 | Ack => 0x82 | PdoInput => 0x83
  | BusInfo => 0x84 | Error => 0x85 | OutputsDisabled => 0x86
  end.

Inductive ClientRole := Observer | Controller.

Definition ClientRole_code (r : ClientRole) : Z :=
  match r with Observer => 0 | Controller => 1 end.

Inductive AckStatus :=
| Ok | Malformed | Unauthorized | Busy | Disabled | BadTarget | Bounds
| StaleEpoch | Unsupported | AdapterLocked | TopologyMismatch | QueueFull
| InternalError.

Definition AckStatus_code (s : AckStatus) : Z :=
  match s with
  | Ok => 0 | Malformed => 1 | Unauthorized => 2 | Busy => 3 | Disabled => 4
  | BadTarget => 5 | Bounds => 6 | StaleEpoch => 7 | Unsupported => 8
  | AdapterLocked => 9 | TopologyMismatch => 10 | QueueFull => 11
  | InternalError => 12
  end.

Inductive DisableReason :=
| Requested | HeartbeatTimeout | Disconnect | LinkLoss | Reinitialize
| Shutdown | EpochChange | AdapterMismatch | ProcessDataFault
| OutputCommandTimeout.

Definition DisableReason_code (r : DisableReason) : Z :=
  match r with
  | Requested => 1 | HeartbeatTimeout => 2 | Disconnect => 3 | LinkLoss => 4
  | Reinitialize => 5 | Shutdown => 6 | EpochChange => 7 | AdapterMismatch => 8
  | ProcessDataFault => 9 | OutputCommandTimeout => 10
  end.

Inductive AdapterLockState := Unlocked | Matched | Missing | Mismatch | RuntimeUnlocked.

Definition AdapterLockState_code (s : AdapterLockState) : Z :=
  match s with
  | Unlocked => 0 | Matched => 1 | Missing => 2 | Mismatch => 3 | RuntimeUnlocked => 4
  end.

Inductive AdapterLockReason :=
| NoReason | InterfaceMissing | IdentityUnavailable | IdPathMismatch
| PermanentMacMismatch | UsbSerialMismatch | UsbVendorMismatch
| UsbProductMismatch | NonEthernetInterface | PathOnlyIdentity.

Definition AdapterLockReason_code (r : AdapterLockReason) : Z :=
  match r with
  | NoReason => 0 | InterfaceMissing => 1 | IdentityUnavailable => 2
  | IdPathMismatch => 3 | PermanentMacMismatch => 4 | UsbSerialMismatch => 5
  | UsbVendorMismatch => 6 | UsbProductMismatch => 7 | NonEthernetInterface => 8
  | PathOnlyIdentity => 9
  end.

Inductive SchedulingMode := Other | Fifo.

Definition SchedulingMode_code (m : SchedulingMode) : Z :=
  match m with Other => 0 | Fifo => 1 end.

Inductive BusState :=
| Starting | WaitingForLink | Initializing | SafeOperational | Operational
| Fault | Stopping.

Definition BusState_code (s : BusState) : Z :=
  match s with
  | Starting => 0 | WaitingForLink => 1 | Initializing => 2 | SafeOperational => 3
  | Operational => 4 | Fault => 5 | Stopping => 6
  end.

#[export] Instance MessageType_eq_dec : EqDecision MessageType.
Proof. solve_decision. Defined.
#[export] Instance ClientRole_eq_dec : EqDecision ClientRole.
Proof. solve_decision. Defined.
#[export] Instance AckStatus_eq_dec : EqDecision AckStatus.
Proof. solve_decision. Defined.
#[export] Instance DisableReason_eq_dec : EqDecision DisableReason.
Proof. solve_decision. Defined.
#[export] Instance AdapterLockState_eq_dec : EqDecision AdapterLockState.
Proof. solve_decision. Defined.
#[export] Instance AdapterLockReason_eq_dec : EqDecision AdapterLockReason.
Proof. solve_decision. Defined.
#[export] Instance SchedulingMode_eq_dec : EqDecision SchedulingMode.
Proof. solve_decision. Defined.
#[export] Instance BusState_eq_dec : EqDecision BusState.
Proof. solve_decision. Defined.

(** [static_cast<E>(raw)] followed by the check that the value is one of the
    enumerators: the enumerator with that code, if there is one. *)
Definition of_code {E} (code : E -> Z) (all : list E) (raw : Z) : option E :=
  List.find (fun e => code e =? raw) all.

Definition all_MessageType : list MessageType :=
  [Hello; Heartbeat; OutputEnable; OutputWrite; ClearCounters; ReleaseControl;
   SubscribeInputs; AdapterUnlock; AdapterRescan; HelloAck; Status; Ack;
   PdoInput; BusInfo; Error; OutputsDisabled].

Definition all_AckStatus : list AckStatus :=
  [Ok; Malformed; Unauthorized; Busy; Disabled; BadTarget; Bounds; StaleEpoch;
   Unsupported; AdapterLocked; TopologyMismatch; QueueFull; InternalError].

Definition all_DisableReason : list DisableReason :=
  [Requested; HeartbeatTimeout; Disconnect; LinkLoss; Reinitialize; Shutdown;
   EpochChange; AdapterMismatch; ProcessDataFault; OutputCommandTimeout].

Definition all_AdapterLockState : list AdapterLockState :=
  [Unlocked; Matched; Missing; Mismatch; RuntimeUnlocked].

Definition all_AdapterLockReason : list AdapterLockReason :=
  [NoReason; InterfaceMissing; IdentityUnavailable; IdPathMismatch;
   PermanentMacMismatch; UsbSerialMismatch; UsbVendorMismatch;
   UsbProductMismatch; NonEthernetInterface; PathOnlyIdentity].

Definition all_BusState : list BusState :=
  [Starting; WaitingForLink; Initializing; SafeOperational; Operational; Fault; Stopping].

Definition IsKnownMessageType (raw : Z) : bool :=
  existsb (fun t => MessageType_code t =? raw) all_MessageType.

Definition IsKnownAckStatus (raw : Z) : bool :=
  existsb (fun s => AckStatus_code s =? raw) all_AckStatus.

Definition IsKnownBusState (raw : Z) : bool :=
  existsb (fun s => BusState_code s =? raw) all_BusState.

Definition IsKnownSchedulingMode (raw : Z) : bool :=
  (raw =? SchedulingMode_code Other) || (raw =? SchedulingMode_code Fifo).

Definition MessageType_of_code := of_code MessageType_code all_MessageType.
Definition ClientRole_of_code := of_code ClientRole_code [Observer; Controller].
Definition AckStatus_of_code := of_code AckStatus_code all_AckStatus.
Definition DisableReason_of_code := of_code DisableReason_code all_DisableReason.
Definition AdapterLockState_of_code := of_code AdapterLockState_code all_AdapterLockState.
Definition AdapterLockReason_of_code := of_code AdapterLockReason_code all_AdapterLockReason.
Definition SchedulingMode_of_code := of_code SchedulingMode_code [Other; Fifo].
Definition BusState_of_code := of_code BusState_code all_BusState.

(** [enum StatusFlag] and [enum Capability]: bit masks. *)
Definition StatusOperational : Z := Z.shiftl 1 0.
Definition StatusOutputsEnabled : Z := Z.shiftl 1 1.
Definition StatusControllerConnected : Z := Z.shiftl 1 2.
Definition StatusPreemptRtAvailable : Z := Z.shiftl 1 3.
Definition StatusRealtimeApplied : Z := Z.shiftl 1 4.
Definition StatusRealtimeRequested : Z := Z.shiftl 1 5.
Definition StatusTimingDegraded : Z := Z.shiftl 1 6.
Definition StatusReinitializing : Z := Z.shiftl 1 7.

Definition CapabilityOutputs : Z := Z.shiftl 1 0.
Definition CapabilityInputs : Z := Z.shiftl 1 1.
Definition CapabilityAdapterIdentity : Z := Z.shiftl 1 2.
Definition CapabilityDistributedClock : Z := Z.shiftl 1 3.

(** ** Payloads *)

Record HelloPayload := mkHello {
  hello_role : ClientRole;
  hello_subscribeInputs : bool;
  hello_inputPeriodMs : Z;
  hello_lastSeenEpoch : Z
}.

Definition kHelloPayloadSize : Z := 12.

Definition EncodeHelloPayload (hello : HelloPayload) : bytes :=
  if (hello_inputPeriodMs hello <? 10) || (1000 <? hello_inputPeriodMs hello) then []
  else
    let payload := [ClientRole_code (hello_role hello)] in
    let payload := payload ++ [bit (hello_subscribeInputs hello)] in
    let payload := AppendLe16 payload (hello_inputPeriodMs hello) in
    AppendLe64 payload (hello_lastSeenEpoch hello).

Definition DecodeHelloPayload (payload : bytes) : option HelloPayload :=
  require zlen payload =? kHelloPayloadSize ;;
  require byte_at payload 0 <=? ClientRole_code Controller ;;
  require byte_at payload 1 <=? 1 ;;
  period ← ReadLe16 payload 2;
  require (10 <=? period) && (period <=? 1000) ;;
  epoch ← ReadLe64 payload 4;
  role ← ClientRole_of_code (byte_at payload 0);
  Some (mkHello role (negb (byte_at payload 1 =? 0)) period epoch).

Record HelloAckPayload := mkHelloAck {
  helloack_grantedRole : ClientRole;
  helloack_outputsEnabled : bool;
  helloack_heartbeatTimeoutMs : Z;
  helloack_epoch : Z;
  helloack_peerPid : Z;
  helloack_capabilities : Z
}.

Definition kHelloAckPayloadSize : Z := 20.

Definition EncodeHelloAckPayload (hello : HelloAckPayload) : bytes :=
  if (helloack_heartbeatTimeoutMs hello =? 0) || (helloack_epoch hello =? 0) then []
  else
    let payload := [ClientRole_code (helloack_grantedRole hello)] in
    let payload := payload ++ [bit (helloack_outputsEnabled hello)] in
    let payload := AppendLe16 payload (helloack_heartbeatTimeoutMs hello) in
    let payload := AppendLe64 payload (helloack_epoch hello) in
    let payload := AppendLe32 payload (helloack_peerPid hello) in
    AppendLe32 payload (helloack_capabilities hello).

Definition DecodeHelloAckPayload (payload : bytes) : option HelloAckPayload :=
  require zlen payload =? kHelloAckPayloadSize ;;
  require byte_at payload 0 <=? ClientRole_code Controller ;;
  require byte_at payload 1 <=? 1 ;;
  heartbeatTimeoutMs ← ReadLe16 payload 2;
  require negb (heartbeatTimeoutMs =? 0) ;;
  epoch ← ReadLe64 payload 4;
  require negb (epoch =? 0) ;;
  peerPid ← ReadLe32 payload 12;
  capabilities ← ReadLe32 payload 16;
  grantedRole ← ClientRole_of_code (byte_at payload 0);
  Some (mkHelloAck grantedRole (negb (byte_at payload 1 =? 0))
          heartbeatTimeoutMs epoch peerPid capabilities).

Definition EncodeEpochPayload (epoch : Z) : bytes :=
  if epoch =? 0 then [] else AppendLe64 [] epoch.

Definition DecodeEpochPayload (payload : bytes) : option Z :=
  require zlen payload =? 8 ;;
  epoch ← ReadLe64 payload 0;
  require negb (epoch =? 0) ;;
  Some epoch.

Record OutputEnablePayload := mkOutputEnable {
  enable_epoch : Z;
  enable_enabled : bool
}.

Definition EncodeOutputEnablePayload (enable : OutputEnablePayload) : bytes :=
  match EncodeEpochPayload (enable_epoch enable) with
  | [] => []
  | payload => payload ++ [bit (enable_enabled enable)]
  end.

Definition DecodeOutputEnablePayload (payload : bytes) : option OutputEnablePayload :=
  require zlen payload =? 9 ;;
  require byte_at payload 8 <=? 1 ;;
  epoch ← ReadLe64 payload 0;
  require negb (epoch =? 0) ;;
  Some (mkOutputEnable epoch (negb (byte_at payload 8 =? 0))).

Record OutputWritePayload := mkOutputWrite {
  write_epoch : Z;
  write_busIndex : Z;
  write_subDeviceIndex : Z;
  write_offset : Z;
  write_data : bytes
}.

Definition EncodeOutputWritePayload (write : OutputWritePayload) : bytes :=
  if (write_epoch write =? 0) || (write_subDeviceIndex write =? 0) ||
     (zlen (write_data write) =? 0) || (kMaximumOutputWrite <? zlen (write_data write))
  then []
  else
    let payload := AppendLe64 [] (write_epoch write) in
    let payload := AppendLe16 payload (write_busIndex write) in
    let payload := AppendLe16 payload (write_subDeviceIndex write) in
    let payload := AppendLe32 payload (write_offset write) in
    let payload := AppendLe16 payload (to_u16 (zlen (write_data write))) in
    let payload := AppendLe16 payload 0 in
    payload ++ write_data write.

Definition DecodeOutputWritePayload (payload : bytes) : option OutputWritePayload :=
  require 20 <=? zlen payload ;;
  epoch ← ReadLe64 payload 0;
  require negb (epoch =? 0) ;;
  busIndex ← ReadLe16 payload 8;
  subDeviceIndex ← ReadLe16 payload 10;
  require negb (subDeviceIndex =? 0) ;;
  offset ← ReadLe32 payload 12;
  length ← ReadLe16 payload 16;
  require negb (length =? 0) ;;
  require length <=? kMaximumOutputWrite ;;
  reserved ← ReadLe16 payload 18;
  require reserved =? 0 ;;
  require zlen payload =? 20 + length ;;
  Some (mkOutputWrite epoch busIndex subDeviceIndex offset (drop 20 payload)).

Record SubscribeInputsPayload := mkSubscribe {
  subscribe_enabled : bool;
  subscribe_periodMs : Z
}.

Definition EncodeSubscribeInputsPayload (subscription : SubscribeInputsPayload) : bytes :=
  if (subscribe_periodMs subscription <? 10) || (1000 <? subscribe_periodMs subscription)
  then []
  else
    let payload := [bit (subscribe_enabled subscription)] in
    let payload := payload ++ [0] in
    AppendLe16 payload (subscribe_periodMs subscription).

Definition DecodeSubscribeInputsPayload (payload : bytes) : option SubscribeInputsPayload :=
  require zlen payload =? 4 ;;
  require byte_at payload 0 <=? 1 ;;
  require byte_at payload 1 =? 0 ;;
  periodMs ← ReadLe16 payload 2;
  require (10 <=? periodMs) && (periodMs <=? 1000) ;;
  Some (mkSubscribe (negb (byte_at payload 0 =? 0)) periodMs).

Record AdapterUnlockPayload := mkAdapterUnlock {
  unlock_epoch : Z;
  unlock_busIndex : Z
}.

Definition EncodeAdapterUnlockPayload (unlock : AdapterUnlockPayload) : bytes :=
  match EncodeEpochPayload (unlock_epoch unlock) with
  | [] => []
  | payload => AppendLe16 payload (unlock_busIndex unlock)
  end.

Definition DecodeAdapterUnlockPayload (payload : bytes) : option AdapterUnlockPayload :=
  require zlen payload =? 10 ;;
  epoch ← ReadLe64 payload 0;
  require negb (epoch =? 0) ;;
  busIndex ← ReadLe16 payload 8;
  Some (mkAdapterUnlock epoch busIndex).

Record OutputsDisabledPayload := mkOutputsDisabled {
  disabled_reason : DisableReason;
  disabled_busIndex : Z;
  disabled_epoch : Z
}.

Definition EncodeOutputsDisabledPayload (disabled : OutputsDisabledPayload) : bytes :=
  if disabled_epoch disabled =? 0 then []
  else
    let payload := AppendLe16 [] (DisableReason_code (disabled_reason disabled)) in
    let payload := AppendLe16 payload (disabled_busIndex disabled) in
    AppendLe64 payload (disabled_epoch disabled).

Definition DecodeOutputsDisabledPayload (payload : bytes) : option OutputsDisabledPayload :=
  require zlen payload =? 12 ;;
  raw ← ReadLe16 payload 0;
  require DisableReason_code Requested <=? raw ;;
  require raw <=? DisableReason_code OutputCommandTimeout ;;
  busIndex ← ReadLe16 payload 2;
  epoch ← ReadLe64 payload 4;
  require negb (epoch =? 0) ;;
  reason ← DisableReason_of_code raw;
  Some (mkOutputsDisabled reason busIndex epoch).

(** [aggregateState] is a raw [uint8_t] in the source too. *)
Record StatusPayload := mkStatus {
  status_aggregateState : Z;
  status_flags : Z;
  status_activeAdapters : Z;
  status_subDevices : Z;
  status_activeFaults : Z;
  status_maximumJitterUs : Z;
  status_currentJitterUs : Z;
  status_lostFrames : Z;
  status_cycleOverruns : Z;
  status_epoch : Z;
  status_controllerPid : Z;
  status_configuredBuses : Z;
  status_schedulingMode : SchedulingMode;
  status_realtimeErrorBits : Z;
  status_monotonicTimestampUs : Z
}.

Definition kStatusPayloadSize : Z := 56.

Definition EncodeStatusPayload (status : StatusPayload) : bytes :=
  if negb (IsKnownBusState (status_aggregateState status)) ||
     (status_epoch status =? 0) ||
     negb (IsKnownSchedulingMode (SchedulingMode_code (status_schedulingMode status))) ||
     negb (Z.land (status_realtimeErrorBits status) 0x80 =? 0)
  then []
  else
    let payload := [status_aggregateState status] in
    let payload := payload ++ [status_flags status] in
    let payload := AppendLe16 payload (status_activeAdapters status) in
    let payload := AppendLe16 payload (status_subDevices status) in
    let payload := AppendLe16 payload (status_activeFaults status) in
    let payload := AppendLe32 payload (status_maximumJitterUs status) in
    let payload := AppendLe32 payload (status_currentJitterUs status) in
    let payload := AppendLe64 payload (status_lostFrames status) in
    let payload := AppendLe64 payload (status_cycleOverruns status) in
    let payload := AppendLe64 payload (status_epoch status) in
    let payload := AppendLe32 payload (status_controllerPid status) in
    let payload := AppendLe16 payload (status_configuredBuses status) in
    let payload := payload ++ [SchedulingMode_code (status_schedulingMode status)] in
    let payload := payload ++ [status_realtimeErrorBits status] in
    AppendLe64 payload (status_monotonicTimestampUs status).

Definition DecodeStatusPayload (payload : bytes) : option StatusPayload :=
  require zlen payload =? kStatusPayloadSize ;;
  let aggregateState := byte_at payload 0 in
  let flags := byte_at payload 1 in
  activeAdapters ← ReadLe16 payload 2;
  subDevices ← ReadLe16 payload 4;
  activeFaults ← ReadLe16 payload 6;
  maximumJitterUs ← ReadLe32 payload 8;
  currentJitterUs ← ReadLe32 payload 12;
  lostFrames ← ReadLe64 payload 16;
  cycleOverruns ← ReadLe64 payload 24;
  epoch ← ReadLe64 payload 32;
  controllerPid ← ReadLe32 payload 40;
  configuredBuses ← ReadLe16 payload 44;
  monotonicTimestampUs ← ReadLe64 payload 48;
  let schedulingMode := byte_at payload 46 in
  let realtimeErrorBits := byte_at payload 47 in
  require IsKnownBusState aggregateState ;;
  require negb (epoch =? 0) ;;
  require IsKnownSchedulingMode schedulingMode ;;
  require Z.land realtimeErrorBits 0x80 =? 0 ;;
  mode ← SchedulingMode_of_code schedulingMode;
  Some (mkStatus aggregateState flags activeAdapters subDevices activeFaults
          maximumJitterUs currentJitterUs lostFrames cycleOverruns epoch
          controllerPid configuredBuses mode realtimeErrorBits
          monotonicTimestampUs).

Record BusInfoPayload := mkBusInfo {
  businfo_busIndex : Z;
  businfo_state : BusState;
  businfo_linkUp : bool;
  businfo_lockState : AdapterLockState;
  businfo_lockReason : AdapterLockReason;
  businfo_subDeviceCount : Z;
  businfo_logicalName : bytes;
  businfo_physicalInterface : bytes;
  businfo_idPath : bytes;
  businfo_permanentMac : bytes;
  businfo_usbSerial : bytes;
  businfo_usbVendorId : bytes;
  businfo_usbProductId : bytes;
  businfo_epoch : Z
}.

Definition kBusInfoHeaderSize : Z := 30.

(** The array [strings] / [destinations] of the source, in wire order. *)
Definition businfo_strings (information : BusInfoPayload) : list bytes :=
  [businfo_logicalName information; businfo_physicalInterface information;
   businfo_idPath information; businfo_permanentMac information;
   businfo_usbSerial information; businfo_usbVendorId information;
   businfo_usbProductId information].

(** The first loop of the encoder: the total size, or an early [return {}]. *)
Fixpoint businfo_total (totalSize : Z) (strings : list bytes) : option Z :=
  match strings with
  | [] => Some totalSize
  | value :: strings =>
      if (U16_MAX <? zlen value) || negb (IsValidUtf8 value) ||
         (kMaximumBusInfo - Z.min totalSize kMaximumBusInfo <? zlen value)
      then None
      else businfo_total (totalSize + zlen value) strings
  end.

Definition append_lengths (payload : bytes) (strings : list bytes) : bytes :=
  fold_left (fun payload value => AppendLe16 payload (to_u16 (zlen value)))
            strings payload.

Definition append_strings (payload : bytes) (strings : list bytes) : bytes :=
  fold_left (fun payload value => payload ++ value) strings payload.

Definition EncodeBusInfoPayload (information : BusInfoPayload) : bytes :=
  let strings := businfo_strings information in
  match businfo_total kBusInfoHeaderSize strings with
  | None => []
  | Some totalSize =>
      if (businfo_epoch information =? 0) || (kMaximumBusInfo <? totalSize) ||
         (BusState_code Stopping <? BusState_code (businfo_state information)) ||
         (AdapterLockState_code RuntimeUnlocked
            <? AdapterLockState_code (businfo_lockState information)) ||
         (AdapterLockReason_code PathOnlyIdentity
            <? AdapterLockReason_code (businfo_lockReason information))
      then []
      else
        let payload := AppendLe16 [] (businfo_busIndex information) in
        let payload := payload ++ [BusState_code (businfo_state information)] in
        let payload := payload ++ [bit (businfo_linkUp information)] in
        let payload := payload ++ [AdapterLockState_code (businfo_lockState information)] in
        let payload := payload ++ [AdapterLockReason_code (businfo_lockReason information)] in
        let payload := AppendLe16 payload (businfo_subDeviceCount information) in
        let payload := append_lengths payload strings in
        let payload := AppendLe64 payload (businfo_epoch information) in
        append_strings payload strings
  end.

(** The decoder's first loop: the seven lengths and the total size. *)
Fixpoint businfo_lengths (payload : bytes) (index totalSize : Z) (n : nat)
    : option (list Z * Z) :=
  match n with
  | O => Some ([], totalSize)
  | S n =>
      len ← ReadLe16 payload (8 + index * 2);
      require len <=? zlen payload - Z.min totalSize (zlen payload) ;;
      '(lengths, total) ← businfo_lengths payload (index + 1) (totalSize + len) n;
      Some (len :: lengths, total)
  end.

(** The decoder's second loop: the strings, each checked as UTF-8. *)
Fixpoint businfo_assign (payload : bytes) (offset : Z) (lengths : list Z)
    : option (list bytes) :=
  match lengths with
  | [] => Some []
  | len :: lengths =>
      let value := take (Z.to_nat len) (drop (Z.to_nat offset) payload) in
      require IsValidUtf8 value ;;
      values ← businfo_assign payload (offset + len) lengths;
      Some (value :: values)
  end.

Definition DecodeBusInfoPayload (payload : bytes) : option BusInfoPayload :=
  require (kBusInfoHeaderSize <=? zlen payload) ;;
  require (zlen payload <=? kMaximumBusInfo) ;;
  busIndex ← ReadLe16 payload 0;
  require byte_at payload 2 <=? BusState_code Stopping ;;
  require byte_at payload 3 <=? 1 ;;
  require byte_at payload 4 <=? AdapterLockState_code RuntimeUnlocked ;;
  require byte_at payload 5 <=? AdapterLockReason_code PathOnlyIdentity ;;
  subDeviceCount ← ReadLe16 payload 6;
  epoch ← ReadLe64 payload 22;
  require negb (epoch =? 0) ;;
  '(lengths, totalSize) ← businfo_lengths payload 0 kBusInfoHeaderSize 7;
  require totalSize =? zlen payload ;;
  strings ← businfo_assign payload kBusInfoHeaderSize lengths;
  state ← BusState_of_code (byte_at payload 2);
  lockState ← AdapterLockState_of_code (byte_at payload 4);
  lockReason ← AdapterLockReason_of_code (byte_at payload 5);
  match strings with
  | [s0; s1; s2; s3; s4; s5; s6] =>
      Some (mkBusInfo busIndex state (negb (byte_at payload 3 =? 0)) lockState
              lockReason subDeviceCount s0 s1 s2 s3 s4 s5 s6 epoch)
  | _ => None
  end.

Record AckPayload := mkAck {
  ack_status : AckStatus;
  ack_detail : Z
}.

Definition EncodeAckPayload (status : AckStatus) (detail : Z) : bytes :=
  if negb (IsKnownAckStatus (AckStatus_code status)) then []
  else
    let payload := AppendLe16 [] (AckStatus_code status) in
    let payload := AppendLe16 payload 0 in
    AppendLe32 payload detail.

Definition DecodeAckPayload (payload : bytes) : option AckPayload :=
  require zlen payload =? 8 ;;
  rawStatus ← ReadLe16 payload 0;
  reserved ← ReadLe16 payload 2;
  require reserved =? 0 ;;
  detail ← ReadLe32 payload 4;
  require IsKnownAckStatus rawStatus ;;
  status ← AckStatus_of_code rawStatus;
  Some (mkAck status detail).

Record PdoInputPayload := mkPdoInput {
  input_busIndex : Z;
  input_subDeviceIndex : Z;
  input_offset : Z;
  input_totalSize : Z;
  input_epoch : Z;
  input_cycleSequence : Z;
  input_data : bytes
}.

Definition EncodePdoInputPayload (input : PdoInputPayload) : bytes :=
  if (input_subDeviceIndex input =? 0) || (input_epoch input =? 0) ||
     (input_cycleSequence input =? 0) || (input_totalSize input =? 0) ||
     (zlen (input_data input) =? 0) ||
     (kMaximumPdoChunk <? zlen (input_data input)) ||
     (kMaximumPdoImage <? input_totalSize input) ||
     (input_totalSize input <? input_offset input) ||
     (input_totalSize input - input_offset input <? zlen (input_data input))
  then []
  else
    let payload := AppendLe16 [] (input_busIndex input) in
    let payload := AppendLe16 payload (input_subDeviceIndex input) in
    let payload := AppendLe32 payload (input_offset input) in
    let payload := AppendLe32 payload (input_totalSize input) in
    let payload := AppendLe16 payload (to_u16 (zlen (input_data input))) in
    let payload := AppendLe16 payload 0 in
    let payload := AppendLe64 payload (input_epoch input) in
    let payload := AppendLe64 payload (input_cycleSequence input) in
    payload ++ input_data input.

Definition DecodePdoInputPayload (maximumTotalSize : Z) (payload : bytes)
    : option PdoInputPayload :=
  require 32 <=? zlen payload ;;
  busIndex ← ReadLe16 payload 0;
  subDeviceIndex ← ReadLe16 payload 2;
  offset ← ReadLe32 payload 4;
  totalSize ← ReadLe32 payload 8;
  chunkLength ← ReadLe16 payload 12;
  reserved ← ReadLe16 payload 14;
  require reserved =? 0 ;;
  epoch ← ReadLe64 payload 16;
  cycleSequence ← ReadLe64 payload 24;
  require negb (subDeviceIndex =? 0) ;;
  require negb (epoch =? 0) && negb (cycleSequence =? 0) ;;
  require negb (totalSize =? 0) && negb (chunkLength =? 0) ;;
  require chunkLength <=? kMaximumPdoChunk ;;
  require totalSize <=? maximumTotalSize ;;
  require offset <=? totalSize ;;
  require chunkLength <=? totalSize - offset ;;
  require zlen payload =? 32 + chunkLength ;;
  Some (mkPdoInput busIndex subDeviceIndex offset totalSize epoch cycleSequence
          (drop 32 payload)).
