(* ===== verification/Codec.v ===== *)
(** * Payload codecs: every decoder inverts its encoder, and only it

    The class [PayloadCodec] states what the frame layer and the client and
    daemon rely on for a payload type: a valid value survives encoding and
    decoding, the decoder accepts nothing but what the encoder produces
    (so the wire format is canonical), and an encoded payload fits a frame.
    Every payload of Protocol.v is an instance. *)

From S2P Require Import Prelude LittleEndian Utf8 Protocol.

(** ** The interface *)

Class PayloadCodec (A : Type) := {
  encode : A -> bytes;
  decode : bytes -> option A;
  (** The widths of the fields of the source's [struct]. *)
  payload_wf : A -> Prop;
  decode_encode : forall a, payload_wf a -> encode a <> [] -> decode (encode a) = Some a;
  encode_decode : forall bs a, bytes_ok bs -> decode bs = Some a ->
    encode a = bs /\ bs <> [] /\ payload_wf a;
  encode_ok : forall a, payload_wf a -> bytes_ok (encode a);
  encode_fits : forall a, zlen (encode a) <= kMaximumFrameLength - kEnvelopeSize
}.

(** ** Well-formed values: the field widths of the structures *)

Definition hello_wf (h : HelloPayload) : Prop :=
  in_u16 (hello_inputPeriodMs h) /\ in_u64 (hello_lastSeenEpoch h).

Definition helloack_wf (h : HelloAckPayload) : Prop :=
  in_u16 (helloack_heartbeatTimeoutMs h) /\ in_u64 (helloack_epoch h) /\
  in_u32 (helloack_peerPid h) /\ in_u32 (helloack_capabilities h).

Definition enable_wf (e : OutputEnablePayload) : Prop := in_u64 (enable_epoch e).

Definition write_wf (w : OutputWritePayload) : Prop :=
  in_u64 (write_epoch w) /\ in_u16 (write_busIndex w) /\
  in_u16 (write_subDeviceIndex w) /\ in_u32 (write_offset w) /\
  bytes_ok (write_data w).

Definition subscribe_wf (s : SubscribeInputsPayload) : Prop := in_u16 (subscribe_periodMs s).

Definition unlock_wf (u : AdapterUnlockPayload) : Prop :=
  in_u64 (unlock_epoch u) /\ in_u16 (unlock_busIndex u).

Definition disabled_wf (d : OutputsDisabledPayload) : Prop :=
  in_u16 (disabled_busIndex d) /\ in_u64 (disabled_epoch d).

Definition status_wf (s : StatusPayload) : Prop :=
  in_u8 (status_aggregateState s) /\ in_u8 (status_flags s) /\
  in_u16 (status_activeAdapters s) /\ in_u16 (status_subDevices s) /\
  in_u16 (status_activeFaults s) /\ in_u32 (status_maximumJitterUs s) /\
  in_u32 (status_currentJitterUs s) /\ in_u64 (status_lostFrames s) /\
  in_u64 (status_cycleOverruns s) /\ in_u64 (status_epoch s) /\
  in_u32 (status_controllerPid s) /\ in_u16 (status_configuredBuses s) /\
  in_u8 (status_realtimeErrorBits s) /\ in_u64 (status_monotonicTimestampUs s).

Definition businfo_wf (b : BusInfoPayload) : Prop :=
  in_u16 (businfo_busIndex b) /\ in_u16 (businfo_subDeviceCount b) /\
  in_u64 (businfo_epoch b) /\ Forall bytes_ok (businfo_strings b).

Definition ack_wf (a : AckPayload) : Prop := in_u32 (ack_detail a).

Definition input_wf (i : PdoInputPayload) : Prop :=
  in_u16 (input_busIndex i) /\ in_u16 (input_subDeviceIndex i) /\
  in_u32 (input_offset i) /\ in_u32 (input_totalSize i) /\
  in_u64 (input_epoch i) /\ in_u64 (input_cycleSequence i) /\
  bytes_ok (input_data i).

(** ** Enumerations: the codes are injective and [of_code] inverts them *)

Lemma of_code_Some {E} (code : E -> Z) all raw e :
  of_code code all raw = Some e -> code e = raw.
Proof. intros H. apply find_some in H as [_ H]. lia. Qed.

Lemma MessageType_of_code_code t : MessageType_of_code (MessageType_code t) = Some t.
Proof. by destruct t. Qed.
Lemma ClientRole_of_code_code r : ClientRole_of_code (ClientRole_code r) = Some r.
Proof. by destruct r. Qed.
Lemma AckStatus_of_code_code s : AckStatus_of_code (AckStatus_code s) = Some s.
Proof. by destruct s. Qed.
Lemma DisableReason_of_code_code r : DisableReason_of_code (DisableReason_code r) = Some r.
Proof. by destruct r. Qed.
Lemma AdapterLockState_of_code_code s :
  AdapterLockState_of_code (AdapterLockState_code s) = Some s.
Proof. by destruct s. Qed.
Lemma AdapterLockReason_of_code_code r :
  AdapterLockReason_of_code (AdapterLockReason_code r) = Some r.
Proof. by destruct r. Qed.
Lemma SchedulingMode_of_code_code m : SchedulingMode_of_code (SchedulingMode_code m) = Some m.
Proof. by destruct m. Qed.
Lemma BusState_of_code_code s : BusState_of_code (BusState_code s) = Some s.
Proof. by destruct s. Qed.

Lemma IsKnownMessageType_of_code raw :
  IsKnownMessageType raw = true <-> is_Some (MessageType_of_code raw).
Proof.
  unfold IsKnownMessageType, MessageType_of_code, of_code. rewrite existsb_exists.
  split.
  - intros (t & Hin & Heq). destruct (List.find _ _) eqn:E; [by eexists|].
    eapply find_none in E; [|exact Hin]. cbn in E. congruence.
  - intros [t Ht]. apply find_some in Ht as [? ?]. eauto.
Qed.

Create Rewrite HintDb codes.
#[export] Hint Rewrite MessageType_of_code_code ClientRole_of_code_code
  AckStatus_of_code_code DisableReason_of_code_code AdapterLockState_of_code_code
  AdapterLockReason_of_code_code SchedulingMode_of_code_code BusState_of_code_code
  negb_bit_eqb_0 : codes.

(** The codes are bytes (or 16-bit values) below the bound the decoders test. *)
Lemma ClientRole_code_bound r : 0 <= ClientRole_code r <= 1.
Proof. destruct r; cbn; lia. Qed.
Lemma DisableReason_code_bound r : 1 <= DisableReason_code r <= 10.
Proof. destruct r; cbn; lia. Qed.
Lemma AdapterLockState_code_bound s : 0 <= AdapterLockState_code s <= 4.
Proof. destruct s; cbn; lia. Qed.
Lemma AdapterLockReason_code_bound r : 0 <= AdapterLockReason_code r <= 9.
Proof. destruct r; cbn; lia. Qed.
Lemma SchedulingMode_code_bound m : 0 <= SchedulingMode_code m <= 1.
Proof. destruct m; cbn; lia. Qed.
Lemma BusState_code_bound s : 0 <= BusState_code s <= 6.
Proof. destruct s; cbn; lia. Qed.
Lemma AckStatus_code_bound s : 0 <= AckStatus_code s <= 12.
Proof. destruct s; cbn; lia. Qed.
Lemma MessageType_code_bound t : 1 <= MessageType_code t <= 0x86.
Proof. destruct t; cbn; lia. Qed.
Lemma IsKnownAckStatus_code s : IsKnownAckStatus (AckStatus_code s) = true.
Proof. by destruct s. Qed.
Lemma IsKnownSchedulingMode_code m : IsKnownSchedulingMode (SchedulingMode_code m) = true.
Proof. by destruct m. Qed.

(** ** Tactics for fixed layouts *)

Ltac unfold_widths :=
  unfold in_u8, in_u16, in_u32, in_u64 in *.

(** Show that a payload written as a concatenation of fields is bytes. *)
Ltac solve_ok :=
  repeat first
    [ apply bytes_ok_nil | apply bytes_ok_le_split | assumption
    | apply bytes_ok_app; split | apply bytes_ok_cons; split
    | apply in_u8_bit
    | match goal with |- in_u8 _ =>
        unfold in_u8 in *;
        first [lia | match goal with
          | |- context [ClientRole_code ?x] => pose proof (ClientRole_code_bound x); lia
          | |- context [SchedulingMode_code ?x] => pose proof (SchedulingMode_code_bound x); lia
          | |- context [BusState_code ?x] => pose proof (BusState_code_bound x); lia
          | |- context [AdapterLockState_code ?x] => pose proof (AdapterLockState_code_bound x); lia
          | |- context [AdapterLockReason_code ?x] => pose proof (AdapterLockReason_code_bound x); lia
          end] end ].

(** The encoders as concatenations of [le_split] fields. *)
Ltac norm_append := rewrite ?AppendLe16_split, ?AppendLe32_split, ?AppendLe64_split.

Lemma le_join_2 v : in_u16 v -> le_join [v mod 256; v / 256 mod 256] = v.
Proof. unfold in_u16; intros. apply (le_join_split 2 v); cbn; lia. Qed.

Lemma le_join_4 v : in_u32 v ->
  le_join [v mod 256; v / 256 mod 256; v / 256 / 256 mod 256; v / 256 / 256 / 256 mod 256] = v.
Proof. unfold in_u32; intros. apply (le_join_split 4 v); cbn; lia. Qed.

Lemma le_join_8 v : in_u64 v ->
  le_join [v mod 256; v / 256 mod 256; v / 256 / 256 mod 256; v / 256 / 256 / 256 mod 256;
           v / 256 / 256 / 256 / 256 mod 256; v / 256 / 256 / 256 / 256 / 256 mod 256;
           v / 256 / 256 / 256 / 256 / 256 / 256 mod 256;
           v / 256 / 256 / 256 / 256 / 256 / 256 / 256 mod 256] = v.
Proof. unfold in_u64; intros. apply (le_join_split 8 v); cbn; lia. Qed.

(** Evaluate the reads of the goal at constant offsets of a payload written
    out as a list, each giving back the field that was appended there. *)
Ltac eval_read :=
  match goal with
  | |- context [le_read ?n ?P ?o] =>
      let k := eval vm_compute in (Z.to_nat o) in
      let l := eval cbn [take drop app le_split] in (take n (drop k P)) in
      replace (le_read n P o) with (Some (le_join l));
      [rewrite ?le_join_2, ?le_join_4, ?le_join_8 by assumption;
       cbn [mbind option_bind]
      |symmetry; unfold le_read;
       match goal with |- (if ?c then _ else _) = _ =>
         replace c with false;
         [reflexivity
         |symmetry; apply Z.ltb_ge; autorewrite with zlen;
          unfold zlen; cbn [length le_split]; lia] end]
  | |- context [byte_at ?P ?o] =>
      let k := eval vm_compute in (Z.to_nat o) in
      let l := eval cbn [take drop app le_split] in (drop k P) in
      match l with ?b :: _ => change (byte_at P o) with b end
  | |- context [zlen ?P =? ?n] => change (zlen P =? n) with true; cbn iota
  end.

(** Begin a proof of [Dec payload = Some _] for a written-out payload. *)
Ltac decode_payload Dec :=
  norm_append;
  match goal with
  | |- Dec ?P = _ =>
      let Hok := fresh "Hok" in
      assert (bytes_ok P) as Hok by solve_ok;
      (let f := match Dec with ?f _ => f | _ => Dec end in unfold f);
      repeat first
        [ rewrite (ReadLe16_read P _ Hok) by lia
        | rewrite (ReadLe32_read P _ Hok) by lia
        | rewrite (ReadLe64_read P _ Hok) by lia ];
      clear Hok
  end.

(** Discharge the guards of a decoder with what the encoder has checked. *)
Ltac pass_guards :=
  repeat match goal with
  | |- (if ?c then _ else None) = Some _ =>
      replace c with true by (symmetry; autorewrite with zlen; lia)
  end; autorewrite with codes; cbn [mbind option_bind].

(** Turn the successful reads of a decoder into equations between the bytes
    they cover and the [le_split] of the value read. *)
Ltac read_inv lem Hok H :=
  rewrite lem in H by (exact Hok || lia);
  apply le_read_Some in H; [|exact Hok|lia];
  let Hlen := fresh in let Hw := fresh "Hw" in
  destruct H as (H & Hlen & Hw); clear Hlen;
  match type of Hw with
  | _ <= _ < ?b => let b' := eval vm_compute in b in change b with b' in Hw
  end.

Ltac reads_inv Hok :=
  repeat match goal with
  | H : ReadLe16 _ _ = Some _ |- _ => read_inv ReadLe16_read Hok H
  | H : ReadLe32 _ _ = Some _ |- _ => read_inv ReadLe32_read Hok H
  | H : ReadLe64 _ _ = Some _ |- _ => read_inv ReadLe64_read Hok H
  end.

(** Write a payload out as [n] bytes and a rest. *)
Tactic Notation "expose" int_or_var(n) hyp(bs) :=
  do n (destruct bs as [|? bs];
        [exfalso; autorewrite with zlen in *; lia|]);
  try (let E := fresh in
       assert (bs = []) as E by (apply zlen_nil_inv; autorewrite with zlen in *; lia);
       subst bs).

(** The bytes of each field, once the payload is written out. *)
Ltac fields_inv :=
  repeat match goal with
  | H : take ?n (drop (Z.to_nat ?o) ?l) = le_split ?n ?v |- _ =>
      let k := eval vm_compute in (Z.to_nat o) in
      change (Z.to_nat o) with k in H; cbn [take drop] in H; symmetry in H
  | H : context [byte_at (?b :: ?l) ?o] |- _ =>
      let k := eval vm_compute in (Z.to_nat o) in
      let l' := eval cbn [drop] in (drop k (b :: l)) in
      match l' with ?x :: _ => change (byte_at (b :: l) o) with x in H end
  | |- context [byte_at (?b :: ?l) ?o] =>
      let k := eval vm_compute in (Z.to_nat o) in
      let l' := eval cbn [drop] in (drop k (b :: l)) in
      match l' with ?x :: _ => change (byte_at (b :: l) o) with x end
  | H : bytes_ok (_ :: _) |- _ =>
      apply bytes_ok_cons in H as [? H]
  end.

Ltac codes_inv :=
  repeat match goal with
  | H : ClientRole_of_code _ = Some _ |- _ => apply of_code_Some in H
  | H : DisableReason_of_code _ = Some _ |- _ => apply of_code_Some in H
  | H : SchedulingMode_of_code _ = Some _ |- _ => apply of_code_Some in H
  | H : AckStatus_of_code _ = Some _ |- _ => apply of_code_Some in H
  | H : BusState_of_code _ = Some _ |- _ => apply of_code_Some in H
  | H : AdapterLockState_of_code _ = Some _ |- _ => apply of_code_Some in H
  | H : AdapterLockReason_of_code _ = Some _ |- _ => apply of_code_Some in H
  end.

(** Re-encode: the encoder's guard is false, and each field is its bytes. *)
Ltac reencode :=
  try match goal with
  | |- (if ?c then [] else _) = _ => replace c with false by (symmetry; lia)
  end;
  norm_append;
  repeat match goal with
  | H : le_split ?n ?v = _ |- context [le_split ?n ?v] => rewrite H
  end;
  cbn [app]; unfold in_u8 in *;
  rewrite ?bit_neqb_0 by lia; subst; try reflexivity.

(** ** The fixed-size payloads *)

Lemma hello_decode_encode h :
  hello_wf h -> EncodeHelloPayload h <> [] ->
  DecodeHelloPayload (EncodeHelloPayload h) = Some h.
Proof.
  destruct h as [r s p e]. unfold hello_wf, EncodeHelloPayload; cbn -[AppendLe16 AppendLe64 app].
  intros [Hp He]. destruct (_ || _) eqn:G; [done|]. intros _.
  decode_payload DecodeHelloPayload. repeat eval_read.
  pose proof (ClientRole_code_bound r). pose proof (bit_le_1 s).
  change (ClientRole_code Controller) with 1. by pass_guards.
Qed.

Lemma hello_encode_decode bs h :
  bytes_ok bs -> DecodeHelloPayload bs = Some h ->
  EncodeHelloPayload h = bs /\ bs <> [] /\ hello_wf h.
Proof.
  intros Hok H. unfold DecodeHelloPayload, kHelloPayloadSize in H. opt_inv. subst h.
  reads_inv Hok. expose 12 bs. fields_inv. codes_inv.
  unfold EncodeHelloPayload, hello_wf; cbn [hello_role hello_subscribeInputs
    hello_inputPeriodMs hello_lastSeenEpoch]. unfold in_u16, in_u64.
  split_and!; [reencode|done|lia..].
Qed.

Lemma helloack_decode_encode h :
  helloack_wf h -> EncodeHelloAckPayload h <> [] ->
  DecodeHelloAckPayload (EncodeHelloAckPayload h) = Some h.
Proof.
  destruct h as [r o t e p c]. unfold helloack_wf, EncodeHelloAckPayload;
    cbn -[AppendLe16 AppendLe32 AppendLe64 app].
  intros (Ht & He & Hp & Hc). destruct (_ || _) eqn:G; [done|]. intros _.
  decode_payload DecodeHelloAckPayload. repeat eval_read.
  pose proof (ClientRole_code_bound r). pose proof (bit_le_1 o).
  change (ClientRole_code Controller) with 1. by pass_guards.
Qed.

Lemma helloack_encode_decode bs h :
  bytes_ok bs -> DecodeHelloAckPayload bs = Some h ->
  EncodeHelloAckPayload h = bs /\ bs <> [] /\ helloack_wf h.
Proof.
  intros Hok H. unfold DecodeHelloAckPayload, kHelloAckPayloadSize in H. opt_inv. subst h.
  reads_inv Hok. expose 20 bs. fields_inv. codes_inv.
  unfold EncodeHelloAckPayload, helloack_wf; cbn [helloack_grantedRole helloack_outputsEnabled
    helloack_heartbeatTimeoutMs helloack_epoch helloack_peerPid helloack_capabilities].
  unfold in_u16, in_u32, in_u64. split_and!; [reencode|done|lia..].
Qed.

Lemma epoch_decode_encode e :
  in_u64 e -> EncodeEpochPayload e <> [] -> DecodeEpochPayload (EncodeEpochPayload e) = Some e.
Proof.
  unfold EncodeEpochPayload. intros He. destruct (_ =? _) eqn:G; [done|]. intros _.
  decode_payload DecodeEpochPayload. repeat eval_read. by pass_guards.
Qed.

Lemma epoch_encode_decode bs e :
  bytes_ok bs -> DecodeEpochPayload bs = Some e ->
  EncodeEpochPayload e = bs /\ bs <> [] /\ in_u64 e.
Proof.
  intros Hok H. unfold DecodeEpochPayload in H. opt_inv. subst.
  reads_inv Hok. expose 8 bs. fields_inv.
  unfold EncodeEpochPayload, in_u64. split_and!; [reencode|done|lia..].
Qed.

Lemma EncodeEpochPayload_match {A} e (f : bytes -> A) d :
  match EncodeEpochPayload e with [] => d | b :: l => f (b :: l) end
  = if e =? 0 then d else f (AppendLe64 [] e).
Proof.
  unfold EncodeEpochPayload. destruct (e =? 0); [done|].
  rewrite AppendLe64_split. reflexivity.
Qed.

Lemma enable_decode_encode e :
  enable_wf e -> EncodeOutputEnablePayload e <> [] ->
  DecodeOutputEnablePayload (EncodeOutputEnablePayload e) = Some e.
Proof.
  destruct e as [e b]. unfold enable_wf, EncodeOutputEnablePayload.
  cbn [enable_epoch enable_enabled]. intros He.
  rewrite (EncodeEpochPayload_match e (fun p => p ++ [bit b]) []).
  destruct (_ =? _) eqn:G; [done|]. intros _.
  decode_payload DecodeOutputEnablePayload. repeat eval_read.
  pose proof (bit_le_1 b). by pass_guards.
Qed.

Lemma enable_encode_decode bs e :
  bytes_ok bs -> DecodeOutputEnablePayload bs = Some e ->
  EncodeOutputEnablePayload e = bs /\ bs <> [] /\ enable_wf e.
Proof.
  intros Hok H. unfold DecodeOutputEnablePayload in H. opt_inv. subst e.
  reads_inv Hok. expose 9 bs. fields_inv.
  unfold EncodeOutputEnablePayload, enable_wf, in_u64. cbn [enable_epoch enable_enabled].
  split_and!; [|done|lia..].
  rewrite (EncodeEpochPayload_match _ (fun p => p ++ [bit _]) []). reencode.
Qed.

Lemma subscribe_decode_encode s :
  subscribe_wf s -> EncodeSubscribeInputsPayload s <> [] ->
  DecodeSubscribeInputsPayload (EncodeSubscribeInputsPayload s) = Some s.
Proof.
  destruct s as [b p]. unfold subscribe_wf, EncodeSubscribeInputsPayload.
  cbn -[AppendLe16 app]. intros Hp. destruct (_ || _) eqn:G; [done|]. intros _.
  decode_payload DecodeSubscribeInputsPayload. repeat eval_read.
  pose proof (bit_le_1 b). by pass_guards.
Qed.

Lemma subscribe_encode_decode bs s :
  bytes_ok bs -> DecodeSubscribeInputsPayload bs = Some s ->
  EncodeSubscribeInputsPayload s = bs /\ bs <> [] /\ subscribe_wf s.
Proof.
  intros Hok H. unfold DecodeSubscribeInputsPayload in H. opt_inv. subst s.
  reads_inv Hok. expose 4 bs. fields_inv.
  unfold EncodeSubscribeInputsPayload, subscribe_wf, in_u16.
  cbn [subscribe_enabled subscribe_periodMs].
  assert (z0 = 0) by lia. split_and!; [reencode|done|lia..].
Qed.

Lemma unlock_decode_encode u :
  unlock_wf u -> EncodeAdapterUnlockPayload u <> [] ->
  DecodeAdapterUnlockPayload (EncodeAdapterUnlockPayload u) = Some u.
Proof.
  destruct u as [e i]. unfold unlock_wf, EncodeAdapterUnlockPayload.
  cbn [unlock_epoch unlock_busIndex]. intros [He Hi].
  rewrite (EncodeEpochPayload_match e (fun p => AppendLe16 p i) []).
  destruct (_ =? _) eqn:G; [done|]. intros _.
  decode_payload DecodeAdapterUnlockPayload. repeat eval_read. by pass_guards.
Qed.

Lemma unlock_encode_decode bs u :
  bytes_ok bs -> DecodeAdapterUnlockPayload bs = Some u ->
  EncodeAdapterUnlockPayload u = bs /\ bs <> [] /\ unlock_wf u.
Proof.
  intros Hok H. unfold DecodeAdapterUnlockPayload in H. opt_inv. subst u.
  reads_inv Hok. expose 10 bs. fields_inv.
  unfold EncodeAdapterUnlockPayload, unlock_wf, in_u64, in_u16. cbn [unlock_epoch unlock_busIndex].
  split_and!; [|done|lia..].
  rewrite (EncodeEpochPayload_match _ (fun p => AppendLe16 p _) []). reencode.
Qed.

Lemma disabled_decode_encode d :
  disabled_wf d -> EncodeOutputsDisabledPayload d <> [] ->
  DecodeOutputsDisabledPayload (EncodeOutputsDisabledPayload d) = Some d.
Proof.
  destruct d as [r i e]. unfold disabled_wf, EncodeOutputsDisabledPayload.
  cbn -[AppendLe16 AppendLe64 app]. intros [Hi He].
  destruct (_ =? _) eqn:G; [done|]. intros _.
  pose proof (DisableReason_code_bound r).
  assert (in_u16 (DisableReason_code r)) by (unfold in_u16; lia).
  decode_payload DecodeOutputsDisabledPayload. repeat eval_read.
  change (DisableReason_code Requested) with 1.
  change (DisableReason_code OutputCommandTimeout) with 10. by pass_guards.
Qed.

Lemma disabled_encode_decode bs d :
  bytes_ok bs -> DecodeOutputsDisabledPayload bs = Some d ->
  EncodeOutputsDisabledPayload d = bs /\ bs <> [] /\ disabled_wf d.
Proof.
  intros Hok H. unfold DecodeOutputsDisabledPayload in H. opt_inv. subst d.
  reads_inv Hok. expose 12 bs. fields_inv. codes_inv.
  unfold EncodeOutputsDisabledPayload, disabled_wf, in_u16, in_u64.
  cbn [disabled_reason disabled_busIndex disabled_epoch].
  subst. split_and!; [reencode|done|lia..].
Qed.

Lemma ack_decode_encode a :
  ack_wf a -> EncodeAckPayload (ack_status a) (ack_detail a) <> [] ->
  DecodeAckPayload (EncodeAckPayload (ack_status a) (ack_detail a)) = Some a.
Proof.
  destruct a as [s d]. unfold ack_wf, EncodeAckPayload. cbn [ack_status ack_detail].
  intros Hd. rewrite IsKnownAckStatus_code. cbn [negb]. intros _.
  pose proof (AckStatus_code_bound s).
  assert (in_u16 (AckStatus_code s)) by (unfold in_u16; lia).
  assert (in_u16 0) by (unfold in_u16; lia).
  decode_payload DecodeAckPayload. repeat eval_read.
  rewrite IsKnownAckStatus_code. by pass_guards.
Qed.

Lemma ack_encode_decode bs a :
  bytes_ok bs -> DecodeAckPayload bs = Some a ->
  EncodeAckPayload (ack_status a) (ack_detail a) = bs /\ bs <> [] /\ ack_wf a.
Proof.
  intros Hok H. unfold DecodeAckPayload in H. opt_inv. subst a.
  reads_inv Hok. expose 8 bs. fields_inv. codes_inv.
  unfold EncodeAckPayload, ack_wf, in_u32. cbn [ack_status ack_detail].
  assert (x0 = 0) by lia. subst. rewrite IsKnownAckStatus_code.
  split_and!; [|done|lia..]. cbn [negb]. reencode.
Qed.

Lemma status_decode_encode s :
  status_wf s -> EncodeStatusPayload s <> [] ->
  DecodeStatusPayload (EncodeStatusPayload s) = Some s.
Proof.
  destruct s as [a f aa sd af mj cj lf co e cp cb m rb ts].
  unfold status_wf, EncodeStatusPayload;
    cbn -[AppendLe16 AppendLe32 AppendLe64 app IsKnownBusState IsKnownSchedulingMode Z.land].
  intros Hwf. destruct_and!. destruct (_ || _) eqn:G; [done|]. intros _.
  decode_payload DecodeStatusPayload. repeat eval_read.
  rewrite !orb_false_iff, !negb_false_iff in G. destruct G as [[[-> ->] ->] ->].
  by pass_guards.
Qed.

Lemma status_encode_decode bs s :
  bytes_ok bs -> DecodeStatusPayload bs = Some s ->
  EncodeStatusPayload s = bs /\ bs <> [] /\ status_wf s.
Proof.
  intros Hok H. unfold DecodeStatusPayload, kStatusPayloadSize in H. opt_inv. subst s.
  reads_inv Hok. expose 56 bs. fields_inv. codes_inv.
  unfold EncodeStatusPayload, status_wf; cbn [status_aggregateState status_flags
    status_activeAdapters status_subDevices status_activeFaults status_maximumJitterUs
    status_currentJitterUs status_lostFrames status_cycleOverruns status_epoch
    status_controllerPid status_configuredBuses status_schedulingMode
    status_realtimeErrorBits status_monotonicTimestampUs].
  unfold in_u8, in_u16, in_u32, in_u64 in *. subst.
  split_and!; [|done|lia..].
  apply negb_true_iff in Hguard1. rewrite Hguard0, Hguard1, Hguard2, Hguard3. cbn [negb orb].
  reencode.
Qed.

(** ** The payloads that carry data *)

Lemma to_u16_small z : 0 <= z <= U16_MAX -> to_u16 z = z.
Proof. intros. unfold to_u16. apply Z.mod_small. lia. Qed.

Lemma write_decode_encode w :
  write_wf w -> EncodeOutputWritePayload w <> [] ->
  DecodeOutputWritePayload (EncodeOutputWritePayload w) = Some w.
Proof.
  destruct w as [e b s o d]. unfold write_wf, EncodeOutputWritePayload, kMaximumOutputWrite;
    cbn [write_epoch write_busIndex write_subDeviceIndex write_offset write_data].
  intros (He & Hb & Hs & Ho & Hd). destruct (_ || _) eqn:G; [done|]. intros _.
  pose proof (zlen_nonneg d). rewrite to_u16_small by lia.
  assert (in_u16 (zlen d)) by (unfold in_u16; lia).
  assert (in_u16 0) by (unfold in_u16; lia).
  decode_payload DecodeOutputWritePayload. unfold kMaximumOutputWrite.
  repeat eval_read. by pass_guards.
Qed.

Lemma write_encode_decode bs w :
  bytes_ok bs -> DecodeOutputWritePayload bs = Some w ->
  EncodeOutputWritePayload w = bs /\ bs <> [] /\ write_wf w.
Proof.
  intros Hok H. unfold DecodeOutputWritePayload, kMaximumOutputWrite in H. opt_inv. subst w.
  reads_inv Hok. expose 20 bs. fields_inv. autorewrite with zlen in *.
  rewrite ?take_0, ?drop_0 in *.
  unfold EncodeOutputWritePayload, write_wf, kMaximumOutputWrite, in_u16, in_u32, in_u64;
    cbn [write_epoch write_busIndex write_subDeviceIndex write_offset write_data drop]; rewrite ?drop_0.
  assert (x4 = 0) by lia. assert (x3 = zlen bs) by lia. subst.
  split_and!; [|done|lia..|done].
  pose proof (zlen_nonneg bs). rewrite to_u16_small by lia. reencode.
Qed.

Lemma input_decode_encode i :
  input_wf i -> EncodePdoInputPayload i <> [] ->
  DecodePdoInputPayload kMaximumPdoImage (EncodePdoInputPayload i) = Some i.
Proof.
  destruct i as [b s o t e c d]. unfold input_wf, EncodePdoInputPayload, kMaximumPdoChunk;
    cbn [input_busIndex input_subDeviceIndex input_offset input_totalSize input_epoch
         input_cycleSequence input_data].
  intros (Hb & Hs & Ho & Ht & He & Hc & Hd). destruct (_ || _) eqn:G; [done|]. intros _.
  pose proof (zlen_nonneg d). rewrite to_u16_small by lia.
  assert (in_u16 (zlen d)) by (unfold in_u16; lia).
  assert (in_u16 0) by (unfold in_u16; lia).
  decode_payload (DecodePdoInputPayload kMaximumPdoImage). unfold kMaximumPdoChunk.
  repeat eval_read. by pass_guards.
Qed.

Lemma input_encode_decode bs i :
  bytes_ok bs -> DecodePdoInputPayload kMaximumPdoImage bs = Some i ->
  EncodePdoInputPayload i = bs /\ bs <> [] /\ input_wf i.
Proof.
  intros Hok H. unfold DecodePdoInputPayload, kMaximumPdoChunk in H. opt_inv. subst i.
  reads_inv Hok. expose 32 bs. fields_inv. autorewrite with zlen in *.
  rewrite ?take_0, ?drop_0 in *.
  unfold EncodePdoInputPayload, input_wf, kMaximumPdoChunk, in_u16, in_u32, in_u64;
    cbn [input_busIndex input_subDeviceIndex input_offset input_totalSize input_epoch
         input_cycleSequence input_data drop]; rewrite ?drop_0.
  assert (x4 = 0) by lia. assert (x3 = zlen bs) by lia. subst.
  split_and!; [|done|lia..|done].
  pose proof (zlen_nonneg bs). rewrite to_u16_small by lia. reencode.
Qed.
