(* ===== verification/Payloads.v ===== *)
(** * BUS_INFO and the instances of the payload interface

    The variable-length BUS_INFO payload, the [PayloadCodec] instance of every
    payload type, and the theorems that state each codec's contract. *)

From S2P Require Import Prelude LittleEndian Utf8 Protocol Codec.

(** ** BUS_INFO: seven length-prefixed strings *)

Lemma append_lengths_eq payload strings :
  append_lengths payload strings
  = payload ++ concat (map (fun s => le_split 2 (to_u16 (zlen s))) strings).
Proof.
  unfold append_lengths. revert payload.
  induction strings as [|s strings IH]; intros payload; cbn [fold_left map concat].
  - by rewrite app_nil_r.
  - rewrite IH, AppendLe16_split. by rewrite <- app_assoc.
Qed.

Lemma append_strings_eq payload strings :
  append_strings payload strings = payload ++ concat strings.
Proof.
  unfold append_strings. revert payload.
  induction strings as [|s strings IH]; intros payload; cbn [fold_left concat].
  - by rewrite app_nil_r.
  - rewrite IH. by rewrite <- app_assoc.
Qed.

Lemma businfo_total_Some strings t T :
  businfo_total t strings = Some T -> 0 <= t <= kMaximumBusInfo ->
  T = t + zlen (concat strings) /\ T <= kMaximumBusInfo /\
  Forall (fun s => zlen s <= U16_MAX /\ IsValidUtf8 s = true) strings.
Proof.
  revert t. induction strings as [|s strings IH]; intros t; cbn [businfo_total concat].
  - intros [= ->] ?. rewrite zlen_nil. split_and!; [lia|lia|done].
  - destruct (IsValidUtf8 s) eqn:Eu; cbn [negb orb];
      [|by rewrite orb_true_r]. rewrite orb_false_r.
    pose proof (zlen_nonneg s) as Hs. intros H Ht. opt_inv.
    apply IH in H as (-> & Hle & Hall); [|lia].
    rewrite zlen_app in *. split_and!; [lia|lia|]. constructor; [|done]. split; [lia|done].
Qed.

Lemma businfo_total_complete strings t :
  Forall (fun s => zlen s <= U16_MAX /\ IsValidUtf8 s = true) strings ->
  0 <= t -> t + zlen (concat strings) <= kMaximumBusInfo ->
  businfo_total t strings = Some (t + zlen (concat strings)).
Proof.
  intros Hall. revert t. induction Hall as [|s strings [Hs Hu] _ IH]; intros t Ht;
    cbn [businfo_total concat]; rewrite ?zlen_app.
  - rewrite zlen_nil. intros _. f_equal; lia.
  - intros Hle. pose proof (zlen_nonneg s). pose proof (zlen_nonneg (concat strings)).
    rewrite Hu. cbn [negb orb]. rewrite orb_false_r.
    replace ((U16_MAX <? zlen s) || _) with false by (symmetry; lia).
    rewrite IH by lia. f_equal; lia.
Qed.

Lemma businfo_lengths_complete (strings : list bytes) P pre post index total :
  P = pre ++ concat (map (fun s => le_split 2 (zlen s)) strings) ++ post ->
  zlen pre = 8 + index * 2 -> 0 <= index -> bytes_ok P ->
  Forall (fun s => zlen s <= U16_MAX) strings ->
  0 <= total -> total + zlen (concat strings) <= zlen P ->
  businfo_lengths P index total (length strings)
  = Some (map zlen strings, total + zlen (concat strings)).
Proof.
  intros HP Hpre Hi Hok Hall. revert pre index total HP Hpre Hi.
  induction Hall as [|s strings Hs _ IH]; intros pre index total HP Hpre Hi Ht Hle;
    cbn [businfo_lengths length map concat] in *.
  - rewrite zlen_nil, Z.add_0_r. done.
  - pose proof (zlen_nonneg s). pose proof (zlen_nonneg (concat strings)).
    rewrite zlen_app in Hle. rewrite ReadLe16_read by (done || lia).
    rewrite <- Hpre. rewrite HP at 1. rewrite <- app_assoc.
    rewrite le_read_app by (change (2 ^ (8 * Z.of_nat 2)) with 65536; lia).
    cbn [mbind option_bind].
    replace (zlen s <=? _) with true by (symmetry; lia).
    rewrite (IH (pre ++ le_split 2 (zlen s)) (index + 1) (total + zlen s));
      [|by rewrite HP, <- !app_assoc|autorewrite with zlen; lia|lia..].
    cbn [mbind option_bind]. rewrite zlen_app. do 2 f_equal. lia.
Qed.

Lemma businfo_assign_complete (strings : list bytes) pre :
  Forall (fun s => IsValidUtf8 s = true) strings ->
  businfo_assign (pre ++ concat strings) (zlen pre) (map zlen strings) = Some strings.
Proof.
  intros Hall. revert pre. induction Hall as [|s strings Hs _ IH]; intros pre;
    cbn [businfo_assign map concat]; [done|].
  rewrite !zlen_to_nat, drop_app_length, take_app_length, Hs.
  rewrite app_assoc. rewrite <- zlen_app, IH. done.
Qed.

Lemma businfo_lengths_Some P n index total lens T :
  bytes_ok P -> 0 <= index ->
  businfo_lengths P index total n = Some (lens, T) ->
  length lens = n /\ Forall in_u16 lens /\ T = total + fold_right Z.add 0 lens /\
  (n <> O -> 8 + index * 2 + 2 * Z.of_nat n <= zlen P) /\
  take (2 * n) (drop (Z.to_nat (8 + index * 2)) P) = concat (map (le_split 2) lens).
Proof.
  intros Hok. revert index total lens T. induction n as [|n IH];
    intros index total lens T Hi; cbn [businfo_lengths].
  - intros [= <- <-]. rewrite take_0. split_and!; try done. cbn; lia.
  - intros H. opt_inv. destruct x0 as [lens' T']. opt_inv. injection H as <- <-.
    apply IH in Hread0 as (Hlen & Hall & HT & Hb & Htake); [|lia].
    rewrite ReadLe16_read in Hread by (done || lia).
    apply le_read_Some in Hread as (Hx & Hxb & Hxr); [|done|lia].
    change (2 ^ (8 * Z.of_nat 2)) with 65536 in Hxr. change (Z.of_nat 2) with 2 in Hxb.
    cbn [length fold_right map concat]. split_and!.
    + lia.
    + constructor; [unfold in_u16; lia|done].
    + lia.
    + intros _. destruct n; [cbn; lia|]. specialize (Hb ltac:(lia)). lia.
    + replace (2 * S n)%nat with (2 + 2 * n)%nat by lia.
      rewrite <- take_take_drop, Hx, drop_drop. f_equal. rewrite <- Htake.
      f_equal. f_equal. lia.
Qed.

Lemma businfo_assign_Some P offset lens strings :
  bytes_ok P -> 0 <= offset -> Forall in_u16 lens ->
  offset + fold_right Z.add 0 lens <= zlen P ->
  businfo_assign P offset lens = Some strings ->
  map zlen strings = lens /\ Forall bytes_ok strings /\
  Forall (fun s => IsValidUtf8 s = true) strings /\
  take (Z.to_nat (fold_right Z.add 0 lens)) (drop (Z.to_nat offset) P) = concat strings.
Proof.
  intros Hok Ho Hall. revert offset strings Ho. unfold in_u16 in Hall.
  induction Hall as [|len lens Hl Hall IH]; intros offset strings Ho Hle;
    cbn [businfo_assign fold_right] in *.
  - intros [= <-]. rewrite take_0. done.
  - intros H. opt_inv. subst strings.
    assert (0 <= fold_right Z.add 0 lens) as Hsum
      by (clear -Hall; induction Hall; cbn in *; lia).
    apply IH in Hread as (Hmap & Hoks & Hvs & Htake); [|lia..].
    set (s := take (Z.to_nat len) (drop (Z.to_nat offset) P)) in *.
    assert (zlen s = len) as Hs
      by (unfold s, zlen in *; rewrite length_take, length_drop; lia).
    cbn [map concat]. split_and!.
    + by rewrite Hs, Hmap.
    + constructor; [unfold s; auto with ec|done].
    + by constructor.
    + rewrite Z2Nat.inj_add, <- take_take_drop, drop_drop by lia.
      fold s. f_equal. rewrite <- Htake. repeat f_equal. lia.
Qed.

Lemma zlen_concat_sum (strings : list bytes) :
  zlen (concat strings) = fold_right Z.add 0 (map zlen strings).
Proof.
  induction strings as [|s strings IH]; cbn [concat map fold_right]; [done|].
  by rewrite zlen_app, IH.
Qed.

(** The header and the strings of an accepted BUS_INFO payload. *)
Definition businfo_header (i : BusInfoPayload) : bytes :=
  le_split 2 (businfo_busIndex i) ++
  [BusState_code (businfo_state i); bit (businfo_linkUp i);
   AdapterLockState_code (businfo_lockState i);
   AdapterLockReason_code (businfo_lockReason i)] ++
  le_split 2 (businfo_subDeviceCount i).

Lemma EncodeBusInfo_complete i :
  businfo_epoch i <> 0 ->
  zlen (concat (businfo_strings i)) <= kMaximumBusInfo - kBusInfoHeaderSize ->
  Forall (fun s => zlen s <= U16_MAX /\ IsValidUtf8 s = true) (businfo_strings i) ->
  EncodeBusInfoPayload i =
    businfo_header i ++
    concat (map (fun s => le_split 2 (zlen s)) (businfo_strings i)) ++
    le_split 8 (businfo_epoch i) ++ concat (businfo_strings i).
Proof.
  unfold EncodeBusInfoPayload, kMaximumBusInfo, kBusInfoHeaderSize. intros He Hle Hall.
  rewrite businfo_total_complete by (done || unfold kMaximumBusInfo; lia).
  pose proof (BusState_code_bound (businfo_state i)).
  pose proof (AdapterLockState_code_bound (businfo_lockState i)).
  pose proof (AdapterLockReason_code_bound (businfo_lockReason i)).
  change (BusState_code Stopping) with 6. change (AdapterLockState_code RuntimeUnlocked) with 4.
  change (AdapterLockReason_code PathOnlyIdentity) with 9.
  destruct (_ || _) eqn:G; [exfalso; lia|].
  rewrite append_strings_eq, AppendLe64_split, append_lengths_eq, !AppendLe16_split.
  assert (map (fun s => le_split 2 (to_u16 (zlen s))) (businfo_strings i)
          = map (fun s => le_split 2 (zlen s)) (businfo_strings i)) as ->.
  { apply map_ext_in. intros s Hs%list_elem_of_In. pose proof (zlen_nonneg s).
    rewrite Forall_forall in Hall. destruct (Hall s Hs). by rewrite to_u16_small by lia. }
  unfold businfo_header. by rewrite <- !app_assoc.
Qed.

Lemma EncodeBusInfo_layout i :
  EncodeBusInfoPayload i <> [] ->
  businfo_epoch i <> 0 /\
  zlen (concat (businfo_strings i)) <= kMaximumBusInfo - kBusInfoHeaderSize /\
  Forall (fun s => zlen s <= U16_MAX /\ IsValidUtf8 s = true) (businfo_strings i) /\
  EncodeBusInfoPayload i =
    businfo_header i ++
    concat (map (fun s => le_split 2 (zlen s)) (businfo_strings i)) ++
    le_split 8 (businfo_epoch i) ++ concat (businfo_strings i).
Proof.
  intros Hne. unfold EncodeBusInfoPayload in Hne.
  destruct (businfo_total _ _) as [T|] eqn:ET; [|done].
  apply businfo_total_Some in ET as (-> & Hle & Hall);
    [|unfold kBusInfoHeaderSize, kMaximumBusInfo; lia].
  destruct (_ || _) eqn:G in Hne; [done|].
  split_and!; [lia|lia|done|]. apply EncodeBusInfo_complete; [lia|lia|done].
Qed.

Lemma businfo_encode_ok i : businfo_wf i -> bytes_ok (EncodeBusInfoPayload i).
Proof.
  intros (Hb & Hs & He & Hstr).
  destruct (EncodeBusInfoPayload i) eqn:E; [apply bytes_ok_nil|]. rewrite <- E.
  destruct (EncodeBusInfo_layout i) as (_ & _ & _ & ->); [by rewrite E|].
  assert (bytes_ok (concat (businfo_strings i))).
  { revert Hstr. generalize (businfo_strings i). induction 1; cbn [concat]; [apply bytes_ok_nil|].
    by apply bytes_ok_app. }
  assert (bytes_ok (concat (map (fun s => le_split 2 (zlen s)) (businfo_strings i)))).
  { generalize (businfo_strings i). intros ss. induction ss; cbn [map concat]; [apply bytes_ok_nil|].
    apply bytes_ok_app. split; [apply (bytes_ok_le_split 2)|done]. }
  unfold businfo_header. solve_ok.
Qed.

Lemma businfo_decode_encode i :
  businfo_wf i -> EncodeBusInfoPayload i <> [] ->
  DecodeBusInfoPayload (EncodeBusInfoPayload i) = Some i.
Proof.
  intros Hwf Hne. pose proof (businfo_encode_ok i Hwf) as Hok.
  destruct (EncodeBusInfo_layout i Hne) as (He0 & Hlen & Hall & HP).
  destruct Hwf as (Hb & Hs & He & Hstr).
  set (P := EncodeBusInfoPayload i) in *.
  assert (zlen P = 30 + zlen (concat (businfo_strings i))) as HzP.
  { rewrite HP, !zlen_app. change (zlen (businfo_header i)) with 8.
    change (zlen (concat (map _ (businfo_strings i)))) with 14.
    change (zlen (le_split 8 (businfo_epoch i))) with 8. lia. }
  pose proof (zlen_nonneg (concat (businfo_strings i))) as Hnn.
  unfold kMaximumBusInfo, kBusInfoHeaderSize in *.
  assert (businfo_lengths P 0 30 7 = Some (map zlen (businfo_strings i), zlen P)) as HL.
  { rewrite HzP. apply (businfo_lengths_complete (businfo_strings i) P (businfo_header i)
      (le_split 8 (businfo_epoch i) ++ concat (businfo_strings i)));
      [done|done|lia|done| |lia|lia].
    eapply Forall_impl; [exact Hall|]. by intros s []. }
  assert (businfo_assign P 30 (map zlen (businfo_strings i)) = Some (businfo_strings i)) as HA.
  { rewrite HP, !app_assoc.
    replace 30 with (zlen ((businfo_header i ++
      concat (map (fun s => le_split 2 (zlen s)) (businfo_strings i))) ++
      le_split 8 (businfo_epoch i))) by reflexivity.
    apply businfo_assign_complete. eapply Forall_impl; [exact Hall|]. by intros s []. }
  unfold DecodeBusInfoPayload, kMaximumBusInfo, kBusInfoHeaderSize.
  rewrite !ReadLe16_read, ReadLe64_read by (done || lia).
  replace (30 <=? zlen P) with true by (symmetry; lia).
  replace (zlen P <=? 2048) with true by (symmetry; lia).
  rewrite HL. cbn [mbind option_bind].
  rewrite HA. clear HL HA Hok. clearbody P. subst P. unfold businfo_header, businfo_strings.
  destruct i as [ib st lk ls lr sc s0 s1 s2 s3 s4 s5 s6 ep]; cbn [businfo_busIndex
    businfo_state businfo_linkUp businfo_lockState businfo_lockReason businfo_subDeviceCount
    businfo_logicalName businfo_physicalInterface businfo_idPath businfo_permanentMac
    businfo_usbSerial businfo_usbVendorId businfo_usbProductId businfo_epoch] in *.
  cbn [map concat]. repeat eval_read.
  pose proof (BusState_code_bound st). pose proof (bit_le_1 lk).
  pose proof (AdapterLockState_code_bound ls). pose proof (AdapterLockReason_code_bound lr).
  change (BusState_code Stopping) with 6. change (AdapterLockState_code RuntimeUnlocked) with 4.
  change (AdapterLockReason_code PathOnlyIdentity) with 9.
  rewrite Z.eqb_refl. by pass_guards.
Qed.

Lemma split_header (P : bytes) :
  30 <= zlen P ->
  P = take 8 P ++ take 14 (drop 8 P) ++ take 8 (drop 22 P) ++ drop 30 P.
Proof.
  intros. rewrite <- (take_drop 8 P) at 1. f_equal.
  rewrite <- (take_drop 14 (drop 8 P)) at 1. f_equal.
  rewrite drop_drop. change (8 + 14)%nat with 22%nat.
  rewrite <- (take_drop 8 (drop 22 P)) at 1. f_equal. by rewrite drop_drop.
Qed.

Lemma take_8_fields (P : bytes) :
  30 <= zlen P ->
  take 8 P = take 2 (drop (Z.to_nat 0) P) ++
    [byte_at P 2; byte_at P 3; byte_at P 4; byte_at P 5] ++ take 2 (drop (Z.to_nat 6) P).
Proof. intros H. do 8 (destruct P as [|? P]; [by cbn in H|]). reflexivity. Qed.

Lemma map_zlen_lengths (strings : list bytes) lens :
  map zlen strings = lens ->
  map (fun s : bytes => le_split 2 (zlen s)) strings = map (le_split 2) lens.
Proof. intros <-. by rewrite map_map. Qed.

Lemma businfo_encode_decode P i :
  bytes_ok P -> DecodeBusInfoPayload P = Some i ->
  EncodeBusInfoPayload i = P /\ P <> [] /\ businfo_wf i.
Proof.
  intros Hok H. unfold DecodeBusInfoPayload, kMaximumBusInfo, kBusInfoHeaderSize in H.
  opt_inv. destruct x2 as [lens T]. opt_inv.
  apply businfo_lengths_Some in Hread2 as (Hn & Hlens & HT & _ & Htl); [|done|lia].
  apply businfo_assign_Some in Hread3 as (Hmap & Hoks & Hutf & Hcat); [|done|lia|done|lia].
  assert (T = zlen P) as HTP by lia.
  rewrite take_ge in Hcat by (rewrite length_drop; unfold zlen in *; lia).
  change (Z.to_nat 30) with 30%nat in Hcat. change (2 * 7)%nat with 14%nat in Htl.
  change (Z.to_nat (8 + 0 * 2)) with 8%nat in Htl.
  reads_inv Hok. change (Z.to_nat 22) with 22%nat in *.
  pose proof (map_zlen_lengths _ _ Hmap) as Hmz.
  destruct x2 as [|s0 [|s1 [|s2 [|s3 [|s4 [|s5 [|s6 [|]]]]]]]]; try discriminate H.
  apply (inj Some) in H. codes_inv.
  assert (businfo_strings i = [s0; s1; s2; s3; s4; s5; s6]) as Hstr by by subst i.
  assert (Forall (fun s => zlen s <= U16_MAX /\ IsValidUtf8 s = true) (businfo_strings i)) as Hall.
  { rewrite Hstr. apply Forall_and. split; [|done].
    apply (Forall_map zlen (fun n => n <= U16_MAX)).
    change (zlen <$> _) with (map zlen [s0; s1; s2; s3; s4; s5; s6]). rewrite Hmap.
    eapply Forall_impl; [exact Hlens|]. unfold in_u16. intros; lia. }
  assert (zlen (concat (businfo_strings i)) = zlen P - 30) as Hc.
  { rewrite zlen_concat_sum, Hstr, Hmap. lia. }
  split_and!.
  - rewrite EncodeBusInfo_complete;
      [|subst i; cbn; lia|unfold kMaximumBusInfo, kBusInfoHeaderSize; lia|done].
    rewrite (split_header P) by lia. rewrite Hcat, Hread1, Htl, Hstr, Hmz.
    f_equal; [|by subst i].
    rewrite take_8_fields by lia. rewrite Hread, Hread0. unfold businfo_header. subst i.
    cbn [businfo_busIndex businfo_state businfo_linkUp businfo_lockState
         businfo_lockReason businfo_subDeviceCount].
    rewrite Hread4, Hread5, Hread6, bit_neqb_0; [done|].
    pose proof (byte_at_ok P 3 Hok). unfold in_u8 in *. lia.
  - intros ->. by apply Z.leb_le in Hguard.
  - unfold businfo_wf, in_u16, in_u64. rewrite Hstr. subst i; cbn. split_and!; lia || done.
Qed.

(** ** Every encoded payload is bytes and fits a frame *)

(** Split on the guard of an encoder and write its body as fields. *)
Ltac encoder enc :=
  unfold enc;
  try match goal with
  | |- context [if ?c then [] else _] =>
      destruct c eqn:?G; [by (apply bytes_ok_nil || (rewrite zlen_nil; vm_compute))|]
  end; norm_append.

Ltac fits enc :=
  encoder enc; autorewrite with zlen;
  unfold kMaximumFrameLength, kEnvelopeSize, kMaximumOutputWrite, kMaximumPdoChunk in *; lia.

Lemma hello_encode_ok h : bytes_ok (EncodeHelloPayload h).
Proof. encoder EncodeHelloPayload. solve_ok. Qed.
Lemma helloack_encode_ok h : bytes_ok (EncodeHelloAckPayload h).
Proof. encoder EncodeHelloAckPayload. solve_ok. Qed.
Lemma epoch_encode_ok e : bytes_ok (EncodeEpochPayload e).
Proof. encoder EncodeEpochPayload. solve_ok. Qed.
Lemma enable_encode_ok e : bytes_ok (EncodeOutputEnablePayload e).
Proof.
  unfold EncodeOutputEnablePayload.
  rewrite (EncodeEpochPayload_match _ (fun p => p ++ [bit (enable_enabled e)]) []).
  destruct (_ =? _); [apply bytes_ok_nil|]. norm_append. solve_ok.
Qed.
Lemma unlock_encode_ok u : bytes_ok (EncodeAdapterUnlockPayload u).
Proof.
  unfold EncodeAdapterUnlockPayload.
  rewrite (EncodeEpochPayload_match _ (fun p => AppendLe16 p (unlock_busIndex u)) []).
  destruct (_ =? _); [apply bytes_ok_nil|]. norm_append. solve_ok.
Qed.
Lemma subscribe_encode_ok s : bytes_ok (EncodeSubscribeInputsPayload s).
Proof. encoder EncodeSubscribeInputsPayload. solve_ok. Qed.
Lemma disabled_encode_ok d : bytes_ok (EncodeOutputsDisabledPayload d).
Proof. encoder EncodeOutputsDisabledPayload. solve_ok. Qed.
Lemma ack_encode_ok s d : bytes_ok (EncodeAckPayload s d).
Proof. encoder EncodeAckPayload. solve_ok. Qed.
Lemma status_encode_ok s : status_wf s -> bytes_ok (EncodeStatusPayload s).
Proof. intros H. unfold status_wf in H. destruct_and!. encoder EncodeStatusPayload. solve_ok. Qed.
Lemma write_encode_ok w : write_wf w -> bytes_ok (EncodeOutputWritePayload w).
Proof. intros H. unfold write_wf in H. destruct_and!. encoder EncodeOutputWritePayload. solve_ok. Qed.
Lemma input_encode_ok i : input_wf i -> bytes_ok (EncodePdoInputPayload i).
Proof. intros H. unfold input_wf in H. destruct_and!. encoder EncodePdoInputPayload. solve_ok. Qed.

Abbreviation maximum_payload := (kMaximumFrameLength - kEnvelopeSize) (only parsing).

Lemma hello_fits h : zlen (EncodeHelloPayload h) <= maximum_payload.
Proof. fits EncodeHelloPayload. Qed.
Lemma helloack_fits h : zlen (EncodeHelloAckPayload h) <= maximum_payload.
Proof. fits EncodeHelloAckPayload. Qed.
Lemma epoch_fits e : zlen (EncodeEpochPayload e) <= maximum_payload.
Proof. fits EncodeEpochPayload. Qed.
Lemma enable_fits e : zlen (EncodeOutputEnablePayload e) <= maximum_payload.
Proof.
  unfold EncodeOutputEnablePayload.
  rewrite (EncodeEpochPayload_match _ (fun p => p ++ [bit (enable_enabled e)]) []).
  destruct (_ =? _); [by vm_compute|]. norm_append. by vm_compute.
Qed.
Lemma unlock_fits u : zlen (EncodeAdapterUnlockPayload u) <= maximum_payload.
Proof.
  unfold EncodeAdapterUnlockPayload.
  rewrite (EncodeEpochPayload_match _ (fun p => AppendLe16 p (unlock_busIndex u)) []).
  destruct (_ =? _); [by vm_compute|]. norm_append. by vm_compute.
Qed.
Lemma subscribe_fits s : zlen (EncodeSubscribeInputsPayload s) <= maximum_payload.
Proof. fits EncodeSubscribeInputsPayload. Qed.
Lemma disabled_fits d : zlen (EncodeOutputsDisabledPayload d) <= maximum_payload.
Proof. fits EncodeOutputsDisabledPayload. Qed.
Lemma ack_fits s d : zlen (EncodeAckPayload s d) <= maximum_payload.
Proof. fits EncodeAckPayload. Qed.
Lemma status_fits s : zlen (EncodeStatusPayload s) <= maximum_payload.
Proof. fits EncodeStatusPayload. Qed.
Lemma write_fits w : zlen (EncodeOutputWritePayload w) <= maximum_payload.
Proof. fits EncodeOutputWritePayload. Qed.
Lemma input_fits i : zlen (EncodePdoInputPayload i) <= maximum_payload.
Proof. fits EncodePdoInputPayload. Qed.
Lemma businfo_fits i : zlen (EncodeBusInfoPayload i) <= maximum_payload.
Proof.
  destruct (EncodeBusInfoPayload i) eqn:E; [by vm_compute|]. rewrite <- E.
  destruct (EncodeBusInfo_layout i) as (_ & Hle & _ & ->); [by rewrite E|].
  rewrite !zlen_app. change (zlen (businfo_header i)) with 8.
  change (zlen (concat (map _ (businfo_strings i)))) with 14.
  change (zlen (le_split 8 (businfo_epoch i))) with 8.
  unfold kMaximumBusInfo, kBusInfoHeaderSize, kMaximumFrameLength, kEnvelopeSize in *. lia.
Qed.

(** ** The instances *)

#[export] Instance hello_codec : PayloadCodec HelloPayload := {|
  encode := EncodeHelloPayload; decode := DecodeHelloPayload; payload_wf := hello_wf;
  decode_encode := hello_decode_encode; encode_decode := hello_encode_decode;
  encode_ok := fun h _ => hello_encode_ok h; encode_fits := hello_fits |}.
#[export] Instance helloack_codec : PayloadCodec HelloAckPayload := {|
  encode := EncodeHelloAckPayload; decode := DecodeHelloAckPayload; payload_wf := helloack_wf;
  decode_encode := helloack_decode_encode; encode_decode := helloack_encode_decode;
  encode_ok := fun h _ => helloack_encode_ok h; encode_fits := helloack_fits |}.
#[export] Instance epoch_codec : PayloadCodec Z := {|
  encode := EncodeEpochPayload; decode := DecodeEpochPayload; payload_wf := in_u64;
  decode_encode := epoch_decode_encode; encode_decode := epoch_encode_decode;
  encode_ok := fun e _ => epoch_encode_ok e; encode_fits := epoch_fits |}.
#[export] Instance enable_codec : PayloadCodec OutputEnablePayload := {|
  encode := EncodeOutputEnablePayload; decode := DecodeOutputEnablePayload;
  payload_wf := enable_wf;
  decode_encode := enable_decode_encode; encode_decode := enable_encode_decode;
  encode_ok := fun e _ => enable_encode_ok e; encode_fits := enable_fits |}.
#[export] Instance write_codec : PayloadCodec OutputWritePayload := {|
  encode := EncodeOutputWritePayload; decode := DecodeOutputWritePayload;
  payload_wf := write_wf;
  decode_encode := write_decode_encode; encode_decode := write_encode_decode;
  encode_ok := write_encode_ok; encode_fits := write_fits |}.
#[export] Instance subscribe_codec : PayloadCodec SubscribeInputsPayload := {|
  encode := EncodeSubscribeInputsPayload; decode := DecodeSubscribeInputsPayload;
  payload_wf := subscribe_wf;
  decode_encode := subscribe_decode_encode; encode_decode := subscribe_encode_decode;
  encode_ok := fun s _ => subscribe_encode_ok s; encode_fits := subscribe_fits |}.
#[export] Instance unlock_codec : PayloadCodec AdapterUnlockPayload := {|
  encode := EncodeAdapterUnlockPayload; decode := DecodeAdapterUnlockPayload;
  payload_wf := unlock_wf;
  decode_encode := unlock_decode_encode; encode_decode := unlock_encode_decode;
  encode_ok := fun u _ => unlock_encode_ok u; encode_fits := unlock_fits |}.
#[export] Instance disabled_codec : PayloadCodec OutputsDisabledPayload := {|
  encode := EncodeOutputsDisabledPayload; decode := DecodeOutputsDisabledPayload;
  payload_wf := disabled_wf;
  decode_encode := disabled_decode_encode; encode_decode := disabled_encode_decode;
  encode_ok := fun d _ => disabled_encode_ok d; encode_fits := disabled_fits |}.
#[export] Instance status_codec : PayloadCodec StatusPayload := {|
  encode := EncodeStatusPayload; decode := DecodeStatusPayload; payload_wf := status_wf;
  decode_encode := status_decode_encode; encode_decode := status_encode_decode;
  encode_ok := status_encode_ok; encode_fits := status_fits |}.
#[export] Instance businfo_codec : PayloadCodec BusInfoPayload := {|
  encode := EncodeBusInfoPayload; decode := DecodeBusInfoPayload; payload_wf := businfo_wf;
  decode_encode := businfo_decode_encode; encode_decode := businfo_encode_decode;
  encode_ok := businfo_encode_ok; encode_fits := businfo_fits |}.
#[export] Instance ack_codec : PayloadCodec AckPayload := {|
  encode := fun a => EncodeAckPayload (ack_status a) (ack_detail a);
  decode := DecodeAckPayload; payload_wf := ack_wf;
  decode_encode := ack_decode_encode; encode_decode := ack_encode_decode;
  encode_ok := fun a _ => ack_encode_ok _ _; encode_fits := fun a => ack_fits _ _ |}.
#[export] Instance input_codec : PayloadCodec PdoInputPayload := {|
  encode := EncodePdoInputPayload; decode := DecodePdoInputPayload kMaximumPdoImage;
  payload_wf := input_wf;
  decode_encode := input_decode_encode; encode_decode := input_encode_decode;
  encode_ok := input_encode_ok; encode_fits := input_fits |}.

(** What the two laws give together: on bytes, decoding is the inverse of
    encoding as a relation. *)
Lemma codec_canonical `{PayloadCodec A} bs (a : A) :
  bytes_ok bs ->
  decode bs = Some a <-> payload_wf a /\ encode a = bs /\ bs <> [].
Proof.
  intros Hok. split.
  - intros Hd. destruct (encode_decode bs a Hok Hd) as (? & ? & ?). done.
  - intros (Hwf & <- & Hne). by apply decode_encode.
Qed.

(** ** The wire format is canonical *)

(** the decoder of OUTPUT_WRITE accepts a byte string exactly when it is the
    encoding of a command with valid field widths; nothing else decodes. *)
Theorem OutputWrite_canonical bs w :
  bytes_ok bs ->
  DecodeOutputWritePayload bs = Some w <->
  write_wf w /\ EncodeOutputWritePayload w = bs /\ bs <> [].
Proof. exact (codec_canonical bs w). Qed.

(** A one-byte write to sub-device 2 of bus 1. *)
Lemma OutputWrite_canonical_witness :
  DecodeOutputWritePayload
    (EncodeOutputWritePayload (mkOutputWrite 7 1 2 0 [171])) = Some (mkOutputWrite 7 1 2 0 [171]).
Proof.
  apply OutputWrite_canonical.
  - apply (write_encode_ok (mkOutputWrite 7 1 2 0 [171])).
    unfold write_wf, in_u64, in_u32, in_u16, bytes_ok, in_u8; cbn.
    split_and!; try lia. repeat constructor; lia.
  - unfold write_wf, in_u64, in_u32, in_u16, bytes_ok, in_u8; cbn.
    split_and!; try lia; try done. repeat constructor; lia.
Defined.

(** the decoder of STATUS accepts exactly the 56-byte encodings of a status
    with a known aggregate state and scheduling mode, a nonzero epoch and no
    reserved bit set. *)
Theorem Status_canonical bs s :
  bytes_ok bs ->
  DecodeStatusPayload bs = Some s <->
  status_wf s /\ EncodeStatusPayload s = bs /\ bs <> [].
Proof. exact (codec_canonical bs s). Qed.

Definition sample_status : StatusPayload :=
  mkStatus 4 3 2 5 0 120 15 1 2 9 4242 2 Fifo 0 123456789.

Lemma Status_canonical_witness :
  DecodeStatusPayload (EncodeStatusPayload sample_status) = Some sample_status.
Proof.
  apply Status_canonical.
  - apply status_encode_ok. unfold status_wf, in_u64, in_u32, in_u16, in_u8; cbn.
    split_and!; lia.
  - unfold status_wf, in_u64, in_u32, in_u16, in_u8; cbn. split_and!; lia || done.
Defined.

(** the decoder of BUS_INFO accepts exactly the encodings: a 30-byte header,
    then seven UTF-8 strings whose lengths add up to the rest of the payload. *)
Theorem BusInfo_canonical bs i :
  bytes_ok bs ->
  DecodeBusInfoPayload bs = Some i <->
  businfo_wf i /\ EncodeBusInfoPayload i = bs /\ bs <> [].
Proof. exact (codec_canonical bs i). Qed.

Definition sample_businfo : BusInfoPayload :=
  mkBusInfo 0 Operational true Matched NoReason 3 (str "arm") (str "eth0")
    (str "platform-usb") (str "00:11:22:33:44:55") [] [] [] 6.

Lemma BusInfo_canonical_witness :
  DecodeBusInfoPayload (EncodeBusInfoPayload sample_businfo) = Some sample_businfo.
Proof.
  apply BusInfo_canonical.
  - vm_compute. repeat constructor; discriminate.
  - split_and!; [|reflexivity|by vm_compute].
    vm_compute. split_and!; try discriminate. repeat constructor; discriminate.
Defined.

(** the decoder of PDO_INPUT, run with the client's image limit, accepts
    exactly the encodings of a chunk that lies inside its image. *)
Theorem PdoInput_canonical bs i :
  bytes_ok bs ->
  DecodePdoInputPayload kMaximumPdoImage bs = Some i <->
  input_wf i /\ EncodePdoInputPayload i = bs /\ bs <> [].
Proof. exact (codec_canonical bs i). Qed.

Definition sample_input : PdoInputPayload := mkPdoInput 0 1 2 5 6 77 [9; 8; 7].

Lemma PdoInput_canonical_witness :
  DecodePdoInputPayload kMaximumPdoImage (EncodePdoInputPayload sample_input)
  = Some sample_input.
Proof.
  apply PdoInput_canonical.
  - vm_compute. repeat constructor; discriminate.
  - split_and!; [|reflexivity|by vm_compute].
    vm_compute. split_and!; try discriminate. repeat constructor; discriminate.
Defined.

(** C40: the session and control messages (HELLO, HELLO_ACK, the epoch-only
    requests, OUTPUT_ENABLE, SUBSCRIBE_INPUTS, ADAPTER_UNLOCK, OUTPUTS_DISABLED and
    ACK) have canonical encodings: each decoder accepts exactly what its encoder
    produces. *)
Theorem control_payloads_canonical bs :
  bytes_ok bs -> bs <> [] ->
  (forall h, DecodeHelloPayload bs = Some h <-> hello_wf h /\ EncodeHelloPayload h = bs) /\
  (forall h, DecodeHelloAckPayload bs = Some h <->
     helloack_wf h /\ EncodeHelloAckPayload h = bs) /\
  (forall e, DecodeEpochPayload bs = Some e <-> in_u64 e /\ EncodeEpochPayload e = bs) /\
  (forall e, DecodeOutputEnablePayload bs = Some e <->
     enable_wf e /\ EncodeOutputEnablePayload e = bs) /\
  (forall s, DecodeSubscribeInputsPayload bs = Some s <->
     subscribe_wf s /\ EncodeSubscribeInputsPayload s = bs) /\
  (forall u, DecodeAdapterUnlockPayload bs = Some u <->
     unlock_wf u /\ EncodeAdapterUnlockPayload u = bs) /\
  (forall d, DecodeOutputsDisabledPayload bs = Some d <->
     disabled_wf d /\ EncodeOutputsDisabledPayload d = bs) /\
  (forall a, DecodeAckPayload bs = Some a <->
     ack_wf a /\ EncodeAckPayload (ack_status a) (ack_detail a) = bs).
Proof.
  intros Hok Hne.
  split_and!; intros x; pose proof (codec_canonical bs x Hok) as C; cbn in C; tauto.
Qed.

(** The HELLO of a controller that has seen no epoch yet. *)
Lemma control_payloads_canonical_witness :
  DecodeHelloPayload (EncodeHelloPayload (mkHello Controller true 10 0))
  = Some (mkHello Controller true 10 0).
Proof.
  apply (control_payloads_canonical (EncodeHelloPayload (mkHello Controller true 10 0))).
  - apply hello_encode_ok.
  - by vm_compute.
  - split; [|done]. unfold hello_wf, in_u16, in_u64; cbn. lia.
Defined.
