(* ===== verification/Frame.v ===== *)
(** * The frame layer: EncodeFrame and FrameDecoder

    The stream between client and daemon is a sequence of length-prefixed
    frames. [FrameDecoder] keeps the bytes of an incomplete frame between
    calls of [Feed]; its state is the record [FrameDecoder], and [Feed]
    returns the new state, the frames it appended to [decodedFrames] (also on
    an error, where the source has already appended them) and its result. *)

From S2P Require Import Prelude LittleEndian Utf8 Protocol Codec Payloads.

Record Frame := mkFrame {
  frame_type : MessageType;
  frame_requestId : Z;
  frame_payload : bytes
}.

Definition EncodeFrame (type : MessageType) (requestId : Z) (payload : bytes) : bytes :=
  let frameLength := kEnvelopeSize + zlen payload in
  if negb (IsKnownMessageType (MessageType_code type)) || (kMaximumFrameLength <? frameLength)
  then []
  else
    let encoded := AppendLe32 [] (to_u32 frameLength) in
    let encoded := encoded ++ kMagic in
    let encoded := encoded ++ [kVersion] in
    let encoded := encoded ++ [MessageType_code type] in
    let encoded := AppendLe16 encoded 0 in
    let encoded := AppendLe32 encoded requestId in
    encoded ++ payload.

Module FrameDecoder.

Inductive Error :=
| BufferLimit | InvalidLength | InvalidMagic | UnsupportedVersion
| ReservedFlags | InvalidMessageType.

(** [error_ == Error::None] is [error = None]. *)
Record t := mk { buffer : bytes; error : option Error }.

Definition init : t := mk [] None.

Definition Reset (d : t) : t := mk [] None.

(** One iteration of the parse loop at [parseOffset]: [break], an error, or a
    frame and its [totalLength]. *)
Inductive step := Break | Bad (e : Error) | Emit (f : Frame) (totalLength : Z).

Definition parse_frame (buffer : bytes) (parseOffset : Z) : step :=
  match ReadLe32 buffer parseOffset with
  | None => Bad InvalidLength
  | Some frameLength =>
      if (frameLength <? kMinimumFrameLength) || (kMaximumFrameLength <? frameLength)
      then Bad InvalidLength
      else
        let totalLength := kLengthPrefixSize + frameLength in
        if zlen buffer - parseOffset <? totalLength then Break
        else if negb (bool_decide
                  (take 4 (drop (Z.to_nat (parseOffset + kLengthPrefixSize)) buffer) = kMagic))
        then Bad InvalidMagic
        else if negb (byte_at buffer (parseOffset + 8) =? kVersion)
        then Bad UnsupportedVersion
        else
          match ReadLe16 buffer (parseOffset + 10) with
          | None => Bad ReservedFlags
          | Some flags =>
              if negb (flags =? 0) then Bad ReservedFlags
              else
                match ReadLe32 buffer (parseOffset + 12) with
                | None => Bad InvalidLength
                | Some requestId =>
                    match MessageType_of_code (byte_at buffer (parseOffset + 9)) with
                    | None => Bad InvalidMessageType
                    | Some type =>
                        Emit
                          (mkFrame type requestId
                            (take (Z.to_nat (totalLength - kLengthPrefixSize - kEnvelopeSize))
                              (drop (Z.to_nat (parseOffset + kLengthPrefixSize + kEnvelopeSize))
                                buffer)))
                          totalLength
                    end
                end
          end
  end.

(** The [while] loop: the frames appended, and the error or the final
    [parseOffset]. Each iteration that does not leave the loop advances by at
    least 16 bytes, so [length buffer] iterations are enough. *)
Fixpoint parse_loop (fuel : nat) (buffer : bytes) (parseOffset : Z) (frames : list Frame)
    : list Frame * (Error + Z) :=
  match fuel with
  | O => (frames, inr parseOffset)
  | S fuel =>
      if kLengthPrefixSize <=? zlen buffer - parseOffset then
        match parse_frame buffer parseOffset with
        | Break => (frames, inr parseOffset)
        | Bad e => (frames, inl e)
        | Emit f totalLength =>
            parse_loop fuel buffer (parseOffset + totalLength) (frames ++ [f])
        end
      else (frames, inr parseOffset)
  end.

Definition Feed (d : t) (bytes : list Z) : t * list Frame * bool :=
  match error d with
  | Some _ => (d, [], false)
  | None =>
      if (kMaximumBufferedInput <? zlen bytes) ||
         (kMaximumBufferedInput - zlen bytes <? zlen (buffer d))
      then (mk (buffer d) (Some BufferLimit), [], false)
      else
        let buffer' := buffer d ++ bytes in
        match parse_loop (S (length buffer')) buffer' 0 [] with
        | (frames, inl e) => (mk buffer' (Some e), frames, false)
        | (frames, inr parseOffset) =>
            (mk (if negb (parseOffset =? 0) then drop (Z.to_nat parseOffset) buffer'
                 else buffer') None, frames, true)
        end
  end.

(** The reader's loop: one [Feed] per chunk received, until one fails. *)
Fixpoint feed_all (d : t) (chunks : list (list Z)) : t * list Frame * bool :=
  match chunks with
  | [] => (d, [], true)
  | c :: chunks =>
      match Feed d c with
      | (d, frames, true) =>
          let '(d, frames', ok) := feed_all d chunks in (d, frames ++ frames', ok)
      | (d, frames, false) => (d, frames, false)
      end
  end.

End FrameDecoder.

Import FrameDecoder.

(** ** The frame format *)

Definition frame_wf (f : Frame) : Prop :=
  in_u32 (frame_requestId f) /\ bytes_ok (frame_payload f) /\
  zlen (frame_payload f) <= kMaximumFrameLength - kEnvelopeSize.

Definition frame_bytes (f : Frame) : bytes :=
  EncodeFrame (frame_type f) (frame_requestId f) (frame_payload f).

Definition stream (fs : list Frame) : bytes := concat (map frame_bytes fs).

Lemma IsKnownMessageType_code t : IsKnownMessageType (MessageType_code t) = true.
Proof. by destruct t. Qed.

Lemma frame_bytes_layout f :
  frame_wf f ->
  frame_bytes f =
    le_split 4 (kEnvelopeSize + zlen (frame_payload f)) ++ kMagic ++
    [kVersion; MessageType_code (frame_type f)] ++ le_split 2 0 ++
    le_split 4 (frame_requestId f) ++ frame_payload f.
Proof.
  intros (_ & _ & Hlen). unfold frame_bytes, EncodeFrame.
  rewrite IsKnownMessageType_code. cbn [negb orb].
  pose proof (zlen_nonneg (frame_payload f)).
  replace (kMaximumFrameLength <? _) with false by (symmetry; lia).
  unfold to_u32. rewrite Z.mod_small
    by (unfold kMaximumFrameLength, kEnvelopeSize in *; lia).
  rewrite !AppendLe32_split, AppendLe16_split. by rewrite <- !app_assoc.
Qed.

Lemma zlen_frame_bytes f :
  frame_wf f -> zlen (frame_bytes f) = 16 + zlen (frame_payload f).
Proof.
  intros Hf. rewrite frame_bytes_layout by done. autorewrite with zlen.
  change (zlen kMagic) with 4. lia.
Qed.

Lemma frame_bytes_ok f : frame_wf f -> bytes_ok (frame_bytes f).
Proof.
  intros Hf. rewrite frame_bytes_layout by done. destruct Hf as (_ & Hp & _).
  assert (bytes_ok kMagic) by (unfold kMagic, bytes_ok, in_u8; repeat constructor; lia).
  pose proof (MessageType_code_bound (frame_type f)). unfold kVersion. solve_ok.
Qed.

Lemma stream_ok fs : Forall frame_wf fs -> bytes_ok (stream fs).
Proof.
  induction 1 as [|f fs Hf _ IH]; [apply bytes_ok_nil|].
  apply bytes_ok_app. split; [by apply frame_bytes_ok|done].
Qed.

Lemma stream_app fs gs : stream (fs ++ gs) = stream fs ++ stream gs.
Proof. unfold stream. by rewrite map_app, concat_app. Qed.

(** ** One iteration of the loop *)

Lemma le_read_shift n pre l k :
  0 <= k -> le_read n (pre ++ l) (zlen pre + k) = le_read n l k.
Proof.
  intros. unfold le_read. rewrite zlen_app, Z.add_comm.
  replace (zlen l + zlen pre - (zlen pre + k)) with (zlen l - k) by lia.
  destruct (_ <? _); [done|]. do 3 f_equal.
  rewrite Z2Nat.inj_add, zlen_to_nat by (pose proof (zlen_nonneg pre); lia).
  rewrite <- drop_drop, drop_app_length. done.
Qed.

Lemma drop_shift (pre l : bytes) k :
  0 <= k -> drop (Z.to_nat (zlen pre + k)) (pre ++ l) = drop (Z.to_nat k) l.
Proof.
  intros. rewrite Z2Nat.inj_add, zlen_to_nat by (pose proof (zlen_nonneg pre); lia).
  by rewrite <- drop_drop, drop_app_length.
Qed.

Lemma byte_at_shift (pre l : bytes) k :
  0 <= k -> byte_at (pre ++ l) (zlen pre + k) = byte_at l k.
Proof.
  intros. unfold byte_at.
  rewrite Z2Nat.inj_add, zlen_to_nat by (pose proof (zlen_nonneg pre); lia).
  by rewrite lookup_app_r, Nat.add_comm, Nat.add_sub by lia.
Qed.

(** What an iteration sees is the rest of the buffer. *)
Lemma parse_frame_shift pre l :
  bytes_ok (pre ++ l) -> parse_frame (pre ++ l) (zlen pre) = parse_frame l 0.
Proof.
  intros Hok. pose proof (zlen_nonneg pre).
  assert (bytes_ok l) as Hl by by apply bytes_ok_app in Hok as [].
  unfold parse_frame, kLengthPrefixSize, kEnvelopeSize.
  rewrite !ReadLe32_read, !ReadLe16_read by (done || lia).
  rewrite <- (Z.add_0_r (zlen pre)) at 1. rewrite <- !Z.add_assoc.
  rewrite !le_read_shift, !byte_at_shift, !drop_shift, zlen_app by lia.
  destruct (le_read 4 l 0) as [len|]; [|done].
  replace (zlen pre + zlen l - zlen pre) with (zlen l - 0) by lia. done.
Qed.

Lemma parse_frame_emits f post :
  frame_wf f -> bytes_ok post ->
  parse_frame (frame_bytes f ++ post) 0 = Emit f (zlen (frame_bytes f)).
Proof.
  intros Hf Hpost. pose proof (frame_bytes_ok f Hf) as Hok.
  assert (bytes_ok (frame_bytes f ++ post)) as HokP by by apply bytes_ok_app.
  pose proof (zlen_frame_bytes f Hf) as Hz. pose proof (zlen_nonneg post).
  pose proof (zlen_nonneg (frame_payload f)) as Hp.
  assert (zlen (frame_bytes f ++ post) = 16 + zlen (frame_payload f) + zlen post) as HzP
    by (rewrite zlen_app; lia).
  unfold parse_frame. rewrite !ReadLe32_read, ReadLe16_read by (done || lia).
  rewrite HzP, Hz. rewrite frame_bytes_layout in * by done.
  destruct f as [type id payload]; destruct Hf as (Hid & Hb & Hlen); cbn [frame_type
    frame_requestId frame_payload] in *.
  unfold kMaximumFrameLength, kMinimumFrameLength, kEnvelopeSize, kLengthPrefixSize, kMagic in *.
  assert (in_u32 (12 + zlen payload)) by (unfold in_u32; lia).
  assert (in_u16 0) by (unfold in_u16; lia).
  rewrite <- !app_assoc. repeat eval_read.
  replace (_ || _) with false by (symmetry; lia).
  replace (_ <? _) with false by (symmetry; lia).
  autorewrite with codes. cbn [negb Z.eqb kVersion].
  assert (forall A (x y : A) (P : Prop) `{Decision P}, P ->
    (if negb (bool_decide P) then x else y) = y) as Hmagic.
  { intros A x y P D HP. by rewrite bool_decide_true. }
  rewrite Hmagic by done. f_equal; [f_equal|lia].
  replace (Z.to_nat _) with (length payload) by (unfold zlen; lia).
  change (Z.to_nat (0 + 4 + 12)) with 16%nat. cbn [app drop le_split].
  by rewrite drop_0, take_app_length.
Qed.

Lemma le_join_split_4 v : in_u32 v -> le_join (le_split 4 v) = v.
Proof. exact (le_join_4 v). Qed.

(** A proper prefix of a frame makes the decoder wait for more. *)
Lemma parse_frame_waits f p q :
  frame_wf f -> frame_bytes f = p ++ q -> q <> [] -> 4 <= zlen p ->
  parse_frame p 0 = Break.
Proof.
  intros Hf Hpq Hq Hp. pose proof (frame_bytes_ok f Hf) as Hok.
  pose proof (zlen_frame_bytes f Hf) as Hz. rewrite Hpq in Hok, Hz.
  apply bytes_ok_app in Hok as [Hokp _]. rewrite zlen_app in Hz.
  pose proof (zlen_nonneg (frame_payload f)).
  assert (0 < zlen q) by (destruct q; [done|rewrite zlen_cons; pose proof (zlen_nonneg q); lia]).
  assert (take 4 p = le_split 4 (kEnvelopeSize + zlen (frame_payload f))) as H4.
  { transitivity (take 4 (p ++ q)); [rewrite take_app_le by (unfold zlen in *; lia); done|].
    rewrite <- Hpq, frame_bytes_layout by done. apply (take_app_length' _ _ 4). by rewrite length_le_split. }
  destruct Hf as (_ & _ & Hmax).
  unfold parse_frame, kMaximumFrameLength, kMinimumFrameLength, kEnvelopeSize,
    kLengthPrefixSize in *.
  rewrite ReadLe32_read by (done || lia). unfold le_read.
  change (Z.of_nat 4) with 4. replace (_ <? 4) with false by (symmetry; lia).
  rewrite drop_0, H4, le_join_split_4 by (unfold in_u32; lia).
  replace (_ || _) with false by (symmetry; lia).
  by replace (_ <? _) with true by (symmetry; lia).
Qed.

Lemma parse_frame_Emit l f n :
  bytes_ok l -> parse_frame l 0 = Emit f n ->
  frame_wf f /\ n = zlen (frame_bytes f) /\ l = frame_bytes f ++ drop (Z.to_nat n) l.
Proof.
  intros Hok H. unfold parse_frame, kLengthPrefixSize in H.
  destruct (ReadLe32 l 0) as [len|] eqn:Hlen; [|done].
  destruct (_ || _) eqn:Grange; [done|].
  destruct (zlen l - 0 <? 4 + len) eqn:Gsize; [done|].
  destruct (bool_decide _) eqn:Gmagic; [apply bool_decide_eq_true in Gmagic|done]. cbn [negb] in H.
  destruct (byte_at l (0 + 8) =? kVersion) eqn:Gver; [|done]. cbn [negb] in H.
  destruct (ReadLe16 l _) as [flags|] eqn:Hflags; [|done].
  destruct (flags =? 0) eqn:Gflags; [|done]. cbn [negb] in H.
  destruct (ReadLe32 l (0 + 12)) as [id|] eqn:Hid; [|done].
  destruct (MessageType_of_code _) as [type|] eqn:Htype; [|done].
  apply of_code_Some in Htype. injection H as <- <-.
  unfold kMaximumFrameLength, kMinimumFrameLength, kEnvelopeSize, kMagic, kVersion in *.
  reads_inv Hok. assert (flags = 0) by lia. subst flags.
  assert (zlen (take (Z.to_nat (4 + len - 4 - 12)) (drop (Z.to_nat (0 + 4 + 12)) l)) = len - 12)
    as Hzp by (unfold zlen in *; rewrite length_take, length_drop; lia).
  match goal with |- frame_wf ?f /\ _ => set (f' := f) end.
  assert (frame_wf f') as Hwf.
  { unfold frame_wf, f', in_u32; cbn [frame_requestId frame_payload].
    unfold kMaximumFrameLength, kEnvelopeSize. split_and!; [lia|lia|auto with ec|lia]. }
  split_and!; [done| |].
  { rewrite zlen_frame_bytes by done. cbn [f' frame_payload]. lia. }
  rewrite frame_bytes_layout by done. unfold f'. cbn [frame_payload frame_type frame_requestId].
  rewrite Hzp. unfold kMagic, kVersion, kEnvelopeSize. replace (12 + (len - 12)) with len by lia.
  clear Hzp f' Hwf. replace (Z.to_nat (4 + len - 4 - 12)) with (Z.to_nat (len - 12)) by lia.
  replace (Z.to_nat (4 + len)) with (16 + Z.to_nat (len - 12))%nat by lia.
  change (Z.to_nat (0 + 4 + 12)) with 16%nat. rewrite <- drop_drop.
  do 16 (destruct l as [|? l]; [exfalso; autorewrite with zlen in *; lia|]).
  fields_inv. change (Z.to_nat (0 + 4)) with 4%nat in Gmagic. cbn [take drop] in Gmagic.
  rewrite Hlen, Hflags, Hid. cbn [drop app]. rewrite take_0, drop_0. cbn [app].
  rewrite take_drop. injection Gmagic as -> -> -> ->.
  rewrite Htype. by replace z7 with 1 by lia.
Qed.

(** ** The loop *)

(** What the decoder keeps: the loop stops on it without an error. *)
Definition incomplete (l : bytes) : Prop := zlen l < kLengthPrefixSize \/ parse_frame l 0 = Break.

(** Where the loop stopped, seen as the bytes of [l] it has not consumed. *)
Definition stopped (fuel : nat) (pre l rest : bytes) (new : list Frame) (r : Error + Z) : Prop :=
  match r with
  | inr o => o = zlen pre + zlen (stream new) /\ ((length l < fuel)%nat -> incomplete rest)
  | inl e => kLengthPrefixSize <= zlen rest /\ parse_frame rest 0 = Bad e
  end.

Lemma parse_loop_sound fuel pre l frames fs r :
  bytes_ok (pre ++ l) -> parse_loop fuel (pre ++ l) (zlen pre) frames = (fs, r) ->
  exists new rest, fs = frames ++ new /\ Forall frame_wf new /\ l = stream new ++ rest /\
    stopped fuel pre l rest new r.
Proof.
  revert pre l frames. induction fuel as [|fuel IH]; intros pre l frames Hok; cbn [parse_loop].
  { intros [= <- <-]. exists [], l. rewrite app_nil_r. cbn. rewrite zlen_nil.
    split_and!; [done|done|done|lia|lia]. }
  assert (bytes_ok l) as Hl by by apply bytes_ok_app in Hok as [].
  rewrite zlen_app, parse_frame_shift by done.
  destruct (_ <=? _) eqn:Hsize.
  2: { intros [= <- <-]. exists [], l. rewrite app_nil_r. cbn. rewrite zlen_nil.
       split_and!; [done|done|done|lia|]. intros _. left. lia. }
  destruct (parse_frame l 0) as [|e|f n] eqn:Hp.
  - intros [= <- <-]. exists [], l. rewrite app_nil_r. cbn. rewrite zlen_nil.
    split_and!; [done|done|done|lia|]. intros _. by right.
  - intros [= <- <-]. exists [], l. rewrite app_nil_r. cbn. split_and!; [done..|lia|done].
  - apply parse_frame_Emit in Hp as (Hf & -> & Hsplit); [|done].
    set (l' := drop _ l) in *. clearbody l'. subst l.
    rewrite <- zlen_app, app_assoc. intros H.
    apply IH in H as (new & rest & -> & Hnew & -> & Hstop); [|by rewrite <- app_assoc].
    exists (f :: new), rest. unfold stream in *. cbn [map concat]. rewrite <- !app_assoc.
    split_and!; [done|by constructor|done|]. destruct r as [e|o]; [done|].
    unfold stopped, stream in *. cbn [map concat]. rewrite zlen_app in *. rewrite length_app.
    pose proof (zlen_frame_bytes f Hf). pose proof (zlen_nonneg (frame_payload f)).
    destruct Hstop as [-> Hinc]. split; [lia|]. intros Hfuel. apply Hinc.
    unfold zlen in *. lia.
Qed.

Lemma parse_loop_complete fs pre tail frames fuel :
  Forall frame_wf fs -> bytes_ok pre -> bytes_ok tail -> incomplete tail ->
  (length fs < fuel)%nat ->
  parse_loop fuel (pre ++ stream fs ++ tail) (zlen pre) frames
  = (frames ++ fs, inr (zlen pre + zlen (stream fs))).
Proof.
  intros Hfs. revert pre frames fuel. induction Hfs as [|f fs Hf Hfs IH];
    intros pre frames fuel Hpre Htail Hinc Hfuel;
    (destruct fuel as [|fuel]; [cbn in Hfuel; lia|]); cbn [parse_loop].
  - cbn [stream map concat app]. rewrite zlen_app, zlen_nil, app_nil_r, Z.add_0_r.
    rewrite parse_frame_shift by by apply bytes_ok_app.
    destruct (_ <=? _) eqn:Hsize; [|done]. destruct Hinc as [?| ->]; [lia|done].
  - pose proof (stream_ok fs Hfs) as Hsok. pose proof (frame_bytes_ok f Hf) as Hfok.
    assert (stream (f :: fs) = frame_bytes f ++ stream fs) as -> by done.
    rewrite <- app_assoc.
    assert (bytes_ok (stream fs ++ tail)) by by apply bytes_ok_app.
    rewrite parse_frame_shift by (apply bytes_ok_app; split; [done|by apply bytes_ok_app]).
    rewrite parse_frame_emits by done.
    pose proof (zlen_frame_bytes f Hf). pose proof (zlen_nonneg (frame_payload f)).
    pose proof (zlen_nonneg (stream fs ++ tail)).
    replace (_ <=? _) with true
      by (symmetry; apply Z.leb_le; rewrite !zlen_app in *; unfold kLengthPrefixSize; lia).
    rewrite <- zlen_app, app_assoc, IH; cbn in Hfuel; [|by apply bytes_ok_app|done..|lia].
    rewrite <- app_assoc. do 2 f_equal. rewrite !zlen_app. lia.
Qed.

Lemma length_stream fs : Forall frame_wf fs -> (length fs <= length (stream fs))%nat.
Proof.
  induction 1 as [|f fs Hf _ IH]; [done|].
  assert (stream (f :: fs) = frame_bytes f ++ stream fs) as -> by done.
  pose proof (zlen_frame_bytes f Hf). pose proof (zlen_nonneg (frame_payload f)).
  rewrite length_app. cbn [length]. unfold zlen in *. lia.
Qed.

(** The unconsumed bytes are shorter than one frame of maximal size. *)
Lemma incomplete_short l :
  bytes_ok l -> incomplete l -> zlen l < kLengthPrefixSize + kMaximumFrameLength.
Proof.
  intros Hok [H|H]; [unfold kLengthPrefixSize, kMaximumFrameLength in *; lia|].
  unfold parse_frame in H. destruct (ReadLe32 l 0) as [len|]; [|done].
  destruct (len <? _) eqn:?, (kMaximumFrameLength <? len) eqn:?; cbn [orb] in H; try done.
  destruct (zlen l - 0 <? _) eqn:?; [lia|].
  destruct (bool_decide _); [|done]. destruct (_ =? kVersion); [|done]. cbn [negb] in H.
  destruct (ReadLe16 _ _) as [fl|]; [|done]. destruct (fl =? 0); [|done]. cbn [negb] in H.
  destruct (ReadLe32 l (0 + 12)); [|done]. by destruct (MessageType_of_code _).
Qed.

(** ** Feed *)

Lemma Feed_true d bs d' fs :
  bytes_ok (buffer d) -> bytes_ok bs -> Feed d bs = (d', fs, true) ->
  error d = None /\ error d' = None /\ Forall frame_wf fs /\ bytes_ok (buffer d') /\
  incomplete (buffer d') /\ buffer d ++ bs = stream fs ++ buffer d'.
Proof.
  intros Hd Hbs H. unfold Feed in H. destruct (error d); [done|].
  destruct (_ || _); [done|].
  assert (bytes_ok (buffer d ++ bs)) as Hok by by apply bytes_ok_app.
  destruct (parse_loop _ _ _ _) as [fs' [e|o]] eqn:Hloop; [done|].
  injection H as <- <-.
  apply (parse_loop_sound _ [] _ []) in Hloop as (new & rest & -> & Hnew & Hsplit & Hstop);
    [|done]. destruct Hstop as [-> Hinc]. cbn [app buffer error].
  rewrite zlen_nil, Z.add_0_l.
  assert ((if negb (zlen (stream new) =? 0) then drop (Z.to_nat (zlen (stream new)))
      (buffer d ++ bs) else buffer d ++ bs) = rest) as ->.
  { rewrite Hsplit. destruct (Z.eqb_spec (zlen (stream new)) 0) as [Hz|Hz]; cbn [negb].
    - apply zlen_nil_inv in Hz. by rewrite Hz.
    - by rewrite zlen_to_nat, drop_app_length. }
  rewrite Hsplit in *. apply bytes_ok_app in Hok as [_ Hrest].
  split_and!; auto with lia.
Qed.

Lemma Feed_false d bs d' fs :
  bytes_ok (buffer d) -> bytes_ok bs -> error d = None -> Feed d bs = (d', fs, false) ->
  exists e, error d' = Some e /\
  ((e = BufferLimit /\ fs = [] /\ buffer d' = buffer d /\
    kMaximumBufferedInput < zlen (buffer d) + zlen bs) \/
   (buffer d' = buffer d ++ bs /\ Forall frame_wf fs /\
    exists rest, buffer d ++ bs = stream fs ++ rest /\ parse_frame rest 0 = Bad e)).
Proof.
  intros Hd Hbs Hnone H. unfold Feed in H. rewrite Hnone in H.
  pose proof (zlen_nonneg (buffer d)).
  destruct (_ || _) eqn:G.
  { injection H as <- <-. exists BufferLimit. split; [done|]. left. split_and!; try done. lia. }
  destruct (parse_loop _ _ _ _) as [fs' [e|o]] eqn:Hloop; [|done].
  injection H as <- <-. exists e. split; [done|]. right.
  apply (parse_loop_sound _ [] _ []) in Hloop as (new & rest & -> & Hnew & Hsplit & Hstop);
    [|cbn [app]; by apply bytes_ok_app]. destruct Hstop as [_ Hbad]. cbn [app buffer]. eauto.
Qed.

Lemma Feed_complete t c fs t' :
  bytes_ok t -> bytes_ok c -> zlen t + zlen c <= kMaximumBufferedInput ->
  t ++ c = stream fs ++ t' -> Forall frame_wf fs -> incomplete t' ->
  Feed (mk t None) c = (mk t' None, fs, true).
Proof.
  intros Ht Hc Hlen Hsplit Hfs Hinc. unfold Feed. cbn [error buffer].
  pose proof (zlen_nonneg t).
  replace (_ || _) with false by (symmetry; lia).
  assert (bytes_ok (t ++ c)) as Hok by by apply bytes_ok_app.
  rewrite Hsplit in *. apply bytes_ok_app in Hok as [Hs Ht'].
  pose proof (length_stream fs Hfs).
  rewrite (parse_loop_complete fs [] t' []); [|done|apply bytes_ok_nil|done|done|
    rewrite length_app; lia].
  rewrite zlen_nil, Z.add_0_l. cbn [app]. do 3 f_equal.
  destruct (Z.eqb_spec (zlen (stream fs)) 0) as [Hz|Hz]; cbn [negb].
  - apply zlen_nil_inv in Hz. by rewrite Hz.
  - by rewrite zlen_to_nat, drop_app_length.
Qed.

(** Every prefix of a stream is some of its frames and an incomplete rest. *)
Lemma stream_prefix fs p q :
  Forall frame_wf fs -> stream fs = p ++ q ->
  exists fs1 fs2 t, fs = fs1 ++ fs2 /\ p = stream fs1 ++ t /\ incomplete t.
Proof.
  intros Hfs. revert p. induction Hfs as [|f fs Hf Hfs IH]; intros p Hp.
  - exists [], [], []. symmetry in Hp. apply app_eq_nil in Hp as [-> _].
    split_and!; [done|done|by left].
  - change (stream (f :: fs)) with (frame_bytes f ++ stream fs) in Hp.
    apply app_eq_inv in Hp as [(x & Hx & ->)|(x & -> & Hx)].
    + destruct (decide (x = [])) as [->|Hne].
      * exists [f], fs, []. rewrite app_nil_r in Hx. subst p. unfold stream. cbn.
        rewrite !app_nil_r. split_and!; [done|done|by left].
      * exists [], (f :: fs), p. split_and!; [done|done|].
        destruct (Z.lt_ge_cases (zlen p) 4); [left; done|right].
        by eapply parse_frame_waits.
    + apply IH in Hx as (fs1 & fs2 & t & -> & -> & Hinc).
      exists (f :: fs1), fs2, t. split_and!; [done| |done].
      unfold stream. cbn [map concat]. by rewrite app_assoc.
Qed.

(** The chunk sizes for which the buffer limit cannot be hit. *)
Definition chunk_ok (c : bytes) : Prop :=
  zlen c <= kMaximumBufferedInput - (kLengthPrefixSize + kMaximumFrameLength).

Lemma feed_all_prefix chunks t fs q :
  Forall frame_wf fs -> Forall chunk_ok chunks -> incomplete t ->
  stream fs = t ++ concat chunks ++ q ->
  exists fs1 fs2 t', fs = fs1 ++ fs2 /\
    feed_all (mk t None) chunks = (mk t' None, fs1, true) /\
    incomplete t' /\ stream fs2 = t' ++ q.
Proof.
  intros Hfs Hchunks. revert t fs Hfs.
  induction Hchunks as [|c chunks Hc _ IH]; intros t fs Hfs Hinc Hs; cbn [feed_all concat] in *.
  { exists [], fs, t. split_and!; done. }
  rewrite <- app_assoc, app_assoc in Hs.
  assert (bytes_ok (t ++ c) /\ bytes_ok (concat chunks ++ q)) as [Htc _].
  { apply bytes_ok_app. rewrite <- Hs. by apply stream_ok. }
  pose proof (stream_prefix fs _ _ Hfs Hs) as (g1 & g2 & t' & -> & Hg & Hinc').
  apply Forall_app in Hfs as [Hg1 Hg2].
  apply bytes_ok_app in Htc as [Htok Hcok].
  pose proof (incomplete_short t Htok Hinc) as Hshort. unfold chunk_ok in Hc.
  rewrite (Feed_complete t c g1 t') by (done || lia).
  rewrite Hg, stream_app, <- app_assoc in Hs. apply (inj (app _)) in Hs.
  destruct (IH t' g2 Hg2 Hinc' Hs) as (fs1 & fs2 & t'' & -> & -> & Hinc'' & Hq).
  exists (g1 ++ fs1), fs2, t''. split_and!; [by rewrite app_assoc|done|done|done].
Qed.

Lemma incomplete_not_stream f fs t :
  frame_wf f -> Forall frame_wf fs -> stream (f :: fs) = t -> ~ incomplete t.
Proof.
  intros Hf Hfs <-. change (stream (f :: fs)) with (frame_bytes f ++ stream fs).
  pose proof (zlen_frame_bytes f Hf). pose proof (zlen_nonneg (frame_payload f)).
  pose proof (zlen_nonneg (stream fs)).
  intros [Hl|Hb].
  - rewrite zlen_app in Hl. unfold kLengthPrefixSize in Hl. lia.
  - rewrite parse_frame_emits in Hb by (done || by apply stream_ok). done.
Qed.

Lemma feed_all_stream fs chunks :
  Forall frame_wf fs -> Forall chunk_ok chunks -> concat chunks = stream fs ->
  feed_all init chunks = (init, fs, true).
Proof.
  intros Hfs Hchunks Hs.
  destruct (feed_all_prefix chunks [] fs [] Hfs Hchunks) as (fs1 & fs2 & t & -> & Hfeed & Hinc & Ht).
  { by left. }
  { by rewrite app_nil_r, Hs. }
  rewrite app_nil_r in Ht. apply Forall_app in Hfs as [_ Hfs2].
  destruct Hfs2 as [|f fs2 Hf Hfs2].
  - subst t. by rewrite app_nil_r.
  - by destruct (incomplete_not_stream f fs2 t Hf Hfs2 Ht).
Qed.

Lemma feed_all_true d chunks d' fs :
  bytes_ok (buffer d) -> bytes_ok (concat chunks) -> error d = None ->
  feed_all d chunks = (d', fs, true) ->
  buffer d ++ concat chunks = stream fs ++ buffer d' /\ Forall frame_wf fs /\ error d' = None.
Proof.
  revert d fs. induction chunks as [|c chunks IH]; intros d fs Hd Hc He; cbn [feed_all concat].
  { intros [= <- <-]. by rewrite app_nil_r. }
  apply bytes_ok_app in Hc as [Hc Hcs].
  destruct (Feed d c) as [[d1 fs1] [|]] eqn:Hf; [|done].
  destruct (feed_all d1 chunks) as [[d2 fs2] ok] eqn:Hrest. intros [= -> <- ->].
  apply Feed_true in Hf as (_ & He1 & Hfs1 & Hd1 & _ & Hsplit); [|done..].
  apply IH in Hrest as (Hs2 & Hfs2 & He'); [|done..].
  rewrite app_assoc, Hsplit, <- app_assoc, Hs2, stream_app, <- app_assoc.
  split_and!; [done|by apply Forall_app|done].
Qed.

(** ** The decoder as a state machine *)

Inductive reachable : FrameDecoder.t -> Prop :=
| reach_init : reachable init
| reach_feed d bs d' fs ok :
    reachable d -> bytes_ok bs -> Feed d bs = (d', fs, ok) -> reachable d'
| reach_reset d : reachable d -> reachable (Reset d).

Definition decoder_inv (d : FrameDecoder.t) : Prop :=
  bytes_ok (buffer d) /\ zlen (buffer d) <= kMaximumBufferedInput /\
  (error d = None -> incomplete (buffer d)).

Lemma Feed_error_fixed d bs e : error d = Some e -> Feed d bs = (d, [], false).
Proof. intros H. unfold Feed. by rewrite H. Qed.

Lemma Feed_inv d bs d' fs ok :
  decoder_inv d -> bytes_ok bs -> Feed d bs = (d', fs, ok) -> decoder_inv d'.
Proof.
  intros (Hb & Hlen & Hinc) Hbs H. destruct (error d) as [e|] eqn:He.
  { rewrite (Feed_error_fixed _ _ e He) in H. injection H as <- _ _.
    unfold decoder_inv. rewrite He. done. }
  destruct ok.
  - apply Feed_true in H as (_ & _ & _ & Hb' & Hinc' & _); [|done..].
    pose proof (incomplete_short _ Hb' Hinc'). split_and!; [done| |done].
    unfold kMaximumBufferedInput in *. pose proof (zlen_nonneg (buffer d)).
    unfold kLengthPrefixSize, kMaximumFrameLength in *. lia.
  - pose proof H as H'. apply Feed_false in H as (e & He' & Hcase); [|done..].
    unfold decoder_inv. rewrite He'. split_and!; [| |done].
    + destruct Hcase as [(_ & _ & -> & _)|(-> & _)]; [done|by apply bytes_ok_app].
    + clear Hcase. unfold Feed in H'. rewrite He in H'. destruct (_ || _) eqn:G.
      * by injection H' as <- _.
      * destruct (parse_loop _ _ _ _) as [? [?|?]]; [|done]. injection H' as <- _.
        cbn [buffer]. rewrite zlen_app. lia.
Qed.

Lemma reachable_inv d : reachable d -> decoder_inv d.
Proof.
  induction 1 as [|d bs d' fs ok _ IH Hbs H|d _ _].
  - split_and!; [apply bytes_ok_nil|by vm_compute|by left].
  - by eapply Feed_inv.
  - split_and!; [apply bytes_ok_nil|by vm_compute|by left].
Qed.

(** ** Properties *)

(** C32: a stream of well-formed frames, cut into arbitrary chunks of at most
    8196 bytes, is decoded to exactly the frames that were encoded, in order,
    without an error and with nothing left in the buffer. *)
Theorem FrameDecoder_complete fs chunks :
  Forall frame_wf fs -> Forall chunk_ok chunks -> concat chunks = stream fs ->
  feed_all init chunks = (init, fs, true).
Proof. exact (feed_all_stream fs chunks). Qed.

Definition sample_frames : list Frame :=
  [mkFrame Heartbeat 1 (EncodeEpochPayload 5); mkFrame Status 0 []].

(** Two frames cut into chunks of 10, 20 and 10 bytes. *)
Lemma FrameDecoder_complete_witness :
  feed_all init [take 10 (stream sample_frames); take 20 (drop 10 (stream sample_frames));
                 drop 30 (stream sample_frames)] = (init, sample_frames, true).
Proof.
  apply FrameDecoder_complete.
  - repeat constructor; by vm_compute.
  - repeat constructor; by vm_compute.
  - by vm_compute.
Defined.

(** C33: whatever bytes arrive, as long as no call of Feed has failed, the bytes
    received are the encodings of the frames delivered followed by what is still
    buffered: the decoder invents, drops and reorders nothing, and every frame it
    delivers is well formed. *)
Theorem FrameDecoder_sound chunks d fs :
  bytes_ok (concat chunks) -> feed_all init chunks = (d, fs, true) ->
  concat chunks = stream fs ++ buffer d /\ Forall frame_wf fs.
Proof.
  intros Hok H. apply feed_all_true in H as (Hs & Hfs & _); [done|apply bytes_ok_nil|done|done].
Qed.

(** A heartbeat and half a frame. *)
Lemma FrameDecoder_sound_witness :
  exists d fs, feed_all init [take 30 (stream sample_frames)] = (d, fs, true) /\
    take 30 (stream sample_frames) = stream fs ++ buffer d /\ length fs = 1%nat.
Proof.
  destruct (feed_all init [take 30 (stream sample_frames)]) as [[d fs] ok] eqn:E.
  assert (ok = true) as -> by (vm_compute in E; congruence).
  exists d, fs. split; [done|]. split.
  - rewrite <- (proj1 (FrameDecoder_sound [take 30 (stream sample_frames)] d fs
      ltac:(vm_compute; repeat constructor; discriminate) E)). reflexivity.
  - vm_compute in E. by injection E as <- <-.
Defined.

(** a call of Feed that fails on an error-free decoder fails for a reason: the
    bytes exceed the buffer limit (and nothing is consumed), or the frames before the
    failure were delivered and the next one violates the format with exactly the
    reported error. *)
Theorem Feed_failure_reason d bs d' fs :
  reachable d -> bytes_ok bs -> error d = None -> Feed d bs = (d', fs, false) ->
  exists e, error d' = Some e /\
  ((e = BufferLimit /\ fs = [] /\ buffer d' = buffer d /\
    kMaximumBufferedInput < zlen (buffer d) + zlen bs) \/
   (buffer d' = buffer d ++ bs /\ Forall frame_wf fs /\
    exists rest, buffer d ++ bs = stream fs ++ rest /\ parse_frame rest 0 = Bad e)).
Proof.
  intros Hr Hbs He H. destruct (reachable_inv d Hr) as (Hb & _). by apply Feed_false.
Qed.

(** A frame with a wrong version byte. *)
Definition bad_version : bytes :=
  [12; 0; 0; 0; 0x45; 0x43; 0x53; 0x43; 2; 0x82; 0; 0; 1; 0; 0; 0].

Lemma Feed_failure_reason_witness :
  exists d fs, Feed init bad_version = (d, fs, false) /\
    exists e, error d = Some e /\
    ((e = BufferLimit /\ fs = [] /\ buffer d = buffer init /\
      kMaximumBufferedInput < zlen (buffer init) + zlen bad_version) \/
     (buffer d = buffer init ++ bad_version /\ Forall frame_wf fs /\
      exists rest, buffer init ++ bad_version = stream fs ++ rest /\ parse_frame rest 0 = Bad e)).
Proof.
  exists (mk bad_version (Some UnsupportedVersion)), []. split; [reflexivity|].
  apply Feed_failure_reason.
  - apply reach_init.
  - vm_compute. repeat constructor; discriminate.
  - reflexivity.
  - reflexivity.
Defined.

(** in every reachable state the decoder holds at most kMaximumBufferedInput
    bytes, and less than one maximal frame while no error has occurred; an error is
    sticky: Feed then changes nothing and delivers nothing until Reset. *)
Theorem FrameDecoder_bounded d :
  reachable d ->
  zlen (buffer d) <= kMaximumBufferedInput /\
  (error d = None -> zlen (buffer d) < kLengthPrefixSize + kMaximumFrameLength) /\
  (forall e bs, error d = Some e -> Feed d bs = (d, [], false)).
Proof.
  intros Hr. destruct (reachable_inv d Hr) as (Hb & Hlen & Hinc). split_and!; [done| |].
  - intros He. apply incomplete_short; auto.
  - intros e bs. apply Feed_error_fixed.
Qed.

Lemma FrameDecoder_bounded_witness :
  zlen (buffer init) <= kMaximumBufferedInput.
Proof. apply FrameDecoder_bounded. apply reach_init. Defined.

(** a message of any payload type that its encoder accepts travels intact: its
    frame, however the transport cuts it, is received as one frame of the same type and
    request id whose payload decodes to the same value. *)
Theorem message_roundtrip `{PayloadCodec A} type requestId (a : A) chunks :
  payload_wf a -> encode a <> [] -> in_u32 requestId -> Forall chunk_ok chunks ->
  concat chunks = EncodeFrame type requestId (encode a) ->
  exists f, feed_all init chunks = (init, [f], true) /\
    frame_type f = type /\ frame_requestId f = requestId /\ decode (frame_payload f) = Some a.
Proof.
  intros Hwf Hne Hid Hchunks Hc. exists (mkFrame type requestId (encode a)).
  split_and!; [|done|done|by apply decode_encode].
  apply feed_all_stream; [|done|unfold stream; cbn; by rewrite app_nil_r].
  repeat constructor; cbn [frame_requestId frame_payload];
    [apply Hid..|by apply encode_ok|apply encode_fits].
Qed.

(** A status broadcast received in two pieces. *)
Lemma message_roundtrip_witness :
  exists f, feed_all init
      [take 7 (EncodeFrame Status 0 (EncodeStatusPayload sample_status));
       drop 7 (EncodeFrame Status 0 (EncodeStatusPayload sample_status))] = (init, [f], true) /\
    frame_type f = Status /\ frame_requestId f = 0 /\
    DecodeStatusPayload (frame_payload f) = Some sample_status.
Proof.
  apply (@message_roundtrip _ status_codec Status 0 sample_status).
  - vm_compute. split_and!; discriminate.
  - by vm_compute.
  - unfold in_u32; lia.
  - repeat constructor; by vm_compute.
  - by vm_compute.
Defined.
