(* ===== verification/Pdo.v ===== *)
(** * Packed process-data images (safety.hpp)

    SOEM maps a SubDevice's process data as a pointer and a starting bit; the
    IPC image is a canonical little-endian bit string. [mapped] is the mapped
    region, a list of bytes that two SubDevices may share at its ends. Each
    function returns the new region (or the destination it filled), [None]
    standing for [return false], which leaves the region unchanged. *)

From S2P Require Import Prelude Protocol.

Definition ValidateWholeOutputWrite (outputBytes offset length : Z) : AckStatus :=
  if (outputBytes =? 0) || (kMaximumOutputWrite <? outputBytes) ||
     negb (offset =? 0) || negb (length =? outputBytes)
  then Bounds else Ok.

Definition PdoImageByteLength (bitCount : Z) : Z := (bitCount + 7) / 8.

Definition PdoMappedByteLength (bitCount startBit : Z) : Z :=
  if (bitCount =? 0) || (7 <? startBit) then 0 else (startBit + bitCount + 7) / 8.

Definition IsValidSoemPdoMetadata (bitCount byteCount startBit : Z) : bool :=
  if 7 <? startBit then false
  else if bitCount =? 0 then (byteCount =? 0) && (startBit =? 0)
  else
    let expectedBytes := if 7 <? bitCount then PdoImageByteLength bitCount else 0 in
    (byteCount =? expectedBytes) && ((bitCount <=? 7) || (startBit =? 0)).

Definition HasCanonicalPdoPadding (bitCount : Z) (image : bytes) : bool :=
  if negb (zlen image =? PdoImageByteLength bitCount) then false
  else if bitCount =? 0 then zlen image =? 0
  else
    let usedBits := to_u8 (bitCount mod 8) in
    if usedBits =? 0 then true
    else
      let unusedMask := to_u8 (Z.shiftl 0xff usedBits) in
      Z.land (byte_at image (zlen image - 1)) unusedMask =? 0.

(** [mapped[index] = value] at an index inside the region. *)
Definition set_byte (l : bytes) (index value : Z) : bytes := <[Z.to_nat index := value]> l.

(** The inner loop of the read: the bits of one destination byte. *)
Fixpoint read_bits (mapped : bytes) (startBit bitCount firstBit bit : Z) (n : nat)
    (destination : Z) : Z :=
  match n with
  | O => destination
  | S n =>
      let logicalBit := firstBit + bit in
      if bitCount <=? logicalBit then destination
      else
        let mappedBit := startBit + logicalBit in
        let sourceMask := to_u8 (Z.shiftl 1 (mappedBit mod 8)) in
        read_bits mapped startBit bitCount firstBit (bit + 1) n
          (if negb (Z.land (byte_at mapped (mappedBit / 8)) sourceMask =? 0)
           then Z.lor destination (to_u8 (Z.shiftl 1 bit)) else destination)
  end.

(** [destinationSize] is [destination.size()]; the result is the destination. *)
Definition ReadPackedPdoChunk (mapped : bytes) (startBit bitCount logicalByteOffset : Z)
    (destinationSize : nat) : option bytes :=
  let imageBytes := PdoImageByteLength bitCount in
  let mappedBytes := PdoMappedByteLength bitCount startBit in
  if (7 <? startBit) || negb (zlen mapped =? mappedBytes) ||
     (imageBytes <? logicalByteOffset) ||
     (imageBytes - logicalByteOffset <? Z.of_nat destinationSize)
  then None
  else if startBit =? 0 then
    let destination := take destinationSize (drop (Z.to_nat logicalByteOffset) mapped) in
    let usedBits := to_u8 (bitCount mod 8) in
    Some (if negb (usedBits =? 0) && negb (zlen destination =? 0) &&
             (logicalByteOffset + zlen destination =? imageBytes)
          then set_byte destination (zlen destination - 1)
                 (Z.land (byte_at destination (zlen destination - 1))
                    (to_u8 (Z.shiftl 1 usedBits - 1)))
          else destination)
  else
    let firstLogicalBit := logicalByteOffset * 8 in
    Some (map (fun byteIndex =>
                 read_bits mapped startBit bitCount
                   (firstLogicalBit + Z.of_nat byteIndex * 8) 0 8 0)
              (seq 0 destinationSize)).

(** The loop over the logical bits of a write. *)
Fixpoint write_bits (mapped : bytes) (startBit logicalBit : Z) (image : bytes) (n : nat)
    : bytes :=
  match n with
  | O => mapped
  | S n =>
      let mappedBit := startBit + logicalBit in
      let destinationMask := to_u8 (Z.shiftl 1 (mappedBit mod 8)) in
      let destination := byte_at mapped (mappedBit / 8) in
      let sourceMask := to_u8 (Z.shiftl 1 (logicalBit mod 8)) in
      let destination' :=
        if negb (Z.land (byte_at image (logicalBit / 8)) sourceMask =? 0)
        then Z.lor destination destinationMask
        else Z.land destination (to_u8 (Z.lnot destinationMask)) in
      write_bits (set_byte mapped (mappedBit / 8) destination') startBit (logicalBit + 1)
        image n
  end.

Definition WritePackedPdoImage (mapped : bytes) (startBit bitCount : Z) (image : bytes)
    : option bytes :=
  let mappedBytes := PdoMappedByteLength bitCount startBit in
  if (7 <? startBit) || negb (zlen mapped =? mappedBytes) ||
     negb (HasCanonicalPdoPadding bitCount image)
  then None
  else if (startBit =? 0) && (bitCount mod 8 =? 0)
  then Some (image ++ drop (length image) mapped)
  else Some (write_bits mapped startBit 0 image (Z.to_nat bitCount)).

Fixpoint zero_bits (mapped : bytes) (startBit logicalBit : Z) (n : nat) : bytes :=
  match n with
  | O => mapped
  | S n =>
      let mappedBit := startBit + logicalBit in
      zero_bits
        (set_byte mapped (mappedBit / 8)
           (Z.land (byte_at mapped (mappedBit / 8))
              (to_u8 (Z.lnot (Z.shiftl 1 (mappedBit mod 8))))))
        startBit (logicalBit + 1) n
  end.

Definition ZeroPackedPdoImage (mapped : bytes) (startBit bitCount : Z) : option bytes :=
  let mappedBytes := PdoMappedByteLength bitCount startBit in
  if (7 <? startBit) || negb (zlen mapped =? mappedBytes) then None
  else if (startBit =? 0) && (bitCount mod 8 =? 0)
  then Some (map (fun _ => 0) mapped)
  else Some (zero_bits mapped startBit 0 (Z.to_nat bitCount)).

(** ** The bit view of a region *)

(** Bit [i] of a region: bit [i mod 8] of byte [i / 8]. *)
Definition tb (l : bytes) (i : Z) : bool := Z.testbit (byte_at l (i / 8)) (i mod 8).

Lemma testbit_u8_high b i : in_u8 b -> 8 <= i -> Z.testbit b i = false.
Proof.
  unfold in_u8. intros Hb Hi. destruct (Z.eq_dec b 0) as [->|]; [apply Z.bits_0|].
  apply Z.bits_above_log2; [lia|]. assert (Z.log2 b < 8); [|lia]. apply Z.log2_lt_pow2; lia.
Qed.

Lemma to_u8_testbit z i : 0 <= i -> Z.testbit (to_u8 z) i = Z.testbit z i && (i <? 8).
Proof.
  intros Hi. unfold to_u8. change 256 with (2 ^ 8).
  destruct (Z.ltb_spec i 8) as [H|H].
  - rewrite Z.mod_pow2_bits_low, andb_true_r by lia. done.
  - rewrite Z.mod_pow2_bits_high, andb_false_r by lia. done.
Qed.

Lemma in_u8_to_u8 z : in_u8 (to_u8 z).
Proof. unfold in_u8, to_u8. pose proof (Z.mod_pos_bound z 256). lia. Qed.

Lemma shiftl_1_testbit k i : 0 <= k -> 0 <= i -> Z.testbit (Z.shiftl 1 k) i = (i =? k).
Proof.
  intros. rewrite Z.shiftl_1_l, Z.pow2_bits_eqb by lia. apply Z.eqb_sym.
Qed.

(** A test of one bit with a mask. *)
Lemma land_mask_testbit b k :
  in_u8 b -> 0 <= k < 8 -> negb (Z.land b (to_u8 (Z.shiftl 1 k)) =? 0) = Z.testbit b k.
Proof.
  intros Hb Hk. destruct (Z.testbit b k) eqn:E.
  - destruct (Z.eqb_spec (Z.land b (to_u8 (Z.shiftl 1 k))) 0) as [H|H]; [exfalso|done].
    assert (Z.testbit (Z.land b (to_u8 (Z.shiftl 1 k))) k = true) as Ht.
    { rewrite Z.land_spec, E, to_u8_testbit, shiftl_1_testbit by lia. lia. }
    rewrite H, Z.bits_0 in Ht. done.
  - assert (Z.land b (to_u8 (Z.shiftl 1 k)) = 0) as ->; [|done].
    apply Z.bits_inj'. intros i Hi.
    rewrite Z.land_spec, Z.bits_0, to_u8_testbit, shiftl_1_testbit by lia.
    destruct (Z.eqb_spec i k) as [->|]; [by rewrite E|]. by rewrite andb_false_r.
Qed.

Lemma in_u8_bits b : 0 <= b -> (forall i, 8 <= i -> Z.testbit b i = false) -> in_u8 b.
Proof.
  intros Hb H. unfold in_u8. split; [done|].
  destruct (Z.le_gt_cases b 255) as [|Hgt]; [done|exfalso].
  assert (8 <= Z.log2 b) as Hl by (apply Z.log2_le_pow2; lia).
  pose proof (H _ Hl) as Hf. rewrite Z.bit_log2 in Hf by lia. done.
Qed.

Lemma in_u8_lor a b : in_u8 a -> in_u8 b -> in_u8 (Z.lor a b).
Proof.
  intros Ha Hb. apply in_u8_bits.
  - apply Z.lor_nonneg. unfold in_u8 in *. lia.
  - intros i Hi. by rewrite Z.lor_spec, !testbit_u8_high by done.
Qed.

Lemma in_u8_land a b : in_u8 a -> in_u8 b -> in_u8 (Z.land a b).
Proof.
  intros Ha Hb. apply in_u8_bits.
  - apply Z.land_nonneg. unfold in_u8 in *. lia.
  - intros i Hi. by rewrite Z.land_spec, !testbit_u8_high by done.
Qed.

Lemma byte_ext a b :
  in_u8 a -> in_u8 b -> (forall i, 0 <= i < 8 -> Z.testbit a i = Z.testbit b i) -> a = b.
Proof.
  intros Ha Hb H. apply Z.bits_inj'. intros i Hi.
  destruct (Z.lt_ge_cases i 8); [by apply H|]. by rewrite !testbit_u8_high by done.
Qed.

Lemma byte_at_lookup l i : 0 <= i < zlen l -> l !! Z.to_nat i = Some (byte_at l i).
Proof.
  intros Hi. unfold byte_at. destruct (l !! Z.to_nat i) eqn:E; [done|].
  apply lookup_ge_None in E. unfold zlen in Hi. lia.
Qed.

Lemma byte_at_out l i : zlen l <= i -> byte_at l i = 0.
Proof.
  intros Hi. unfold byte_at. rewrite lookup_ge_None_2; [done|].
  pose proof (zlen_nonneg l). unfold zlen in *. lia.
Qed.

(** Regions with the same bits are equal. *)
Lemma bytes_ext (l k : bytes) :
  bytes_ok l -> bytes_ok k -> zlen l = zlen k ->
  (forall i, 0 <= i < 8 * zlen l -> tb l i = tb k i) -> l = k.
Proof.
  intros Hl Hk Hlen H. apply list_eq_same_length with (n := length k); [done| |].
  { unfold zlen in Hlen. lia. }
  intros i x y Hi Hx Hy. apply byte_ext.
  - by eapply Forall_lookup_1 in Hx.
  - by eapply Forall_lookup_1 in Hy.
  - intros j Hj. specialize (H (Z.of_nat i * 8 + j)). unfold tb, byte_at in H.
    replace ((Z.of_nat i * 8 + j) / 8) with (Z.of_nat i) in H by dlia.
    rewrite Nat2Z.id in H.
    replace ((Z.of_nat i * 8 + j) mod 8) with j in H by dlia.
    rewrite Hx, Hy in H. apply H. unfold zlen in *. lia.
Qed.

(** ** Updates of one bit *)

Lemma zlen_set_byte l k v : zlen (set_byte l k v) = zlen l.
Proof. unfold zlen, set_byte. by rewrite length_insert. Qed.

Lemma bytes_ok_set_byte l k v : bytes_ok l -> in_u8 v -> bytes_ok (set_byte l k v).
Proof. intros. by apply Forall_insert. Qed.

Lemma byte_at_set_byte l k v i :
  0 <= k < zlen l -> 0 <= i -> byte_at (set_byte l k v) i = if i =? k then v else byte_at l i.
Proof.
  intros Hk Hi. unfold byte_at, set_byte. destruct (Z.eqb_spec i k) as [->|Hne].
  - rewrite list_lookup_insert_eq; [done|]. unfold zlen in Hk. lia.
  - rewrite list_lookup_insert_ne; [done|]. lia.
Qed.

(** [destination |= mask] and [destination &= ~mask] set bit [k] to [v]. *)
Definition put_bit (destination k : Z) (v : bool) : Z :=
  if v then Z.lor destination (to_u8 (Z.shiftl 1 k))
  else Z.land destination (to_u8 (Z.lnot (to_u8 (Z.shiftl 1 k)))).

Lemma put_bit_testbit d k v j :
  0 <= k < 8 -> 0 <= j < 8 -> Z.testbit (put_bit d k v) j = if j =? k then v else Z.testbit d j.
Proof.
  intros Hk Hj. unfold put_bit. destruct v.
  - rewrite Z.lor_spec, to_u8_testbit, shiftl_1_testbit by lia.
    destruct (j =? k), (Z.testbit d j); lia.
  - rewrite Z.land_spec, to_u8_testbit, Z.lnot_spec, to_u8_testbit, shiftl_1_testbit by lia.
    destruct (j =? k), (Z.testbit d j); lia.
Qed.

Lemma in_u8_put_bit d k v : in_u8 d -> in_u8 (put_bit d k v).
Proof.
  intros Hd. destruct v; [apply in_u8_lor|apply in_u8_land]; auto using in_u8_to_u8.
Qed.

Lemma tb_put l p v i :
  0 <= p < 8 * zlen l -> 0 <= i ->
  tb (set_byte l (p / 8) (put_bit (byte_at l (p / 8)) (p mod 8) v)) i
  = if i =? p then v else tb l i.
Proof.
  intros Hp Hi. unfold tb. rewrite byte_at_set_byte by dlia.
  destruct (Z.eqb_spec (i / 8) (p / 8)) as [E|E].
  - rewrite put_bit_testbit by dlia. rewrite E.
    destruct (Z.eqb_spec (i mod 8) (p mod 8)), (Z.eqb_spec i p); try done; exfalso; dlia.
  - destruct (Z.eqb_spec i p) as [->|]; [done|done].
Qed.

(** ** The loops, bit by bit *)

Definition written (mapped r : bytes) (first last : Z) (source : Z -> bool) : Prop :=
  bytes_ok r /\ zlen r = zlen mapped /\
  forall i, 0 <= i -> tb r i = if (first <=? i) && (i <? last) then source i else tb mapped i.

Lemma write_bits_written n mapped s lb image :
  bytes_ok mapped -> bytes_ok image -> 0 <= s -> 0 <= lb ->
  s + lb + Z.of_nat n <= 8 * zlen mapped ->
  written mapped (write_bits mapped s lb image n) (s + lb) (s + lb + Z.of_nat n)
    (fun i => tb image (i - s)).
Proof.
  revert mapped lb. induction n as [|n IH]; intros mapped lb Hm Himg Hs Hlb Hlen; cbn [write_bits].
  { split_and!; [done|done|]. intros i Hi. change (Z.of_nat 0) with 0.
    replace ((s + lb <=? i) && _) with false; [done|symmetry; lia]. }
  set (p := s + lb). rewrite land_mask_testbit
    by (auto with ec; apply Z.mod_pos_bound; lia).
  change (Z.testbit _ _) with (tb image lb).
  change (if tb image lb then _ else _)
    with (put_bit (byte_at mapped (p / 8)) (p mod 8) (tb image lb)).
  set (m' := set_byte _ _ _).
  assert (zlen m' = zlen mapped) as Hz by apply zlen_set_byte.
  assert (bytes_ok m') as Hm' by (apply bytes_ok_set_byte; auto using in_u8_put_bit with ec).
  destruct (IH m' (lb + 1) Hm' Himg) as (Hok & Hlen' & Hbits); [lia|lia|lia|].
  split_and!; [done|lia|]. intros i Hi. rewrite Hbits by done. rewrite Nat2Z.inj_succ.
  pose proof (Nat2Z.is_nonneg n).
  unfold m'. rewrite tb_put by lia. unfold p.
  destruct (Z.eqb_spec i (s + lb)) as [->|Hne].
  - replace (s + (lb + 1) <=? s + lb) with false by (symmetry; blia).
    replace ((s + lb <=? s + lb) && (s + lb <? s + lb + Z.succ (Z.of_nat n)))
      with true by (symmetry; blia). f_equal. lia.
  - replace ((s + lb <=? i) && (i <? s + lb + Z.succ (Z.of_nat n)))
      with ((s + (lb + 1) <=? i) && (i <? s + (lb + 1) + Z.of_nat n)) by blia. done.
Qed.

(** Clearing is writing an image of zeros. *)
Lemma zero_bits_write n mapped s lb image :
  (forall i, byte_at image i = 0) -> zero_bits mapped s lb n = write_bits mapped s lb image n.
Proof.
  intros Hz. revert mapped lb. induction n as [|n IH]; intros mapped lb; cbn [zero_bits write_bits].
  { done. }
  rewrite Hz, Z.land_0_l, IH. cbn [Z.eqb negb]. do 3 f_equal.
  apply byte_ext; [apply in_u8_to_u8..|]. intros i Hi.
  rewrite !to_u8_testbit, !Z.lnot_spec, to_u8_testbit by lia.
  replace (i <? 8) with true by (symmetry; lia). by rewrite !andb_true_r.
Qed.

Lemma read_bits_testbit m mapped s n first bit acc j :
  bytes_ok mapped -> 0 <= s -> 0 <= first -> 0 <= bit -> bit + Z.of_nat m <= 8 -> 0 <= j < 8 ->
  Z.testbit (read_bits mapped s n first bit m acc) j
  = Z.testbit acc j || ((bit <=? j) && (j <? bit + Z.of_nat m) && (first + j <? n)
                        && tb mapped (s + (first + j))).
Proof.
  intros Hm Hs Hf. revert bit acc. induction m as [|m IH]; intros bit acc Hb Hle Hj;
    cbn [read_bits].
  { change (Z.of_nat 0) with 0. replace ((bit <=? j) && (j <? bit + 0)) with false by (symmetry; blia).
    by rewrite orb_false_r. }
  rewrite Nat2Z.inj_succ in *. pose proof (Nat2Z.is_nonneg m).
  destruct (Z.leb_spec n (first + bit)) as [Hstop|Hgo].
  { destruct ((bit <=? j) && (j <? bit + Z.succ (Z.of_nat m)) && (first + j <? n)) eqn:E;
      [lia|by rewrite orb_false_r]. }
  rewrite IH by lia. rewrite land_mask_testbit by (auto with ec; apply Z.mod_pos_bound; lia).
  change (Z.testbit (byte_at mapped _) _) with (tb mapped (s + (first + bit))).
  assert (Z.testbit (if tb mapped (s + (first + bit)) then Z.lor acc (to_u8 (Z.shiftl 1 bit))
      else acc) j = Z.testbit acc j || ((j =? bit) && tb mapped (s + (first + bit)))) as ->.
  { destruct (tb mapped (s + (first + bit))); [|by rewrite andb_false_r, orb_false_r].
    rewrite Z.lor_spec, to_u8_testbit, shiftl_1_testbit by lia.
    f_equal. lia. }
  destruct (Z.eqb_spec j bit) as [->|Hne].
  - replace (bit + 1 <=? bit) with false by (symmetry; blia).
    replace (bit <=? bit) with true by (symmetry; blia).
    replace (bit <? bit + Z.succ (Z.of_nat m)) with true by (symmetry; blia).
    replace (first + bit <? n) with true by (symmetry; blia).
    cbn [andb]. by rewrite orb_false_r.
  - rewrite andb_false_l, orb_false_r.
    replace ((bit + 1 <=? j) && (j <? bit + 1 + Z.of_nat m))
      with ((bit <=? j) && (j <? bit + Z.succ (Z.of_nat m))) by blia. done.
Qed.

(** ** The operations, bit by bit *)

Section Geometry.
Context (s n : Z) (Hs : 0 <= s <= 7) (Hn : in_u16 n).

Lemma mapped_length : PdoMappedByteLength n s = if n =? 0 then 0 else (s + n + 7) / 8.
Proof using Hs.
  unfold PdoMappedByteLength. replace (7 <? s) with false by (symmetry; lia).
  by rewrite orb_false_r.
Qed.

(** Every mapped bit lies inside the region, every logical bit inside the image. *)
Lemma mapped_in_bounds i :
  0 <= i < n ->
  0 <= (s + i) / 8 < PdoMappedByteLength n s /\ 0 <= i / 8 < PdoImageByteLength n.
Proof using Hs Hn.
  intros Hi. rewrite mapped_length. unfold PdoImageByteLength, in_u16 in *.
  destruct (Z.eqb_spec n 0); [lia|]. dlia.
Qed.

Lemma mapped_covers (mapped : bytes) :
  zlen mapped = PdoMappedByteLength n s -> n <> 0 -> s + n <= 8 * zlen mapped < s + n + 8.
Proof using Hs Hn.
  intros -> Hne. rewrite mapped_length. unfold in_u16 in *.
  destruct (Z.eqb_spec n 0); [lia|]. dlia.
Qed.

Lemma tb_out l i : 8 * zlen l <= i -> tb l i = false.
Proof using Type.
  intros Hi. unfold tb. rewrite byte_at_out by dlia. apply Z.bits_0.
Qed.

Lemma padding_mask_bit u j :
  0 < u < 8 -> 0 <= j < 8 -> Z.testbit (to_u8 (Z.shiftl 255 u)) j = (u <=? j).
Proof using Type.
  intros Hu Hj. rewrite to_u8_testbit, Z.shiftl_spec by lia.
  change 255 with (Z.ones 8). destruct (Z.leb_spec u j).
  - rewrite Z.ones_spec_low by lia. lia.
  - rewrite Z.testbit_neg_r by lia. done.
Qed.

Lemma padding_iff image :
  bytes_ok image ->
  HasCanonicalPdoPadding n image = true <->
  zlen image = PdoImageByteLength n /\ forall i, n <= i -> tb image i = false.
Proof using Hn.
  intros Hok. unfold in_u16 in Hn. unfold HasCanonicalPdoPadding.
  destruct (Z.eqb_spec (zlen image) (PdoImageByteLength n)) as [Hlen|Hlen]; cbn [negb];
    [|split; [done|intros []; done]].
  unfold PdoImageByteLength in *. destruct (Z.eqb_spec n 0) as [->|Hne].
  { rewrite Z.eqb_eq. split; [|intros _; dlia].
    intros Hz. split; [done|]. intros i Hi. apply tb_out. dlia. }
  replace (to_u8 (n mod 8)) with (n mod 8) by (unfold to_u8; dlia).
  destruct (Z.eqb_spec (n mod 8) 0) as [Hu|Hu].
  { split; [|done]. intros _. split; [done|]. intros i Hi. apply tb_out. dlia. }
  rewrite Z.eqb_eq. set (last := byte_at image (zlen image - 1)).
  assert (in_u8 last) as Hlast by by apply byte_at_ok.
  split.
  - intros Hz. split; [done|]. intros i Hi.
    destruct (Z.lt_ge_cases i (8 * zlen image)) as [Hin|]; [|by apply tb_out].
    unfold tb. replace (i / 8) with (zlen image - 1) by dlia. fold last.
    apply (f_equal (fun z => Z.testbit z (i mod 8))) in Hz.
    rewrite Z.land_spec, Z.bits_0, padding_mask_bit in Hz by dlia.
    replace (n mod 8 <=? i mod 8) with true in Hz by (symmetry; dlia).
    by rewrite andb_true_r in Hz.
  - intros [_ Hbits]. apply byte_ext; [apply in_u8_land; [done|apply in_u8_to_u8]|
      unfold in_u8; lia|]. intros j Hj.
    rewrite Z.land_spec, Z.bits_0, padding_mask_bit by dlia.
    destruct (Z.leb_spec (n mod 8) j); [|apply andb_false_r].
    specialize (Hbits ((zlen image - 1) * 8 + j)). unfold tb in Hbits.
    replace (((zlen image - 1) * 8 + j) / 8) with (zlen image - 1) in Hbits by dlia.
    replace (((zlen image - 1) * 8 + j) mod 8) with j in Hbits by dlia.
    fold last in Hbits. rewrite Hbits by dlia. done.
Qed.

(** What a write does, on both of its paths. *)
Lemma write_written mapped image :
  bytes_ok mapped -> bytes_ok image ->
  zlen mapped = PdoMappedByteLength n s -> HasCanonicalPdoPadding n image = true ->
  exists r, WritePackedPdoImage mapped s n image = Some r /\
    written mapped r s (s + n) (fun i => tb image (i - s)).
Proof using Hs Hn.
  intros Hm Himg Hlen Hpad. unfold WritePackedPdoImage.
  rewrite Hpad, Hlen, Z.eqb_refl. cbn [negb].
  replace (7 <? s) with false by (symmetry; lia). cbn [orb].
  apply padding_iff in Hpad as [Hil Hip]; [|done].
  unfold in_u16, PdoImageByteLength in *.
  destruct ((s =? 0) && (n mod 8 =? 0)) eqn:Efast; eexists; (split; [done|]).
  - assert (s = 0) as Hs0 by lia. assert (n mod 8 = 0) as Hm8 by lia.
    assert (zlen image = zlen mapped) as Heq.
    { rewrite Hlen, mapped_length, Hs0. destruct (Z.eqb_spec n 0); dlia. }
    rewrite drop_ge, app_nil_r by (unfold zlen in *; lia).
    split_and!; [done|done|]. intros i Hi. rewrite Hs0, Z.sub_0_r.
    destruct ((0 <=? i) && (i <? 0 + n)) eqn:E; [done|].
    rewrite !tb_out; [done|dlia|dlia].
  - destruct (Z.eq_dec n 0) as [Hz|Hz].
    + rewrite Hz. cbn [Z.to_nat write_bits]. split_and!; [done|done|]. intros i Hi.
      destruct ((s <=? i) && (i <? s + 0)) eqn:E; [lia|done].
    + pose proof (mapped_covers mapped Hlen Hz).
      pose proof (write_bits_written (Z.to_nat n) mapped s 0 image Hm Himg) as H'.
      rewrite Z2Nat.id, Z.add_0_r in H' by lia. apply H'; lia.
Qed.

Lemma write_Some mapped image r :
  WritePackedPdoImage mapped s n image = Some r ->
  zlen mapped = PdoMappedByteLength n s /\ HasCanonicalPdoPadding n image = true.
Proof using Type.
  unfold WritePackedPdoImage. destruct (_ || _) eqn:G; [done|]. intros _.
  rewrite !orb_false_iff, !negb_false_iff in G. destruct G as [[_ ?] ?]. split; [lia|done].
Qed.

End Geometry.

Section Reading.
Context (s n : Z) (Hs : 0 <= s <= 7) (Hn : in_u16 n).

(** What a read returns, on both of its paths. *)
Definition read_view (mapped d : bytes) (offset : Z) (size : nat) : Prop :=
  bytes_ok d /\ length d = size /\
  forall i, 0 <= i < 8 * Z.of_nat size ->
    tb d i = (8 * offset + i <? n) && tb mapped (s + (8 * offset + i)).

Lemma read_slow_view mapped offset size :
  bytes_ok mapped -> 0 <= offset ->
  read_view mapped
    (map (fun byteIndex => read_bits mapped s n (offset * 8 + Z.of_nat byteIndex * 8) 0 8 0)
       (seq 0 size)) offset size.
Proof using Hs.
  intros Hm Ho. split_and!.
  - apply Forall_map, Forall_forall. intros k _. apply in_u8_bits.
    + assert (forall m bit acc first, 0 <= acc -> 0 <= read_bits mapped s n first bit m acc) as H.
      { induction m as [|m IH]; intros bit acc first Ha; cbn [read_bits]; [done|].
        destruct (_ <=? _); [done|]. apply IH. destruct (negb _); [|done].
        apply Z.lor_nonneg. split; [done|]. pose proof (in_u8_to_u8 (Z.shiftl 1 bit)).
        unfold in_u8 in *. lia. }
      by apply H.
    + assert (forall m bit acc first i, 8 <= i -> Z.testbit acc i = false ->
        Z.testbit (read_bits mapped s n first bit m acc) i = false) as H.
      { induction m as [|m IH]; intros bit acc first i Hi Ha; cbn [read_bits]; [done|].
        destruct (_ <=? _); [done|]. apply IH; [done|]. destruct (negb _); [|done].
        rewrite Z.lor_spec, Ha, testbit_u8_high by (auto using in_u8_to_u8). done. }
      intros i Hi. apply H; [done|apply Z.bits_0].
  - by rewrite length_map, length_seq.
  - intros i Hi. unfold tb at 1, byte_at. rewrite list_lookup_fmap, lookup_seq_lt by dlia.
    cbn [fmap option_fmap option_map from_option id]. rewrite read_bits_testbit by (done || dlia).
    rewrite Z.bits_0. cbn [orb]. change (Z.of_nat 8) with 8.
    replace ((0 <=? i mod 8) && (i mod 8 <? 0 + 8)) with true by (symmetry; dlia).
    cbn [andb]. replace (offset * 8 + Z.of_nat (0 + Z.to_nat (i / 8)) * 8 + i mod 8)
      with (8 * offset + i) by dlia. done.
Qed.

Lemma tb_slice (mapped : bytes) offset size i :
  0 <= offset -> 0 <= i < 8 * Z.of_nat size ->
  tb (take size (drop (Z.to_nat offset) mapped)) i = tb mapped (8 * offset + i).
Proof using Type.
  intros Ho Hi. unfold tb, byte_at. rewrite lookup_take_lt, lookup_drop by dlia.
  replace ((8 * offset + i) mod 8) with (i mod 8) by dlia.
  replace (Z.to_nat offset + Z.to_nat (i / 8))%nat with (Z.to_nat ((8 * offset + i) / 8))
    by dlia. done.
Qed.

Lemma keep_mask_bit u j :
  0 < u < 8 -> 0 <= j < 8 -> Z.testbit (to_u8 (Z.shiftl 1 u - 1)) j = (j <? u).
Proof using Type.
  intros Hu Hj. rewrite to_u8_testbit by lia. rewrite Z.shiftl_1_l, Z.sub_1_r.
  rewrite <- Z.ones_equiv. destruct (Z.ltb_spec j u).
  - rewrite Z.ones_spec_low by lia. lia.
  - rewrite Z.ones_spec_high by lia. done.
Qed.

Lemma read_viewed mapped offset size :
  bytes_ok mapped -> zlen mapped = PdoMappedByteLength n s ->
  0 <= offset -> offset + Z.of_nat size <= PdoImageByteLength n ->
  exists d, ReadPackedPdoChunk mapped s n offset size = Some d /\ read_view mapped d offset size.
Proof using Hs Hn.
  intros Hm Hlen Ho Hsize. unfold ReadPackedPdoChunk. rewrite Hlen, Z.eqb_refl. cbn [negb].
  pose proof (Nat2Z.is_nonneg size) as Hs0.
  replace (_ || _) with false by (symmetry; blia).
  destruct (Z.eqb_spec s 0) as [Hz|Hz]; [|eexists; split; [done|by apply read_slow_view]].
  set (d0 := take size _).
  assert (length d0 = size) as Hd0.
  { unfold d0, in_u16, PdoImageByteLength in *. rewrite mapped_length in Hlen by done.
    rewrite length_take, length_drop. unfold zlen in *. destruct (Z.eqb_spec n 0); dlia. }
  assert (zlen d0 = Z.of_nat size) as Hzd by (unfold zlen; lia).
  assert (bytes_ok d0) as Hd0ok by (unfold d0; auto with ec).
  assert (forall i, 0 <= i < 8 * Z.of_nat size -> tb d0 i = tb mapped (s + (8 * offset + i))) as Hd0b.
  { intros i Hi. rewrite Hz, Z.add_0_l. by apply tb_slice. }
  unfold in_u16, PdoImageByteLength in *. replace (to_u8 (n mod 8)) with (n mod 8) by (unfold to_u8; dlia).
  rewrite Hzd. eexists. split; [done|].
  destruct (Z.eqb_spec (n mod 8) 0), (Z.eqb_spec (Z.of_nat size) 0),
    (Z.eqb_spec (offset + Z.of_nat size) ((n + 7) / 8)); cbn [negb andb].
  all: try (split_and!; [done|done|]; intros i Hi; rewrite Hd0b by done;
    replace (_ <? n) with true by (symmetry; dlia); done).
  split_and!.
  - apply bytes_ok_set_byte, in_u8_land; auto using in_u8_to_u8 with ec.
  - unfold set_byte. by rewrite length_insert.
  - intros i Hi. unfold tb at 1. rewrite byte_at_set_byte by dlia.
    destruct (Z.eqb_spec (i / 8) (Z.of_nat size - 1)) as [E|E].
    + rewrite Z.land_spec, keep_mask_bit by dlia. rewrite <- E.
      change (Z.testbit (byte_at d0 (i / 8)) (i mod 8)) with (tb d0 i).
      rewrite Hd0b, andb_comm by done. f_equal. dlia.
    + change (Z.testbit _ _) with (tb d0 i). rewrite Hd0b by done.
      by replace (8 * offset + i <? n) with true by (symmetry; dlia).
Qed.

Lemma read_Some mapped offset size d :
  ReadPackedPdoChunk mapped s n offset size = Some d -> 0 <= offset ->
  zlen mapped = PdoMappedByteLength n s /\ offset + Z.of_nat size <= PdoImageByteLength n.
Proof using Type.
  unfold ReadPackedPdoChunk. destruct (_ || _) eqn:G; [done|]. intros _ Ho. lia.
Qed.

(** A view determines the bytes read. *)
Lemma read_view_unique mapped d e offset size :
  read_view mapped d offset size -> read_view mapped e offset size -> d = e.
Proof using Type.
  intros (Hd & Hdl & Hdb) (He & Hel & Heb). apply bytes_ext; [done|done|unfold zlen; lia|].
  unfold zlen. intros i Hi. rewrite Hdb, Heb by lia. done.
Qed.

Lemma read_view_length mapped size d :
  bytes_ok mapped ->
  ReadPackedPdoChunk mapped s n 0 size = Some d -> length d = size.
Proof using Hs Hn.
  intros Hm Hr. pose proof (read_Some _ _ _ _ Hr ltac:(lia)) as [Hlen Hsz].
  destruct (read_viewed mapped 0 size Hm Hlen ltac:(lia) Hsz) as (e & He & _ & ? & _). congruence.
Qed.

End Reading.

(** A chunk is a slice of the whole image. *)
Lemma chunk_of_image mapped s n offset size :
  bytes_ok mapped -> 0 <= s <= 7 -> in_u16 n -> zlen mapped = PdoMappedByteLength n s ->
  0 <= offset -> offset + Z.of_nat size <= PdoImageByteLength n ->
  exists image,
    ReadPackedPdoChunk mapped s n 0 (Z.to_nat (PdoImageByteLength n)) = Some image /\
    ReadPackedPdoChunk mapped s n offset size
    = Some (take size (drop (Z.to_nat offset) image)).
Proof.
  intros Hm Hs Hn Hlen Ho Hsz.
  destruct (read_viewed s n Hs Hn mapped 0 (Z.to_nat (PdoImageByteLength n)) Hm Hlen)
    as (image & Hi & Hok & Hl & Hb); [lia|lia|].
  destruct (read_viewed s n Hs Hn mapped offset size Hm Hlen Ho Hsz) as (d & Hd & Hv).
  exists image. split; [done|]. rewrite Hd. f_equal.
  apply (read_view_unique s n mapped d _ offset size Hv). split_and!.
  - auto with ec.
  - rewrite length_take, length_drop. lia.
  - intros i Hi'. rewrite tb_slice, Hb by lia. done.
Qed.

Lemma zero_padding n :
  in_u16 n ->
  HasCanonicalPdoPadding n (replicate (Z.to_nat (PdoImageByteLength n)) 0) = true.
Proof.
  intros Hn. unfold in_u16 in Hn. set (zeros := replicate _ 0).
  assert (zlen zeros = PdoImageByteLength n) as Hlen.
  { unfold zlen, zeros. rewrite length_replicate. unfold PdoImageByteLength. dlia. }
  unfold HasCanonicalPdoPadding. rewrite Hlen, Z.eqb_refl. cbn [negb].
  destruct (Z.eqb_spec n 0) as [->|]; [done|]. destruct (_ =? 0); [done|].
  unfold byte_at, zeros. destruct (_ !! _) eqn:E; cbn; [|done].
  by apply lookup_replicate in E as [-> _].
Qed.

(** Zeroing is writing the all-zero image. *)
Lemma zero_is_write mapped s n :
  bytes_ok mapped -> in_u8 s -> in_u16 n ->
  ZeroPackedPdoImage mapped s n
  = WritePackedPdoImage mapped s n (replicate (Z.to_nat (PdoImageByteLength n)) 0).
Proof.
  intros Hm Hs Hn. unfold in_u8, in_u16 in *.
  set (zeros := replicate _ 0).
  assert (forall i, byte_at zeros i = 0) as Hz.
  { intros i. unfold byte_at, zeros. destruct (_ !! _) eqn:E; [|done].
    by apply lookup_replicate in E as [-> _]. }
  assert (zlen zeros = PdoImageByteLength n) as Hlen.
  { unfold zlen, zeros. rewrite length_replicate. unfold PdoImageByteLength. dlia. }
  assert (HasCanonicalPdoPadding n zeros = true) as Hpad.
  { by apply zero_padding. }
  unfold ZeroPackedPdoImage, WritePackedPdoImage. rewrite Hpad, orb_false_r.
  destruct ((7 <? s) || _) eqn:G; [done|].
  destruct ((s =? 0) && (n mod 8 =? 0)) eqn:E; [|by rewrite (zero_bits_write _ _ _ _ zeros)].
  f_equal. apply orb_false_iff in G as [G1 G2].
  assert (zlen mapped = zlen zeros) as Hml.
  { rewrite Hlen. assert (zlen mapped = PdoMappedByteLength n s) as -> by lia.
    rewrite mapped_length by lia. unfold PdoImageByteLength. destruct (Z.eqb_spec n 0); dlia. }
  rewrite drop_ge, app_nil_r by (unfold zlen in Hml; lia).
  unfold zeros in *. unfold zlen in Hml. rewrite length_replicate in Hml.
  replace (Z.to_nat (PdoImageByteLength n)) with (length mapped) by lia.
  clear. induction mapped as [|b mapped IH]; cbn; [done|]. by rewrite IH.
Qed.

(** ** Properties *)

(** A write succeeds exactly when the starting bit, the region's size and the
    image's padding are right; it then sets each of the SubDevice's bits to the bit
    of the image and leaves every other bit of the region, the neighbours' ones,
    unchanged. The byte-copy fast path and the bit loop agree on this. *)
Theorem WritePackedPdoImage_spec mapped s n image :
  bytes_ok mapped -> bytes_ok image -> in_u8 s -> in_u16 n ->
  match WritePackedPdoImage mapped s n image with
  | Some r =>
      bytes_ok r /\ zlen r = zlen mapped /\
      forall i, 0 <= i < 8 * zlen mapped ->
        tb r i = if (s <=? i) && (i <? s + n) then tb image (i - s) else tb mapped i
  | None =>
      7 < s \/ zlen mapped <> PdoMappedByteLength n s \/ HasCanonicalPdoPadding n image = false
  end.
Proof.
  intros Hm Himg Hs Hn. unfold in_u8 in Hs.
  destruct (Z.lt_ge_cases 7 s) as [H7|H7].
  { unfold WritePackedPdoImage. replace (7 <? s) with true by (symmetry; lia). by left. }
  destruct (Z.eq_dec (zlen mapped) (PdoMappedByteLength n s)) as [Hlen|Hlen].
  2: { destruct (WritePackedPdoImage mapped s n image) eqn:E; [|tauto].
       by apply write_Some in E as []. }
  destruct (HasCanonicalPdoPadding n image) eqn:Hpad.
  2: { destruct (WritePackedPdoImage mapped s n image) eqn:E; [|tauto].
       apply write_Some in E as []. congruence. }
  destruct (write_written s n ltac:(lia) Hn mapped image Hm Himg Hlen Hpad)
    as (r & -> & Hok & Hz & Hbits).
  split_and!; [done|done|]. intros i Hi. apply Hbits. lia.
Qed.

(** Three bits written at bit 2 of a byte whose other bits are all set. *)
Lemma WritePackedPdoImage_spec_witness :
  WritePackedPdoImage [255] 2 3 [2] = Some [0xeb] /\ tb [0xeb] 7 = tb [255] 7.
Proof.
  split; [reflexivity|].
  pose proof (WritePackedPdoImage_spec [255] 2 3 [2]
    ltac:(repeat constructor; by vm_compute) ltac:(repeat constructor; by vm_compute)
    ltac:(unfold in_u8; lia) ltac:(unfold in_u16; lia)) as H.
  change (WritePackedPdoImage _ _ _ _) with (Some [0xeb]) in H. destruct H as (_ & _ & H).
  exact (H 7 ltac:(change (zlen [255]) with 1; lia)).
Defined.

(** reading back the whole image after a write returns the image written. *)
Theorem pdo_write_read mapped s n image r :
  bytes_ok mapped -> bytes_ok image -> 0 <= s <= 7 -> in_u16 n ->
  WritePackedPdoImage mapped s n image = Some r ->
  ReadPackedPdoChunk r s n 0 (length image) = Some image.
Proof.
  intros Hm Himg Hs Hn Hw. pose proof (write_Some _ _ _ _ _ Hw) as [Hlen Hpad].
  destruct (write_written s n Hs Hn mapped image Hm Himg Hlen Hpad)
    as (r' & Hr' & Hok & Hz & Hbits).
  assert (r' = r) as -> by congruence. clear Hr'.
  pose proof Hpad as Hpad'. apply padding_iff in Hpad' as [Hil Hip]; [|done|done].
  destruct (read_viewed s n Hs Hn r 0 (length image)) as (d & -> & Hv);
    [done|congruence|lia|unfold zlen in Hil; lia|].
  f_equal. apply (read_view_unique s n r d image 0 (length image) Hv).
  split_and!; [done|done|]. intros i Hi. rewrite Z.mul_0_r, Z.add_0_l, Hbits by lia.
  destruct (Z.ltb_spec i n) as [Hin|Hin]; cbn [andb]; [|by apply Hip].
  replace ((s <=? s + i) && _) with true by (symmetry; lia). f_equal. lia.
Qed.

Lemma pdo_write_read_witness :
  ReadPackedPdoChunk [0x3f; 0xf0] 5 7 0 1 = Some [1].
Proof.
  apply (pdo_write_read [0xff; 0xff] 5 7 [1]); [..|reflexivity].
  - repeat constructor; by vm_compute.
  - repeat constructor; by vm_compute.
  - lia.
  - unfold in_u16; lia.
Defined.

(** writing back what was read changes nothing: an image that was read is
    canonical, and the region is unchanged by the write. *)
Theorem pdo_read_write mapped s n image :
  bytes_ok mapped -> 0 <= s <= 7 -> in_u16 n ->
  ReadPackedPdoChunk mapped s n 0 (Z.to_nat (PdoImageByteLength n)) = Some image ->
  HasCanonicalPdoPadding n image = true /\
  WritePackedPdoImage mapped s n image = Some mapped.
Proof.
  intros Hm Hs Hn Hr. pose proof (read_Some _ _ _ _ _ _ Hr ltac:(lia)) as [Hlen Hsz].
  assert (0 <= PdoImageByteLength n) as Hnn by (unfold in_u16, PdoImageByteLength in *; dlia).
  destruct (read_viewed s n Hs Hn mapped 0 _ Hm Hlen ltac:(lia) Hsz) as (d & Hd & Hv).
  assert (d = image) as -> by congruence. clear Hd. destruct Hv as (Hok & Hl & Hbits).
  assert (HasCanonicalPdoPadding n image = true) as Hpad.
  { apply padding_iff; [done|done|]. split; [unfold zlen; lia|]. intros i Hi.
    destruct (Z.lt_ge_cases i (8 * PdoImageByteLength n)).
    - unfold in_u16 in Hn. rewrite Hbits by lia.
      by replace (_ <? n) with false by (symmetry; lia).
    - apply tb_out. unfold zlen. lia. }
  split; [done|].
  destruct (write_written s n Hs Hn mapped image Hm Hok Hlen Hpad) as (r & -> & Hro & Hz & Hb).
  f_equal. apply bytes_ext; [done|done|done|]. intros i Hi. rewrite Hb by lia.
  destruct ((s <=? i) && (i <? s + n)) eqn:E; [|done].
  rewrite Hbits by (unfold in_u16, PdoImageByteLength in *; dlia).
  replace (_ <? n) with true by (symmetry; lia). cbn [andb]. f_equal. lia.
Qed.

Lemma pdo_read_write_witness :
  WritePackedPdoImage [0xa5; 0x5a] 3 9 [0x54; 0x1] = Some [0xa5; 0x5a].
Proof.
  apply (pdo_read_write [0xa5; 0x5a] 3 9 [0x54; 0x1]); [..|reflexivity].
  - repeat constructor; by vm_compute.
  - lia.
  - unfold in_u16; lia.
Defined.

(** an image published in chunks is the image: the chunk read at an offset is the
    corresponding part of the whole image, for every offset and size inside it. *)
Theorem pdo_chunks_agree mapped s n offset size :
  bytes_ok mapped -> 0 <= s <= 7 -> in_u16 n -> zlen mapped = PdoMappedByteLength n s ->
  0 <= offset -> offset + Z.of_nat size <= PdoImageByteLength n ->
  exists image,
    ReadPackedPdoChunk mapped s n 0 (Z.to_nat (PdoImageByteLength n)) = Some image /\
    ReadPackedPdoChunk mapped s n offset size
    = Some (take size (drop (Z.to_nat offset) image)).
Proof. apply chunk_of_image. Qed.

Lemma pdo_chunks_agree_witness :
  exists image, ReadPackedPdoChunk [0xa5; 0x5a; 0x0f] 3 20 0 3 = Some image /\
    ReadPackedPdoChunk [0xa5; 0x5a; 0x0f] 3 20 1 2 = Some (take 2 (drop 1 image)).
Proof.
  apply (pdo_chunks_agree [0xa5; 0x5a; 0x0f] 3 20 1 2).
  - repeat constructor; by vm_compute.
  - lia.
  - unfold in_u16; lia.
  - reflexivity.
  - lia.
  - by vm_compute.
Defined.

(** zeroing a SubDevice's outputs is writing the all-zero image: afterwards its
    image reads as zeros, and no bit of a neighbour has changed. *)
Theorem ZeroPackedPdoImage_spec mapped s n :
  bytes_ok mapped -> in_u8 s -> in_u16 n ->
  ZeroPackedPdoImage mapped s n
  = WritePackedPdoImage mapped s n (replicate (Z.to_nat (PdoImageByteLength n)) 0).
Proof. apply zero_is_write. Qed.

Lemma ZeroPackedPdoImage_spec_witness :
  ZeroPackedPdoImage [0xff; 0xff] 6 4 = Some [0x3f; 0xfc] /\
  ZeroPackedPdoImage [0xff; 0xff] 6 4 = WritePackedPdoImage [0xff; 0xff] 6 4 [0].
Proof.
  split; [reflexivity|]. apply (ZeroPackedPdoImage_spec [0xff; 0xff] 6 4).
  - repeat constructor; by vm_compute.
  - unfold in_u8; lia.
  - unfold in_u16; lia.
Defined.
