(* ===== verification/SafetyGate.v ===== *)
(** * The safety gate and the controller rate limit (safety.hpp)

    [SafetyGate] arbitrates which client may drive outputs. Its state is the
    record [t]; every method is a function from the state to the [Result] it
    returns and the new state. Time points are nanoseconds of the steady
    clock, timeouts milliseconds, as in the source; both are unbounded here
    (the steady clock wraps after 292 years). *)

From S2P Require Import Prelude Protocol.

(** ** The controller rate limit *)

Module RateLimit.

Record ControllerRateLimit := mkRateLimit { burstFrames : Z; framesPerSecond : Z }.

Definition kMaximumControllerFramesPerSecond : Z := 200000.
Definition kMaximumControllerBurstFrames : Z := 10000.

Definition clamp (v lo hi : Z) : Z := if v <? lo then lo else if hi <? v then hi else v.

(** 64-bit unsigned arithmetic, with the wrap-around written out. *)
Definition CalculateControllerRateLimit (outputTargetCount outputCommandTimeout : Z)
    : ControllerRateLimit :=
  let timeoutMs := if 0 <? outputCommandTimeout then outputCommandTimeout else 1 in
  let refreshesPerSecond := to_u64 (1000 + timeoutMs - 1) / timeoutMs in
  let targets := outputTargetCount in
  let requiredWrites :=
    if kMaximumControllerFramesPerSecond / refreshesPerSecond <? targets
    then kMaximumControllerFramesPerSecond
    else to_u64 (targets * refreshesPerSecond) in
  let rateWithHeadroom :=
    if (kMaximumControllerFramesPerSecond - 100) / 2 <? requiredWrites
    then kMaximumControllerFramesPerSecond
    else to_u64 (requiredWrites * 2 + 100) in
  let burstWithHeadroom :=
    if (kMaximumControllerBurstFrames - 64) / 3 <? targets
    then kMaximumControllerBurstFrames
    else to_u64 (targets * 3 + 64) in
  mkRateLimit
    (to_u32 (clamp burstWithHeadroom 500 kMaximumControllerBurstFrames))
    (to_u32 (clamp rateWithHeadroom 2000 kMaximumControllerFramesPerSecond)).

(** The number of refreshes per second a watchdog of [timeout] ms needs. *)
Definition refreshes (timeout : Z) : Z := (1000 + Z.max 1 timeout - 1) / Z.max 1 timeout.

End RateLimit.

(** [SaturatingIncrement] on a type whose maximum is [max]. *)
Definition SaturatingIncrement (max value : Z) : Z :=
  if negb (value =? max) then value + 1 else value.

(** ** The gate *)

Module Gate.

Record Result := mkResult {
  status : AckStatus;
  outputsWereDisabled : bool;
  epochChanged : bool
}.

Record Controller := mkController { id : Z; pid : Z; lastHeartbeat : Z }.

Record t := mk {
  epoch : Z;
  heartbeatTimeout : Z;
  outputCommandTimeout : Z;
  lastOutputCommand : Z;
  controller : option Controller;
  outputsEnabled : bool
}.

Definition result_ok : Result := mkResult Ok false false.
Definition result_of (s : AckStatus) : Result := mkResult s false false.

(** A duration in milliseconds as nanoseconds. *)
Definition ms (d : Z) : Z := d * 1000000.

Definition create (initialEpoch heartbeatTimeout outputCommandTimeout : Z) : t :=
  mk (if initialEpoch =? 0 then 1 else initialEpoch) heartbeatTimeout outputCommandTimeout
     0 None false.

Definition hasController (g : t) : bool := bool_decide (is_Some (controller g)).
Definition controllerPid (g : t) : Z := match controller g with Some c => pid c | None => 0 end.
Definition controllerId (g : t) : option Z := id <$> controller g.

Definition Authorize (g : t) (clientId commandEpoch : Z) : Result :=
  if negb (commandEpoch =? epoch g) then result_of StaleEpoch
  else
    match controller g with
    | None => result_of Unauthorized
    | Some c => if negb (id c =? clientId) then result_of Unauthorized else result_ok
    end.

Definition DropControllerAndAdvanceEpoch (g : t) : Result * t :=
  (mkResult Ok (outputsEnabled g) true,
   mk (if epoch g =? U64_MAX then 1 else epoch g + 1) (heartbeatTimeout g)
      (outputCommandTimeout g) (lastOutputCommand g) None false).

Definition is_ok (r : Result) : bool := bool_decide (status r = Ok).

Definition Acquire (g : t) (clientId peerPid now : Z) : Result * t :=
  if clientId =? 0 then (result_of Malformed, g)
  else if match controller g with Some c => negb (id c =? clientId) | None => false end
  then (result_of Busy, g)
  else
    (mkResult Ok (outputsEnabled g) false,
     mk (epoch g) (heartbeatTimeout g) (outputCommandTimeout g) (lastOutputCommand g)
        (Some (mkController clientId peerPid now)) false).

(** [controller_->lastHeartbeat = now]. *)
Definition touch (c : option Controller) (now : Z) : option Controller :=
  (fun c => mkController (id c) (pid c) now) <$> c.

Definition Heartbeat (g : t) (clientId commandEpoch now : Z) : Result * t :=
  let authorization := Authorize g clientId commandEpoch in
  if negb (is_ok authorization) then (authorization, g)
  else
    (result_ok,
     mk (epoch g) (heartbeatTimeout g) (outputCommandTimeout g) (lastOutputCommand g)
        (touch (controller g) now) (outputsEnabled g)).

Definition SetOutputEnabled (g : t) (clientId commandEpoch : Z)
    (enabled processDataHealthy : bool) (now : Z) : Result * t :=
  let authorization := Authorize g clientId commandEpoch in
  if negb (is_ok authorization) then (authorization, g)
  else if enabled && negb processDataHealthy then (result_of Disabled, g)
  else if negb enabled then DropControllerAndAdvanceEpoch g
  else
    (mkResult Ok (outputsEnabled g) false,
     mk (epoch g) (heartbeatTimeout g) (outputCommandTimeout g) now
        (touch (controller g) now) true).

Definition AuthorizeWrite (g : t) (clientId commandEpoch : Z) : Result :=
  let authorization := Authorize g clientId commandEpoch in
  if negb (is_ok authorization) then authorization
  else if negb (outputsEnabled g) then result_of Disabled
  else result_ok.

Definition RecordOutputWrite (g : t) (clientId commandEpoch now : Z) : Result * t :=
  let authorization := AuthorizeWrite g clientId commandEpoch in
  if is_ok authorization then
    (authorization,
     mk (epoch g) (heartbeatTimeout g) (outputCommandTimeout g) now
        (controller g) (outputsEnabled g))
  else (authorization, g).

Definition AuthorizeController (g : t) (clientId commandEpoch : Z) : Result :=
  Authorize g clientId commandEpoch.

Definition Release (g : t) (clientId commandEpoch : Z) : Result * t :=
  let authorization := Authorize g clientId commandEpoch in
  if negb (is_ok authorization) then (authorization, g)
  else DropControllerAndAdvanceEpoch g.

Definition Disconnect (g : t) (clientId : Z) : Result * t :=
  match controller g with
  | Some c =>
      if negb (id c =? clientId) then (result_ok, g) else DropControllerAndAdvanceEpoch g
  | None => (result_ok, g)
  end.

Definition Expire (g : t) (now : Z) : Result * t :=
  match controller g with
  | Some c =>
      if now - lastHeartbeat c <=? ms (heartbeatTimeout g) then (result_ok, g)
      else DropControllerAndAdvanceEpoch g
  | None => (result_ok, g)
  end.

Definition ExpireOutputCommands (g : t) (now : Z) : Result * t :=
  match controller g with
  | Some _ =>
      if negb (outputsEnabled g) ||
         (now - lastOutputCommand g <=? ms (outputCommandTimeout g))
      then (result_ok, g)
      else DropControllerAndAdvanceEpoch g
  | None => (result_ok, g)
  end.

Definition Invalidate (g : t) : Result * t := DropControllerAndAdvanceEpoch g.

End Gate.

Import Gate.

(** ** The gate as a state machine *)

(** The calls that can change the gate's state. *)
Inductive op :=
| OpAcquire (clientId peerPid now : Z)
| OpHeartbeat (clientId commandEpoch now : Z)
| OpSetOutputEnabled (clientId commandEpoch : Z) (enabled processDataHealthy : bool) (now : Z)
| OpRecordOutputWrite (clientId commandEpoch now : Z)
| OpRelease (clientId commandEpoch : Z)
| OpDisconnect (clientId : Z)
| OpExpire (now : Z)
| OpExpireOutputCommands (now : Z)
| OpInvalidate.

Definition apply (g : t) (o : op) : Result * t :=
  match o with
  | OpAcquire c p now => Acquire g c p now
  | OpHeartbeat c e now => Heartbeat g c e now
  | OpSetOutputEnabled c e b h now => SetOutputEnabled g c e b h now
  | OpRecordOutputWrite c e now => RecordOutputWrite g c e now
  | OpRelease c e => Release g c e
  | OpDisconnect c => Disconnect g c
  | OpExpire now => Expire g now
  | OpExpireOutputCommands now => ExpireOutputCommands g now
  | OpInvalidate => Invalidate g
  end.

Definition run (g : t) (ops : list op) : t := fold_left (fun g o => snd (apply g o)) ops g.

(** The number of calls of a history that dropped the controller. *)
Fixpoint revocations (g : t) (ops : list op) : Z :=
  match ops with
  | [] => 0
  | o :: ops => bit (epochChanged (fst (apply g o))) + revocations (snd (apply g o)) ops
  end.

Lemma run_app g ops ops' : run g (ops ++ ops') = run (run g ops) ops'.
Proof. apply fold_left_app. Qed.

Lemma run_cons g o ops : run g (o :: ops) = run (snd (apply g o)) ops.
Proof. done. Qed.

Lemma revocations_nonneg g ops : 0 <= revocations g ops.
Proof.
  revert g. induction ops as [|o ops IH]; intros g; cbn [revocations]; [done|].
  pose proof (bit_le_1 (epochChanged (fst (apply g o)))). specialize (IH (snd (apply g o))). lia.
Qed.

Lemma revocations_app g ops ops' :
  revocations g (ops ++ ops') = revocations g ops + revocations (run g ops) ops'.
Proof.
  revert g. induction ops as [|o ops IH]; intros g; cbn [revocations app]; [done|].
  rewrite IH, run_cons. lia.
Qed.

(** Everything a call can do, one case per outcome. *)
Inductive outcome (g : t) : op -> Result -> t -> Prop :=
| out_grant c p now r :
    c <> 0 -> (controller g = None \/ controllerId g = Some c) ->
    r = mkResult Ok (outputsEnabled g) false ->
    outcome g (OpAcquire c p now) r
      (mk (epoch g) (heartbeatTimeout g) (outputCommandTimeout g) (lastOutputCommand g)
          (Some (mkController c p now)) false)
| out_heartbeat c now k :
    controller g = Some k -> id k = c ->
    outcome g (OpHeartbeat c (epoch g) now) result_ok
      (mk (epoch g) (heartbeatTimeout g) (outputCommandTimeout g) (lastOutputCommand g)
          (Some (mkController c (pid k) now)) (outputsEnabled g))
| out_enable c now k :
    controller g = Some k -> id k = c ->
    outcome g (OpSetOutputEnabled c (epoch g) true true now)
      (mkResult Ok (outputsEnabled g) false)
      (mk (epoch g) (heartbeatTimeout g) (outputCommandTimeout g) now
          (Some (mkController c (pid k) now)) true)
| out_write c now :
    controllerId g = Some c -> outputsEnabled g = true ->
    outcome g (OpRecordOutputWrite c (epoch g) now) result_ok
      (mk (epoch g) (heartbeatTimeout g) (outputCommandTimeout g) now
          (controller g) true)
| out_drop o r g' :
    DropControllerAndAdvanceEpoch g = (r, g') -> outcome g o r g'
| out_same o r : epochChanged r = false -> outputsWereDisabled r = false ->
    (status r = Ok -> match o with
       | OpAcquire _ _ _ | OpHeartbeat _ _ _ | OpSetOutputEnabled _ _ _ _ _
       | OpRecordOutputWrite _ _ _ | OpRelease _ _ | OpInvalidate => False
       | _ => True end) ->
    outcome g o r g.

Lemma Authorize_cases g c e :
  (Authorize g c e = result_ok /\ e = epoch g /\ exists k, controller g = Some k /\ id k = c) \/
  (Authorize g c e = result_of StaleEpoch /\ e <> epoch g) \/
  (Authorize g c e = result_of Unauthorized /\ e = epoch g /\ controllerId g <> Some c).
Proof.
  unfold Authorize, controllerId. destruct (Z.eqb_spec e (epoch g)) as [->|Hne]; cbn [negb]; [|tauto].
  destruct (controller g) as [k|]; cbn; [|by right; right].
  destruct (Z.eqb_spec (id k) c) as [Hc|Hk]; cbn [negb].
  - left. split_and!; eauto.
  - right; right. split_and!; try done. congruence.
Qed.

Ltac same := apply out_same; done.

Lemma apply_outcome g o : outcome g o (fst (apply g o)) (snd (apply g o)).
Proof.
  destruct o as [c p now|c e now|c e b h now|c e now|c e|c|now|now|]; cbn [apply].
  - unfold Acquire. destruct (Z.eqb_spec c 0); [same|].
    unfold controllerId. destruct (controller g) as [k|] eqn:Hk; cbn.
    + destruct (Z.eqb_spec (id k) c) as [<-|]; cbn [negb]; [|same].
      eapply out_grant; [done|right; unfold controllerId; by rewrite Hk|done].
    + eapply out_grant; [done|by left|done].
  - unfold Heartbeat. destruct (Authorize_cases g c e) as [(-> & -> & k & Hk & Hid)|[[-> _]|(-> & _)]];
      [|same|same]. cbn. rewrite Hk. cbn. subst c. by eapply out_heartbeat.
  - unfold SetOutputEnabled.
    destruct (Authorize_cases g c e) as [(-> & -> & k & Hk & Hid)|[[-> _]|(-> & _)]];
      [|same|same]. change (is_ok result_ok) with true. cbn [negb].
    destruct b, h; cbn [andb negb]; [|same|by apply out_drop|by apply out_drop].
    cbn. rewrite Hk. cbn. subst c. by eapply out_enable.
  - unfold RecordOutputWrite, AuthorizeWrite.
    destruct (Authorize_cases g c e) as [(-> & -> & k & Hk & Hid)|[[-> _]|(-> & _)]];
      [|same|same]. change (is_ok result_ok) with true. cbn [negb].
    destruct (outputsEnabled g) eqn:Hen; cbn [negb]; [|same].
    cbn. eapply out_write; [|done]. unfold controllerId. rewrite Hk. cbn. by subst c.
  - unfold Release.
    destruct (Authorize_cases g c e) as [(-> & -> & k & Hk & Hid)|[[-> _]|(-> & _)]];
      [|same|same]. by apply out_drop.
  - unfold Disconnect. destruct (controller g) as [k|]; [|same].
    destruct (negb _); [same|by apply out_drop].
  - unfold Expire. destruct (controller g) as [k|]; [|same].
    destruct (_ <=? _); [same|by apply out_drop].
  - unfold ExpireOutputCommands. destruct (controller g) as [k|]; [|same].
    destruct (_ || _); [same|by apply out_drop].
  - by apply out_drop.
Qed.

Arguments apply : simpl never.

(** ** The invariant *)

Definition gate_inv (g : t) : Prop :=
  1 <= epoch g <= U64_MAX /\
  (outputsEnabled g = true -> is_Some (controller g)) /\
  (forall k, controller g = Some k -> id k <> 0).

Lemma gate_inv_outcome g o r g' : gate_inv g -> outcome g o r g' -> gate_inv g'.
Proof.
  intros (He & Hen & Hid) Ho. unfold gate_inv.
  destruct Ho as [c p now r Hc _ _|c now k Hk <-|c now k Hk <-|c now Hk Hon|o r g' [= <- <-]|o r _ _ _];
    cbn.
  all: try (destruct (Z.eqb_spec (epoch g) U64_MAX)).
  all: split_and!; try done; try lia; intros; simplify_eq/=; eauto.
Qed.

Lemma gate_inv_run g ops : gate_inv g -> gate_inv (run g ops).
Proof.
  revert g. induction ops as [|o ops IH]; intros g Hg; [done|].
  rewrite run_cons. apply IH. eapply gate_inv_outcome; [done|apply apply_outcome].
Qed.

Lemma gate_inv_create e h c : in_u64 e -> gate_inv (create e h c).
Proof.
  unfold in_u64, gate_inv, create; cbn. intros. split_and!; try done.
  all: destruct (Z.eqb_spec e 0); lia.
Qed.

(** ** Epochs *)

(** The epoch [k] revocations after [e]: the values 1 .. 2^64-1, cyclically. *)
Definition epoch_after (e k : Z) : Z := 1 + (e - 1 + k) mod U64_MAX.

Lemma epoch_after_0 e : 1 <= e <= U64_MAX -> epoch_after e 0 = e.
Proof. intros. unfold epoch_after. rewrite Z.add_0_r, Z.mod_small by lia. lia. Qed.

Lemma epoch_after_1 e :
  1 <= e <= U64_MAX -> epoch_after e 1 = if e =? U64_MAX then 1 else e + 1.
Proof.
  intros. unfold epoch_after. destruct (Z.eqb_spec e U64_MAX) as [->|]; [done|].
  rewrite Z.mod_small by lia. lia.
Qed.

Lemma epoch_after_add e j k : epoch_after (epoch_after e j) k = epoch_after e (j + k).
Proof.
  unfold epoch_after. f_equal.
  replace (1 + (e - 1 + j) mod U64_MAX - 1 + k) with ((e - 1 + j) mod U64_MAX + k) by lia.
  rewrite Zplus_mod_idemp_l. f_equal. lia.
Qed.

Lemma epoch_after_fresh e k :
  1 <= e <= U64_MAX -> 0 < k < U64_MAX -> epoch_after e k <> e.
Proof.
  intros He Hk. unfold epoch_after. intros H.
  assert ((e - 1 + k) mod U64_MAX = e - 1) as H' by lia. clear H. dlia.
Qed.

Lemma epoch_outcome g o r g' :
  gate_inv g -> outcome g o r g' -> epoch g' = epoch_after (epoch g) (bit (epochChanged r)).
Proof.
  intros (He & _ & _) Ho.
  destruct Ho as [c p now r _ _ ->| | | |o r g' [= <- <-]|o r Hc _ _]; cbn [epochChanged epoch bit];
    rewrite ?epoch_after_0 by done; try done.
  - by rewrite epoch_after_1.
  - rewrite Hc. cbn [bit]. by rewrite epoch_after_0.
Qed.

Lemma epoch_run g ops :
  gate_inv g -> epoch (run g ops) = epoch_after (epoch g) (revocations g ops).
Proof.
  revert g. induction ops as [|o ops IH]; intros g Hg; cbn [revocations].
  { cbn. destruct Hg as [He _]. by rewrite epoch_after_0. }
  pose proof (apply_outcome g o) as Ho.
  rewrite run_cons, IH by by eapply gate_inv_outcome.
  rewrite (epoch_outcome _ _ _ _ Hg Ho), epoch_after_add. done.
Qed.

(** Without a revocation the lease stays with the client that holds it. *)
Lemma holder_outcome g o r g' c :
  outcome g o r g' -> epochChanged r = false -> controllerId g = Some c -> controllerId g' = Some c.
Proof.
  intros Ho Hr Hc. unfold controllerId in *.
  destruct Ho as [c' p now r _ [Hn|Hn] _|c' now k Hk <-|c' now k Hk <-|c' now Hk _|o r g' [= <- <-]|];
    unfold controllerId in *;
    repeat match goal with H : controller g = _ |- _ => rewrite H in * end;
    cbn in *; congruence.
Qed.

Lemma holder_run g ops c :
  revocations g ops = 0 -> controllerId g = Some c -> controllerId (run g ops) = Some c.
Proof.
  revert g. induction ops as [|o ops IH]; intros g; cbn [revocations]; [done|].
  intros Hz Hc. pose proof (revocations_nonneg (snd (apply g o)) ops).
  pose proof (bit_le_1 (epochChanged (fst (apply g o)))).
  rewrite run_cons. apply IH; [lia|].
  eapply holder_outcome; [apply apply_outcome| |done].
  destruct (epochChanged _); [cbn in *; lia|done].
Qed.

Lemma AuthorizeWrite_Ok g c e :
  status (AuthorizeWrite g c e) = Ok ->
  e = epoch g /\ controllerId g = Some c /\ outputsEnabled g = true.
Proof.
  unfold AuthorizeWrite, controllerId.
  destruct (Authorize_cases g c e) as [(-> & -> & k & -> & <-)|[[-> _]|(-> & _)]]; [|done|done].
  change (is_ok result_ok) with true. cbn [negb]. by destruct (outputsEnabled g).
Qed.

Lemma Authorize_stale g c e : e <> epoch g -> Authorize g c e = result_of StaleEpoch.
Proof. intros H. unfold Authorize. by destruct (Z.eqb_spec e (epoch g)). Qed.

(** ** Who enabled the outputs, and when they were last commanded *)

(** [o] is a call that the gate in state [g] accepts as an output command of
    client [c] at time [now]: an enable or a write. *)
Definition output_command (g : t) (o : op) (c now : Z) : Prop :=
  status (fst (apply g o)) = Ok /\
  (o = OpSetOutputEnabled c (epoch g) true true now \/ o = OpRecordOutputWrite c (epoch g) now).

(** A sign of life of client [c] at time [now]. *)
Definition sign_of_life (g : t) (o : op) (c now : Z) : Prop :=
  status (fst (apply g o)) = Ok /\
  ((exists p, o = OpAcquire c p now) \/ o = OpHeartbeat c (epoch g) now \/
   o = OpSetOutputEnabled c (epoch g) true true now).

(** Some call of the history [ops] from [g] satisfies [P] in its state, and
    the lease was not revoked after it. *)
Definition since (g : t) (ops : list op) (P : t -> op -> Prop) : Prop :=
  exists ops1 o ops2, ops = ops1 ++ o :: ops2 /\ P (run g ops1) o /\
    revocations (run g ops1) (o :: ops2) = 0.

Lemma since_snoc_now g ops o (P : t -> op -> Prop) :
  P (run g ops) o -> epochChanged (fst (apply (run g ops) o)) = false -> since g (ops ++ [o]) P.
Proof.
  intros HP Hr. exists ops, o, []. split_and!; [done|done|]. cbn [revocations]. by rewrite Hr.
Qed.

Lemma since_snoc_later g ops o P :
  since g ops P -> epochChanged (fst (apply (run g ops) o)) = false -> since g (ops ++ [o]) P.
Proof.
  intros (ops1 & o' & ops2 & -> & HP & Hz) Hr. exists ops1, o', (ops2 ++ [o]).
  split_and!; [by rewrite <- app_assoc|done|].
  rewrite app_comm_cons, revocations_app, Hz.
  rewrite run_app in Hr. cbn [revocations]. by rewrite Hr.
Qed.

Lemma run_snoc g ops o : run g (ops ++ [o]) = snd (apply (run g ops) o).
Proof. by rewrite run_app. Qed.

(** The last call of the history that [Q] accepts, at time [now], is in the current lease. *)
Definition latest (g : t) (ops : list op) (Q : t -> op -> Z -> Prop) (now : Z) : Prop :=
  exists ops1 o ops2, ops = ops1 ++ o :: ops2 /\ Q (run g ops1) o now /\
    revocations (run g ops1) (o :: ops2) = 0 /\
    forall a o' b now', ops2 = a ++ o' :: b -> ~ Q (run g (ops1 ++ o :: a)) o' now'.

Lemma latest_snoc_now g ops o (Q : t -> op -> Z -> Prop) now :
  Q (run g ops) o now -> epochChanged (fst (apply (run g ops) o)) = false ->
  latest g (ops ++ [o]) Q now.
Proof.
  intros HQ Hr. exists ops, o, []. split_and!; [done|done| |by intros []].
  cbn [revocations]. by rewrite Hr.
Qed.

Lemma latest_snoc_later g ops o (Q : t -> op -> Z -> Prop) now :
  latest g ops Q now -> epochChanged (fst (apply (run g ops) o)) = false ->
  (forall now', ~ Q (run g ops) o now') -> latest g (ops ++ [o]) Q now.
Proof.
  intros (ops1 & o' & ops2 & -> & HQ & Hz & Hl) Hr Hn. exists ops1, o', (ops2 ++ [o]).
  split_and!; [by rewrite <- app_assoc|done| |].
  - rewrite app_comm_cons, revocations_app, Hz.
    rewrite run_app in Hr. cbn [revocations]. by rewrite Hr.
  - intros a x b now' E. destruct b as [|y b _] using rev_ind.
    + apply app_inj_tail in E as [-> ->]. apply Hn.
    + rewrite app_comm_cons, app_assoc in E. apply app_inj_tail in E as [-> _]. by eapply Hl.
Qed.

Section History.
Context (g0 : t) (Hfree : controller g0 = None) (Hoff : outputsEnabled g0 = false).

(** The heartbeat time of a lease is the time of its last sign of life. *)
Lemma life_latest ops k :
  controller (run g0 ops) = Some k ->
  latest g0 ops (fun g o => sign_of_life g o (id k)) (lastHeartbeat k).
Proof using Hfree.
  revert k. induction ops as [|o ops IH] using rev_ind; intros k; [by cbn; rewrite Hfree|].
  rewrite run_snoc. pose proof (apply_outcome (run g0 ops) o) as Ho.
  remember (fst (apply (run g0 ops) o)) as r eqn:Er. remember (snd (apply (run g0 ops) o)) as g' eqn:Eg.
  destruct Ho as [c p now r' Hc _ ->|c now k' Hk <-|c now k' Hk <-|c now Hk Hon|o r' g' [= <- <-]|o r' Hr _ Hn];
    cbn [controller]; intros Hk'; simplify_eq/=.
  - apply latest_snoc_now; [|by rewrite <- Er]. split; [by rewrite <- Er|]. eauto.
  - apply latest_snoc_now; [|by rewrite <- Er]. split; [by rewrite <- Er|]. tauto.
  - apply latest_snoc_now; [|by rewrite <- Er]. split; [by rewrite <- Er|]. tauto.
  - apply latest_snoc_later; [auto|by rewrite <- Er|]. by intros t' [_ [[]|[|]]].
  - apply latest_snoc_later; [auto|done|]. by intros t' [Hs [[? ->]|[->| ->]]]; apply Hn.
Qed.

(** The output-command time of enabled outputs is the time of the last one. *)
Lemma command_latest ops :
  outputsEnabled (run g0 ops) = true ->
  exists c, controllerId (run g0 ops) = Some c /\
    latest g0 ops (fun g o => output_command g o c) (lastOutputCommand (run g0 ops)).
Proof using Hoff.
  induction ops as [|o ops IH] using rev_ind; [by cbn; rewrite Hoff|].
  rewrite run_snoc. pose proof (apply_outcome (run g0 ops) o) as Ho.
  remember (fst (apply (run g0 ops) o)) as r eqn:Er. remember (snd (apply (run g0 ops) o)) as g' eqn:Eg.
  destruct Ho as [c p now r' Hc _ ->|c now k' Hk <-|c now k' Hk <-|c now Hk Hon|o r' g' [= <- <-]|o r' Hr _ Hn];
    cbn [outputsEnabled lastOutputCommand]; intros Hen; try done.
  - destruct (IH Hen) as (c & Hc & Hs). exists c. unfold controllerId in *. rewrite Hk in Hc.
    split; [done|]. apply latest_snoc_later; [done|by rewrite <- Er|]. by intros t' [_ [|]].
  - exists (id k'). split; [done|]. apply latest_snoc_now; [|by rewrite <- Er].
    split; [by rewrite <- Er|tauto].
  - exists c. split; [done|]. apply latest_snoc_now; [|by rewrite <- Er].
    split; [by rewrite <- Er|tauto].
  - destruct (IH Hen) as (c & Hc & Hs). exists c. split; [by subst|].
    apply latest_snoc_later; [done|by rewrite <- Er|]. subst. by intros t' [Hs' [->| ->]]; apply Hn.
Qed.

(** Enabled outputs were enabled by the client that still holds the lease. *)
Lemma enable_since ops :
  outputsEnabled (run g0 ops) = true ->
  exists c, controllerId (run g0 ops) = Some c /\
    since g0 ops (fun g o => controllerId g = Some c /\
      exists now, o = OpSetOutputEnabled c (epoch g) true true now).
Proof using Hoff.
  induction ops as [|o ops IH] using rev_ind; [by cbn; rewrite Hoff|].
  rewrite run_snoc. pose proof (apply_outcome (run g0 ops) o) as Ho.
  remember (fst (apply (run g0 ops) o)) as r eqn:Er. remember (snd (apply (run g0 ops) o)) as g' eqn:Eg.
  destruct Ho as [c p now r' Hc _ ->|c now k' Hk <-|c now k' Hk <-|c now Hk Hon|o r' g' [= <- <-]|o r' Hr _ _];
    cbn [outputsEnabled]; intros Hen; try done.
  - destruct (IH Hen) as (c & Hc & Hs). exists c. unfold controllerId in *. rewrite Hk in Hc.
    split; [done|]. apply since_snoc_later; [done|by rewrite <- Er].
  - exists (id k'). split; [done|]. apply since_snoc_now; [|by rewrite <- Er].
    unfold controllerId. rewrite Hk. eauto.
  - destruct (IH Hon) as (c' & Hc & Hs). exists c'. split; [done|].
    apply since_snoc_later; [done|by rewrite <- Er].
  - destruct (IH Hen) as (c & Hc & Hs). exists c. split; [by subst|].
    apply since_snoc_later; [done|by rewrite <- Er].
Qed.

End History.

(** ** The abstract lease

    What the gate promises, without clocks, process ids and the wrap-around of
    the epoch: a generation that grows with every revocation, and at most one
    holder, armed or not. [e0] is the epoch of generation 0. *)

Record lease := mkLease { generation : Z; holder : option (Z * bool) }.

Definition token (e0 : Z) (l : lease) : Z := epoch_after e0 (generation l).

(** The client and the epoch of a call that carries an epoch. *)
Definition command_of (o : op) : option (Z * Z) :=
  match o with
  | OpHeartbeat c e _ | OpSetOutputEnabled c e _ _ _ | OpRecordOutputWrite c e _
  | OpRelease c e => Some (c, e)
  | _ => None
  end.

Definition holds (l : lease) (c : Z) : Prop := exists armed, holder l = Some (c, armed).

Definition revoked (l : lease) : lease := mkLease (generation l + 1) None.

Inductive lease_step (e0 : Z) (l : lease) : op -> AckStatus -> lease -> Prop :=
| ls_grant c p now : c <> 0 -> holder l = None \/ holds l c ->
    lease_step e0 l (OpAcquire c p now) Ok (mkLease (generation l) (Some (c, false)))
| ls_null p now : lease_step e0 l (OpAcquire 0 p now) Malformed l
| ls_busy c p now c' : c <> 0 -> holds l c' -> c' <> c ->
    lease_step e0 l (OpAcquire c p now) Busy l
| ls_stale o c e : command_of o = Some (c, e) -> e <> token e0 l ->
    lease_step e0 l o StaleEpoch l
| ls_unauthorized o c : command_of o = Some (c, token e0 l) -> ~ holds l c ->
    lease_step e0 l o Unauthorized l
| ls_alive c now : holds l c -> lease_step e0 l (OpHeartbeat c (token e0 l) now) Ok l
| ls_unhealthy c now : holds l c ->
    lease_step e0 l (OpSetOutputEnabled c (token e0 l) true false now) Disabled l
| ls_arm c now : holds l c ->
    lease_step e0 l (OpSetOutputEnabled c (token e0 l) true true now) Ok
      (mkLease (generation l) (Some (c, true)))
| ls_disarm c h now : holds l c ->
    lease_step e0 l (OpSetOutputEnabled c (token e0 l) false h now) Ok (revoked l)
| ls_write c now : holder l = Some (c, true) ->
    lease_step e0 l (OpRecordOutputWrite c (token e0 l) now) Ok l
| ls_write_off c now : holder l = Some (c, false) ->
    lease_step e0 l (OpRecordOutputWrite c (token e0 l) now) Disabled l
| ls_release c : holds l c -> lease_step e0 l (OpRelease c (token e0 l)) Ok (revoked l)
| ls_disconnect c : holds l c -> lease_step e0 l (OpDisconnect c) Ok (revoked l)
| ls_disconnect_other c : ~ holds l c -> lease_step e0 l (OpDisconnect c) Ok l
| ls_timer_keep o : (exists now, o = OpExpire now \/ o = OpExpireOutputCommands now) ->
    lease_step e0 l o Ok l
| ls_timer_revoke o c : (exists now, o = OpExpire now \/ o = OpExpireOutputCommands now) ->
    holds l c -> lease_step e0 l o Ok (revoked l)
| ls_invalidate : lease_step e0 l OpInvalidate Ok (revoked l).

(** The lease a gate implements. *)
Definition implements (e0 : Z) (g : t) (l : lease) : Prop :=
  gate_inv g /\ epoch g = token e0 l /\
  holder l = (fun k => (id k, outputsEnabled g)) <$> controller g.

Lemma implements_holds e0 g l c : implements e0 g l -> holds l c <-> controllerId g = Some c.
Proof.
  intros (_ & _ & Hh). unfold holds, controllerId. rewrite Hh.
  destruct (controller g) as [k|]; cbn.
  - split; [intros [b [= <- _]]; done|]. intros [= <-]. eauto.
  - split; [by intros []|done].
Qed.

Lemma implements_revoked e0 g l r g' :
  implements e0 g l -> DropControllerAndAdvanceEpoch g = (r, g') -> implements e0 g' (revoked l).
Proof.
  intros (Hinv & He & Hh) Hd. split_and!.
  - eapply gate_inv_outcome; [done|]. by eapply (out_drop g OpInvalidate).
  - injection Hd as _ <-. unfold token, revoked. cbn [epoch generation].
    rewrite <- epoch_after_add. unfold token in He. rewrite <- He.
    symmetry. apply epoch_after_1. apply Hinv.
  - by injection Hd as _ <-.
Qed.

(** A call that carries an epoch either fails the same way at both levels or
    is a call of the holder with the current token. *)
Lemma refine_command e0 g l o c e :
  implements e0 g l -> command_of o = Some (c, e) ->
  (exists k, controller g = Some k /\ id k = c /\ e = token e0 l /\ holds l c /\
     Authorize g c e = result_ok) \/
  (fst (apply g o) = Authorize g c e /\ snd (apply g o) = g /\
   lease_step e0 l o (status (Authorize g c e)) l).
Proof.
  intros Hi Ho. pose proof Hi as (_ & He & _).
  destruct (Authorize_cases g c e) as [(HA & -> & k & Hk & Hid)|[(HA & Hne)|(HA & -> & Hne)]].
  - left. exists k. split_and!; auto. apply (implements_holds _ _ _ _ Hi).
    unfold controllerId. rewrite Hk. cbn. by rewrite Hid.
  - right. rewrite HA. split_and!; [..|by eapply ls_stale; [|rewrite <- He]].
    all: destruct o; cbn in Ho; simplify_eq; unfold apply, Heartbeat, SetOutputEnabled,
      RecordOutputWrite, AuthorizeWrite, Release; by rewrite HA.
  - right. rewrite HA. split_and!.
    3: { eapply ls_unauthorized; [rewrite <- He; done|]. by rewrite (implements_holds _ _ _ _ Hi). }
    all: destruct o; cbn in Ho; simplify_eq; unfold apply, Heartbeat, SetOutputEnabled,
      RecordOutputWrite, AuthorizeWrite, Release; by rewrite HA.
Qed.

(** The cases of the refinement, per kind of call. *)
Definition refines (e0 : Z) (g : t) (l : lease) (o : op) : Prop :=
  exists l', lease_step e0 l o (status (fst (apply g o))) l' /\ implements e0 (snd (apply g o)) l'.

Lemma refine_drop e0 g l o :
  implements e0 g l -> lease_step e0 l o Ok (revoked l) ->
  apply g o = DropControllerAndAdvanceEpoch g -> refines e0 g l o.
Proof.
  intros Hi Hl Ha. exists (revoked l). rewrite Ha. split; [done|].
  by eapply implements_revoked.
Qed.

Lemma refine_same e0 g l o r :
  implements e0 g l -> lease_step e0 l o (status r) l -> apply g o = (r, g) -> refines e0 g l o.
Proof. intros Hi Hl Ha. exists l. by rewrite Ha. Qed.

Lemma implements_step e0 g l o h :
  implements e0 g l -> epochChanged (fst (apply g o)) = false ->
  h = (fun k => (id k, outputsEnabled (snd (apply g o)))) <$> controller (snd (apply g o)) ->
  implements e0 (snd (apply g o)) (mkLease (generation l) h).
Proof.
  intros (Hinv & He & _) Hc Hh. pose proof (apply_outcome g o) as Ho. split_and!; [|..|done].
  - by eapply gate_inv_outcome.
  - rewrite (epoch_outcome _ _ _ _ Hinv Ho), Hc. cbn [bit].
    rewrite epoch_after_0 by apply Hinv. exact He.
Qed.

Lemma refine_acquire e0 g l c p now :
  implements e0 g l -> refines e0 g l (OpAcquire c p now).
Proof.
  intros Hi. pose proof (implements_holds _ _ _ c Hi) as Hc. pose proof Hi as (_ & _ & Hh).
  destruct (Z.eq_dec c 0) as [->|Hc0].
  { apply (refine_same _ _ _ _ (result_of Malformed)); [done|apply ls_null|done]. }
  destruct (decide (controller g = None \/ controllerId g = Some c)) as [Hg|Hg].
  - assert (apply g (OpAcquire c p now) = (mkResult Ok (outputsEnabled g) false,
      mk (epoch g) (heartbeatTimeout g) (outputCommandTimeout g) (lastOutputCommand g)
        (Some (mkController c p now)) false)) as Ha.
    { unfold apply, Acquire. destruct (Z.eqb_spec c 0); [done|]. unfold controllerId in Hg.
      destruct (controller g) as [k|]; [|done]. cbn in Hg.
      destruct Hg as [?|[= ->]]; [done|]. by rewrite Z.eqb_refl. }
    exists (mkLease (generation l) (Some (c, false))). split.
    + rewrite Ha. apply ls_grant; [done|]. rewrite Hc, Hh.
      destruct Hg as [->|?]; [by left|by right].
    + apply implements_step; by rewrite ?Ha.
  - destruct (controller g) as [k|] eqn:Hk; [|tauto].
    assert (id k <> c) as Hne.
    { intros <-. apply Hg. right. unfold controllerId. by rewrite Hk. }
    apply (refine_same _ _ _ _ (result_of Busy)); [done| |].
    + apply (ls_busy _ _ _ _ _ (id k)); [done| |done].
      apply (implements_holds _ _ _ _ Hi). unfold controllerId. by rewrite Hk.
    + unfold apply, Acquire. destruct (Z.eqb_spec c 0); [done|]. rewrite Hk.
      by destruct (Z.eqb_spec (id k) c).
Qed.

Lemma refine_authorized e0 g l o c k :
  implements e0 g l -> command_of o = Some (c, token e0 l) -> controller g = Some k -> id k = c ->
  holds l c -> Authorize g c (token e0 l) = result_ok -> refines e0 g l o.
Proof.
  intros Hi Ho Hk Hid Hh HA. pose proof Hi as (_ & _ & Hl). rewrite Hk in Hl. cbn in Hl.
  destruct o as [|c' e' now|c' e' b h now|c' e' now|c' e'|?|?|?|]; cbn in Ho; try discriminate Ho;
    injection Ho as -> ->.
  - assert (apply g (OpHeartbeat c (token e0 l) now) = (result_ok, mk (epoch g)
      (heartbeatTimeout g) (outputCommandTimeout g) (lastOutputCommand g)
      (Some (mkController c (pid k) now)) (outputsEnabled g))) as Ha.
    { unfold apply, Heartbeat. rewrite HA, Hk. cbn. by rewrite Hid. }
    exists (mkLease (generation l) (holder l)). split.
    + rewrite Ha. destruct l. by apply ls_alive.
    + apply implements_step; [done|by rewrite Ha|]. rewrite Ha. cbn. by rewrite Hl, Hid.
  - destruct b; [destruct h|].
    + assert (apply g (OpSetOutputEnabled c (token e0 l) true true now) =
        (mkResult Ok (outputsEnabled g) false, mk (epoch g) (heartbeatTimeout g)
          (outputCommandTimeout g) now (Some (mkController c (pid k) now)) true)) as Ha.
      { unfold apply, SetOutputEnabled. rewrite HA, Hk. cbn. by rewrite Hid. }
      exists (mkLease (generation l) (Some (c, true))). split.
      * rewrite Ha. by apply ls_arm.
      * apply implements_step; by rewrite ?Ha.
    + apply (refine_same _ _ _ _ (result_of Disabled)); [done|by apply ls_unhealthy|].
      unfold apply, SetOutputEnabled. by rewrite HA.
    + apply refine_drop; [done|by apply ls_disarm|].
      unfold apply, SetOutputEnabled. by rewrite HA.
  - destruct (outputsEnabled g) eqn:Hen.
    + assert (apply g (OpRecordOutputWrite c (token e0 l) now) = (result_ok, mk (epoch g)
        (heartbeatTimeout g) (outputCommandTimeout g) now (controller g) true)) as Ha.
      { unfold apply, RecordOutputWrite, AuthorizeWrite. rewrite HA, Hen. done. }
      exists (mkLease (generation l) (holder l)). split.
      * rewrite Ha. destruct l. apply ls_write. cbn in *. by rewrite Hl, Hid.
      * apply implements_step; [done|by rewrite Ha|]. rewrite Ha. cbn. by rewrite Hk, Hl.
    + apply (refine_same _ _ _ _ (result_of Disabled)); [done| |].
      * apply ls_write_off. by rewrite Hl, Hid.
      * unfold apply, RecordOutputWrite, AuthorizeWrite. by rewrite HA, Hen.
  - apply refine_drop; [done|by apply ls_release|]. unfold apply, Release. by rewrite HA.
Qed.

Lemma refine_timer e0 g l o :
  implements e0 g l -> (exists now, o = OpExpire now \/ o = OpExpireOutputCommands now) ->
  refines e0 g l o.
Proof.
  intros Hi Ho. pose proof (fun k => implements_holds _ _ _ (id k) Hi) as Hc.
  assert (apply g o = (result_ok, g) \/
    exists k, controller g = Some k /\ apply g o = DropControllerAndAdvanceEpoch g) as [Ha|(k & Hk & Ha)].
  { destruct Ho as [now [->| ->]]; unfold apply, Expire, ExpireOutputCommands;
      (destruct (controller g); [|by left]); case_match; [by left|by right; eauto|by left|by right; eauto]. }
  - apply (refine_same _ _ _ _ result_ok); [done|by apply ls_timer_keep|done].
  - eapply refine_drop; [done|eapply (ls_timer_revoke _ _ _ (id k))|done]; [done|].
    apply Hc. unfold controllerId. by rewrite Hk.
Qed.

Lemma refine_apply e0 g l o : implements e0 g l -> refines e0 g l o.
Proof.
  intros Hi. destruct (command_of o) as [[c e]|] eqn:Ho.
  - destruct (refine_command e0 g l o c e Hi Ho) as [(k & Hk & Hid & -> & Hh & HA)|(Hf & Hs & Hl)].
    + by eapply refine_authorized.
    + exists l. by rewrite Hf, Hs.
  - destruct o as [c p now| | | | |c|now|now|]; try discriminate Ho.
    + by apply refine_acquire.
    + destruct (decide (controllerId g = Some c)) as [Hc|Hc]; rewrite <- (implements_holds _ _ _ c Hi) in Hc.
      * apply refine_drop; [done|by apply ls_disconnect|].
        rewrite (implements_holds _ _ _ c Hi) in Hc. unfold controllerId in Hc.
        unfold apply, Disconnect. destruct (controller g) as [k|]; [|done].
        injection Hc as ->. by rewrite Z.eqb_refl.
      * apply (refine_same _ _ _ _ result_ok); [done|by apply ls_disconnect_other|].
        rewrite (implements_holds _ _ _ c Hi) in Hc. unfold controllerId in Hc.
        unfold apply, Disconnect. destruct (controller g) as [k|]; [|done]. cbn in Hc.
        destruct (Z.eqb_spec (id k) c) as [<-|]; [by destruct Hc|done].
    + apply refine_timer; [done|eauto].
    + apply refine_timer; [done|eauto].
    + apply refine_drop; [done|apply ls_invalidate|done].
Qed.

(** The acknowledgements of a history, and the abstract histories. *)
Fixpoint statuses (g : t) (ops : list op) : list AckStatus :=
  match ops with
  | [] => []
  | o :: ops => status (fst (apply g o)) :: statuses (snd (apply g o)) ops
  end.

Inductive lease_run (e0 : Z) : lease -> list op -> list AckStatus -> lease -> Prop :=
| lr_nil l : lease_run e0 l [] [] l
| lr_cons l o s l' ops ss l'' :
    lease_step e0 l o s l' -> lease_run e0 l' ops ss l'' -> lease_run e0 l (o :: ops) (s :: ss) l''.

Lemma refine_run e0 g l ops :
  implements e0 g l ->
  exists l', lease_run e0 l ops (statuses g ops) l' /\ implements e0 (run g ops) l'.
Proof.
  revert g l. induction ops as [|o ops IH]; intros g l Hi.
  { exists l. split; [constructor|done]. }
  destruct (refine_apply e0 g l o Hi) as (l1 & Hl1 & Hi1).
  destruct (IH _ _ Hi1) as (l2 & Hl2 & Hi2).
  exists l2. split; [by econstructor|done].
Qed.

Lemma timeouts_run g ops :
  heartbeatTimeout (run g ops) = heartbeatTimeout g /\
  outputCommandTimeout (run g ops) = outputCommandTimeout g.
Proof.
  revert g. induction ops as [|o ops IH]; intros g; [done|]. rewrite run_cons.
  destruct (IH (snd (apply g o))) as [-> ->]. pose proof (apply_outcome g o) as Ho.
  destruct Ho as [| | | |? ? ? [= _ <-]|]; done.
Qed.

Lemma Expire_controller g now k :
  controller g = Some k ->
  Expire g now = if now - lastHeartbeat k <=? ms (heartbeatTimeout g) then (result_ok, g)
                 else DropControllerAndAdvanceEpoch g.
Proof. intros H. unfold Expire. by rewrite H. Qed.

Lemma ExpireOutputCommands_enabled g now k :
  controller g = Some k -> outputsEnabled g = true ->
  ExpireOutputCommands g now =
    if now - lastOutputCommand g <=? ms (outputCommandTimeout g) then (result_ok, g)
    else DropControllerAndAdvanceEpoch g.
Proof. intros H Hen. unfold ExpireOutputCommands. by rewrite H, Hen. Qed.

(** ** Properties *)

(** C4: whatever calls reach a fresh gate, it answers as the abstract lease does and
    ends in a state that implements it: one holder at most, every revocation starts a
    new generation, only the holder with the current epoch is obeyed. *)
Theorem gate_refines_lease initialEpoch heartbeat command ops :
  in_u64 initialEpoch ->
  let g := create initialEpoch heartbeat command in
  exists l, lease_run (epoch g) (mkLease 0 None) ops (statuses g ops) l /\
    implements (epoch g) (run g ops) l.
Proof.
  intros He g. apply refine_run. pose proof (gate_inv_create initialEpoch heartbeat command He) as Hi.
  split_and!; [done| |done]. symmetry. apply epoch_after_0, Hi.
Qed.

(** Acquire, a rejected second client, enable, write, a timeout. *)
Definition sample_ops : list op :=
  [OpAcquire 1 100 0; OpAcquire 2 200 5; OpSetOutputEnabled 1 7 true true 10;
   OpRecordOutputWrite 1 7 20; OpExpireOutputCommands 200000000].

Lemma gate_refines_lease_witness :
  statuses (create 7 250 100) sample_ops = [Ok; Busy; Ok; Ok; Ok] /\
  exists l, lease_run 7 (mkLease 0 None) sample_ops (statuses (create 7 250 100) sample_ops) l /\
    implements 7 (run (create 7 250 100) sample_ops) l.
Proof.
  split; [reflexivity|]. apply (gate_refines_lease 7 250 100 sample_ops). unfold in_u64; lia.
Defined.

(** the gate's invariant holds after every sequence of calls: the epoch is a
    nonzero 64-bit value, enabled outputs have a controller, and a controller has a
    nonzero client id; and the epoch is the initial one advanced once per revocation,
    cyclically through the nonzero values. *)
Theorem gate_invariant initialEpoch heartbeat command ops :
  in_u64 initialEpoch ->
  let g := create initialEpoch heartbeat command in
  gate_inv (run g ops) /\ epoch (run g ops) = epoch_after (epoch g) (revocations g ops).
Proof.
  intros He g. pose proof (gate_inv_create initialEpoch heartbeat command He).
  split; [by apply gate_inv_run|by apply epoch_run].
Qed.

Lemma gate_invariant_witness :
  epoch (run (create U64_MAX 250 100) [OpAcquire 1 100 0; OpDisconnect 1]) = 1 /\
  gate_inv (run (create U64_MAX 250 100) [OpAcquire 1 100 0; OpDisconnect 1]).
Proof.
  split; [reflexivity|]. apply (gate_invariant U64_MAX 250 100). unfold in_u64; lia.
Defined.

(** one epoch has one controller: if the gate authorises a write of client [a] and
    later, after any calls, a write of client [b] with the same epoch, then [a = b]
    (unless all 2^64-1 epochs have been used up in between). *)
Theorem one_writer_per_epoch g ops a b e :
  gate_inv g -> revocations g ops < U64_MAX ->
  status (AuthorizeWrite g a e) = Ok -> status (AuthorizeWrite (run g ops) b e) = Ok -> a = b.
Proof.
  intros Hg Hk Ha Hb.
  apply AuthorizeWrite_Ok in Ha as (-> & Ha & _). apply AuthorizeWrite_Ok in Hb as (He & Hb & _).
  rewrite epoch_run in He by done. pose proof (revocations_nonneg g ops).
  destruct (Z.eq_dec (revocations g ops) 0) as [Hz|Hz].
  - rewrite (holder_run _ _ _ Hz Ha) in Hb. congruence.
  - destruct (epoch_after_fresh (epoch g) (revocations g ops)); [apply Hg|lia|done].
Qed.

Lemma one_writer_per_epoch_witness :
  let g := mk 7 250 100 0 (Some (mkController 1 100 0)) true in
  status (AuthorizeWrite g 1 7) = Ok /\
  status (AuthorizeWrite (run g [OpHeartbeat 1 7 3; OpAcquire 2 200 4]) 1 7) = Ok /\ 1 = 1.
Proof.
  intros g. split; [reflexivity|]. split; [reflexivity|].
  apply (one_writer_per_epoch g [OpHeartbeat 1 7 3; OpAcquire 2 200 4] 1 1 7).
  - split_and!; cbn; try lia; [by eexists|by intros k [= <-]].
  - by vm_compute.
  - reflexivity.
  - reflexivity.
Defined.

(** A revocation fences the past: once the lease has been dropped (and until
    2^64-1 revocations have happened) every command that carries the old epoch is
    answered StaleEpoch and changes nothing, whoever sends it. *)
Theorem stale_commands_fenced g ops client :
  gate_inv g -> 0 < revocations g ops < U64_MAX ->
  let g' := run g ops in
  (forall now, Heartbeat g' client (epoch g) now = (result_of StaleEpoch, g')) /\
  (forall b h now, SetOutputEnabled g' client (epoch g) b h now = (result_of StaleEpoch, g')) /\
  (forall now, RecordOutputWrite g' client (epoch g) now = (result_of StaleEpoch, g')) /\
  Release g' client (epoch g) = (result_of StaleEpoch, g') /\
  AuthorizeWrite g' client (epoch g) = result_of StaleEpoch /\
  AuthorizeController g' client (epoch g) = result_of StaleEpoch.
Proof.
  intros Hg Hk g'.
  assert (Authorize g' client (epoch g) = result_of StaleEpoch) as HA.
  { apply Authorize_stale. unfold g'. rewrite epoch_run by done. apply not_eq_sym.
    apply epoch_after_fresh; [apply Hg|lia]. }
  split_and!; intros; unfold Heartbeat, SetOutputEnabled, RecordOutputWrite, AuthorizeWrite,
    Release, AuthorizeController; by rewrite HA.
Qed.

Lemma stale_commands_fenced_witness :
  RecordOutputWrite (run (create 7 250 100) sample_ops) 1 7 300000000
  = (result_of StaleEpoch, run (create 7 250 100) sample_ops).
Proof.
  apply (stale_commands_fenced (create 7 250 100) sample_ops 1).
  - apply gate_inv_create. unfold in_u64; lia.
  - vm_compute. done.
Defined.

(** outputs are enabled only on request: if a fresh gate ends with outputs
    enabled, the client that holds the lease now has sent an enable with the epoch of
    that moment while the process data was healthy, and the lease was not revoked
    since. *)
Theorem outputs_enabled_by_holder initialEpoch heartbeat command ops :
  let g := create initialEpoch heartbeat command in
  outputsEnabled (run g ops) = true ->
  exists c ops1 now ops2,
    controllerId (run g ops) = Some c /\
    ops = ops1 ++ OpSetOutputEnabled c (epoch (run g ops1)) true true now :: ops2 /\
    controllerId (run g ops1) = Some c /\
    revocations (run g ops1) (OpSetOutputEnabled c (epoch (run g ops1)) true true now :: ops2) = 0.
Proof.
  intros g Hen. destruct (enable_since g eq_refl ops Hen)
    as (c & Hc & ops1 & o & ops2 & -> & (Hc1 & now & ->) & Hz).
  exists c, ops1, now, ops2. done.
Qed.

Lemma outputs_enabled_by_holder_witness :
  exists c ops1 now ops2,
    controllerId (run (create 7 250 100) (take 4 sample_ops)) = Some c /\
    take 4 sample_ops = ops1 ++ OpSetOutputEnabled c (epoch (run (create 7 250 100) ops1))
      true true now :: ops2 /\
    controllerId (run (create 7 250 100) ops1) = Some c /\
    revocations (run (create 7 250 100) ops1)
      (OpSetOutputEnabled c (epoch (run (create 7 250 100) ops1)) true true now :: ops2) = 0.
Proof. apply (outputs_enabled_by_holder 7 250 100 (take 4 sample_ops)). reflexivity. Defined.

(** C14: the watchdogs are exact: while outputs are enabled, running both expiry checks at time
    [now], as the daemon does, keeps them enabled if and only if the holder's last accepted
    output command (enable or write) is at most the output-command timeout old and its last
    sign of life at most the heartbeat timeout old, both within the current lease; otherwise
    the lease is revoked: there is no controller, outputs are off and the epoch moves on. *)
Theorem watchdogs initialEpoch heartbeat command ops now :
  let g0 := create initialEpoch heartbeat command in
  let g := run g0 ops in
  let g2 := snd (Expire (snd (ExpireOutputCommands g now)) now) in
  outputsEnabled g = true ->
  exists c t t', controllerId g = Some c /\
    latest g0 ops (fun g o => output_command g o c) t /\
    latest g0 ops (fun g o => sign_of_life g o c) t' /\
    (now - t <= ms command /\ now - t' <= ms heartbeat -> g2 = g) /\
    (~ (now - t <= ms command /\ now - t' <= ms heartbeat) ->
     g2 = snd (DropControllerAndAdvanceEpoch g)).
Proof.
  intros g0 g g2 Hen. destruct (timeouts_run g0 ops) as [Hh Hc].
  destruct (command_latest g0 eq_refl ops Hen) as (c & Hc' & Hs). fold g in Hh, Hc, Hc', Hs.
  unfold controllerId in *. destruct (controller g) as [k|] eqn:Hk; [|done].
  injection Hc' as <-. exists (id k), (lastOutputCommand g), (lastHeartbeat k).
  subst g2. rewrite (ExpireOutputCommands_enabled g now k Hk Hen), Hc.
  change (outputCommandTimeout g0) with command.
  split_and!; [done|done|by apply (life_latest g0 eq_refl ops)| |];
    destruct (Z.leb_spec (now - lastOutputCommand g) (ms command)) as [Ht|Ht]; cbn [snd]; intros Hb;
    try lia; try done; rewrite (Expire_controller g now k Hk), Hh; cbn [g0 create heartbeatTimeout];
    destruct (Z.leb_spec (now - lastHeartbeat k) (ms heartbeat)); done || lia.
Qed.

Lemma watchdogs_witness :
  exists c t t', controllerId (run (create 7 250 100) (take 4 sample_ops)) = Some c /\
    latest (create 7 250 100) (take 4 sample_ops) (fun g o => output_command g o c) t /\
    latest (create 7 250 100) (take 4 sample_ops) (fun g o => sign_of_life g o c) t'.
Proof.
  destruct (watchdogs 7 250 100 (take 4 sample_ops) 50000000 eq_refl) as (c & t & t' & H1 & H2 & H3 & _).
  by exists c, t, t'.
Defined.

Import RateLimit.

Lemma to_u64_small z : 0 <= z <= U64_MAX -> to_u64 z = z.
Proof. intros. unfold to_u64. apply Z.mod_small. lia. Qed.

Lemma to_u32_small z : 0 <= z <= U32_MAX -> to_u32 z = z.
Proof. intros. unfold to_u32. apply Z.mod_small. lia. Qed.

Lemma refreshes_bound timeout : in_i64 timeout -> 1 <= refreshes timeout <= 1000.
Proof.
  unfold in_i64, refreshes. intros H. set (t := Z.max 1 timeout). assert (1 <= t) by lia.
  split; [apply Z.div_le_lower_bound; lia|].
  apply Z.div_le_upper_bound; nia.
Qed.

(** The computation in 64-bit arithmetic is the one over the integers. *)
Lemma rate_limit_exact targets timeout :
  in_u64 targets -> in_i64 timeout ->
  CalculateControllerRateLimit targets timeout =
  mkRateLimit (clamp (Z.min 10000 (targets * 3 + 64)) 500 10000)
              (clamp (Z.min 200000 (targets * refreshes timeout * 2 + 100)) 2000 200000).
Proof.
  intros Ht Hto. pose proof (refreshes_bound timeout Hto) as Hr.
  unfold CalculateControllerRateLimit, kMaximumControllerFramesPerSecond,
    kMaximumControllerBurstFrames, in_u64, in_i64 in *.
  replace (if 0 <? timeout then timeout else 1) with (Z.max 1 timeout) by (split_ifs; lia).
  rewrite (to_u64_small (1000 + Z.max 1 timeout - 1)) by lia.
  fold (refreshes timeout). set (r := refreshes timeout) in *.
  assert ((200000 / r <? targets) = (200000 <? targets * r)) as ->.
  { destruct (Z.ltb_spec 200000 (targets * r)).
    - apply Z.ltb_lt. apply Z.div_lt_upper_bound; nia.
    - apply Z.ltb_ge. apply Z.div_le_lower_bound; nia. }
  change ((200000 - 100) / 2) with 99950. change ((10000 - 64) / 3) with 3312.
  assert (0 <= targets * r) by nia. set (w := targets * r) in *.
  f_equal.
  - destruct (Z.ltb_spec 3312 targets).
    + rewrite Z.min_l by lia. done.
    + rewrite to_u64_small, Z.min_r by lia. apply to_u32_small. unfold clamp. split_ifs; lia.
  - destruct (Z.ltb_spec 200000 w).
    + cbn [Z.ltb Z.compare]. rewrite Z.min_l by lia. done.
    + rewrite (to_u64_small w) by lia. destruct (Z.ltb_spec 99950 w).
      * rewrite Z.min_l by lia. done.
      * rewrite to_u64_small, Z.min_r by lia. apply to_u32_small. unfold clamp. split_ifs; lia.
Qed.

(** the controller's rate limit always lies between 500 and 10000 frames of burst
    and 2000 and 200000 frames per second, without overflow for any target count and
    timeout; and unless that cap is hit it is at least twice the number of writes
    per second that keep every target's output watchdog fed, plus 100. *)
Theorem rate_limit_sufficient targets timeout :
  in_u64 targets -> in_i64 timeout ->
  let limit := CalculateControllerRateLimit targets timeout in
  500 <= burstFrames limit <= 10000 /\ 2000 <= framesPerSecond limit <= 200000 /\
  (targets * refreshes timeout * 2 + 100 <= 200000 ->
   targets * refreshes timeout * 2 + 100 <= framesPerSecond limit) /\
  (targets * 3 + 64 <= 10000 -> targets * 3 + 64 <= burstFrames limit) /\
  1000 <= refreshes timeout * Z.max 1 timeout.
Proof.
  intros Ht Hto limit. unfold limit. rewrite rate_limit_exact by done.
  cbn [burstFrames framesPerSecond].
  assert (1000 <= refreshes timeout * Z.max 1 timeout).
  { unfold refreshes. set (t := Z.max 1 timeout). assert (1 <= t) by lia.
    pose proof (Z.mul_succ_div_gt (1000 + t - 1) t). nia. }
  unfold clamp. split_and!; try split; try done; split_ifs; lia.
Qed.

Lemma rate_limit_sufficient_witness :
  CalculateControllerRateLimit 16 10 = mkRateLimit 500 3300 /\
  16 * refreshes 10 * 2 + 100 <= framesPerSecond (CalculateControllerRateLimit 16 10).
Proof.
  split; [reflexivity|].
  destruct (rate_limit_sufficient 16 10) as (_ & _ & H & _);
    [unfold in_u64; lia|unfold in_i64; lia|]. apply H. by vm_compute.
Defined.
