(* ===== verification/SpscQueue.v ===== *)
(** * The single-producer single-consumer ring (main.cpp, SpscQueue)

    The bus thread and the main thread exchange output commands and input
    chunks through [SpscQueue]. [Ring] holds the queue's members and the three
    methods as functions on them; the rest of the file interleaves the two
    threads at the level of the atomic accesses. A load of the other thread's
    index may return an old value (the loads are acquire loads, not
    sequentially consistent ones), but never one older than this thread has
    already seen; the release stores make the slot written before an index
    visible to whoever loads that index. *)

From S2P Require Import Prelude.

Section Queue.
Context {V : Type} `{Inhabited V}.

(** [static_assert(Capacity >= 2)]. *)
Context (Capacity : nat) (HCapacity : (2 <= Capacity)%nat).

Record Ring := mkRing { values : list V; read : nat; write : nat }.

Definition empty_ring : Ring := mkRing (replicate Capacity inhabitant) 0 0.

Definition Next (value : nat) : nat := (value + 1) mod Capacity.

Definition TryPush (q : Ring) (value : V) : Ring * bool :=
  let write := write q in
  let next := Next write in
  if (next =? read q)%nat then (q, false)
  else (mkRing (<[write := value]> (values q)) (read q) next, true).

Definition TryPop (q : Ring) : Ring * option V :=
  let read := read q in
  if (read =? write q)%nat then (q, None)
  else (mkRing (values q) (Next read) (write q),
        Some (default inhabitant (values q !! read))).

Definition AvailableToWrite (q : Ring) : nat :=
  let write := write q in
  let read := read q in
  if (write <? read)%nat then read - write - 1
  else Capacity - (write - read) - 1.

(** ** The interleaving *)

(** Where each thread is inside its call. *)
Inductive producer := PIdle | PStore (v : V) | PPublish (v : V).
Inductive consumer := CIdle | CRead | CAdvance (v : V).

(** [pushed] and [popped] record the values whose index store has happened;
    their lengths count the stores. [seenRead] and [seenWrite] count how many
    of the other side's stores this thread has observed. *)
Record state := mkState {
  ring : Ring;
  pushed : list V;
  popped : list V;
  seenRead : nat;
  seenWrite : nat;
  ppc : producer;
  cpc : consumer
}.

Definition initial : state := mkState empty_ring [] [] 0 0 PIdle CIdle.

(** The index stored by the [k]-th store. *)
Definition index (k : nat) : nat := k mod Capacity.

Inductive label := Quiet | PushFailed | PushStarted | Pushed | Popped (v : V) | PopFailed
| Available (n : nat).

(** [AvailableToWrite] with the value [r] loaded from [read_]. *)
Definition available_at (q : Ring) (r : nat) : nat :=
  AvailableToWrite (mkRing (values q) r (write q)).

Inductive step (s : state) : label -> state -> Prop :=
| step_push_full k :
    ppc s = PIdle -> (seenRead s <= k <= length (popped s))%nat ->
    Next (write (ring s)) = index k ->
    step s PushFailed (mkState (ring s) (pushed s) (popped s) k (seenWrite s) PIdle (cpc s))
| step_push_free v k :
    ppc s = PIdle -> (seenRead s <= k <= length (popped s))%nat ->
    Next (write (ring s)) <> index k ->
    step s PushStarted (mkState (ring s) (pushed s) (popped s) k (seenWrite s) (PStore v) (cpc s))
| step_push_store v :
    ppc s = PStore v ->
    step s Quiet (mkState (mkRing (<[write (ring s) := v]> (values (ring s)))
                             (read (ring s)) (write (ring s)))
                    (pushed s) (popped s) (seenRead s) (seenWrite s) (PPublish v) (cpc s))
| step_push_publish v :
    ppc s = PPublish v ->
    step s Pushed (mkState (mkRing (values (ring s)) (read (ring s)) (Next (write (ring s))))
                     (pushed s ++ [v]) (popped s) (seenRead s) (seenWrite s) PIdle (cpc s))
| step_available k :
    ppc s = PIdle -> (seenRead s <= k <= length (popped s))%nat ->
    step s (Available (available_at (ring s) (index k)))
      (mkState (ring s) (pushed s) (popped s) k (seenWrite s) PIdle (cpc s))
| step_pop_empty k :
    cpc s = CIdle -> (seenWrite s <= k <= length (pushed s))%nat ->
    read (ring s) = index k ->
    step s PopFailed (mkState (ring s) (pushed s) (popped s) (seenRead s) k (ppc s) CIdle)
| step_pop_some k :
    cpc s = CIdle -> (seenWrite s <= k <= length (pushed s))%nat ->
    read (ring s) <> index k ->
    step s Quiet (mkState (ring s) (pushed s) (popped s) (seenRead s) k (ppc s) CRead)
| step_pop_read :
    cpc s = CRead ->
    step s Quiet (mkState (ring s) (pushed s) (popped s) (seenRead s) (seenWrite s) (ppc s)
                    (CAdvance (default inhabitant (values (ring s) !! read (ring s)))))
| step_pop_advance v :
    cpc s = CAdvance v ->
    step s (Popped v) (mkState (mkRing (values (ring s)) (Next (read (ring s))) (write (ring s)))
                         (pushed s) (popped s ++ [v]) (seenRead s) (seenWrite s) (ppc s) CIdle).

Inductive steps : state -> list label -> state -> Prop :=
| steps_nil s : steps s [] s
| steps_cons s l s' ls s'' : step s l s' -> steps s' ls s'' -> steps s (l :: ls) s''.

Definition reachable (s : state) : Prop := exists ls, steps initial ls s.

(** ** The invariant *)

Record queue_inv (s : state) : Prop := {
  inv_length : length (values (ring s)) = Capacity;
  inv_read : read (ring s) = index (length (popped s));
  inv_write : write (ring s) = index (length (pushed s));
  inv_popped : popped s = take (length (popped s)) (pushed s);
  inv_order : (length (popped s) <= length (pushed s) <= length (popped s) + Capacity - 1)%nat;
  inv_seenRead : (seenRead s <= length (popped s))%nat;
  inv_seenWrite : (length (popped s) <= seenWrite s <= length (pushed s))%nat;
  inv_roomRead : (length (pushed s) < seenRead s + Capacity)%nat;
  inv_slots : forall i v, pushed s !! i = Some v -> (length (popped s) <= i)%nat ->
    values (ring s) !! index i = Some v;
  inv_producer : match ppc s with
    | PIdle => True
    | PStore _ => (length (pushed s) + 1 < seenRead s + Capacity)%nat
    | PPublish v => (length (pushed s) + 1 < seenRead s + Capacity)%nat /\
        values (ring s) !! index (length (pushed s)) = Some v
    end;
  inv_consumer : match cpc s with
    | CIdle => True
    | CRead => (length (popped s) < seenWrite s)%nat
    | CAdvance v => (length (popped s) < seenWrite s)%nat /\
        pushed s !! length (popped s) = Some v
    end
}.

Lemma index_inj i j : (i <= j)%nat -> (j < i + Capacity)%nat -> index i = index j -> i = j.
Proof using HCapacity.
  unfold index. intros Hij Hj He.
  pose proof (Nat.div_mod_eq i Capacity). pose proof (Nat.div_mod_eq j Capacity).
  destruct (Nat.eq_dec (i / Capacity) (j / Capacity)) as [E|E]; [congruence|].
  pose proof (Nat.Div0.div_le_mono i j Capacity Hij). nia.
Qed.

Lemma Next_index k : Next (index k) = index (k + 1).
Proof using HCapacity.
  unfold Next, index. by rewrite Nat.Div0.add_mod_idemp_l.
Qed.

Lemma index_lt k : (index k < Capacity)%nat.
Proof using HCapacity. apply Nat.mod_upper_bound. lia. Qed.

Lemma queue_inv_initial : queue_inv initial.
Proof using HCapacity.
  constructor; cbn; try lia; try done.
  - by rewrite length_replicate.
  - unfold index. by rewrite Nat.Div0.mod_0_l.
  - unfold index. by rewrite Nat.Div0.mod_0_l.
Qed.

(** The slot the producer fills is not one the consumer still has to read. *)
Lemma slot_free s i :
  queue_inv s -> (length (pushed s) + 1 < seenRead s + Capacity)%nat ->
  (length (popped s) <= i < length (pushed s))%nat -> index (length (pushed s)) <> index i.
Proof using HCapacity.
  intros Hs Hroom Hi He. destruct Hs. symmetry in He. apply index_inj in He; lia.
Qed.

Lemma queue_inv_step s l s' : queue_inv s -> step s l s' -> queue_inv s'.
Proof using HCapacity.
  intros Hs Hstep. pose proof Hs as Hs'. destruct Hs'.
  destruct Hstep as [k Hpc Hk Hfull|v k Hpc Hk Hfree|v Hpc|v Hpc|k Hpc Hk|k Hpc Hk He|k Hpc Hk Hne|Hpc|v Hpc];
    rewrite ?Hpc in *.
  - constructor; cbn; auto; lia.
  - constructor; cbn; auto; try lia.
    rewrite inv_write0, Next_index in Hfree.
    assert (length (pushed s) + 1 <> k + Capacity)%nat as Hne; [|lia].
    intros E. apply Hfree. rewrite E. unfold index. rewrite <- (Nat.mul_1_l Capacity) at 1.
    apply Nat.Div0.mod_add.
  - constructor; cbn; auto.
    + by rewrite length_insert.
    + intros i x Hx Hi. rewrite list_lookup_insert_ne; [auto|].
      rewrite inv_write0. apply slot_free; [done|done|]. apply lookup_lt_Some in Hx. lia.
    + split; [done|]. rewrite inv_write0. apply list_lookup_insert_eq.
      rewrite inv_length0. apply index_lt.
  - destruct inv_producer0 as [Hroom Hv]. constructor; cbn; rewrite ?length_app; cbn; auto; try lia.
    + by rewrite inv_write0, Next_index.
    + by rewrite take_app_le by lia.
    + intros i x Hx Hi. apply lookup_app_Some in Hx as [Hx|[Hge Hx]]; [auto|].
      apply list_lookup_singleton_Some in Hx as [E ->].
      by replace i with (length (pushed s)) by lia.
    + destruct (cpc s); [done|lia|]. destruct inv_consumer0 as [? ?].
      split; [done|]. by apply lookup_app_l_Some.
  - constructor; cbn; auto; lia.
  - constructor; cbn; auto; lia.
  - constructor; cbn; auto; try lia.
    rewrite inv_read0 in Hne. destruct (Nat.eq_dec (length (popped s)) k) as [E|E]; [|lia].
    by rewrite E in Hne.
  - constructor; cbn; auto. split; [done|].
    destruct (lookup_lt_is_Some_2 (pushed s) (length (popped s)) ltac:(lia)) as [v Hv].
    rewrite Hv. f_equal. rewrite inv_read0. by rewrite (inv_slots0 _ _ Hv) by lia.
  - destruct inv_consumer0 as [Hlt inv_consumer0]. pose proof (lookup_lt_Some _ _ _ inv_consumer0).
    constructor; cbn; rewrite ?length_app; cbn; auto; try lia.
    + by rewrite inv_read0, Next_index.
    + rewrite Nat.add_1_r. erewrite take_S_r by done. by rewrite <- inv_popped0.
    + intros i x Hx Hi. apply inv_slots0; [done|lia].
Qed.

Lemma queue_inv_steps s ls s' : queue_inv s -> steps s ls s' -> queue_inv s'.
Proof using HCapacity. intros Hs Hsteps. induction Hsteps; eauto using queue_inv_step. Qed.

Lemma queue_inv_reachable s : reachable s -> queue_inv s.
Proof using HCapacity. intros [ls Hls]. eapply queue_inv_steps; [apply queue_inv_initial|done]. Qed.

(** ** AvailableToWrite *)

Lemma available_exact q k w :
  write q = index w -> (k <= w < k + Capacity)%nat ->
  available_at q (index k) = (Capacity - 1 - (w - k))%nat.
Proof using HCapacity.
  intros Hw Hk. unfold available_at, AvailableToWrite. cbn [read write]. rewrite Hw.
  pose proof (index_lt k). pose proof (index_lt w).
  assert ((w - k) = (index w - index k) /\ index k <= index w \/
          w - k = (index w + Capacity - index k) /\ index w < index k)%nat as Hc.
  { unfold index in *. pose proof (Nat.div_mod_eq k Capacity) as Ek.
    pose proof (Nat.div_mod_eq w Capacity) as Ew.
    assert (w / Capacity = k / Capacity \/ w / Capacity = S (k / Capacity))%nat as [E|E].
    { pose proof (Nat.Div0.div_le_mono k w Capacity ltac:(lia)). nia. }
    - left. nia.
    - right. nia. }
  destruct (Nat.ltb_spec (index w) (index k)); lia.
Qed.

(** The number of pushes a history has accepted, and how far a push in
    progress is ahead of the published values. *)
Definition is_started (l : label) : bool := match l with PushStarted => true | _ => false end.
Definition started (ls : list label) : nat := length (List.filter is_started ls).
Definition in_progress (s : state) : nat := match ppc s with PIdle => 0 | _ => 1 end.

Lemma started_step s l s' :
  step s l s' ->
  (length (pushed s') + in_progress s' = length (pushed s) + in_progress s + started [l])%nat /\
  (seenRead s <= seenRead s')%nat.
Proof using Type.
  clear HCapacity. intros Hs. unfold in_progress, started.
  destruct Hs; cbn in *; rewrite ?length_app; cbn;
    repeat match goal with H : ppc s = _ |- _ => rewrite H end; lia.
Qed.

Lemma started_steps s ls s' :
  steps s ls s' ->
  (length (pushed s') + in_progress s' = length (pushed s) + in_progress s + started ls)%nat /\
  (seenRead s <= seenRead s')%nat.
Proof using Type.
  clear HCapacity. induction 1 as [|s l s' ls s'' H1 _ IH]; [cbn; lia|].
  pose proof (started_step _ _ _ H1) as [E1 E2].
  change (l :: ls) with ([l] ++ ls). unfold started in *.
  rewrite List.filter_app, length_app. lia.
Qed.

Lemma steps_app_inv s ls ls' s'' :
  steps s (ls ++ ls') s'' -> exists s', steps s ls s' /\ steps s' ls' s''.
Proof using Type.
  revert s. induction ls as [|l ls IH]; intros s Hs; [exists s; split; [constructor|done]|].
  inversion Hs as [|? ? s1 ? ? H1 H2]; subst.
  destruct (IH _ H2) as (s2 & ? & ?). exists s2. split; [by econstructor|done].
Qed.

(** ** The ring used by one thread alone is a bounded list *)

Definition represents (q : Ring) (l : list V) : Prop :=
  exists r, length (values q) = Capacity /\ read q = index r /\
    write q = index (r + length l) /\ (length l < Capacity)%nat /\
    forall i v, l !! i = Some v -> values q !! index (r + i) = Some v.

Lemma represents_empty : represents empty_ring [].
Proof using HCapacity.
  exists O. cbn. rewrite length_replicate. unfold index. rewrite Nat.Div0.mod_0_l.
  split_and!; auto; lia || done.
Qed.

Lemma push_represents q l v :
  represents q l ->
  if (length l <? Capacity - 1)%nat
  then exists q', TryPush q v = (q', true) /\ represents q' (l ++ [v])
  else TryPush q v = (q, false).
Proof using HCapacity.
  intros (r & Hlen & Hr & Hw & Hl & Hslots). unfold TryPush. rewrite Hw, Hr, Next_index.
  destruct (Nat.ltb_spec (length l) (Capacity - 1)) as [Hroom|Hfull].
  - destruct (Nat.eqb_spec (index (r + length l + 1)) (index r)) as [E|E].
    { symmetry in E. apply index_inj in E; lia. }
    eexists. split; [done|]. exists r. cbn. rewrite length_insert, length_app. cbn.
    split_and!; [done|done|f_equal; lia|lia|]. intros i x Hx.
    apply lookup_app_Some in Hx as [Hx|[Hge Hx]].
    + rewrite list_lookup_insert_ne; [auto|]. apply lookup_lt_Some in Hx.
      intros E'. symmetry in E'. apply index_inj in E'; lia.
    + apply list_lookup_singleton_Some in Hx as [E' ->].
      replace i with (length l) by lia. apply list_lookup_insert_eq.
      rewrite Hlen. apply index_lt.
  - replace (r + length l + 1)%nat with (r + 1 * Capacity)%nat by lia.
    unfold index. by rewrite Nat.Div0.mod_add, Nat.eqb_refl.
Qed.

Lemma pop_represents q l :
  represents q l ->
  match l with
  | [] => TryPop q = (q, None)
  | v :: l' => exists q', TryPop q = (q', Some v) /\ represents q' l'
  end.
Proof using HCapacity.
  intros (r & Hlen & Hr & Hw & Hl & Hslots). unfold TryPop. rewrite Hr, Hw.
  destruct l as [|v l]; cbn in *; [by rewrite Nat.add_0_r, Nat.eqb_refl|].
  destruct (Nat.eqb_spec (index r) (index (r + S (length l)))) as [E|E].
  { apply index_inj in E; lia. }
  specialize (Hslots O v eq_refl) as H0. rewrite Nat.add_0_r in H0. rewrite H0.
  eexists. split; [done|]. exists (r + 1)%nat. cbn. rewrite Next_index.
  split_and!; [done|done|f_equal; lia|lia|].
  intros i x Hx. replace (r + 1 + i)%nat with (r + S i)%nat by lia. by apply Hslots.
Qed.

(** The queue holds one sequence. *)
Lemma represents_functional q l l' : represents q l -> represents q l' -> l = l'.
Proof using H HCapacity.
  revert q l'. induction l as [|v l IH]; intros q [|v' l'] Hl Hl';
    pose proof (pop_represents q _ Hl) as E; pose proof (pop_represents q _ Hl') as E'; cbn in E, E'.
  - done.
  - destruct E' as (? & E' & _). congruence.
  - destruct E as (? & E & _). congruence.
  - destruct E as (q1 & E & H1), E' as (q2 & E' & H2). rewrite E in E'. injection E' as <- <-. f_equal. by eapply IH.
Qed.

Lemma available_represents q l :
  represents q l -> AvailableToWrite q = (Capacity - 1 - length l)%nat.
Proof using HCapacity.
  intros (r & _ & Hr & Hw & Hl & _).
  transitivity (available_at q (read q)); [done|].
  rewrite Hr, (available_exact q r (r + length l) Hw) by lia. lia.
Qed.

End Queue.

(** ** Properties *)

(** C35: the queue is a FIFO under every interleaving of the two threads, stale loads
    included: the values popped are a prefix of the values pushed, and at most
    Capacity - 1 values are in the queue. *)
Theorem spsc_fifo {V} `{Inhabited V} Capacity (s : @state V) :
  (2 <= Capacity)%nat -> reachable Capacity s ->
  popped s `prefix_of` pushed s /\
  (length (pushed s) - length (popped s) <= Capacity - 1)%nat.
Proof.
  intros HC Hs. apply queue_inv_reachable in Hs; [|done]. destruct Hs. split; [|lia].
  rewrite inv_popped0. apply prefix_take.
Qed.

(** One push, then a pop whose load of the write index sees it. *)
Definition sample_reachable : @state nat :=
  mkState (mkRing [7; 0; 0]%nat 1 1) [7]%nat [7]%nat 0 1 PIdle CIdle.

Lemma sample_steps : reachable 3 sample_reachable.
Proof.
  eexists. eapply steps_cons; [by apply (step_push_free _ _ 7%nat 0); cbn; [|lia|done]|].
  eapply steps_cons; [by eapply step_push_store|].
  eapply steps_cons; [by eapply step_push_publish|].
  eapply steps_cons; [by apply (step_pop_some _ _ 1); cbn; [|lia|done]|].
  eapply steps_cons; [by eapply step_pop_read|].
  eapply steps_cons; [by eapply step_pop_advance|]. apply steps_nil.
Qed.

Lemma spsc_fifo_witness :
  popped sample_reachable `prefix_of` pushed sample_reachable.
Proof. apply (spsc_fifo 3); [lia|apply sample_steps]. Defined.

(** there is no data race on a slot: in no reachable state does the producer store
    to the slot that the consumer is about to read. *)
Theorem spsc_no_race {V} `{Inhabited V} Capacity (s : @state V) v :
  (2 <= Capacity)%nat -> reachable Capacity s ->
  ppc s = PStore v -> cpc s = CRead -> write (ring s) <> read (ring s).
Proof.
  intros HC Hs Hp Hc. apply queue_inv_reachable in Hs; [|done].
  pose proof Hs as [? -> -> _ ? ? ? ? _ Hprod Hcons]. rewrite Hp in Hprod. rewrite Hc in Hcons.
  eapply slot_free; [done|done|done|lia].
Qed.

(** The producer about to store its second value while the consumer reads the first. *)
Lemma spsc_no_race_witness :
  let s := mkState (mkRing [7; 0; 0]%nat 0 1) [7]%nat [] 0 1 (PStore 8%nat) CRead in
  write (ring s) <> read (ring s).
Proof.
  intros s. apply (spsc_no_race 3 s 8%nat); [lia| |done|done].
  eexists. eapply steps_cons; [by apply (step_push_free _ _ 7%nat 0); cbn; [|lia|done]|].
  eapply steps_cons; [by eapply step_push_store|].
  eapply steps_cons; [by eapply step_push_publish|].
  eapply steps_cons; [by apply (step_push_free _ _ 8%nat 0); cbn; [|lia|done]|].
  eapply steps_cons; [by apply (step_pop_some _ _ 1); cbn; [|lia|done]|]. apply steps_nil.
Defined.

(** availableToWrite is a promise: when the producer has read [n] from it, its next
    [n] pushes succeed whatever the consumer does meanwhile, so a snapshot of [n] chunks
    is published entirely or not at all. *)
Theorem available_promise {V} `{Inhabited V} Capacity (s s1 s2 : @state V) n ls1 ls2 :
  (2 <= Capacity)%nat -> reachable Capacity s ->
  step Capacity s (Available n) s1 ->
  steps Capacity s1 (ls1 ++ PushFailed :: ls2) s2 ->
  (n <= started ls1)%nat.
Proof.
  intros HC Hs Hav Hsteps.
  pose proof (queue_inv_reachable _ HC _ Hs) as Hi. pose proof Hi as [_ _ Hw _ ? ? ? ? _ _ _].
  assert (queue_inv Capacity s1) as Hi1 by by eapply queue_inv_step.
  apply steps_app_inv in Hsteps as (s3 & H13 & H32).
  pose proof (started_steps _ _ _ _ H13) as [Hcount Hseen].
  assert (queue_inv Capacity s3) as Hi3 by by eapply queue_inv_steps.
  pose proof Hi3 as [_ _ Hw3 _ ? ? ? ? _ _ _].
  inversion H32 as [|? ? s4 ? ? Hfail _]; subst.
  inversion Hfail as [k3 Hidle Hk3 Hfull| | | | | | | | ]; subst.
  inversion Hav as [| | | |k Hidle1 Hk| | | | ]; subst. cbn in *.
  rewrite (available_exact _ HC _ k (length (pushed s))) by (done || lia).
  unfold in_progress in Hcount. cbn in Hcount. rewrite Hidle in Hcount.
  rewrite Hw3, Next_index in Hfull by done.
  assert (length (pushed s3) + 1 = k3 + Capacity)%nat; [|lia].
  assert (index Capacity k3 = index Capacity (k3 + Capacity)) as E.
  { unfold index. replace (k3 + Capacity)%nat with (k3 + 1 * Capacity)%nat by lia.
    by rewrite Nat.Div0.mod_add. }
  rewrite E in Hfull. apply index_inj in Hfull; [done|done|lia|lia].
Qed.

(** An empty ring of three slots offers two pushes; the third one fails. *)
Lemma available_promise_witness :
  let ls1 := [PushStarted; Quiet; Pushed; PushStarted; Quiet; Pushed] in
  let s2 := mkState (mkRing [7; 8; 0]%nat 0 2) [7; 8]%nat [] 0 0 PIdle CIdle in
  steps 3 (initial 3) (ls1 ++ [PushFailed]) s2 /\ (2 <= @started nat ls1)%nat.
Proof.
  intros ls1 s2.
  assert (steps 3 (initial 3) (ls1 ++ [PushFailed]) s2) as Hs.
  { cbn. eapply steps_cons; [by apply (step_push_free _ _ 7%nat 0); cbn; [|lia|done]|].
    eapply steps_cons; [by eapply step_push_store|].
    eapply steps_cons; [by eapply step_push_publish|].
    eapply steps_cons; [by apply (step_push_free _ _ 8%nat 0); cbn; [|lia|done]|].
    eapply steps_cons; [by eapply step_push_store|].
    eapply steps_cons; [by eapply step_push_publish|].
    eapply steps_cons; [by apply (step_push_full _ _ 0); cbn; [|lia|done]|]. apply steps_nil. }
  split; [exact Hs|]. apply (available_promise 3 (initial 3) (initial 3) s2 2 ls1 []).
  - lia.
  - exists []. constructor.
  - apply (step_available 3 (initial 3) 0); cbn; [done|lia].
  - exact Hs.
Defined.

(** used by one thread, the ring is a list of at most Capacity - 1 values: TryPush
    appends unless the list is full, TryPop takes the head unless it is empty. *)
Theorem ring_is_bounded_fifo {V} `{Inhabited V} Capacity (q : @Ring V) l v :
  (2 <= Capacity)%nat -> represents Capacity q l ->
  (if (length l <? Capacity - 1)%nat
   then exists q', TryPush Capacity q v = (q', true) /\ represents Capacity q' (l ++ [v])
   else TryPush Capacity q v = (q, false)) /\
  match l with
  | [] => TryPop Capacity q = (q, None)
  | x :: l' => exists q', TryPop Capacity q = (q', Some x) /\ represents Capacity q' l'
  end.
Proof. intros HC Hq. split; [by apply push_represents|by apply pop_represents]. Qed.

Lemma ring_is_bounded_fifo_witness :
  exists q', TryPush 3 (@empty_ring nat _ 3) 7%nat = (q', true) /\ represents 3 q' [7%nat].
Proof.
  apply (ring_is_bounded_fifo 3 (empty_ring 3) [] 7%nat); [lia|].
  apply represents_empty. lia.
Defined.
