(* ===== verification/DcSync.v ===== *)
(** * The distributed-clock controller (dc_sync.hpp)

    One call of [Update] per bus cycle compares the reference clock with the
    cycle grid, returns a correction of the next wake-up, and decides whether
    the bus is synchronised or faulty. Signed 64-bit values are [Z]; division
    and remainder truncate as in C++ ([Z.quot], [Z.rem]). The theorem
    [Update_no_overflow] shows that no intermediate value leaves the signed
    64-bit range, so that the unbounded arithmetic is that of the source. *)

From S2P Require Import Prelude Protocol SafetyGate.

Module Dc.

Record DistributedClockAdjustment := mkAdjustment {
  valid : bool;
  synchronized : bool;
  fault : bool;
  phaseErrorNs : Z;
  correctionNs : Z
}.

Record t := mk {
  cycleNanoseconds : Z;
  integral : Z;
  observations : Z;
  stableCycles : Z;
  badCyclesAfterLock : Z;
  invalidAdvanceCycles : Z;
  previousReference : Z;
  isSynchronized : bool
}.

Definition create (cycleNanoseconds : Z) : t := mk cycleNanoseconds 0 0 0 0 0 0 false.

Definition Reset (c : t) : t := mk (cycleNanoseconds c) 0 0 0 0 0 0 false.

(** [++value] unless it is the largest 32-bit value. *)
Definition bump (value : Z) : Z := SaturatingIncrement U32_MAX value.

(** The number of whole cycles nearest to [advancement]. *)
Definition rounded_cycles (cycle advancement : Z) : Z :=
  if 0 <? advancement then
    let roundedCycles := Z.quot advancement cycle in
    let remainder := Z.rem advancement cycle in
    if (Z.quot cycle 2 <=? remainder) && negb (roundedCycles =? I64_MAX)
    then roundedCycles + 1 else roundedCycles
  else 0.

Definition reference_advanced (cycle previous reference : Z) : bool :=
  if negb (previous =? 0) then
    let advancement := if previous <? reference then reference - previous else 0 in
    let roundedCycles := rounded_cycles cycle advancement in
    let advancementTolerance := Z.max 1000 (Z.quot cycle 5) in
    if (1 <=? roundedCycles) && (roundedCycles <=? 4) then
      if Z.quot I64_MAX cycle <? roundedCycles then false
      else Z.abs (advancement - roundedCycles * cycle) <=? advancementTolerance
    else false
  else false.

Definition phase_of (cycle reference : Z) : Z :=
  let phase := Z.rem reference cycle in
  if Z.quot cycle 2 <? phase then phase - cycle else phase.

Definition integral_limit (cycle : Z) : Z :=
  if Z.quot I64_MAX 100 <? cycle then I64_MAX else cycle * 100.

Definition next_integral (cycle integral phase : Z) (advanced : bool) : Z :=
  if advanced && (0 <? phase) then Z.min (integral + 1) (integral_limit cycle)
  else if advanced && (phase <? 0) then Z.max (integral - 1) (- integral_limit cycle)
  else integral.

Definition correction_of (cycle integral phase : Z) (advanced : bool) : Z :=
  let maximumCorrection := Z.max 1 (Z.quot cycle 10) in
  if advanced then
    RateLimit.clamp (- Z.quot phase 100 - Z.quot integral 1000)
      (- maximumCorrection) maximumCorrection
  else 0.

Definition tolerance_of (cycle : Z) : Z := Z.max 1000 (Z.quot cycle 20).

Definition Update (c : t) (referenceTimeNanoseconds : Z) : DistributedClockAdjustment * t :=
  let cycle := cycleNanoseconds c in
  let observations' := bump (observations c) in
  if (cycle <=? 0) || (referenceTimeNanoseconds <=? 0) then
    (mkAdjustment false false (500 <=? observations') 0 0,
     mk cycle (integral c) observations' (stableCycles c) (badCyclesAfterLock c)
        (invalidAdvanceCycles c) (previousReference c) (isSynchronized c))
  else
    let referenceAdvanced := reference_advanced cycle (previousReference c)
                               referenceTimeNanoseconds in
    let invalid' := if negb referenceAdvanced then bump (invalidAdvanceCycles c) else 0 in
    let stable1 := if negb referenceAdvanced then 0 else stableCycles c in
    let sync1 := if negb referenceAdvanced && (3 <=? invalid') then false
                 else isSynchronized c in
    let phase := phase_of cycle referenceTimeNanoseconds in
    let integral' := next_integral cycle (integral c) phase referenceAdvanced in
    let correction := correction_of cycle integral' phase referenceAdvanced in
    let stable' := if referenceAdvanced && (Z.abs phase <=? tolerance_of cycle)
                   then bump stable1 else 0 in
    let sync' := if 20 <=? stable' then true else sync1 in
    let bad' := if sync' && (Z.quot cycle 4 <? Z.abs phase)
                then bump (badCyclesAfterLock c) else 0 in
    (mkAdjustment true sync'
       ((3 <=? invalid') || (10 <=? bad') || (negb sync' && (500 <=? observations')))
       phase correction,
     mk cycle integral' observations' stable' bad' invalid' referenceTimeNanoseconds sync').

End Dc.

Import Dc.

(** ** Bounds *)

Definition u32 (z : Z) : Prop := 0 <= z <= U32_MAX.

Record dc_inv (c : t) : Prop := {
  dc_cycle : 0 < cycleNanoseconds c <= I64_MAX;
  dc_integral : - integral_limit (cycleNanoseconds c) <= integral c
                  <= integral_limit (cycleNanoseconds c);
  dc_observations : u32 (observations c);
  dc_stable : u32 (stableCycles c);
  dc_bad : u32 (badCyclesAfterLock c);
  dc_invalid : u32 (invalidAdvanceCycles c);
  dc_previous : 0 <= previousReference c <= I64_MAX
}.

Lemma bump_u32 z : u32 z -> u32 (bump z).
Proof. unfold u32, bump, SaturatingIncrement. intros. destruct (Z.eqb_spec z U32_MAX); cbn; lia. Qed.

Lemma bump_lt z : z < U32_MAX -> bump z = z + 1.
Proof. unfold bump, SaturatingIncrement. intros. destruct (Z.eqb_spec z U32_MAX); [lia|done]. Qed.

Lemma bump_ge z n : n <= U32_MAX -> u32 z -> n <= z + 1 -> n <= bump z.
Proof.
  unfold u32, bump, SaturatingIncrement. intros.
  destruct (Z.eqb_spec z U32_MAX); cbn [negb]; lia.
Qed.

Lemma integral_limit_bound cycle :
  0 < cycle <= I64_MAX -> 100 <= integral_limit cycle <= I64_MAX.
Proof.
  intros. unfold integral_limit. change (Z.quot I64_MAX 100) with 92233720368547758.
  destruct (Z.ltb_spec 92233720368547758 cycle); lia.
Qed.

Lemma quot_bound a b : 0 <= a -> 0 < b -> 0 <= Z.quot a b <= a /\ b * Z.quot a b <= a < b * Z.quot a b + b.
Proof.
  intros Ha Hb. rewrite Z.quot_div_nonneg by lia.
  pose proof (Z.mul_div_le a b Hb). pose proof (Z.mul_succ_div_gt a b Hb).
  pose proof (Z.div_pos a b Ha Hb). nia.
Qed.

Lemma phase_bound cycle reference :
  0 < cycle -> 0 < reference ->
  - cycle < 2 * phase_of cycle reference <= cycle /\
  (phase_of cycle reference - reference) mod cycle = 0.
Proof.
  intros Hc Hr. unfold phase_of. rewrite Z.rem_mod_nonneg by lia.
  pose proof (Z.mod_pos_bound reference cycle Hc).
  pose proof (quot_bound cycle 2 ltac:(lia) ltac:(lia)) as [_ ?].
  pose proof (Z.div_mod reference cycle ltac:(lia)).
  destruct (Z.ltb_spec (Z.quot cycle 2) (reference mod cycle)); split; try lia.
  - rewrite <- (Z.mod_mul (- (reference / cycle) - 1) cycle) by lia. f_equal. lia.
  - rewrite <- (Z.mod_mul (- (reference / cycle)) cycle) by lia. f_equal. lia.
Qed.

Lemma next_integral_bound cycle i phase adv :
  0 < cycle <= I64_MAX -> - integral_limit cycle <= i <= integral_limit cycle ->
  - integral_limit cycle <= next_integral cycle i phase adv <= integral_limit cycle.
Proof.
  intros Hc Hi. pose proof (integral_limit_bound cycle Hc). unfold next_integral.
  destruct (adv && (0 <? phase)); [lia|]. destruct (adv && (phase <? 0)); lia.
Qed.

Lemma Update_inv c reference :
  dc_inv c -> in_i64 reference -> dc_inv (snd (Update c reference)).
Proof.
  intros [] Hr. unfold in_i64 in Hr. unfold Update. destruct (_ || _) eqn:E; cbn [snd].
  { constructor; cbn; auto using bump_u32. }
  assert (u32 0) by (unfold u32; lia).
  constructor; cbn; auto using bump_u32, next_integral_bound.
  - destruct (_ && _); [|done]. apply bump_u32. by destruct (negb _).
  - destruct (_ && (Z.quot _ 4 <? _)); auto using bump_u32.
  - destruct (negb _); auto using bump_u32.
  - lia.
Qed.

Definition run (c : t) (refs : list Z) : t := fold_left (fun c r => snd (Update c r)) refs c.

Lemma dc_run_snoc c refs r : run c (refs ++ [r]) = snd (Update (run c refs) r).
Proof. unfold run. by rewrite fold_left_app. Qed.

Lemma cycle_run c refs : cycleNanoseconds (run c refs) = cycleNanoseconds c.
Proof.
  induction refs as [|r refs IH] using rev_ind; [done|]. rewrite dc_run_snoc.
  unfold Update. by destruct (_ || _).
Qed.

Lemma dc_inv_create cycle : 0 < cycle <= I64_MAX -> dc_inv (create cycle).
Proof.
  intros. pose proof (integral_limit_bound cycle). constructor; cbn; unfold u32; lia.
Qed.

Lemma dc_inv_run cycle refs :
  0 < cycle <= I64_MAX -> Forall in_i64 refs -> dc_inv (run (create cycle) refs).
Proof.
  intros Hc. induction refs as [|r refs IH] using rev_ind; intros Hr; [by apply dc_inv_create|].
  apply Forall_app in Hr as [Hrs Hr]. rewrite dc_run_snoc. apply Update_inv; [auto|].
  by inversion Hr.
Qed.

(** ** The arithmetic of one update stays in 64 bits *)

(** Every sum, difference and product an update computes. *)
Definition intermediates (c : t) (reference : Z) : list Z :=
  let cycle := cycleNanoseconds c in
  let advancement := if previousReference c <? reference
                     then reference - previousReference c else 0 in
  let rounded := rounded_cycles cycle advancement in
  let phase := phase_of cycle reference in
  let advanced := reference_advanced cycle (previousReference c) reference in
  let integral' := next_integral cycle (integral c) phase advanced in
  [reference - previousReference c; rounded; phase; Z.rem reference cycle - cycle;
   Z.abs phase; integral c + 1; integral c - 1; - integral_limit cycle;
   - Z.quot phase 100; - Z.quot phase 100 - Z.quot integral' 1000;
   - Z.max 1 (Z.quot cycle 10)] ++
  (if (1 <=? rounded) && (rounded <=? 4) && negb (Z.quot I64_MAX cycle <? rounded)
   then [rounded * cycle; advancement - rounded * cycle;
         Z.abs (advancement - rounded * cycle)] else []) ++
  (if Z.quot I64_MAX 100 <? cycle then [] else [cycle * 100]).

Lemma quot_abs_le a b : 0 < b -> Z.abs (Z.quot a b) <= Z.abs a.
Proof.
  intros Hb. rewrite <- Z.quot_abs by lia. rewrite (Z.abs_eq b) by lia.
  pose proof (quot_bound (Z.abs a) b). lia.
Qed.

Lemma rounded_cycles_bound cycle a :
  0 < cycle <= I64_MAX -> 0 <= a <= I64_MAX ->
  0 <= rounded_cycles cycle a <= I64_MAX.
Proof.
  intros Hc Ha. unfold rounded_cycles. pose proof (quot_bound a cycle) as Hq.
  destruct (0 <? a); [|lia]. destruct (_ && _) eqn:E; lia.
Qed.

Lemma intermediates_i64 c reference :
  dc_inv c -> cycleNanoseconds c <= Z.quot I64_MAX 100 ->
  0 < reference <= I64_MAX -> Forall in_i64 (intermediates c reference).
Proof.
  intros [Hc Hi _ _ _ _ Hp] Hsmall Hr. change (Z.quot I64_MAX 100) with 92233720368547758 in Hsmall.
  set (cycle := cycleNanoseconds c) in *.
  assert (integral_limit cycle = cycle * 100) as Hl.
  { unfold integral_limit. change (Z.quot I64_MAX 100) with 92233720368547758.
    by replace (_ <? _) with false by (symmetry; lia). }
  pose proof (phase_bound cycle reference ltac:(lia) ltac:(lia)) as [Hph _].
  unfold intermediates. fold cycle.
  set (advancement := if previousReference c <? reference then _ else _).
  assert (0 <= advancement <= I64_MAX) as Ha
    by (unfold advancement; destruct (Z.ltb_spec (previousReference c) reference); lia).
  pose proof (rounded_cycles_bound cycle advancement Hc Ha) as Hrd.
  set (adv := reference_advanced _ _ _).
  pose proof (next_integral_bound cycle (integral c) (phase_of cycle reference) adv Hc Hi) as Hni.
  set (phase := phase_of cycle reference) in *. set (ni := next_integral _ _ _ _) in *.
  set (rounded := rounded_cycles cycle advancement) in *.
  pose proof (quot_abs_le phase 100 ltac:(lia)). pose proof (quot_bound cycle 10 ltac:(lia) ltac:(lia)).
  pose proof (quot_abs_le ni 1000 ltac:(lia)).
  assert (0 <= Z.rem reference cycle < cycle) by (apply Z.rem_bound_pos; lia).
  assert (Z.abs (Z.quot ni 1000) <= cycle) as Hq.
  { rewrite <- Z.quot_abs by lia. change (Z.abs 1000) with 1000.
    pose proof (quot_bound (Z.abs ni) 1000 ltac:(lia) ltac:(lia)). lia. }
  apply Forall_app. split; [|apply Forall_app; split].
  - unfold in_i64. rewrite Hl. repeat (apply Forall_cons; split; [lia|]). apply Forall_nil_2.
  - destruct (_ && _) eqn:E; [|apply Forall_nil_2].
    change (Z.quot I64_MAX 100) with 92233720368547758 in *.
    assert (1 <= rounded <= 4) by lia. unfold in_i64.
    repeat (apply Forall_cons; split; [nia|]). apply Forall_nil_2.
  - destruct (Z.quot I64_MAX 100 <? cycle); [apply Forall_nil_2|]. unfold in_i64.
    apply Forall_cons; split; [lia|apply Forall_nil_2].
Qed.

(** ** Locking *)

(** A valid observation that advances by whole cycles and is in phase. *)
Definition good (cycle previous reference : Z) : bool :=
  reference_advanced cycle previous reference &&
  (Z.abs (phase_of cycle reference) <=? tolerance_of cycle).

(** The valid observations of a history, each judged against the one before. *)
Fixpoint flags (cycle previous : Z) (refs : list Z) : list bool :=
  match refs with
  | [] => []
  | r :: refs =>
      if r <=? 0 then flags cycle previous refs
      else good cycle previous r :: flags cycle r refs
  end.

(** The number of [true]s at the end of a list. *)
Definition trailing (l : list bool) : Z :=
  fold_left (fun n (b : bool) => if b then n + 1 else 0) l 0.

Lemma trailing_snoc l b : trailing (l ++ [b]) = if b then trailing l + 1 else 0.
Proof. unfold trailing. by rewrite fold_left_app. Qed.

Lemma trailing_split l n :
  Z.of_nat n <= trailing l -> exists l', l = l' ++ replicate n true.
Proof.
  revert n. induction l as [|b l IH] using rev_ind; intros n Hn.
  - exists []. change (trailing []) with 0 in Hn. by replace n with O by lia.
  - destruct n as [|n]; [exists (l ++ [b]); by rewrite app_nil_r|].
    rewrite trailing_snoc in Hn. destruct b; [|lia].
    destruct (IH n) as [l' ->]; [lia|]. exists l'.
    rewrite <- app_assoc. f_equal. symmetry. apply replicate_cons_app.
Qed.

Definition last_reference (previous : Z) (refs : list Z) : Z :=
  fold_left (fun p r => if r <=? 0 then p else r) refs previous.

Lemma flags_snoc cycle previous refs r :
  flags cycle previous (refs ++ [r]) =
  flags cycle previous refs ++
  (if r <=? 0 then [] else [good cycle (last_reference previous refs) r]).
Proof.
  revert previous. induction refs as [|x refs IH]; intros previous; cbn [flags app].
  - unfold last_reference. cbn. by destruct (r <=? 0).
  - unfold last_reference in *. cbn [fold_left]. destruct (x <=? 0); [done|].
    cbn [app]. by rewrite IH.
Qed.

Lemma previous_run cycle refs :
  0 < cycle -> previousReference (run (create cycle) refs) = last_reference 0 refs.
Proof.
  intros Hc. induction refs as [|r refs IH] using rev_ind; [done|].
  rewrite dc_run_snoc. unfold last_reference. rewrite fold_left_app. cbn [fold_left].
  fold (last_reference 0 refs). unfold Update. rewrite cycle_run. cbn [cycleNanoseconds create].
  replace (cycle <=? 0) with false by (symmetry; lia). cbn [orb].
  destruct (r <=? 0); [done|done].
Qed.

(** What one valid update does to the lock. *)
Lemma Update_lock c r :
  0 < cycleNanoseconds c -> 0 < r ->
  let adv := reference_advanced (cycleNanoseconds c) (previousReference c) r in
  let g := good (cycleNanoseconds c) (previousReference c) r in
  let c' := snd (Update c r) in
  stableCycles c' = (if g then bump (stableCycles c) else 0) /\
  (isSynchronized c' = true -> isSynchronized c = true \/ 20 <= stableCycles c') /\
  synchronized (fst (Update c r)) = isSynchronized c'.
Proof.
  intros Hc Hr. unfold good, Update.
  replace (cycleNanoseconds c <=? 0) with false by (symmetry; lia).
  replace (r <=? 0) with false by (symmetry; lia). cbn [orb].
  destruct (reference_advanced _ _ _); cbn [negb andb].
  - destruct (Z.abs _ <=? tolerance_of _); cbn.
    + split_and!; [done| |done]. destruct (Z.leb_spec 20 (bump (stableCycles c))); tauto.
    + split_and!; [done| |done]. tauto.
  - cbn. split_and!; [done| |done]. destruct (3 <=? _); [done|tauto].
Qed.

Lemma lock_run cycle refs :
  0 < cycle ->
  let c := run (create cycle) refs in
  stableCycles c <= trailing (flags cycle 0 refs) /\
  (isSynchronized c = true -> exists l1 l2, flags cycle 0 refs = l1 ++ replicate 20 true ++ l2).
Proof.
  intros Hc. induction refs as [|r refs IH] using rev_ind; [done|]. cbn zeta in *.
  destruct IH as [IHs IHl]. rewrite dc_run_snoc, flags_snoc.
  set (c := run (create cycle) refs) in *.
  assert (cycleNanoseconds c = cycle) as Hcy by apply cycle_run.
  assert (previousReference c = last_reference 0 refs) as Hp by by apply previous_run.
  destruct (Z.leb_spec r 0) as [Hr|Hr].
  { rewrite app_nil_r. unfold Update. rewrite (proj2 (Z.leb_le r 0) Hr), orb_true_r. done. }
  destruct (Update_lock c r) as (Hst & Hsy & _); [lia|lia|]. rewrite Hcy, Hp in Hst.
  rewrite trailing_snoc.
  assert (stableCycles (snd (Update c r)) <=
    (if good cycle (last_reference 0 refs) r then trailing (flags cycle 0 refs) + 1 else 0)) as Hle.
  { rewrite Hst. destruct (good _ _ _); [|done]. unfold bump, SaturatingIncrement.
    destruct (negb _); lia. }
  split; [done|]. intros Hs. destruct (Hsy Hs) as [H|H].
  - destruct (IHl H) as (l1 & l2 & ->). exists l1, (l2 ++ [good cycle (last_reference 0 refs) r]).
    by rewrite <- !app_assoc.
  - destruct (trailing_split (flags cycle 0 refs ++ [good cycle (last_reference 0 refs) r]) 20)
      as [l' Hl']; [rewrite trailing_snoc; lia|]. exists l', []. by rewrite app_nil_r.
Qed.

Lemma observations_run cycle refs :
  observations (run (create cycle) refs) = Z.min U32_MAX (zlen refs).
Proof.
  induction refs as [|r refs IH] using rev_ind; [done|].
  rewrite dc_run_snoc, zlen_app, zlen_cons, zlen_nil. pose proof (zlen_nonneg refs).
  assert (observations (snd (Update (run (create cycle) refs) r)) =
    bump (observations (run (create cycle) refs))) as ->.
  { unfold Update. by destruct ((_ <=? 0) || (r <=? 0)). }
  rewrite IH. unfold bump, SaturatingIncrement.
  destruct (Z.eqb_spec (Z.min U32_MAX (zlen refs)) U32_MAX); cbn [negb]; lia.
Qed.

(** ** A reference that ticks exactly once per cycle *)

Definition ticks (cycle first : Z) (n : nat) : list Z :=
  map (fun k => (first + Z.of_nat k) * cycle) (seq 0 n).

Lemma ticks_S cycle first n :
  ticks cycle first (S n) = ticks cycle first n ++ [(first + Z.of_nat n) * cycle].
Proof. unfold ticks. by rewrite seq_S, map_app. Qed.

Lemma phase_tick cycle k : 0 < cycle -> 0 < k -> phase_of cycle (k * cycle) = 0.
Proof.
  intros Hc Hk. unfold phase_of. rewrite Z.rem_mul by lia.
  pose proof (quot_bound cycle 2 ltac:(lia) ltac:(lia)).
  by replace (_ <? 0) with false by (symmetry; lia).
Qed.

Lemma advanced_tick cycle k :
  2 <= cycle <= I64_MAX -> 0 < k ->
  reference_advanced cycle (k * cycle) ((k + 1) * cycle) = true.
Proof.
  intros Hc Hk. unfold reference_advanced.
  replace (k * cycle =? 0) with false by (symmetry; nia). cbn [negb].
  replace (k * cycle <? (k + 1) * cycle) with true by (symmetry; nia).
  replace ((k + 1) * cycle - k * cycle) with cycle by lia.
  assert (rounded_cycles cycle cycle = 1) as ->.
  { unfold rounded_cycles. rewrite Z.quot_same, Z.rem_same by lia.
    pose proof (quot_bound cycle 2 ltac:(lia) ltac:(lia)).
    replace (Z.quot cycle 2 <=? 0) with false by (symmetry; lia).
    by replace (0 <? cycle) with true by (symmetry; lia). }
  cbn [Z.leb Z.compare andb Pos.compare Pos.compare_cont].
  pose proof (quot_bound I64_MAX cycle ltac:(lia) ltac:(lia)).
  replace (Z.quot I64_MAX cycle <? 1) with false by (symmetry; nia).
  replace (cycle - 1 * cycle) with 0 by lia. cbn [Z.abs]. lia.
Qed.

(** The state after [n + 1] ticks. *)
Definition ticking (cycle first : Z) (n : nat) : t :=
  mk cycle 0 (Z.of_nat n + 1) (Z.of_nat n) 0 (if (n =? 0)%nat then 1 else 0)
     ((first + Z.of_nat n) * cycle) (20 <=? Z.of_nat n).

Definition ticking_adjustment (n : nat) : DistributedClockAdjustment :=
  mkAdjustment true (20 <=? Z.of_nat n)
    (negb (20 <=? Z.of_nat n) && (500 <=? Z.of_nat n + 1)) 0 0.

Lemma first_tick cycle first :
  2 <= cycle <= I64_MAX -> 0 < first ->
  Update (create cycle) ((first + 0) * cycle) = (ticking_adjustment 0, ticking cycle first 0).
Proof.
  intros Hc Hf. unfold Update. cbn [create cycleNanoseconds].
  replace (cycle <=? 0) with false by (symmetry; lia).
  replace ((first + 0) * cycle <=? 0) with false by (symmetry; nia).
  cbn [orb previousReference]. change (reference_advanced cycle 0 _) with false.
  rewrite phase_tick by lia. cbn. pose proof (quot_bound cycle 4 ltac:(lia) ltac:(lia)).
  reflexivity.
Qed.

Lemma next_tick cycle first n :
  2 <= cycle <= I64_MAX -> 0 < first -> Z.of_nat n + 2 <= U32_MAX ->
  Update (ticking cycle first n) ((first + Z.of_nat (S n)) * cycle)
  = (ticking_adjustment (S n), ticking cycle first (S n)).
Proof.
  intros Hc Hf Hn. rewrite Nat2Z.inj_succ in *. unfold Z.succ in *.
  pose proof (Nat2Z.is_nonneg n).
  unfold ticking at 1. unfold Update.
  cbn [cycleNanoseconds integral observations stableCycles badCyclesAfterLock
       invalidAdvanceCycles previousReference isSynchronized].
  replace (cycle <=? 0) with false by (symmetry; lia).
  replace ((first + (Z.of_nat n + 1)) * cycle <=? 0) with false by (symmetry; nia).
  cbn [orb]. rewrite Z.add_assoc, advanced_tick, phase_tick by lia. cbn [negb andb].
  assert (tolerance_of cycle >= 1000) by (unfold tolerance_of; lia).
  replace (Z.abs 0 <=? tolerance_of cycle) with true by (symmetry; cbn; lia).
  change (Z.abs 0) with 0. pose proof (quot_bound cycle 4 ltac:(lia) ltac:(lia)).
  replace (Z.quot cycle 4 <? 0) with false by (symmetry; lia). rewrite andb_false_r.
  rewrite !bump_lt by lia.
  assert (correction_of cycle (next_integral cycle 0 0 true) 0 true = 0) as ->.
  { change (next_integral cycle 0 0 true) with 0. unfold correction_of, RateLimit.clamp.
    change (- Z.quot 0 100 - Z.quot 0 1000) with 0. set (m := Z.max 1 _).
    replace (0 <? - m) with false by (symmetry; lia).
    by replace (m <? 0) with false by (symmetry; lia). }
  unfold ticking_adjustment, ticking. rewrite Nat2Z.inj_succ. unfold Z.succ.
  assert ((if 20 <=? Z.of_nat n + 1 then true else 20 <=? Z.of_nat n) = (20 <=? Z.of_nat n + 1)) as ->.
  { destruct (Z.leb_spec 20 (Z.of_nat n + 1)); [done|]. apply Z.leb_gt. lia. }
  cbn [Nat.eqb orb Z.leb Z.compare]. rewrite Z.add_assoc. done.
Qed.

Lemma ticking_run cycle first n :
  2 <= cycle <= I64_MAX -> 0 < first -> Z.of_nat n + 1 <= U32_MAX ->
  run (create cycle) (ticks cycle first (S n)) = ticking cycle first n.
Proof.
  intros Hc Hf. induction n as [|n IH]; intros Hn.
  - unfold run. cbn [ticks map seq fold_left]. by rewrite first_tick.
  - rewrite ticks_S, dc_run_snoc, IH by lia. rewrite next_tick by lia. done.
Qed.

(** ** Properties *)

(** For every cycle time up to I64_MAX / 100 and every history of reference times,
    the state keeps its ranges, none of the 64-bit sums, differences and products of an
    update overflows, and the correction applied to the next wake-up is at most a tenth
    of a cycle (but may be 1 ns) in either direction. *)
Theorem Update_no_overflow cycle refs reference :
  0 < cycle <= Z.quot I64_MAX 100 -> Forall in_i64 refs -> 0 < reference <= I64_MAX ->
  let c := run (create cycle) refs in
  dc_inv c /\ Forall in_i64 (intermediates c reference) /\
  Z.abs (correctionNs (fst (Update c reference))) <= Z.max 1 (Z.quot cycle 10).
Proof.
  change (Z.quot I64_MAX 100) with 92233720368547758. intros Hc Hrs Hr c.
  assert (dc_inv c) as Hi by (apply dc_inv_run; [lia|done]).
  assert (cycleNanoseconds c = cycle) as Hcy by apply cycle_run.
  split_and!; [done|apply intermediates_i64; [done|rewrite Hcy|done];
    change (Z.quot I64_MAX 100) with 92233720368547758; lia|].
  unfold Update. rewrite Hcy. replace (cycle <=? 0) with false by (symmetry; lia).
  replace (reference <=? 0) with false by (symmetry; lia). cbn [orb fst correctionNs].
  unfold correction_of, RateLimit.clamp. destruct (reference_advanced _ _ _); [|cbn; lia].
  set (m := Z.max 1 _). split_ifs; lia.
Qed.

Lemma Update_no_overflow_witness :
  dc_inv (run (create 1000000) [3000100; 4000200]) /\
  correctionNs (fst (Update (run (create 1000000) [3000100; 4000200]) 5000300)) = -3 /\
  Z.abs (correctionNs (fst (Update (run (create 1000000) [3000100; 4000200]) 5000300)))
  <= Z.max 1 (Z.quot 1000000 10).
Proof.
  destruct (Update_no_overflow 1000000 [3000100; 4000200] 5000300) as (H1 & _ & H3).
  - by vm_compute.
  - repeat constructor; by vm_compute.
  - lia.
  - split_and!; [done|reflexivity|done].
Defined.

(** a bus is reported synchronised only after twenty consecutive valid
    observations, each of which advanced by one to four whole cycles within the
    advancement tolerance and lay within the phase tolerance. *)
Theorem synchronized_needs_stability cycle refs reference :
  0 < cycle -> synchronized (fst (Update (run (create cycle) refs) reference)) = true ->
  exists l1 l2, flags cycle 0 (refs ++ [reference]) = l1 ++ replicate 20 true ++ l2.
Proof.
  intros Hc Hs. destruct (Z.leb_spec reference 0) as [Hr|Hr].
  { unfold Update in Hs. rewrite (proj2 (Z.leb_le reference 0) Hr), orb_true_r in Hs. done. }
  destruct (Update_lock (run (create cycle) refs) reference) as (_ & _ & E);
    [by rewrite cycle_run|done|]. rewrite E, <- dc_run_snoc in Hs.
  by apply lock_run.
Qed.

Lemma synchronized_needs_stability_witness :
  exists l1 l2, flags 1000000 0 (ticks 1000000 1 20 ++ [21000000]) = l1 ++ replicate 20 true ++ l2.
Proof. apply synchronized_needs_stability; [lia|by vm_compute]. Defined.

(** a clock that does not lock is reported: after 500 observations, valid or not,
    each further update either reports synchronisation or a fault. *)
Theorem unsynchronised_faults cycle refs reference :
  499 <= zlen refs ->
  let a := fst (Update (run (create cycle) refs) reference) in
  synchronized a = true \/ fault a = true.
Proof.
  intros Hn a. assert (500 <= bump (observations (run (create cycle) refs))) as Hob.
  { rewrite observations_run. apply bump_ge; [lia|unfold u32; lia|lia]. }
  unfold a, Update. destruct (_ || (reference <=? 0)); cbn [fst synchronized fault].
  - right. lia.
  - destruct (if 20 <=? _ then _ else _); [by left|right]. cbn [negb andb].
    rewrite !orb_true_iff. right. lia.
Qed.

Lemma unsynchronised_faults_witness :
  synchronized (fst (Update (run (create 1000000) (replicate 499 5)) 5)) = true \/
  fault (fst (Update (run (create 1000000) (replicate 499 5)) 5)) = true.
Proof. apply unsynchronised_faults. by vm_compute. Defined.

(** an exact reference clock is accepted: from a fresh controller, a clock that
    ticks once per cycle in phase is synchronised at the 21st observation and stays so
    without a fault or a correction, for as long as the counters last. *)
Theorem exact_clock_locks cycle first n :
  2 <= cycle <= I64_MAX -> 0 < first -> 20 <= Z.of_nat n -> Z.of_nat n + 1 <= U32_MAX ->
  fst (Update (run (create cycle) (ticks cycle first n)) ((first + Z.of_nat n) * cycle))
  = mkAdjustment true true false 0 0.
Proof.
  intros Hc Hf Hn Hmax. destruct n as [|n]; [lia|].
  rewrite ticking_run, next_tick by lia. cbn [fst]. unfold ticking_adjustment.
  replace (20 <=? Z.of_nat (S n)) with true; [done|]. symmetry. apply Z.leb_le. lia.
Qed.

Lemma exact_clock_locks_witness :
  fst (Update (run (create 1000000) (ticks 1000000 5 20)) ((5 + Z.of_nat 20) * 1000000))
  = mkAdjustment true true false 0 0.
Proof. apply exact_clock_locks; lia. Defined.
