(* ===== verification/Realtime.v ===== *)
(** * Applying the real-time configuration (realtime.hpp)

    [ApplyRealtimeConfiguration] asks the operating system for memory locking,
    FIFO scheduling and a CPU, and records what failed as bits that the
    STATUS message carries. The system calls are the record
    [RealtimeOperations], over a type [W] of system states: an absent
    [std::function] is [None], a call returns its result and the new state. *)

From S2P Require Import Prelude Protocol.

Definition RealtimeMlockFailed : Z := Z.shiftl 1 0.
Definition RealtimeSchedulerFailed : Z := Z.shiftl 1 1.
Definition RealtimeAffinityConfigurationInvalid : Z := Z.shiftl 1 2.
Definition RealtimeAffinityApplyFailed : Z := Z.shiftl 1 3.
Definition RealtimeClockError : Z := Z.shiftl 1 4.
Definition RealtimePriorityInvalid : Z := Z.shiftl 1 5.
Definition RealtimeDistributedClockUnlocked : Z := Z.shiftl 1 6.

Record RealtimeConfig := mkRealtimeConfig {
  requestMemoryLock : bool;
  requestFifo : bool;
  fifoPriority : Z;
  cpuAffinity : option Z
}.

Record RealtimeResult := mkRealtimeResult {
  requested : bool;
  memoryLocked : bool;
  schedulerApplied : bool;
  affinityApplied : bool;
  schedulingMode : SchedulingMode;
  errorBits : Z
}.

Definition fullyApplied (result : RealtimeResult) (config : RealtimeConfig) : bool :=
  (negb (requestMemoryLock config) || memoryLocked result) &&
  (negb (requestFifo config) || schedulerApplied result) &&
  (negb (bool_decide (is_Some (cpuAffinity config))) || affinityApplied result).

Section Operations.
Context {W : Type}.

Record RealtimeOperations := mkRealtimeOperations {
  lockMemory : option (W -> Z * W);
  setFifoScheduler : option (Z -> W -> Z * W);
  setCpuAffinity : option (Z -> W -> Z * W);
  availableCpuCount : option (W -> Z * W);
  currentSchedulingPolicy : option (W -> Z * W)
}.

(** [operation && operation() == 0]: an absent operation is not called. *)
Definition succeeds (operation : option (W -> Z * W)) (w : W) : bool * W :=
  match operation with
  | None => (false, w)
  | Some f => let '(r, w) := f w in (r =? 0, w)
  end.

(** [operation ? operation() : 0]. *)
Definition query (operation : option (W -> Z * W)) (w : W) : Z * W :=
  match operation with None => (0, w) | Some f => f w end.

Definition memory_step (config : RealtimeConfig) (operations : RealtimeOperations)
    (result : RealtimeResult) (w : W) : RealtimeResult * W :=
  if requestMemoryLock config then
    let '(ok, w) := succeeds (lockMemory operations) w in
    if ok
    then (mkRealtimeResult (requested result) true (schedulerApplied result)
            (affinityApplied result) (schedulingMode result) (errorBits result), w)
    else (mkRealtimeResult (requested result) (memoryLocked result) (schedulerApplied result)
            (affinityApplied result) (schedulingMode result)
            (Z.lor (errorBits result) RealtimeMlockFailed), w)
  else (result, w).

Definition with_error (result : RealtimeResult) (e : Z) : RealtimeResult :=
  mkRealtimeResult (requested result) (memoryLocked result) (schedulerApplied result)
    (affinityApplied result) (schedulingMode result) (Z.lor (errorBits result) e).

Definition fifo_step (config : RealtimeConfig) (operations : RealtimeOperations)
    (result : RealtimeResult) (w : W) : RealtimeResult * W :=
  if requestFifo config then
    if (fifoPriority config <=? 0) || (100 <=? fifoPriority config)
    then (with_error result RealtimePriorityInvalid, w)
    else
      let '(ok, w) := succeeds ((fun f => f (fifoPriority config)) <$> setFifoScheduler operations) w in
      if ok
      then (mkRealtimeResult (requested result) (memoryLocked result) true
              (affinityApplied result) (schedulingMode result) (errorBits result), w)
      else (with_error result RealtimeSchedulerFailed, w)
  else (result, w).

Definition affinity_step (config : RealtimeConfig) (operations : RealtimeOperations)
    (result : RealtimeResult) (w : W) : RealtimeResult * W :=
  match cpuAffinity config with
  | None => (result, w)
  | Some cpu =>
      let '(available, w) := query (availableCpuCount operations) w in
      if (available =? 0) || (available <=? cpu)
      then (with_error result RealtimeAffinityConfigurationInvalid, w)
      else
        let '(ok, w) := succeeds ((fun f => f cpu) <$> setCpuAffinity operations) w in
        if ok
        then (mkRealtimeResult (requested result) (memoryLocked result) (schedulerApplied result)
                true (schedulingMode result) (errorBits result), w)
        else (with_error result RealtimeAffinityApplyFailed, w)
  end.

Definition policy_step (config : RealtimeConfig) (operations : RealtimeOperations)
    (result : RealtimeResult) (w : W) : RealtimeResult * W :=
  let '(policy, w) := query (currentSchedulingPolicy operations) w in
  let mode := if policy =? 1 then Fifo else schedulingMode result in
  if requestFifo config && negb (bool_decide (mode = Fifo))
  then (mkRealtimeResult (requested result) (memoryLocked result) false
          (affinityApplied result) mode (Z.lor (errorBits result) RealtimeSchedulerFailed), w)
  else (mkRealtimeResult (requested result) (memoryLocked result) (schedulerApplied result)
          (affinityApplied result) mode (errorBits result), w).

Definition ApplyRealtimeConfiguration (config : RealtimeConfig)
    (operations : RealtimeOperations) (w : W) : RealtimeResult * W :=
  let result := mkRealtimeResult
    (requestMemoryLock config || requestFifo config ||
     bool_decide (is_Some (cpuAffinity config))) false false false Other 0 in
  let '(result, w) := memory_step config operations result w in
  let '(result, w) := fifo_step config operations result w in
  let '(result, w) := affinity_step config operations result w in
  policy_step config operations result w.

End Operations.

Arguments RealtimeOperations : clear implicits.

(** ** The report *)

(** The bits a call can set: memory lock, scheduler, affinity and priority. *)
Definition realtime_bits : Z := 0x2f.

(** Evaluate the call on every combination of requests and outcomes. *)
Ltac all_outcomes :=
  repeat (case_match; simplify_eq/=); try done.

(** the report is exact: the error bits are zero if and only if everything that
    was requested took effect, whatever the system calls return and do; only the bits of
    the four request kinds can be set (so a STATUS message can carry them); and a
    request for FIFO scheduling that is reported as applied was confirmed by the
    kernel's current policy. *)
Theorem realtime_report_exact {W} config (operations : RealtimeOperations W) w :
  let result := fst (ApplyRealtimeConfiguration config operations w) in
  (fullyApplied result config = true <-> errorBits result = 0) /\
  Z.land (errorBits result) realtime_bits = errorBits result /\
  Z.land (errorBits result) 0x80 = 0 /\
  (schedulerApplied result = true -> schedulingMode result = Fifo).
Proof.
  destruct config as [mem fifo prio cpu].
  unfold ApplyRealtimeConfiguration, memory_step, fifo_step, affinity_step, policy_step,
    fullyApplied, with_error; cbn [requestMemoryLock requestFifo fifoPriority cpuAffinity].
  destruct mem, fifo, cpu as [cpu|]; all_outcomes.
Qed.
