(* ===== verification/Adapter.v ===== *)
(** * Network adapter identity (adapter_identity.hpp)

    A bus may be locked to one physical adapter by its udev path and,
    optionally, its permanent MAC address, USB serial, vendor and product.
    The daemon resolves the lock against the adapters found under sysfs.
    Strings are byte lists; the character classes are those of the C locale. *)

From S2P Require Import Prelude Protocol.

Definition isspace (c : Z) : bool := ((9 <=? c) && (c <=? 13)) || (c =? 32).
Definition isdigit (c : Z) : bool := (48 <=? c) && (c <=? 57).
Definition isxdigit (c : Z) : bool :=
  isdigit c || ((65 <=? c) && (c <=? 70)) || ((97 <=? c) && (c <=? 102)).
Definition tolower (c : Z) : Z := if (65 <=? c) && (c <=? 90) then c + 32 else c.

Record AdapterIdentityLock := mkLock {
  lock_idPath : bytes;
  lock_permanentMac : option bytes;
  lock_usbSerial : option bytes;
  lock_usbVendorId : option bytes;
  lock_usbProductId : option bytes
}.

Definition has_value {A} (o : option A) : bool := match o with Some _ => true | None => false end.

Definition pathOnly (lock : AdapterIdentityLock) : bool :=
  negb (has_value (lock_permanentMac lock)) && negb (has_value (lock_usbSerial lock)) &&
  negb (has_value (lock_usbVendorId lock)) && negb (has_value (lock_usbProductId lock)).

Record AdapterIdentity := mkIdentity {
  interfaceName : bytes;
  idPath : bytes;
  permanentMac : option bytes;
  usbSerial : option bytes;
  usbVendorId : option bytes;
  usbProductId : option bytes;
  ethernet : bool;
  linkUp : bool
}.

Record AdapterResolution := mkResolution {
  resolution_state : AdapterLockState;
  resolution_reason : AdapterLockReason;
  resolution_identity : option AdapterIdentity
}.

(** ** Normal forms *)

Fixpoint skip_spaces (value : bytes) : bytes :=
  match value with
  | c :: rest => if isspace c then skip_spaces rest else value
  | [] => []
  end.

Definition TrimAscii (value : bytes) : bytes := rev (skip_spaces (rev (skip_spaces value))).

(** The first loop of [NormalizeMac]: the lower-case digits, or [nullopt]. *)
Fixpoint mac_digits (hexadecimal input : bytes) : option bytes :=
  match input with
  | [] => Some hexadecimal
  | c :: input =>
      if isxdigit c then mac_digits (hexadecimal ++ [tolower c]) input
      else if negb (c =? 58) && negb (c =? 45) && negb (isspace c) then None
      else mac_digits hexadecimal input
  end.

(** The value of a lower-case hexadecimal digit. *)
Definition digit_value (c : Z) : Z := if isdigit c then c - 48 else c - 97 + 10.

(** The last loop: pairs of digits separated by colons. *)
Fixpoint mac_pairs (normalized hexadecimal : bytes) : bytes :=
  match hexadecimal with
  | [] => normalized
  | [a] => (if negb (zlen normalized =? 0) then normalized ++ [58] else normalized) ++ [a]
  | a :: b :: rest =>
      mac_pairs ((if negb (zlen normalized =? 0) then normalized ++ [58] else normalized) ++ [a; b])
        rest
  end.

Definition NormalizeMac (input : bytes) : option bytes :=
  hexadecimal ← mac_digits [] input;
  if negb (zlen hexadecimal =? 12) then None
  else
    let firstByte := digit_value (byte_at hexadecimal 0) * 16 +
                     digit_value (byte_at hexadecimal 1) in
    let allZero := forallb (fun c => c =? 48) hexadecimal in
    let allBroadcast := forallb (fun c => c =? 102) hexadecimal in
    if negb (Z.land firstByte 1 =? 0) || allZero || allBroadcast then None
    else Some (mac_pairs [] hexadecimal).

Definition starts_with (prefix value : bytes) : bool :=
  bool_decide (take (length prefix) value = prefix).

Definition NormalizeUsbId (input : bytes) : option bytes :=
  let value := TrimAscii input in
  let value := if starts_with (str "0x") value || starts_with (str "0X") value
               then drop 2 value else value in
  if negb (zlen value =? 4) || negb (forallb isxdigit value) then None
  else Some (map tolower value).

Definition printableAscii (value : bytes) : bool :=
  forallb (fun byte => (0x20 <=? byte) && (byte <=? 0x7e)) value.

(** The error messages are [error], the cases of [return fail(...)]. *)
Inductive LockError :=
| IdPathInvalid | PermanentMacInvalid | UsbSerialInvalid | UsbVendorInvalid | UsbProductInvalid.

Definition ValidateAdapterLock (lock : AdapterIdentityLock) : option LockError :=
  if (zlen (lock_idPath lock) =? 0) || (1024 <? zlen (lock_idPath lock)) ||
     negb (printableAscii (lock_idPath lock))
  then Some IdPathInvalid
  else if match lock_permanentMac lock with
          | Some mac => negb (has_value (NormalizeMac mac)) | None => false end
  then Some PermanentMacInvalid
  else if match lock_usbSerial lock with
          | Some serial => (zlen serial =? 0) || (256 <? zlen serial) ||
                           negb (printableAscii serial)
          | None => false end
  then Some UsbSerialInvalid
  else if match lock_usbVendorId lock with
          | Some id => negb (has_value (NormalizeUsbId id)) | None => false end
  then Some UsbVendorInvalid
  else if match lock_usbProductId lock with
          | Some id => negb (has_value (NormalizeUsbId id)) | None => false end
  then Some UsbProductInvalid
  else None.

(** ** Resolution *)

Definition missing : AdapterResolution := mkResolution Missing InterfaceMissing None.

Definition find_preferred (adapters : list AdapterIdentity) (preferredInterface : bytes)
    : option AdapterIdentity :=
  List.find (fun identity => bool_decide (interfaceName identity = preferredInterface)) adapters.

Definition has_path (lock : AdapterIdentityLock) (identity : AdapterIdentity) : bool :=
  bool_decide (idPath identity = lock_idPath lock).

(** The normal form of an expected value, if there is one and it has one. *)
Definition normalized (normalize : bytes -> option bytes) (expected : option bytes)
    : option bytes :=
  match expected with Some value => normalize value | None => None end.

(** The [mismatch] lambda. *)
Definition mismatch (identity : AdapterIdentity) (expected observed : option bytes)
    (reason : AdapterLockReason) : option AdapterResolution :=
  match expected with
  | None => None
  | Some e =>
      match observed with
      | None => Some (mkResolution Mismatch IdentityUnavailable (Some identity))
      | Some o =>
          if bool_decide (e = o) then None
          else Some (mkResolution Mismatch reason (Some identity))
      end
  end.

Definition related_identity (lock : AdapterIdentityLock) (identity : AdapterIdentity) : bool :=
  let normalizedExpectedMac := normalized NormalizeMac (lock_permanentMac lock) in
  (has_value normalizedExpectedMac &&
   bool_decide (permanentMac identity = normalizedExpectedMac)) ||
  (has_value (lock_usbSerial lock) && bool_decide (usbSerial identity = lock_usbSerial lock)).

Definition ResolveAdapter (adapters : list AdapterIdentity) (preferredInterface : bytes)
    (lock : option AdapterIdentityLock) (runtimeUnlocked : bool) : AdapterResolution :=
  match lock, runtimeUnlocked with
  | None, _ | _, true =>
      match find_preferred adapters preferredInterface with
      | None => missing
      | Some selected =>
          mkResolution (if runtimeUnlocked then RuntimeUnlocked else Unlocked) NoReason
            (Some selected)
      end
  | Some expected, false =>
      match List.find (has_path expected) adapters with
      | None =>
          let preferred := find_preferred adapters preferredInterface in
          let related := existsb (related_identity expected) adapters in
          mkResolution
            (if has_value preferred || related then Mismatch else Missing)
            (if has_value preferred || related then IdPathMismatch else InterfaceMissing)
            preferred
      | Some pathMatch =>
          if negb (zlen (List.filter (has_path expected) adapters) =? 1)
          then mkResolution Mismatch IdentityUnavailable None
          else
            match mismatch pathMatch (normalized NormalizeMac (lock_permanentMac expected))
                    (permanentMac pathMatch) PermanentMacMismatch with
            | Some result => result
            | None =>
            match mismatch pathMatch (lock_usbSerial expected) (usbSerial pathMatch)
                    UsbSerialMismatch with
            | Some result => result
            | None =>
            match mismatch pathMatch (normalized NormalizeUsbId (lock_usbVendorId expected))
                    (usbVendorId pathMatch) UsbVendorMismatch with
            | Some result => result
            | None =>
            match mismatch pathMatch (normalized NormalizeUsbId (lock_usbProductId expected))
                    (usbProductId pathMatch) UsbProductMismatch with
            | Some result => result
            | None =>
                mkResolution Matched (if pathOnly expected then PathOnlyIdentity else NoReason)
                  (Some pathMatch)
            end end end end
      end
  end.

(** ** Normal forms are fixed points *)

(** A lower-case hexadecimal digit. *)
Definition lower_hex (c : Z) : Prop := (48 <= c <= 57) \/ (97 <= c <= 102).

Lemma lower_hex_fixed c : lower_hex c -> isxdigit c = true /\ tolower c = c.
Proof.
  unfold lower_hex, isxdigit, isdigit, tolower. intros H. split; [lia|].
  destruct ((65 <=? c) && (c <=? 90)) eqn:E; lia.
Qed.

Lemma tolower_lower_hex c : isxdigit c = true -> lower_hex (tolower c).
Proof.
  unfold lower_hex, isxdigit, isdigit, tolower. intros H.
  destruct ((65 <=? c) && (c <=? 90)) eqn:E; lia.
Qed.

Lemma lower_hex_not_space c : lower_hex c -> isspace c = false.
Proof. unfold lower_hex, isspace. lia. Qed.

Lemma mac_digits_lower hex input out :
  Forall lower_hex hex -> mac_digits hex input = Some out -> Forall lower_hex out.
Proof.
  revert hex. induction input as [|c input IH]; intros hex Hh; cbn [mac_digits].
  { by intros [= <-]. }
  destruct (isxdigit c) eqn:E.
  - apply IH. apply Forall_app. split; [done|]. constructor; [by apply tolower_lower_hex|constructor].
  - destruct (_ && _); [done|]. by apply IH.
Qed.

Lemma mac_digits_hex hex c input :
  lower_hex c -> mac_digits hex (c :: input) = mac_digits (hex ++ [c]) input.
Proof. intros Hc. cbn [mac_digits]. destruct (lower_hex_fixed c Hc) as [-> ->]. done. Qed.

Lemma mac_digits_colon hex input : mac_digits hex (58 :: input) = mac_digits hex input.
Proof. done. Qed.

Lemma mac_pairs_digits a b c d e f g h i j k l :
  Forall lower_hex [a; b; c; d; e; f; g; h; i; j; k; l] ->
  mac_digits [] (mac_pairs [] [a; b; c; d; e; f; g; h; i; j; k; l])
  = Some [a; b; c; d; e; f; g; h; i; j; k; l].
Proof.
  intros H. repeat (apply Forall_cons in H as [? H]).
  change (mac_pairs _ _) with [a; b; 58; c; d; 58; e; f; 58; g; h; 58; i; j; 58; k; l].
  repeat first [rewrite mac_digits_colon | rewrite mac_digits_hex by assumption]. done.
Qed.

Lemma NormalizeMac_Some input mac :
  NormalizeMac input = Some mac ->
  exists hex, Forall lower_hex hex /\ length hex = 12%nat /\ mac = mac_pairs [] hex /\
    Z.land (digit_value (byte_at hex 0) * 16 + digit_value (byte_at hex 1)) 1 = 0 /\
    NormalizeMac mac = Some mac.
Proof.
  unfold NormalizeMac at 1. destruct (mac_digits [] input) as [hex|] eqn:Hd; [|done].
  cbn [mbind option_bind]. destruct (zlen hex =? 12) eqn:Hl; cbn [negb]; [|done].
  destruct (_ || _) eqn:G; [done|]. intros [= <-]. exists hex.
  assert (Forall lower_hex hex) as Hh by (eapply mac_digits_lower; [constructor|done]).
  assert (length hex = 12%nat) as Hn by (unfold zlen in Hl; lia).
  rewrite !orb_false_iff, negb_false_iff in G. destruct G as [[G1 G2] G3].
  split_and!; [done|done|done|lia|].
  unfold NormalizeMac. explode hex. rewrite mac_pairs_digits by done. cbn [mbind option_bind].
  rewrite Hl, G2, G3. cbn [negb]. rewrite G1. done.
Qed.

Lemma TrimAscii_hex value : Forall lower_hex value -> TrimAscii value = value.
Proof.
  assert (forall l, Forall lower_hex l -> skip_spaces l = l) as Hskip.
  { intros l Hl. destruct Hl as [|c l Hc _]; [done|]. cbn. by rewrite lower_hex_not_space. }
  intros H. unfold TrimAscii. rewrite (Hskip value H), Hskip by (by apply Forall_rev).
  apply rev_involutive.
Qed.

Lemma NormalizeUsbId_Some input id :
  NormalizeUsbId input = Some id ->
  Forall lower_hex id /\ length id = 4%nat /\ NormalizeUsbId id = Some id.
Proof.
  unfold NormalizeUsbId at 1. set (value := if _ || _ then drop 2 _ else _).
  destruct (zlen value =? 4) eqn:Hl; cbn [negb orb]; [|done].
  destruct (forallb isxdigit value) eqn:Hx; cbn [negb]; [|done]. intros [= <-].
  assert (Forall lower_hex (map tolower value)) as Hh.
  { apply Forall_map, Forall_forall. intros c Hc. apply tolower_lower_hex.
    rewrite forallb_forall in Hx. apply Hx. by apply list_elem_of_In. }
  assert (length (map tolower value) = 4%nat) as Hn
    by (rewrite length_map; unfold zlen in Hl; lia).
  split_and!; [done|done|]. set (id := map tolower value) in *. clearbody id.
  unfold NormalizeUsbId. rewrite (TrimAscii_hex id Hh). explode id.
  repeat (apply Forall_cons in Hh as [? Hh]).
  assert (starts_with (str "0x") [z; z0; z1; z2] = false /\
          starts_with (str "0X") [z; z0; z1; z2] = false) as [-> ->].
  { change (str "0x") with [48; 120]. change (str "0X") with [48; 88].
    unfold starts_with. split; apply bool_decide_eq_false_2; cbn; intros [= ? ?];
      unfold lower_hex in *; lia. }
  cbn [orb zlen length forallb map]. change (zlen _ =? 4) with true.
  do 4 (match goal with |- context [isxdigit ?c] =>
    destruct (lower_hex_fixed c ltac:(assumption)) as [-> ->] end). done.
Qed.

(** ** Resolution against a lock *)

Definition satisfies_value (normalize : bytes -> option bytes) (expected observed : option bytes)
    : Prop :=
  match expected with
  | None => True
  | Some e => exists n, normalize e = Some n /\ observed = Some n
  end.

(** The adapter is the one the lock describes. *)
Definition satisfies (lock : AdapterIdentityLock) (a : AdapterIdentity) : Prop :=
  idPath a = lock_idPath lock /\
  satisfies_value NormalizeMac (lock_permanentMac lock) (permanentMac a) /\
  satisfies_value Some (lock_usbSerial lock) (usbSerial a) /\
  satisfies_value NormalizeUsbId (lock_usbVendorId lock) (usbVendorId a) /\
  satisfies_value NormalizeUsbId (lock_usbProductId lock) (usbProductId a).

Lemma mismatch_None a expected observed reason :
  mismatch a expected observed reason = None <-> (expected = None \/ expected = observed).
Proof.
  unfold mismatch. destruct expected as [e|]; [|tauto].
  destruct observed as [o|]; [|split; [done|intros [?|?]; done]].
  destruct (bool_decide_reflect (e = o)) as [->|H]; [tauto|].
  split; [done|intros [?|[= ?]]; done].
Qed.

Lemma mismatch_Some a expected observed reason r :
  mismatch a expected observed reason = Some r -> resolution_state r = Mismatch.
Proof.
  unfold mismatch. destruct expected as [e|]; [|done]. destruct observed as [o|].
  - destruct (bool_decide _); [done|]. by intros [= <-].
  - by intros [= <-].
Qed.

Lemma satisfies_normalized normalize expected observed :
  (forall e, expected = Some e -> normalize e <> None) ->
  satisfies_value normalize expected observed <->
  (normalized normalize expected = None \/ normalized normalize expected = observed).
Proof.
  intros Hn. unfold satisfies_value, normalized. destruct expected as [e|]; [|tauto].
  specialize (Hn e eq_refl). destruct (normalize e) as [n|]; [|done].
  split; [intros (n' & [= <-] & ->); tauto|intros [?|<-]; [done|eauto]].
Qed.

(** What a valid lock gives: its values have normal forms. *)
Lemma valid_lock lock :
  ValidateAdapterLock lock = None ->
  (forall m, lock_permanentMac lock = Some m -> NormalizeMac m <> None) /\
  (forall m, lock_usbVendorId lock = Some m -> NormalizeUsbId m <> None) /\
  (forall m, lock_usbProductId lock = Some m -> NormalizeUsbId m <> None).
Proof.
  unfold ValidateAdapterLock.
  destruct (_ || _); [done|].
  destruct (lock_permanentMac lock) as [mac|];
    [destruct (NormalizeMac mac) eqn:Em; cbn [has_value negb]; [|done]|];
  (destruct (match lock_usbSerial lock with Some _ => _ | None => _ end); [done|]);
  (destruct (lock_usbVendorId lock) as [v|];
    [destruct (NormalizeUsbId v) eqn:Ev; cbn [has_value negb]; [|done]|]);
  (destruct (lock_usbProductId lock) as [p|];
    [destruct (NormalizeUsbId p) eqn:Ep; cbn [has_value negb]; [|done]|]);
  intros _; split_and!; intros; simplify_eq; congruence.
Qed.

Lemma find_filter {A} (p : A -> bool) l a :
  List.filter p l = [a] -> List.find p l = Some a.
Proof.
  induction l as [|x l IH]; cbn; [done|]. destruct (p x); [|done]. by intros [= -> _].
Qed.

(** The last part of the resolution: one adapter has the path. *)
Lemma resolve_unique adapters preferred lock a :
  ValidateAdapterLock lock = None -> List.filter (has_path lock) adapters = [a] ->
  let r := ResolveAdapter adapters preferred (Some lock) false in
  (satisfies lock a -> resolution_state r = Matched /\ resolution_identity r = Some a) /\
  (resolution_state r = Matched -> satisfies lock a) /\
  (resolution_state r = Matched \/ resolution_state r = Mismatch).
Proof.
  intros Hv Hf. destruct (valid_lock lock Hv) as (Hm & Hvn & Hp).
  assert (idPath a = lock_idPath lock) as Hpath.
  { assert (a ∈ List.filter (has_path lock) adapters) as Hin by (rewrite Hf; left).
    apply list_elem_of_In, filter_In in Hin as [_ Hin]. unfold has_path in Hin.
    by apply bool_decide_eq_true in Hin. }
  unfold ResolveAdapter. rewrite (find_filter _ _ _ Hf), Hf. change (zlen [a] =? 1) with true.
  cbn [negb]. unfold satisfies.
  rewrite (satisfies_normalized NormalizeMac) by done.
  rewrite (satisfies_normalized Some) by done.
  rewrite (satisfies_normalized NormalizeUsbId) by done.
  rewrite (satisfies_normalized NormalizeUsbId (lock_usbProductId lock)) by done.
  replace (normalized Some (lock_usbSerial lock)) with (lock_usbSerial lock)
    by by destruct (lock_usbSerial lock).
  rewrite <- !(mismatch_None a _ _ PermanentMacMismatch).
  repeat match goal with
  | |- context [match mismatch a ?e ?o ?r with Some _ => _ | None => _ end] =>
      pose proof (mismatch_None a e o r); pose proof (mismatch_None a e o PermanentMacMismatch);
      destruct (mismatch a e o r) eqn:?
  end; cbn [resolution_state resolution_identity];
  repeat match goal with
  | H : mismatch _ _ _ _ = Some ?r |- context [resolution_state ?r] =>
      rewrite (mismatch_Some _ _ _ _ _ H)
  end; intuition congruence.
Qed.

(** Without a unique adapter on the lock's path nothing matches. *)
Lemma resolve_not_unique adapters preferred lock :
  (forall a, List.filter (has_path lock) adapters <> [a]) ->
  let r := ResolveAdapter adapters preferred (Some lock) false in
  resolution_state r = Mismatch \/ resolution_state r = Missing.
Proof.
  intros Hf. unfold ResolveAdapter.
  destruct (List.find (has_path lock) adapters) as [a|] eqn:Hfind.
  - destruct (List.filter (has_path lock) adapters) as [|x [|y l]] eqn:E.
    + by left.
    + by destruct (Hf x).
    + replace (zlen (x :: y :: l) =? 1) with false; [by left|]. symmetry.
      rewrite !zlen_cons. pose proof (zlen_nonneg l). lia.
  - cbn. destruct (_ || _); tauto.
Qed.

(** ** Properties *)

(** C38: a lock is enforced: with a valid lock that has not been released at run time,
    the daemon uses an adapter (state Matched) exactly when one adapter and no other has
    the locked path and that adapter has every further identity the lock names; the
    adapter used is that one, and the result is never one of the unlocked states. *)
Theorem ResolveAdapter_enforces_lock adapters preferred lock :
  ValidateAdapterLock lock = None ->
  let r := ResolveAdapter adapters preferred (Some lock) false in
  (resolution_state r = Matched <->
     exists a, List.filter (has_path lock) adapters = [a] /\ satisfies lock a) /\
  (forall a, List.filter (has_path lock) adapters = [a] -> satisfies lock a ->
     resolution_identity r = Some a) /\
  resolution_state r <> Unlocked /\ resolution_state r <> RuntimeUnlocked.
Proof.
  intros Hv r. unfold r. clear r.
  destruct (List.filter (has_path lock) adapters) as [|a [|b l]] eqn:E.
  1, 3: pose proof (resolve_not_unique adapters preferred lock ltac:(by rewrite E)) as Hno;
    cbn zeta in Hno; destruct Hno as [H|H]; rewrite H;
    split_and!; try done; split; try done; intros (? & ? & ?); done.
  destruct (resolve_unique adapters preferred lock a Hv E) as (H1 & H2 & H3).
  split_and!.
  - split; [intros Hm; eauto|]. intros (a' & [= <-] & Hs). by apply H1.
  - intros a' [= <-] Hs. by apply H1.
  - destruct H3 as [->| ->]; done.
  - destruct H3 as [->| ->]; done.
Qed.

Definition sample_lock : AdapterIdentityLock :=
  mkLock (str "platform-usb-0:1") (Some (str "00-11-22-AA-BB-CC")) None (Some (str "0x0BDA")) None.

Definition sample_adapter : AdapterIdentity :=
  mkIdentity (str "eth1") (str "platform-usb-0:1") (Some (str "00:11:22:aa:bb:cc")) None
    (Some (str "0bda")) (Some (str "8153")) true true.

Lemma ResolveAdapter_enforces_lock_witness :
  resolution_state (ResolveAdapter [sample_adapter] (str "eth0") (Some sample_lock) false)
  = Matched.
Proof.
  apply (ResolveAdapter_enforces_lock [sample_adapter] (str "eth0") sample_lock).
  - reflexivity.
  - exists sample_adapter. split; [reflexivity|].
    split_and!; [reflexivity|by eexists|done|by eexists|done].
Defined.

(** normal forms are canonical: an accepted MAC address is written as twelve
    lower-case digits in pairs separated by colons, is a unicast address, and is its own
    normal form; so is an accepted USB id, four lower-case digits. Comparing normal forms
    is therefore insensitive to case, separators and prefixes. *)
Theorem normal_forms_canonical input :
  (forall mac, NormalizeMac input = Some mac ->
     NormalizeMac mac = Some mac /\ length mac = 17%nat /\
     exists hex, Forall lower_hex hex /\ length hex = 12%nat /\ mac = mac_pairs [] hex /\
       Z.land (digit_value (byte_at hex 0) * 16 + digit_value (byte_at hex 1)) 1 = 0) /\
  (forall id, NormalizeUsbId input = Some id ->
     NormalizeUsbId id = Some id /\ length id = 4%nat /\ Forall lower_hex id).
Proof.
  split.
  - intros mac Hm. destruct (NormalizeMac_Some _ _ Hm) as (hex & Hh & Hl & -> & Hu & Hn).
    split_and!; [done| |eauto]. clear -Hl. by explode hex.
  - intros id Hi. destruct (NormalizeUsbId_Some _ _ Hi) as (Hh & Hl & Hn). done.
Qed.
