(* ===== verification/Paths.v ===== *)
(** Strings and paths of the operating system: the order of [std::string], [std::getline],
    [std::filesystem::path] as a list of components, and the checks of [main.cpp] on path
    arguments ([IsSafeAbsolutePath], [EnvironmentPath]) and on file sizes
    ([ReadBoundedFile]). *)

From stdpp Require Import sorting.
From S2P Require Import Prelude.

(** ** Order *)

(** [left < right] of [std::string]: lexicographic on unsigned bytes. *)
Fixpoint bytes_ltb (s t : bytes) : bool :=
  match s, t with
  | _, [] => false
  | [], _ :: _ => true
  | a :: s, b :: t => (a <? b) || ((a =? b) && bytes_ltb s t)
  end.

Lemma bytes_ltb_irrefl a : bytes_ltb a a = false.
Proof. induction a as [|x a IH]; cbn; [done|]. rewrite IH, Z.ltb_irrefl. by rewrite andb_false_r. Qed.

Lemma bytes_ltb_trans a b c : bytes_ltb a b = true -> bytes_ltb b c = true -> bytes_ltb a c = true.
Proof.
  revert b c. induction a as [|x a IH]; intros [|y b] [|z c]; cbn; try done.
  rewrite !orb_true_iff, !andb_true_iff, !Z.ltb_lt, !Z.eqb_eq.
  intros [?|[-> ?]] [?|[-> ?]]; [left; lia|by left|by left|right; split; [done|by eapply IH]].
Qed.

Lemma bytes_ltb_total a b : bytes_ltb a b = false -> bytes_ltb b a = false -> a = b.
Proof.
  revert b. induction a as [|x a IH]; intros [|y b]; cbn; try done.
  rewrite !orb_false_iff, !andb_false_iff, !Z.ltb_ge, !Z.eqb_neq.
  intros [? Hab] [? Hba]. assert (x = y) as -> by lia. f_equal.
  destruct Hab as [?|?]; [done|]. destruct Hba as [?|?]; [done|]. by apply IH.
Qed.

(** A strict order whose incomparable elements are equal. *)
Class StrictTotal {A} (ltb : A -> A -> bool) : Prop := {
  ltb_irrefl x : ltb x x = false;
  ltb_trans x y z : ltb x y = true -> ltb y z = true -> ltb x z = true;
  ltb_total x y : ltb x y = false -> ltb y x = false -> x = y
}.

#[export] Instance bytes_strict : StrictTotal bytes_ltb.
Proof. split; [apply bytes_ltb_irrefl|apply bytes_ltb_trans|apply bytes_ltb_total]. Qed.

#[export] Instance Z_strict : StrictTotal Z.ltb.
Proof. split; intros; lia. Qed.

(** [if (a1 != b1) return a1 < b1; return a2 < b2;]. *)
Definition pair_ltb {A B} `{EqDecision A} (lt1 : A -> A -> bool) (lt2 : B -> B -> bool)
    (x y : A * B) : bool :=
  if negb (bool_decide (x.1 = y.1)) then lt1 x.1 y.1 else lt2 x.2 y.2.

#[export] Instance pair_strict {A B} `{EqDecision A} (lt1 : A -> A -> bool) (lt2 : B -> B -> bool) :
  StrictTotal lt1 -> StrictTotal lt2 -> StrictTotal (pair_ltb lt1 lt2).
Proof.
  intros [I1 T1 E1] [I2 T2 E2]. unfold pair_ltb. split.
  - intros [a b]. cbn. rewrite bool_decide_true by done. apply I2.
  - intros [a b] [a' b'] [a'' b'']. cbn.
    destruct (decide (a = a')) as [->|Hn]; [rewrite (bool_decide_true (a' = a')) by done|
      rewrite (bool_decide_false (a = a')) by done]; cbn [negb].
    + destruct (decide (a' = a'')) as [->|Hn']; [rewrite (bool_decide_true (a'' = a'')) by done|
        rewrite (bool_decide_false (a' = a'')) by done]; cbn [negb]; [apply T2|done].
    + destruct (decide (a' = a'')) as [->|Hn']; [rewrite (bool_decide_true (a'' = a'')) by done;
        by rewrite (bool_decide_false (a = a'')) by done|].
      rewrite (bool_decide_false (a' = a'')) by done. cbn [negb]. intros H1 H2.
      rewrite bool_decide_false; [by eapply T1|]. intros ->.
      pose proof (T1 _ _ _ H1 H2). by rewrite I1 in *.
  - intros [a b] [a' b']. cbn. destruct (decide (a = a')) as [->|Hn].
    + rewrite (bool_decide_true (a' = a')) by done. cbn [negb]. intros. f_equal. by apply E2.
    + rewrite (bool_decide_false (a = a')), (bool_decide_false (a' = a)) by done. cbn [negb].
      intros. destruct Hn. by apply E1.
Qed.

(** [std::sort] by a key: the result is determined when keys are unequal. *)
Section Sort.
Context {A K : Type} (key : A -> K) (ltb : K -> K -> bool) `{!StrictTotal ltb}.

Definition not_after (x y : A) : Prop := ltb (key y) (key x) = false.

#[export] Instance not_after_dec x y : Decision (not_after x y).
Proof. unfold not_after. apply _. Defined.

#[export] Instance not_after_trans : Transitive not_after.
Proof.
  intros x y z Hxy Hyz. unfold not_after in *. destruct (ltb (key z) (key x)) eqn:E; [|done].
  destruct (ltb (key x) (key y)) eqn:E1.
  - by rewrite (ltb_trans _ _ _ E E1) in Hyz.
  - pose proof (ltb_total _ _ E1 Hxy) as Hk. by rewrite <- Hk, E in Hyz.
Qed.

#[export] Instance not_after_total : Total not_after.
Proof.
  intros x y. unfold not_after. destruct (ltb (key y) (key x)) eqn:E; [right|by left].
  destruct (ltb (key x) (key y)) eqn:E'; [|done]. by rewrite <- (ltb_irrefl (key x)), (ltb_trans _ _ _ E' E).
Qed.

Definition sort_by (l : list A) : list A := merge_sort not_after l.

Lemma sort_by_sorted l : StronglySorted not_after (sort_by l).
Proof using All. apply (StronglySorted_merge_sort _). Qed.

Lemma sort_by_permutation l : sort_by l ≡ₚ l.
Proof using Type. apply merge_sort_Permutation. Qed.
End Sort.

(** ** Filters *)

Lemma filter_none {A} (p : A -> bool) l : (forall b, b ∈ l -> p b = false) -> List.filter p l = [].
Proof.
  induction l as [|b l IH]; intros H; [done|]. cbn. rewrite (H b) by left.
  apply IH. intros x Hx. apply H. by right.
Qed.

Lemma filter_single {A} (p : A -> bool) l a :
  NoDup l -> a ∈ l -> p a = true -> (forall b, b ∈ l -> p b = true -> b = a) -> List.filter p l = [a].
Proof.
  induction 1 as [|b l Hb _ IH]; intros Ha Hp Hu; [by apply elem_of_nil in Ha|]. cbn.
  apply elem_of_cons in Ha as [<-|Ha].
  - rewrite Hp. f_equal. apply filter_none. intros x Hx. destruct (p x) eqn:E; [|done].
    by rewrite (Hu x) in Hx by (done || by right).
  - destruct (p b) eqn:E; [by rewrite (Hu b) in Hb by (done || by left)|].
    apply IH; [done|done|]. intros x Hx. apply Hu. by right.
Qed.

Lemma filter_all {A} (p : A -> bool) l : (forall b, b ∈ l -> p b = true) -> List.filter p l = l.
Proof.
  induction l as [|b l IH]; intros H; [done|]. cbn. rewrite (H b) by left. f_equal.
  apply IH. intros x Hx. apply H. by right.
Qed.

Lemma filter_permutation {A} (p : A -> bool) l l' : l ≡ₚ l' -> List.filter p l ≡ₚ List.filter p l'.
Proof.
  induction 1 as [|x l l' _ IH|x y l|l1 l2 l3 _ IH1 _ IH2]; cbn; [done|..].
  - destruct (p x); [by apply Permutation_cons|done].
  - destruct (p x), (p y); try done. apply Permutation_swap.
  - by etrans.
Qed.

(** ** Lines *)

(** The lines that [std::getline] extracts one after the other; [line] is what the current
    line has so far. The end of the input ends a line only if it has characters. *)
Fixpoint getlines (line text : bytes) : list bytes :=
  match text with
  | [] => if bool_decide (line = []) then [] else [line]
  | c :: text => if c =? 10 then line :: getlines [] text else getlines (line ++ [c]) text
  end.

Definition lines (text : bytes) : list bytes := getlines [] text.

Lemma getlines_clean text line :
  Forall (fun c => c <> 10) line -> Forall (Forall (fun c => c <> 10)) (getlines line text).
Proof.
  revert line. induction text as [|c text IH]; intros line Hl; cbn.
  - case_bool_decide; repeat constructor; done.
  - destruct (Z.eqb_spec c 10); [constructor; [done|by apply IH; constructor]|].
    apply IH, Forall_app. by repeat constructor.
Qed.

(** ** Paths *)

(** An absolute path: the components after the root directory. *)
Abbreviation path := (list bytes) (only parsing).

(** The pieces of [text] between slashes. *)
Fixpoint split_slashes (piece text : bytes) : list bytes :=
  match text with
  | [] => [piece]
  | c :: text => if c =? 47 then piece :: split_slashes [] text else split_slashes (piece ++ [c]) text
  end.

(** The file names that iterating over [std::filesystem::path{text}] visits. *)
Definition components (text : bytes) : path :=
  List.filter (fun piece => negb (bool_decide (piece = []))) (split_slashes [] text).

Fixpoint join_slashes (p : path) : bytes :=
  match p with
  | [] => []
  | [c] => c
  | c :: p => c ++ 47 :: join_slashes p
  end.

(** A file name: not empty, without a slash. *)
Definition proper (c : bytes) : Prop := c <> [] /\ Forall (fun x => x <> 47) c.

Lemma split_slashes_name c piece rest :
  Forall (fun x => x <> 47) c -> split_slashes piece (c ++ rest) = split_slashes (piece ++ c) rest.
Proof.
  intros Hc. revert piece. induction Hc as [|x c Hx _ IH]; intros piece; cbn; [by rewrite app_nil_r|].
  rewrite (proj2 (Z.eqb_neq _ _) Hx), IH, <- app_assoc. done.
Qed.

Lemma split_join p : p <> [] -> Forall proper p -> split_slashes [] (join_slashes p) = p.
Proof.
  intros Hne Hp. induction Hp as [|c p [Hc Hs] Hp IH]; [done|]. destruct p as [|d p].
  - cbn [join_slashes]. rewrite <- (app_nil_r c) at 1. by rewrite split_slashes_name.
  - change (join_slashes (c :: d :: p)) with (c ++ 47 :: join_slashes (d :: p)).
    rewrite split_slashes_name by done. cbn [split_slashes Z.eqb app]. change (Z.eqb 47 47) with true.
    cbn iota. by rewrite IH.
Qed.

Lemma filter_proper p :
  Forall proper p -> List.filter (fun piece => negb (bool_decide (piece = []))) p = p.
Proof.
  intros Hp. induction Hp as [|c p [Hc _] _ IH]; [done|]. cbn. rewrite bool_decide_false by done.
  cbn. by rewrite IH.
Qed.

(** Printing and parsing a path. *)
Lemma components_join p : Forall proper p -> components (47 :: join_slashes p) = p.
Proof.
  intros Hp. destruct (decide (p = [])) as [->|Hne]; [done|].
  unfold components. change (split_slashes [] (47 :: join_slashes p)) with ([] :: split_slashes [] (join_slashes p)).
  rewrite split_join by done. cbn. by apply filter_proper.
Qed.

Definition dotdot : bytes := [46; 46].

Definition IsSafeAbsolutePath (text : bytes) : bool :=
  match text with [] => false | c :: _ => c =? 47 end &&
  (zlen text <=? 4096) && negb (existsb (Z.eqb 0) text) &&
  forallb (fun component => negb (bool_decide (component = dotdot))) (components text).

(** A safe path stays below whatever directory its first components name: nothing leads up. *)
Lemma IsSafeAbsolutePath_stays text :
  IsSafeAbsolutePath text = true ->
  Forall (fun c => c <> dotdot) (components text) /\ 0 < zlen text <= 4096 /\ 0 ∉ text.
Proof.
  unfold IsSafeAbsolutePath. rewrite !andb_true_iff, negb_true_iff, Z.leb_le, forallb_forall.
  intros [[[H1 H2] H3] H4]. split_and!.
  - apply Forall_forall. intros c Hc%list_elem_of_In ->. apply H4 in Hc. by rewrite bool_decide_true in Hc.
  - destruct text; [done|]. rewrite zlen_cons. pose proof (zlen_nonneg text). lia.
  - done.
  - intros Hin%list_elem_of_In. enough (existsb (Z.eqb 0) text = true) by congruence.
    apply existsb_exists. by exists 0.
Qed.

(** What [symlink_status] says of a file. *)
Inductive file_kind := Directory | Symlink | OtherKind.

#[export] Instance file_kind_eq_dec : EqDecision file_kind.
Proof. solve_decision. Defined.

(** ** Bounded reads *)

(** What reading a file gives: it cannot be opened, or its blocks are read one after the
    other, at the end of which [read_failed] tells an error from the end of the file. *)
Inductive file_data := FileMissing | FileBlocks (blocks : list bytes) (read_failed : bool).

Inductive ReadError := UnableToOpen | ExceedsLimit | UnableToRead.

Fixpoint append_blocks (maximumBytes : Z) (result : bytes) (blocks : list bytes) : option bytes :=
  match blocks with
  | [] | [] :: _ => Some result
  | block :: blocks =>
      if maximumBytes - Z.min (zlen result) maximumBytes <? zlen block then None
      else append_blocks maximumBytes (result ++ block) blocks
  end.

Definition ReadBoundedFile (file : file_data) (maximumBytes : Z) : bytes + ReadError :=
  match file with
  | FileMissing => inr UnableToOpen
  | FileBlocks blocks read_failed =>
      match append_blocks maximumBytes [] blocks with
      | None => inr ExceedsLimit
      | Some result => if read_failed then inr UnableToRead else inl result
      end
  end.

Lemma append_blocks_spec maximum result blocks :
  Forall (fun b => b <> []) blocks -> zlen result <= maximum ->
  append_blocks maximum result blocks =
  if zlen (result ++ concat blocks) <=? maximum then Some (result ++ concat blocks) else None.
Proof.
  intros Hb. revert result. induction Hb as [|b blocks Hne _ IH]; intros result Hr.
  - cbn. rewrite app_nil_r. by rewrite (proj2 (Z.leb_le _ _) Hr).
  - cbn [append_blocks concat]. destruct b as [|x b]; [done|].
    destruct (Z.ltb_spec (maximum - Z.min (zlen result) maximum) (zlen (x :: b))) as [H|H].
    + destruct (Z.leb_spec (zlen (result ++ (x :: b) ++ concat blocks)) maximum) as [H'|H']; [|done].
      rewrite !zlen_app in H'. pose proof (zlen_nonneg (concat blocks)). lia.
    + rewrite IH by (rewrite zlen_app; lia). by rewrite <- app_assoc.
Qed.
