(* ===== verification/Scanner.v ===== *)
(** The scan of the network adapters ([SysfsAdapterScanner] of [adapter_identity.hpp]): the
    identities it finds below sysfs and the udev records, over an arbitrary file system. *)

From stdpp Require Import sorting.
From S2P Require Import Prelude Protocol Adapter Paths.

(** ** The file system *)

(** The state of the file system during a scan: the text that opening a path gives (the path
    may be that of a symbolic link, which [std::ifstream] follows), the
    entries of a directory (each with whether the iterator then advances without error), and
    [std::filesystem::weakly_canonical]. *)
Record Filesystem := mkFilesystem {
  file_text : path -> option bytes;
  directory : path -> option (list (bytes * bool));
  weakly_canonical : path -> option path
}.

(** [p.lexically_relative(base)] for absolute paths without dot components. *)
Fixpoint lexically_relative (p base : path) : path :=
  match p, base with
  | c :: p', b :: base' =>
      if bool_decide (c = b) then lexically_relative p' base'
      else map (fun _ => dotdot) base ++ p
  | _, _ => map (fun _ => dotdot) base ++ p
  end.

(** The generic string of a relative path; the empty sequence stands for a dot. *)
Definition relative_text (p : path) : bytes :=
  match p with [] => [46] | _ => join_slashes p end.

Inductive ScanError := CannotEnumerate | EnumerationChanged | TooManyInterfaces.

Section Scanner.
Context (fs : Filesystem) (root_ udevDataRoot_ : path).

(** [std::filesystem::relative]. *)
Definition relative (p base : path) : option path :=
  p ← weakly_canonical fs p;
  base ← weakly_canonical fs base;
  Some (lexically_relative p base).

Definition IsBoundedPrintableAscii (value : bytes) (maximumBytes : Z) : bool :=
  negb (zlen value =? 0) && (zlen value <=? maximumBytes) && printableAscii value.

Definition ReadFirstLine (p : path) : option bytes :=
  text ← file_text fs p;
  value ← head (lines text);
  if 4096 <? zlen value then None
  else
    let value := TrimAscii value in
    if zlen value =? 0 then None else Some value.

Definition ReadCarrier (p : path) : option bool :=
  value ← ReadFirstLine p;
  if bool_decide (value = str "1") || bool_decide (value = str "up") then Some true
  else if bool_decide (value = str "0") || bool_decide (value = str "down") then Some false
  else None.

Definition ReadOperstateUp (p : path) : bool :=
  match ReadFirstLine p with Some value => bool_decide (value = str "up") | None => false end.

Definition IsWithinRoot (candidate : path) : bool :=
  match weakly_canonical fs root_ with
  | None => false
  | Some canonicalRoot =>
      match relative candidate canonicalRoot with
      | None => bool_decide (candidate = canonicalRoot)
      | Some r =>
          let relativeText := relative_text r in
          negb (bool_decide (relativeText = dotdot)) && negb (starts_with (str "../") relativeText)
      end
  end.

Definition ReadTextFile (p : path) : option bytes :=
  value ← file_text fs p;
  if (zlen value <=? 0) || (4096 <? zlen value) then None else Some value.

(** The first line of a record that starts with [prefix]. *)
Definition find_line (prefix record : bytes) (longer : bool) : option bytes :=
  drop (length prefix) <$>
  List.find (fun line => starts_with prefix line &&
               (negb longer || (zlen prefix <? zlen line))) (lines record).

(** The path in the udev record of the interface. *)
Definition udev_id_path (interfacePath : path) : option bytes :=
  ifindex ← ReadFirstLine (interfacePath ++ [str "ifindex"]);
  if negb (zlen ifindex =? 0) && forallb isdigit ifindex then
    udevRecord ← ReadTextFile (udevDataRoot_ ++ [str "n" ++ ifindex]);
    TrimAscii <$> find_line (str "E:ID_PATH=") udevRecord true
  else None.

(** The last resort for a device: where it is. *)
Definition sysfs_id_path (device : path) : bytes :=
  match relative device root_ with
  | Some r =>
      if negb (starts_with dotdot (relative_text r)) then str "sysfs:" ++ relative_text r
      else str "sysfs:" ++ 47 :: join_slashes device
  | None => str "sysfs:" ++ 47 :: join_slashes device
  end.

Definition ReadIdPath (interfacePath : path) (device : option path) : bytes :=
  match udev_id_path interfacePath with
  | Some id => id
  | None =>
      match ReadFirstLine (interfacePath ++ [str "id_path"]) with
      | Some explicitPath => explicitPath
      | None =>
          match device with
          | None => []
          | Some device =>
              match ReadFirstLine (device ++ [str "id_path"]) with
              | Some explicitPath => explicitPath
              | None =>
                  match (uevent ← ReadTextFile (device ++ [str "uevent"]);
                         find_line (str "ID_PATH=") uevent false) with
                  | Some id => id
                  | None => sysfs_id_path device
                  end
              end
          end
      end
  end.

Definition ReadPermanentMac (interfacePath : path) : option bytes :=
  match ReadFirstLine (interfacePath ++ [str "perm_address"]) with
  | Some explicitAddress => NormalizeMac explicitAddress
  | None =>
      match ReadFirstLine (interfacePath ++ [str "addr_assign_type"]) with
      | Some assignmentType =>
          if negb (bool_decide (assignmentType = str "0")) then None
          else ReadFirstLine (interfacePath ++ [str "address"]) ≫= NormalizeMac
      | None => ReadFirstLine (interfacePath ++ [str "address"]) ≫= NormalizeMac
      end
  end.

(** The loop of [ReadParentAttribute]: [depth] more directories. *)
Fixpoint parent_attribute (depth : nat) (device : path) (attribute : bytes) (hexadecimal : bool)
    : option bytes :=
  match depth with
  | O => None
  | S depth =>
      if negb (IsWithinRoot device) then None
      else
        match ReadFirstLine (device ++ [attribute]) with
        | Some value => if hexadecimal then NormalizeUsbId value else Some value
        | None =>
            match device with
            | [] => None
            | _ => parent_attribute depth (removelast device) attribute hexadecimal
            end
        end
  end.

Definition ReadParentAttribute (device : option path) (attribute : bytes) (hexadecimal : bool)
    : option bytes :=
  match device with
  | None => None
  | Some device => parent_attribute 16 device attribute hexadecimal
  end.

(** The body of the loop of [Scan] for one entry; [None] for [continue]. *)
Definition inspect (entry : path) (name : bytes) : option AdapterIdentity :=
  if (zlen name =? 0) || (255 <? zlen name) || bool_decide (name = str "lo") then None
  else
    match ReadFirstLine (entry ++ [str "type"]) with
    | None => None
    | Some type =>
        if negb (bool_decide (TrimAscii type = str "1")) then None
        else
          let link := match ReadCarrier (entry ++ [str "carrier"]) with
                      | Some up => up
                      | None => ReadOperstateUp (entry ++ [str "operstate"])
                      end in
          let device :=
            match weakly_canonical fs (entry ++ [str "device"]) with
            | Some device => if IsWithinRoot device then Some device else None
            | None => None
            end in
          let id := ReadIdPath entry device in
          let serial := ReadParentAttribute device (str "serial") false in
          Some (mkIdentity name
                  (if negb (IsBoundedPrintableAscii id 1024) then [] else id)
                  (ReadPermanentMac entry)
                  (match serial with
                   | Some s => if negb (IsBoundedPrintableAscii s 256) then None else Some s
                   | None => None
                   end)
                  (ReadParentAttribute device (str "idVendor") true)
                  (ReadParentAttribute device (str "idProduct") true) true link)
    end.

(** The loop of [Scan]. *)
Fixpoint scan_entries (networkRoot : path) (entries : list (bytes * bool))
    (adapters : list AdapterIdentity) : list AdapterIdentity * option ScanError :=
  match entries with
  | [] => (adapters, None)
  | (name, advanced) :: entries =>
      if negb advanced then (adapters, Some EnumerationChanged)
      else if 256 <=? zlen adapters then (adapters, Some TooManyInterfaces)
      else
        match inspect (networkRoot ++ [name]) name with
        | None => scan_entries networkRoot entries adapters
        | Some found => scan_entries networkRoot entries (adapters ++ [found])
        end
  end.

Definition identity_key (a : AdapterIdentity) : bytes * bytes := (idPath a, interfaceName a).

Definition Scan : list AdapterIdentity * option ScanError :=
  let networkRoot := root_ ++ [str "class"; str "net"] in
  match directory fs networkRoot with
  | None => ([], Some CannotEnumerate)
  | Some entries =>
      let '(adapters, error) := scan_entries networkRoot entries [] in
      (sort_by identity_key (pair_ltb bytes_ltb bytes_ltb) adapters, error)
  end.
End Scanner.

(** ** Staying below the root *)

(** What [weakly_canonical] is documented to give: a path without dot components, which it
    leaves as it is, together with all its parents. *)
Record canonical_ok (fs : Filesystem) : Prop := {
  canonical_clean p q : weakly_canonical fs p = Some q ->
    Forall proper q /\ Forall (fun c => c <> dotdot) q;
  canonical_fixed p q : weakly_canonical fs p = Some q -> weakly_canonical fs q = Some q;
  canonical_parent p : weakly_canonical fs p = Some p ->
    weakly_canonical fs (removelast p) = Some (removelast p)
}.

Lemma lexically_relative_below base rest : lexically_relative (base ++ rest) base = rest.
Proof.
  induction base as [|b base IH]; cbn; [by destruct rest|]. by rewrite bool_decide_true.
Qed.

Lemma lexically_relative_outside p base :
  ~ base `prefix_of` p -> exists rest, lexically_relative p base = dotdot :: rest.
Proof.
  revert p. induction base as [|b base IH]; intros p Hn; [destruct Hn; by exists p|].
  destruct p as [|c p]; cbn; [by eexists|]. case_bool_decide as E; [subst|by eexists].
  apply IH. intros [k ->]. apply Hn. by exists k.
Qed.

Lemma starts_with_prefix prefix s : starts_with prefix s = true <-> prefix `prefix_of` s.
Proof.
  unfold starts_with. rewrite bool_decide_eq_true. split.
  - intros H. exists (drop (length prefix) s). by rewrite <- H at 1; rewrite take_drop.
  - intros [k ->]. by rewrite take_app_length.
Qed.

Lemma relative_text_outside rest :
  relative_text (dotdot :: rest) = dotdot \/ starts_with (str "../") (relative_text (dotdot :: rest)) = true.
Proof.
  destruct rest as [|c rest]; [by left|]. right. apply starts_with_prefix. by exists (join_slashes (c :: rest)).
Qed.

Lemma relative_text_below p :
  Forall proper p -> Forall (fun c => c <> dotdot) p ->
  relative_text p <> dotdot /\ starts_with (str "../") (relative_text p) = false.
Proof.
  intros Hp Hd. destruct p as [|c p]; [by split|].
  inversion Hp as [|? ? [Hne Hc] _]; inversion Hd as [|? ? Hcd _]; subst. unfold relative_text.
  assert (join_slashes (c :: p) = c \/ exists t, join_slashes (c :: p) = c ++ 47 :: t) as Ht
    by (destruct p; [by left|right; by eexists]).
  assert (forall s, Forall (fun x => x <> 47) c -> c <> dotdot -> c <> [] ->
    (s = c \/ exists t, s = c ++ 47 :: t) -> s <> dotdot /\ starts_with (str "../") s = false) as H; [|by apply H].
  clear. intros s Hc Hd Hne Hs. change (str "../") with [46; 46; 47].
  destruct c as [|x [|y [|z c]]]; [done|..]; repeat (inversion Hc as [|? ? ?Hx Hc']; subst; clear Hc; rename Hc' into Hc);
    unfold starts_with, dotdot in *; destruct Hs as [->|[t ->]]; cbn [app take length];
    rewrite bool_decide_eq_false; split; intros E; simplify_eq; try done.
  all: cbn in E; try congruence. all: by destruct t; cbn in *; simplify_eq.
Qed.

Lemma IsWithinRoot_spec fs root_ r p :
  canonical_ok fs -> weakly_canonical fs root_ = Some r -> weakly_canonical fs p = Some p ->
  IsWithinRoot fs root_ p = true <-> r `prefix_of` p.
Proof.
  intros Hfs Hr Hp. unfold IsWithinRoot, relative. rewrite Hr, Hp. cbn [mbind option_bind].
  rewrite (canonical_fixed _ Hfs _ _ Hr). cbn [mbind option_bind].
  destruct (canonical_clean _ Hfs _ _ Hp) as [Hq Hd]. split.
  - intros H. destruct (decide (r `prefix_of` p)) as [|Hn]; [done|].
    destruct (lexically_relative_outside p r Hn) as [rest E]. rewrite E in H.
    apply andb_true_iff in H as [H1 H2]. apply negb_true_iff, bool_decide_eq_false in H1.
    apply negb_true_iff in H2. destruct (relative_text_outside rest); congruence.
  - intros [rest ->]. rewrite lexically_relative_below. apply Forall_app in Hq as [_ Hq], Hd as [_ Hd].
    destruct (relative_text_below rest Hq Hd) as [H1 H2]. rewrite H2, bool_decide_false by done. done.
Qed.

Lemma ReadFirstLine_same fs fs' p :
  file_text fs p = file_text fs' p -> ReadFirstLine fs p = ReadFirstLine fs' p.
Proof. intros H. unfold ReadFirstLine. by rewrite H. Qed.

(** The USB attributes come from files below the root: what lies elsewhere cannot
    influence them. *)
Lemma parent_attribute_confined fs fs' root_ r depth device attribute hexadecimal :
  canonical_ok fs -> weakly_canonical fs root_ = Some r -> weakly_canonical fs device = Some device ->
  weakly_canonical fs' = weakly_canonical fs ->
  (forall p, r `prefix_of` p -> file_text fs p = file_text fs' p) ->
  parent_attribute fs root_ depth device attribute hexadecimal =
  parent_attribute fs' root_ depth device attribute hexadecimal.
Proof.
  intros Hfs Hr Hd Hc Ht. revert device Hd. induction depth as [|depth IH]; intros device Hd; [done|].
  cbn [parent_attribute].
  assert (IsWithinRoot fs' root_ device = IsWithinRoot fs root_ device) as ->
    by (unfold IsWithinRoot, relative; by rewrite Hc).
  destruct (IsWithinRoot fs root_ device) eqn:E; [|done]. cbn [negb].
  apply (IsWithinRoot_spec _ _ r) in E; [|done..].
  rewrite (ReadFirstLine_same fs fs') by (apply Ht; by apply prefix_app_r).
  destruct (ReadFirstLine fs' (device ++ [attribute])); [done|]. destruct device as [|c device]; [done|].
  apply IH. by apply (canonical_parent _ Hfs).
Qed.

(** ** What a scan finds *)

Definition text_ok (maximum : Z) (value : bytes) : Prop :=
  0 < zlen value <= maximum /\ printableAscii value = true.

(** An identity as a scan makes it. *)
Record scanned (a : AdapterIdentity) : Prop := {
  scanned_name : 0 < zlen (interfaceName a) <= 255 /\ interfaceName a <> str "lo";
  scanned_ethernet : ethernet a = true;
  scanned_path : idPath a = [] \/ text_ok 1024 (idPath a);
  scanned_mac m : permanentMac a = Some m -> NormalizeMac m = Some m;
  scanned_serial s : usbSerial a = Some s -> text_ok 256 s;
  scanned_vendor v : usbVendorId a = Some v -> NormalizeUsbId v = Some v;
  scanned_product v : usbProductId a = Some v -> NormalizeUsbId v = Some v
}.

Lemma bounded_ok value maximum : IsBoundedPrintableAscii value maximum = true -> text_ok maximum value.
Proof.
  unfold IsBoundedPrintableAscii, text_ok. rewrite !andb_true_iff, negb_true_iff, Z.eqb_neq, Z.leb_le.
  pose proof (zlen_nonneg value). intros [[? ?] ?]. split; [lia|done].
Qed.

Lemma ReadPermanentMac_normal fs p m : ReadPermanentMac fs p = Some m -> NormalizeMac m = Some m.
Proof.
  assert (forall o, o ≫= NormalizeMac = Some m -> NormalizeMac m = Some m) as H.
  { intros [x|]; [|done]. cbn. intros Hm. by destruct (NormalizeMac_Some _ _ Hm) as (? & _ & _ & _ & _ & ?). }
  unfold ReadPermanentMac. destruct (ReadFirstLine fs (p ++ [str "perm_address"])) as [x|]; [by apply (H (Some x))|].
  destruct (ReadFirstLine fs (p ++ [str "addr_assign_type"])); [destruct (negb _); [done|]|]; apply H.
Qed.

Lemma parent_attribute_normal fs root_ depth device attribute v :
  parent_attribute fs root_ depth device attribute true = Some v -> NormalizeUsbId v = Some v.
Proof.
  revert device. induction depth as [|depth IH]; intros device; [done|]. cbn [parent_attribute].
  destruct (negb _); [done|]. destruct (ReadFirstLine _ _).
  - intros Hv. by destruct (NormalizeUsbId_Some _ _ Hv) as (_ & _ & ?).
  - destruct device; [done|]. apply IH.
Qed.

Lemma ReadParentAttribute_normal fs root_ device attribute v :
  ReadParentAttribute fs root_ device attribute true = Some v -> NormalizeUsbId v = Some v.
Proof. destruct device; [apply parent_attribute_normal|done]. Qed.

Lemma inspect_scanned fs root_ udev entry name a :
  inspect fs root_ udev entry name = Some a -> scanned a /\ interfaceName a = name.
Proof.
  unfold inspect. pose proof (zlen_nonneg name). destruct (_ || _) eqn:E; [done|].
  rewrite !orb_false_iff, bool_decide_eq_false in E. destruct E as [[E1 E2] E3].
  destruct (ReadFirstLine _ _); [|done]. destruct (negb (bool_decide _)); [done|].
  set (device := match weakly_canonical fs _ with Some _ => _ | None => _ end). intros [= <-].
  split; [|done]. split; cbn [interfaceName ethernet idPath permanentMac usbSerial usbVendorId usbProductId].
  - split; [lia|done].
  - done.
  - destruct (IsBoundedPrintableAscii _ 1024) eqn:Eb; [right; by apply bounded_ok|by left].
  - apply ReadPermanentMac_normal.
  - intros s. destruct (ReadParentAttribute _ _ _ _ false) as [x|]; [|done].
    destruct (IsBoundedPrintableAscii x 256) eqn:Eb; cbn [negb]; [|done]. intros [= <-]. by apply bounded_ok.
  - apply ReadParentAttribute_normal.
  - apply ReadParentAttribute_normal.
Qed.

Lemma scan_entries_scanned fs root_ udev networkRoot entries adapters :
  NoDup (map interfaceName adapters ++ map fst entries) -> Forall scanned adapters -> zlen adapters <= 256 ->
  let found := fst (scan_entries fs root_ udev networkRoot entries adapters) in
  Forall scanned found /\ zlen found <= 256 /\ NoDup (map interfaceName found) /\
  forall a, a ∈ found -> a ∈ adapters \/ interfaceName a ∈ map fst entries.
Proof.
  revert adapters. induction entries as [|[name advanced] entries IH]; intros adapters Hn Ha Hz; cbn [scan_entries map fst] in *.
  - rewrite app_nil_r in Hn. split_and!; try done. by left.
  - assert (NoDup (map interfaceName adapters)) as Hna by by apply NoDup_app in Hn as (? & _ & _).
    destruct advanced; cbn [negb]; [|split_and!; try done; by left].
    destruct (Z.leb_spec 256 (zlen adapters)); [split_and!; try done; by left|].
    destruct (inspect _ _ _ _ name) as [a|] eqn:E.
    + apply inspect_scanned in E as [Hs <-].
      destruct (IH (adapters ++ [a])) as (H1 & H2 & H3 & H4).
      * rewrite map_app, <- app_assoc. done.
      * by apply Forall_app_2; [|apply Forall_singleton].
      * rewrite zlen_app, zlen_cons, zlen_nil. lia.
      * split_and!; try done. intros x Hx. destruct (H4 x Hx) as [Hin|Hin]; [|right; by right].
        apply elem_of_app in Hin as [Hin| ->%list_elem_of_singleton]; [by left|right; by left].
    + destruct (IH adapters) as (H1 & H2 & H3 & H4); try done.
      * rewrite <- Permutation_middle in Hn. by apply NoDup_cons in Hn as [_ ?].
      * split_and!; try done. intros x Hx. destruct (H4 x Hx); [by left|right; by right].
Qed.

(** The lock that pins every known identity of an adapter. *)
Definition lock_of (a : AdapterIdentity) : AdapterIdentityLock :=
  mkLock (idPath a) (permanentMac a) (usbSerial a) (usbVendorId a) (usbProductId a).

Lemma lock_of_valid a : scanned a -> idPath a <> [] -> ValidateAdapterLock (lock_of a) = None.
Proof.
  intros [_ _ Hp Hm Hs Hv Hq] Hne. unfold ValidateAdapterLock, lock_of.
  cbn [lock_idPath lock_permanentMac lock_usbSerial lock_usbVendorId lock_usbProductId].
  destruct Hp as [|[Hp ->]]; [done|].
  destruct (Z.eqb_spec (zlen (idPath a)) 0); [lia|]. destruct (Z.ltb_spec 1024 (zlen (idPath a))); [lia|].
  cbn [orb negb].
  destruct (permanentMac a) as [m|]; [rewrite (Hm m eq_refl); cbn [has_value negb]|];
  (destruct (usbSerial a) as [s|]; [destruct (Hs s eq_refl) as [Hl ->];
     destruct (Z.eqb_spec (zlen s) 0); [lia|]; destruct (Z.ltb_spec 256 (zlen s)); [lia|]; cbn [orb negb]|]);
  (destruct (usbVendorId a) as [v|]; [rewrite (Hv v eq_refl); cbn [has_value negb]|]);
  (destruct (usbProductId a) as [q|]; [rewrite (Hq q eq_refl); cbn [has_value negb]|]); done.
Qed.

Lemma lock_of_satisfied a : scanned a -> satisfies (lock_of a) a.
Proof.
  intros [_ _ _ Hm _ Hv Hq]. unfold satisfies, lock_of, satisfies_value.
  cbn [lock_idPath lock_permanentMac lock_usbSerial lock_usbVendorId lock_usbProductId].
  split_and!; [done|destruct (permanentMac a); [eexists; split; [by apply Hm|done]|done]|
    destruct (usbSerial a); [by eexists|done]|
    destruct (usbVendorId a); [eexists; split; [by apply Hv|done]|done]|
    destruct (usbProductId a); [eexists; split; [by apply Hq|done]|done]].
Qed.

(** ** Properties *)

(** C22: a scan yields usable identities: whatever the files say, there are at most 256 adapters,
    sorted by path and name, each an Ethernet interface of the directory other than lo with a
    name of 1 to 255 bytes; a path, MAC address, serial or USB id is either absent or bounded,
    printable and in normal form. Hence an adapter with a path that no other adapter has can be
    locked to all it shows, and the resolution with that lock finds exactly this adapter. *)
Theorem Scan_lockable fs root_ udev entries :
  directory fs (root_ ++ [str "class"; str "net"]) = Some entries -> NoDup (map fst entries) ->
  let adapters := fst (Scan fs root_ udev) in
  zlen adapters <= 256 /\ Forall scanned adapters /\
  StronglySorted (not_after identity_key (pair_ltb bytes_ltb bytes_ltb)) adapters /\
  forall a, a ∈ adapters -> interfaceName a ∈ map fst entries /\
    (idPath a <> [] -> (forall b, b ∈ adapters -> idPath b = idPath a -> b = a) ->
     ValidateAdapterLock (lock_of a) = None /\
     forall preferred,
       let r := ResolveAdapter adapters preferred (Some (lock_of a)) false in
       resolution_state r = Matched /\ resolution_identity r = Some a).
Proof.
  intros Hd Hnd. unfold Scan. rewrite Hd.
  destruct (scan_entries_scanned fs root_ udev (root_ ++ [str "class"; str "net"]) entries [])
    as (H1 & H2 & H3 & H4); [done|done|done|].
  destruct (scan_entries _ _ _ _ entries []) as [found e]. cbn [fst] in *.
  set (adapters := sort_by _ _ found).
  assert (adapters ≡ₚ found) as Hp by apply sort_by_permutation.
  assert (Forall scanned adapters) as Hs by by rewrite Hp.
  split_and!; [|done|apply sort_by_sorted, _|].
  { unfold zlen in *. by rewrite Hp. }
  intros a Ha. assert (a ∈ found) as Haf by by rewrite <- Hp.
  split; [by destruct (H4 a Haf) as [?%elem_of_nil|]|]. intros Hne Hu.
  assert (scanned a) as Hsa by (rewrite Forall_forall in Hs; by apply Hs).
  split; [by apply lock_of_valid|]. intros preferred.
  apply resolve_unique; [by apply lock_of_valid| |by apply lock_of_satisfied].
  apply filter_single; [|done| |].
  - rewrite Hp. by eapply NoDup_fmap_1.
  - unfold has_path. by apply bool_decide_eq_true.
  - intros b Hb E. apply Hu; [done|]. unfold has_path in E. by apply bool_decide_eq_true in E.
Qed.

(** C23: the USB attributes are read from paths below the sysfs root alone: following the device link
    out of the root finds nothing, and whatever the link resolves to, two file systems that
    resolve links alike and have the same text at every path below the root give the same
    serial, vendor and product. (The text at a path is what opening it gives; an attribute file
    that is itself a link counts as being at the path of the link.) *)
Theorem usb_identity_confined fs fs' root_ r link attribute hexadecimal :
  canonical_ok fs -> weakly_canonical fs root_ = Some r ->
  weakly_canonical fs' = weakly_canonical fs ->
  (forall p, r `prefix_of` p -> file_text fs p = file_text fs' p) ->
  let device f := match weakly_canonical f link with
                  | Some d => if IsWithinRoot f root_ d then Some d else None
                  | None => None
                  end in
  ReadParentAttribute fs root_ (device fs) attribute hexadecimal =
    ReadParentAttribute fs' root_ (device fs') attribute hexadecimal /\
  (forall d, device fs = Some d -> r `prefix_of` d) /\
  (forall d, weakly_canonical fs link = Some d -> ~ r `prefix_of` d -> device fs = None).
Proof.
  intros Hfs Hr Hc Ht device.
  assert (device fs' = device fs) as ->.
  { unfold device, IsWithinRoot, relative. by rewrite Hc. }
  assert (forall d, device fs = Some d -> weakly_canonical fs d = Some d /\ r `prefix_of` d) as Hdev.
  { intros d. unfold device. destruct (weakly_canonical fs link) as [x|] eqn:E; [|done].
    apply (canonical_fixed _ Hfs) in E. destruct (IsWithinRoot fs root_ x) eqn:Ew; [|done].
    intros [= <-]. split; [done|]. by apply (IsWithinRoot_spec _ _ _ _ Hfs Hr E). }
  split_and!.
  - destruct (device fs) as [d|]; [|done]. destruct (Hdev d eq_refl).
    by apply (parent_attribute_confined _ _ _ r).
  - intros d Hd. by apply Hdev.
  - intros d Hd Hn. unfold device. rewrite Hd. destruct (IsWithinRoot fs root_ d) eqn:Ew; [|done].
    destruct Hn. apply (IsWithinRoot_spec fs root_ r d Hfs Hr); [by eapply canonical_fixed|done].
Qed.


(** A machine with one USB Ethernet adapter, whose device link leads into /sys/devices. *)
Definition sample_files : list (path * bytes) :=
  map (fun e => (components (str (fst e)), str (snd e)))
    [("/sys/class/net/lo/type"%string, "772"%string);
     ("/sys/class/net/eth1/type"%string, "1"%string);
     ("/sys/class/net/eth1/carrier"%string, "1"%string);
     ("/sys/class/net/eth1/ifindex"%string, "3"%string);
     ("/sys/class/net/eth1/address"%string, "00:11:22:AA:BB:CC"%string);
     ("/run/udev/data/n3"%string, "E:ID_PATH=pci-usb-0:1 "%string);
     ("/sys/devices/usb1/idVendor"%string, " 0BDA "%string);
     ("/sys/devices/usb1/1-1/serial"%string, "S01"%string)].

Definition sample_link : path := components (str "/sys/class/net/eth1/device").
Definition sample_device : path := components (str "/sys/devices/usb1/1-1").

Definition clean_name (c : bytes) : bool :=
  negb (bool_decide (c = [])) && negb (existsb (Z.eqb 47) c) && negb (bool_decide (c = dotdot)).

Definition sample_canonical (p : path) : option path :=
  if forallb clean_name p
  then Some (if bool_decide (sample_link `prefix_of` p)
             then sample_device ++ drop (length sample_link) p else p)
  else None.

Definition sample_fs : Filesystem :=
  mkFilesystem (fun p => snd <$> List.find (fun e => bool_decide (fst e = p)) sample_files)
    (fun p => if bool_decide (p = components (str "/sys/class/net"))
              then Some [(str "lo", true); (str "eth1", true)] else None)
    sample_canonical.

Definition sample_found : AdapterIdentity :=
  mkIdentity (str "eth1") (str "pci-usb-0:1") (Some (str "00:11:22:aa:bb:cc")) (Some (str "S01"))
    (Some (str "0bda")) None true true.

Lemma Scan_lockable_witness :
  fst (Scan sample_fs (components (str "/sys")) (components (str "/run/udev/data"))) = [sample_found] /\
  resolution_identity (ResolveAdapter [sample_found] (str "eth0") (Some (lock_of sample_found)) false)
    = Some sample_found.
Proof.
  assert (fst (Scan sample_fs (components (str "/sys")) (components (str "/run/udev/data"))) = [sample_found])
    as E by by vm_compute.
  destruct (Scan_lockable sample_fs (components (str "/sys")) (components (str "/run/udev/data"))
    [(str "lo", true); (str "eth1", true)]) as (_ & _ & _ & H).
  - by vm_compute.
  - apply (bool_decide_unpack _). by vm_compute.
  - rewrite E in H. split; [done|]. destruct (H sample_found) as [_ K]; [by left|].
    apply K; [done|]. by intros b ->%list_elem_of_singleton.
Defined.

Lemma sample_link_fixed p q : sample_canonical p = Some q -> forallb clean_name q = true /\ ~ sample_link `prefix_of` q.
Proof.
  unfold sample_canonical. destruct (forallb clean_name p) eqn:E; [|intros Hq; discriminate Hq].
  intros Hq. apply (inj Some) in Hq as <-. case_bool_decide as Hp; [|by split]. destruct Hp as [k ->]. rewrite drop_app_length.
  rewrite forallb_app in *. apply andb_true_iff in E as [_ ->]. split; [reflexivity|].
  intros [k' E]. by vm_compute in E.
Qed.

Lemma sample_fs_ok : canonical_ok sample_fs.
Proof.
  assert (forall q, forallb clean_name q = true -> Forall proper q /\ Forall (fun c => c <> dotdot) q) as Hclean.
  { intros q Hq. rewrite forallb_forall in Hq. apply Forall_and, Forall_forall.
    intros c Hc%list_elem_of_In. specialize (Hq c Hc).
    unfold clean_name in Hq. rewrite !andb_true_iff, !negb_true_iff, !bool_decide_eq_false in Hq.
    destruct Hq as [[H1 H2] H3]. split; [|done]. split; [done|]. apply Forall_forall. intros x Hx ->.
    enough (existsb (Z.eqb 47) c = true) by congruence. apply existsb_exists. exists 47.
    split; [by apply list_elem_of_In|done]. }
  split; cbn [weakly_canonical sample_fs].
  - intros p q H%sample_link_fixed. by apply Hclean, H.
  - intros p q H%sample_link_fixed. destruct H as [H1 H2]. unfold sample_canonical.
    by rewrite H1, bool_decide_false.
  - intros p H. apply sample_link_fixed in H as [H1 H2]. unfold sample_canonical.
    destruct (decide (p = [])) as [->|Hp]; [done|].
    rewrite (app_removelast_last [] Hp) in H1, H2. rewrite forallb_app in H1. apply andb_true_iff in H1 as [-> _].
    rewrite bool_decide_false; [done|]. intros Hpre. by apply H2, prefix_app_r.
Qed.

(** The same machine with a forged text in every file outside of sysfs. *)
Definition forged_fs : Filesystem :=
  mkFilesystem (fun p => if bool_decide (components (str "/sys") `prefix_of` p)
                         then file_text sample_fs p else Some (str "forged"))
    (directory sample_fs) (weakly_canonical sample_fs).

Lemma usb_identity_confined_witness :
  ReadParentAttribute forged_fs (components (str "/sys")) (Some sample_device) (str "serial") false
    = Some (str "S01").
Proof.
  destruct (usb_identity_confined sample_fs forged_fs (components (str "/sys")) (components (str "/sys"))
              sample_link (str "serial") false sample_fs_ok) as (H & _).
  - by vm_compute.
  - reflexivity.
  - intros p Hp. unfold forged_fs. cbn [file_text]. by rewrite bool_decide_true.
  - transitivity (ReadParentAttribute sample_fs (components (str "/sys")) (Some sample_device) (str "serial") false);
      [symmetry; exact H|by vm_compute].
Defined.
