(* ===== verification/EventLog.v ===== *)
(** The event log of the daemon ([EventLog] of [main.cpp]): messages made into single lines,
    files that are rotated by size and pruned by count, age and free space. *)

From stdpp Require Import sorting.
From S2P Require Import Prelude Adapter Paths.

Module EventLog.

Definition kMaximumLogFileBytes : Z := 10 * 1024 * 1024.

(** ** State *)

(** A directory entry: [regular] as [symlink_status] sees it. *)
Record LogFile := mkLogFile {
  file_name : bytes;
  modified : Z;
  regular : bool;
  content : bytes
}.

(** [std::ofstream]: the state of the buffer and [fail()]. *)
Record ofstream := mkStream { is_open : bool; failed : bool }.

Record t := mk {
  countLimit_ : Z;
  freeSpaceThreshold_ : Z;
  stream_ : ofstream;
  currentPath_ : option bytes;
  bytesWritten_ : Z;
  sequence_ : Z;
  nextSpaceCheck_ : Z;
  files : list LogFile
}.

Definition with_files v s := mk (countLimit_ s) (freeSpaceThreshold_ s) (stream_ s) (currentPath_ s)
  (bytesWritten_ s) (sequence_ s) (nextSpaceCheck_ s) v.
Definition with_stream v s := mk (countLimit_ s) (freeSpaceThreshold_ s) v (currentPath_ s)
  (bytesWritten_ s) (sequence_ s) (nextSpaceCheck_ s) (files s).
Definition with_current v s := mk (countLimit_ s) (freeSpaceThreshold_ s) (stream_ s) v
  (bytesWritten_ s) (sequence_ s) (nextSpaceCheck_ s) (files s).
Definition with_bytes v s := mk (countLimit_ s) (freeSpaceThreshold_ s) (stream_ s) (currentPath_ s)
  v (sequence_ s) (nextSpaceCheck_ s) (files s).
Definition with_sequence v s := mk (countLimit_ s) (freeSpaceThreshold_ s) (stream_ s) (currentPath_ s)
  (bytesWritten_ s) v (nextSpaceCheck_ s) (files s).
Definition with_check v s := mk (countLimit_ s) (freeSpaceThreshold_ s) (stream_ s) (currentPath_ s)
  (bytesWritten_ s) (sequence_ s) v (files s).

(** ** Messages *)

Definition Sanitize (message : bytes) : bytes :=
  map (fun byte => if (byte =? 10) || (byte =? 13) || (byte =? 0) || ((byte <? 0x20) && negb (byte =? 9))
                   then 32 else byte)
    (if 1024 <? zlen message then take 1024 message else message).

(** ** Pruning *)

Definition ends_with (suffix value : bytes) : bool :=
  bool_decide (drop (length value - length suffix) value = suffix).

(** [blocks * blockSize], saturated; [None] when [statvfs] fails. *)
Definition AvailableBytes (statistics : option (Z * Z)) : option Z :=
  match statistics with
  | None => None
  | Some (blocks, blockSize) =>
      if negb (blockSize =? 0) && (U64_MAX / blockSize <? blocks) then Some U64_MAX
      else Some (to_u64 (blocks * blockSize))
  end.

(** The entries that the loop of [ExistingLogs] keeps. *)
Definition is_log (current : option bytes) (f : LogFile) : bool :=
  regular f && starts_with (str "ec-systemcore-") (file_name f) && ends_with (str ".log") (file_name f) &&
  negb (bool_decide (current = Some (file_name f))).

Definition log_key (f : LogFile) : Z * bytes := (modified f, file_name f).

(** At most 4096 of them, oldest first. *)
Definition ExistingLogs (s : t) : list LogFile :=
  sort_by log_key (pair_ltb Z.ltb bytes_ltb)
    (take 4096 (List.filter (is_log (currentPath_ s)) (files s))).

(** [std::filesystem::remove]. *)
Definition remove_file (name : bytes) (l : list LogFile) : list LogFile :=
  List.filter (fun f => negb (bool_decide (file_name f = name))) l.

Definition short_of_space (threshold : Z) (available : option Z) : bool :=
  match available with Some n => n <? threshold | None => false end.

(** The loop of [PruneLocked]. [removals k] is whether the [k]-th removal succeeds, and what
    [statvfs] answers after it. *)
Fixpoint prune_loop (maximumExisting threshold : Z) (removals : nat -> bool * option (Z * Z)) (k : nat)
    (logs : list LogFile) (available : option Z) (l : list LogFile) : list LogFile :=
  match logs with
  | [] => l
  | oldest :: rest =>
      if (maximumExisting <? zlen logs) || short_of_space threshold available then
        let '(removed, statistics) := removals k in
        if negb removed then l
        else prune_loop maximumExisting threshold removals (S k) rest (AvailableBytes statistics)
               (remove_file (file_name oldest) l)
      else l
  end.

(** The answers to one call of [PruneLocked]. *)
Record PruneIo := mkPruneIo {
  prune_statistics : option (Z * Z);
  prune_removals : nat -> bool * option (Z * Z)
}.

Definition PruneLocked (io : PruneIo) (maximumExisting : Z) (s : t) : t :=
  with_files (prune_loop maximumExisting (freeSpaceThreshold_ s) (prune_removals io) 0 (ExistingLogs s)
                (AvailableBytes (prune_statistics io)) (files s)) s.

(** [countLimit_ > 0 ? countLimit_ - 1U : 0U]. *)
Definition others (s : t) : Z := if 0 <? countLimit_ s then countLimit_ s - 1 else 0.

(** ** Rotation *)

(** [stream_.close()] on a closed stream fails. *)
Definition close (f : ofstream) : ofstream :=
  if is_open f then mkStream false (failed f) else mkStream false true.

(** [stream_.open()]: fails on an open stream. *)
Definition open_stream (opened : bool) (f : ofstream) : ofstream :=
  if is_open f then mkStream true true
  else if opened then mkStream true false else mkStream false true.

(** The file that opening for append finds or creates. *)
Definition touch (name : bytes) (mtime : Z) (l : list LogFile) : list LogFile :=
  if existsb (fun f => bool_decide (file_name f = name)) l then l
  else l ++ [mkLogFile name mtime true []].

Definition file_size (name : bytes) (l : list LogFile) : Z :=
  match List.find (fun f => bool_decide (file_name f = name)) l with
  | Some f => zlen (content f)
  | None => 0
  end.

(** The answers to one call of [RotateLocked]: the name it makes of the clock, the process and
    the sequence number, and whether the file can be opened and its size read. *)
Record RotateIo := mkRotateIo {
  rotate_prune : PruneIo;
  rotate_now : Z;
  rotate_mtime : Z;
  rotate_statistics : option (Z * Z);
  rotate_name : bytes;
  rotate_opened : bool;
  rotate_sized : bool;
  rotate_prune_again : PruneIo
}.

(** [RotateLocked] up to the second look at the free space. *)
Definition rotate_close (io : RotateIo) (s : t) : t :=
  let s := if negb (failed (stream_ s)) then with_stream (close (stream_ s)) s else s in
  let s := with_current None s in
  let s := PruneLocked (rotate_prune io) (others s) s in
  let s := with_check (rotate_now io + 60 * 1000000000) s in
  with_bytes 0 s.

(** The rest, when there is space. *)
Definition rotate_open (io : RotateIo) (s : t) : t :=
  let name := rotate_name io in
  let s := with_sequence (to_u64 (sequence_ s + 1)) s in
  let s := with_stream (open_stream (rotate_opened io) (stream_ s)) s in
  if failed (stream_ s) then s
  else
    let s := with_files (touch name (rotate_mtime io) (files s)) s in
    let s := with_current (Some name) s in
    let s := with_bytes (if rotate_sized io then file_size name (files s) else 0) s in
    PruneLocked (rotate_prune_again io) (others s) s.

Definition RotateLocked (io : RotateIo) (s : t) : t :=
  let s := rotate_close io s in
  if short_of_space (freeSpaceThreshold_ s) (AvailableBytes (rotate_statistics io)) then s
  else rotate_open io s.

(** ** Events *)

(** [stream_ << message << '\n'; stream_.flush();]: [taken] bytes of the line reach the file
    of an open stream, whose time of modification is then [mtime]; the stream fails if these are
    not all, and if it is closed. *)
Definition append_line (taken mtime : Z) (message : bytes) (s : t) : t :=
  let line := message ++ [10] in
  if is_open (stream_ s) then
    with_files (map (fun f => if bool_decide (currentPath_ s = Some (file_name f))
                              then mkLogFile (file_name f) mtime (regular f)
                                     (content f ++ take (Z.to_nat taken) line)
                              else f) (files s))
      (with_stream (mkStream true (taken <? zlen line)) s)
  else with_stream (mkStream false true) s.

Record EventIo := mkEventIo {
  event_now : Z;
  event_rotate : RotateIo;
  event_prune : PruneIo;
  event_check : Z;
  event_taken : Z;
  event_mtime : Z
}.

(** The file has no room for [required] more bytes. *)
Definition full (required : Z) (s : t) : bool :=
  kMaximumLogFileBytes - Z.min required kMaximumLogFileBytes <? bytesWritten_ s.

(** The first part of [Event]. *)
Definition make_room (io : EventIo) (required : Z) (s : t) : t :=
  if full required s
  then RotateLocked (event_rotate io) s
  else if nextSpaceCheck_ s <=? event_now io
  then with_check (event_check io + 60 * 1000000000) (PruneLocked (event_prune io) (others s) s)
  else s.

(** [Event]; the second result is the line on the standard error stream. *)
Definition Event (io : EventIo) (message : bytes) (s : t) : t * bytes :=
  let message := Sanitize message in
  let required := zlen message + 1 in
  let s := make_room io required s in
  let s :=
    if negb (failed (stream_ s))
    then with_bytes (bytesWritten_ s + required) (append_line (event_taken io) (event_mtime io) message s)
    else s in
  (s, message ++ [10]).

(** What the constructor finds out about the directory: [weakly_canonical] of its parent,
    whether it could be created, [symlink_status] and [canonical] of it. *)
Record DirectoryIo := mkDirectoryIo {
  canonical_parent : option path;
  directories_made : bool;
  directory_status : option file_kind;
  canonical_directory : option path
}.

Inductive DirectoryError := ParentHasSymlinks | CannotCreate | NotRealDirectory | HasSymlinks.

(** The checks of the constructor; [normalized] is the directory in normal form. *)
Definition check_directory (normalized : path) (io : DirectoryIo) : option DirectoryError :=
  if negb (bool_decide (canonical_parent io = Some (removelast normalized))) then Some ParentHasSymlinks
  else if negb (directories_made io) then Some CannotCreate
  else if negb (bool_decide (directory_status io = Some Directory)) then Some NotRealDirectory
  else if negb (bool_decide (canonical_directory io = Some normalized)) then Some HasSymlinks
  else None.

(** The constructor, on a directory that passed its checks. *)
Definition create (countLimit freeSpaceThreshold : Z) (l : list LogFile) (io : RotateIo) : t :=
  RotateLocked io (mk countLimit freeSpaceThreshold (mkStream false false) None 0 0 0 l).

(** The whole constructor: a log, or the exception. *)
Definition construct (normalized : path) (directory : DirectoryIo) (countLimit freeSpaceThreshold : Z)
    (l : list LogFile) (io : RotateIo) : t + DirectoryError :=
  match check_directory normalized directory with
  | Some e => inr e
  | None => inl (create countLimit freeSpaceThreshold l io)
  end.

(** ** Messages are lines *)

Lemma Sanitize_length message : zlen (Sanitize message) <= 1024.
Proof.
  unfold Sanitize. destruct (Z.ltb_spec 1024 (zlen message)) as [H|H];
    unfold zlen in *; rewrite length_map, ?length_take; lia.
Qed.

Lemma Sanitize_clean message : Forall (fun c => c = 9 \/ 32 <= c) (Sanitize message).
Proof.
  unfold Sanitize. apply Forall_fmap, Forall_forall. intros c _. cbn.
  destruct (_ || _) eqn:E; [lia|]. destruct (Z.ltb_spec c 32); [|lia].
  destruct (Z.eqb_spec c 9); [by left|]. rewrite !orb_false_iff in E. cbn in E. by destruct E as [_ E].
Qed.

Lemma Sanitize_idempotent message : Sanitize (Sanitize message) = Sanitize message.
Proof.
  pose proof (Sanitize_length message) as Hl. pose proof (Sanitize_clean message) as Hc.
  revert Hl Hc. generalize (Sanitize message). intros l Hl Hc. unfold Sanitize.
  destruct (Z.ltb_spec 1024 (zlen l)); [lia|]. induction Hc as [|c l Hc _ IH]; [done|]. cbn [map].
  rewrite zlen_cons in *. rewrite IH by lia. f_equal. destruct (_ || _) eqn:E; [lia|done].
Qed.

(** Text made of whole lines. *)
Definition whole_lines (text : bytes) : Prop := text = [] \/ last text = Some 10.

Lemma getlines_app line text rest :
  whole_lines text -> line = [] \/ text <> [] -> getlines line (text ++ rest) = getlines line text ++ lines rest.
Proof.
  revert line. induction text as [|c text IH]; intros line Hw Hl.
  - destruct Hl as [->|]; [|done]. done.
  - cbn [getlines app]. destruct Hw as [|Hw]; [done|].
    assert (whole_lines text) as Hw' by (destruct text; [by left|right; exact Hw]).
    destruct (Z.eqb_spec c 10) as [->|Hc].
    + rewrite IH by (done || by left). done.
    + apply IH; [done|]. right. destruct text; [|done]. cbn in Hw. congruence.
Qed.

Lemma lines_app text rest : whole_lines text -> lines (text ++ rest) = lines text ++ lines rest.
Proof. intros H. apply getlines_app; [done|by left]. Qed.

Lemma getlines_one line message :
  Forall (fun c => c <> 10) message -> getlines line (message ++ [10]) = [line ++ message].
Proof.
  intros Hm. revert line. induction Hm as [|c m Hc _ IH]; intros line; [by rewrite app_nil_r|].
  cbn. rewrite (proj2 (Z.eqb_neq _ _) Hc), IH, <- app_assoc. done.
Qed.

Lemma lines_message message : lines (Sanitize message ++ [10]) = [Sanitize message].
Proof.
  unfold lines. rewrite getlines_one; [done|].
  eapply Forall_impl; [apply Sanitize_clean|]. intros c Hc. cbn in Hc. lia.
Qed.

(** ** Pruning takes the oldest *)

(** Pruning changes the files only. *)
Lemma PruneLocked_limit io maximum s : countLimit_ (PruneLocked io maximum s) = countLimit_ s.
Proof. reflexivity. Qed.

Lemma PruneLocked_others io maximum s : others (PruneLocked io maximum s) = others s.
Proof. reflexivity. Qed.

Lemma PruneLocked_stream io maximum s : stream_ (PruneLocked io maximum s) = stream_ s.
Proof. reflexivity. Qed.

Definition without (names : list bytes) (l : list LogFile) : list LogFile :=
  List.filter (fun f => negb (bool_decide (file_name f ∈ names))) l.

Lemma without_nil l : without [] l = l.
Proof.
  unfold without. induction l as [|f l IH]; [done|]. cbn [List.filter].
  rewrite bool_decide_false by apply not_elem_of_nil. cbn [negb]. by rewrite IH.
Qed.

Lemma without_cons name names l : without names (remove_file name l) = without (name :: names) l.
Proof.
  unfold without, remove_file. induction l as [|f l IH]; [done|]. cbn [List.filter].
  destruct (decide (file_name f = name)) as [E|E].
  - rewrite (bool_decide_true (file_name f = name)) by done.
    rewrite (bool_decide_true (file_name f ∈ name :: names)) by (rewrite E; left). exact IH.
  - rewrite (bool_decide_false (file_name f = name)) by done. cbn [negb List.filter]. rewrite IH.
    destruct (decide (file_name f ∈ names)) as [Hn|Hn].
    + rewrite !bool_decide_true by (done || by right). done.
    + rewrite !bool_decide_false; [done| |done]. by intros [?|?]%elem_of_cons.
Qed.

(** Whether the loop was ended by a removal that failed. *)
Fixpoint loop_refused (maximumExisting threshold : Z) (removals : nat -> bool * option (Z * Z)) (k : nat)
    (logs : list LogFile) (available : option Z) : bool :=
  match logs with
  | [] => false
  | _ :: rest =>
      if (maximumExisting <? zlen logs) || short_of_space threshold available then
        let '(removed, statistics) := removals k in
        if negb removed then true
        else loop_refused maximumExisting threshold removals (S k) rest (AvailableBytes statistics)
      else false
  end.

Lemma prune_loop_spec maximum threshold removals logs k available l :
  exists n, prune_loop maximum threshold removals k logs available l = without (map file_name (take n logs)) l /\
    (loop_refused maximum threshold removals k logs available = false -> 0 <= maximum ->
     zlen (drop n logs) <= maximum).
Proof.
  revert k available l. induction logs as [|f logs IH]; intros k available l; cbn [prune_loop loop_refused].
  { exists O. split; [by rewrite without_nil|]. done. }
  destruct (_ || _) eqn:E.
  2:{ exists O. split; [by rewrite without_nil|]. intros _ _. rewrite drop_0. lia. }
  destruct (removals k) as [removed statistics] eqn:Er. destruct removed; cbn [negb].
  - destruct (IH (S k) (AvailableBytes statistics) (remove_file (file_name f) l)) as (n & -> & Hn).
    exists (S n). split; [apply without_cons|]. exact Hn.
  - exists O. by split; [rewrite without_nil|].
Qed.

Lemma without_filter p names l : List.filter p (without names l) = without names (List.filter p l).
Proof.
  unfold without. induction l as [|f l IH]; [done|]. cbn [List.filter].
  destruct (negb _) eqn:E1, (p f) eqn:E2; cbn [List.filter]; rewrite ?E1, ?E2, IH; done.
Qed.

#[local] Instance without_proper names : Proper ((≡ₚ) ==> (≡ₚ)) (without names).
Proof. intros l l' H. by apply filter_permutation. Qed.

Lemma without_prefix logs n :
  NoDup (map file_name logs) -> without (map file_name (take n logs)) logs = drop n logs.
Proof.
  intros Hn. rewrite <- (take_drop n logs) in Hn. rewrite map_app in Hn. apply NoDup_app in Hn as (_ & Hd & _).
  transitivity (without (map file_name (take n logs)) (take n logs ++ drop n logs)); [by rewrite take_drop|].
  unfold without. rewrite List.filter_app, filter_none, filter_all; [done|..].
  - intros f Hf. apply negb_true_iff, bool_decide_eq_false. intros Hin. apply (Hd _ Hin).
    by apply list_elem_of_fmap_2.
  - intros f Hf. apply negb_false_iff, bool_decide_eq_true. by apply list_elem_of_fmap_2.
Qed.

Lemma without_sublist names l : without names l `sublist_of` l.
Proof.
  unfold without. induction l as [|f l IH]; [done|]. cbn. destruct (negb _); by constructor.
Qed.

(** The files of one log directory have different names. *)
Definition distinct (l : list LogFile) : Prop := NoDup (map file_name l).

Lemma filter_distinct p l : distinct l -> distinct (List.filter p l).
Proof.
  unfold distinct. induction l as [|f l IH]; [done|]. cbn [map List.filter]. intros [Hf Hl]%NoDup_cons.
  destruct (p f); [|by apply IH]. cbn. apply NoDup_cons. split; [|by apply IH].
  intros (g & E & Hg)%list_elem_of_fmap. apply list_elem_of_In, filter_In in Hg as [Hg _].
  apply Hf. rewrite E. apply list_elem_of_fmap_2. by apply list_elem_of_In.
Qed.

(** A removal failed in this call of [PruneLocked]. *)
Definition prune_refused (io : PruneIo) (maximumExisting : Z) (s : t) : bool :=
  loop_refused maximumExisting (freeSpaceThreshold_ s) (prune_removals io) 0 (ExistingLogs s)
    (AvailableBytes (prune_statistics io)).

Definition log_count (l : list LogFile) : Z := zlen (List.filter (is_log None) l).

Lemma others_nonneg s : 0 <= others s.
Proof. unfold others. destruct (Z.ltb_spec 0 (countLimit_ s)); lia. Qed.

Lemma filter_sublist {A} (p : A -> bool) l l' :
  l `sublist_of` l' -> zlen (List.filter p l) <= zlen (List.filter p l').
Proof.
  induction 1 as [|x l l' _ IH|x l l' _ IH]; cbn; [done|..]; destruct (p x); rewrite ?zlen_cons; lia.
Qed.

Lemma prune_files io maximum s :
  exists n, files (PruneLocked io maximum s) = without (map file_name (take n (ExistingLogs s))) (files s).
Proof.
  destruct (prune_loop_spec maximum (freeSpaceThreshold_ s) (prune_removals io) (ExistingLogs s) 0
              (AvailableBytes (prune_statistics io)) (files s)) as (n & E & _). by exists n.
Qed.

Lemma ExistingLogs_not_current s f :
  f ∈ ExistingLogs s -> currentPath_ s <> Some (file_name f).
Proof.
  unfold ExistingLogs. rewrite sort_by_permutation. intros Hf%elem_of_take E.
  destruct Hf as (i & Hf & _). apply list_elem_of_lookup_2, list_elem_of_In, filter_In in Hf as [_ Hf].
  unfold is_log in Hf. apply andb_true_iff in Hf as [_ Hf]. by rewrite bool_decide_true in Hf.
Qed.

(** Pruning spares the current file. *)
Lemma prune_keeps_current io maximum s f :
  f ∈ files s -> currentPath_ s = Some (file_name f) -> f ∈ files (PruneLocked io maximum s).
Proof.
  intros Hf Hc. destruct (prune_files io maximum s) as [n ->].
  apply list_elem_of_In, filter_In. split; [by apply list_elem_of_In|].
  apply negb_true_iff, bool_decide_eq_false. intros (g & E & Hg)%list_elem_of_fmap.
  apply elem_of_take in Hg as (i & Hg & _). apply list_elem_of_lookup_2, ExistingLogs_not_current in Hg.
  congruence.
Qed.

Lemma prune_count io maximum s : log_count (files (PruneLocked io maximum s)) <= log_count (files s).
Proof. destruct (prune_files io maximum s) as [n ->]. apply filter_sublist, without_sublist. Qed.

Lemma prune_distinct io maximum s : distinct (files s) -> distinct (files (PruneLocked io maximum s)).
Proof. destruct (prune_files io maximum s) as [n ->]. apply filter_distinct. Qed.

(** A file that is removed was counted. *)
Lemma without_shorter names l f :
  f ∈ l -> file_name f ∈ names -> zlen (without names l) + 1 <= zlen l.
Proof.
  intros Hf Hn. unfold without. induction l as [|g l IH]; [by apply elem_of_nil in Hf|].
  cbn [List.filter]. apply elem_of_cons in Hf as [<-|Hf].
  - rewrite bool_decide_true by done. cbn [negb]. rewrite zlen_cons.
    pose proof (filter_sublist (fun _ => true) _ _ (without_sublist names l)) as H.
    rewrite !filter_all in H by done. unfold without in H. lia.
  - specialize (IH Hf). destruct (negb _); rewrite ?zlen_cons; lia.
Qed.

(** What pruning leaves when no file is current and no removal fails: no more than
    [maximum] files if it sees them all, else at least one file less. *)
Lemma prune_limits io maximum s :
  currentPath_ s = None -> distinct (files s) -> prune_refused io maximum s = false -> 0 <= maximum <= 4095 ->
  log_count (files (PruneLocked io maximum s)) <= Z.max maximum (log_count (files s) - 1) /\
  (log_count (files s) <= 4096 -> log_count (files (PruneLocked io maximum s)) <= maximum).
Proof.
  intros Hcur Hd Ha Hm. unfold PruneLocked. cbn [files with_files].
  destruct (prune_loop_spec maximum (freeSpaceThreshold_ s) (prune_removals io) (ExistingLogs s) 0
              (AvailableBytes (prune_statistics io)) (files s)) as (n & -> & Hn).
  set (logs := List.filter (is_log None) (files s)) in *.
  assert (ExistingLogs s ≡ₚ take 4096 logs) as Hp
    by (unfold ExistingLogs; by rewrite sort_by_permutation, Hcur).
  assert (length (ExistingLogs s) <= 4096)%nat as Hlen by (rewrite Hp, length_take; lia).
  specialize (Hn Ha ltac:(lia)).
  unfold log_count. rewrite without_filter. fold logs.
  destruct (Z.le_gt_cases (zlen logs) 4096) as [Hle|Hgt].
  - rewrite take_ge in Hp by (unfold zlen in Hle; lia).
    assert (zlen (without (map file_name (take n (ExistingLogs s))) logs) <= maximum) as H; [|lia].
    assert (NoDup (map file_name (ExistingLogs s))) as Hde.
    { change (map file_name (ExistingLogs s)) with (file_name <$> ExistingLogs s). rewrite Hp.
      by apply filter_distinct. }
    rewrite <- (without_prefix (ExistingLogs s) n Hde) in Hn. unfold zlen in *. by rewrite <- Hp.
  - split; [|lia]. assert (zlen (ExistingLogs s) = 4096) as Hz
      by (unfold zlen in *; rewrite Hp, length_take; lia).
    destruct (ExistingLogs s) as [|f rest] eqn:E; [done|]. destruct n as [|n]; [rewrite drop_0 in Hn; lia|].
    assert (f ∈ logs) as Hf.
    { assert (f ∈ take 4096 logs) as Hf by (rewrite <- Hp; left). by apply elem_of_take in Hf as (i & Hf & _); eapply list_elem_of_lookup_2. }
    pose proof (without_shorter (map file_name (take (S n) (f :: rest))) logs f Hf ltac:(left)). lia.
Qed.

(** ** What is written *)

(** The file that is written to is made of whole lines, as many bytes as the counter says. *)
Record tidy_ok (s : t) : Prop := {
  ok_bytes : 0 <= bytesWritten_ s <= kMaximumLogFileBytes;
  ok_current : is_open (stream_ s) = true -> failed (stream_ s) = false ->
    exists f, f ∈ files s /\ currentPath_ s = Some (file_name f) /\
      zlen (content f) = bytesWritten_ s /\ whole_lines (content f)
}.

Lemma prune_tidy io maximum s : tidy_ok s -> tidy_ok (PruneLocked io maximum s).
Proof.
  intros [H1 H2]. split; [done|]. intros Ho Hf. destruct (H2 Ho Hf) as (f & K1 & K2 & K3 & K4).
  exists f. split_and!; try done. by apply prune_keeps_current.
Qed.

(** A rotation starts a new file, and its size is read. *)
Definition renews (io : RotateIo) (s : t) : bool :=
  bool_decide (rotate_name io ∉ map file_name (files s)) && rotate_sized io.

Lemma file_size_touch name mtime l :
  name ∉ map file_name l ->
  touch name mtime l = l ++ [mkLogFile name mtime true []] /\ file_size name (touch name mtime l) = 0.
Proof.
  intros Hn. assert (forall f, f ∈ l -> file_name f <> name) as Hl.
  { intros f Hf <-. apply Hn. by apply list_elem_of_fmap_2. }
  assert (touch name mtime l = l ++ [mkLogFile name mtime true []]) as E.
  { unfold touch. destruct (existsb _ l) eqn:Ex; [|done]. apply existsb_exists in Ex as (f & Hf & E).
    apply bool_decide_eq_true in E. apply list_elem_of_In, Hl in Hf. done. }
  split; [done|]. rewrite E. unfold file_size. clear E Hn.
  induction l as [|f l IH]; cbn [app List.find file_name].
  - by rewrite bool_decide_true.
  - rewrite bool_decide_false by (apply Hl; left). apply IH. intros g Hg. apply Hl. by right.
Qed.

Lemma touch_distinct name mtime l : distinct l -> distinct (touch name mtime l).
Proof.
  intros Hd. unfold touch. destruct (existsb _ l) eqn:E; [done|]. unfold distinct. rewrite map_app.
  cbn [map file_name]. apply NoDup_app.
  split_and!; [done| |by apply NoDup_singleton]. intros x Hx ->%list_elem_of_singleton.
  apply not_true_iff_false in E. apply E, existsb_exists. apply list_elem_of_fmap in Hx as (f & -> & Hf).
  exists f. split; [by apply list_elem_of_In|]. by rewrite bool_decide_true.
Qed.

Lemma touch_count name mtime l : log_count (touch name mtime l) <= log_count l + 1.
Proof.
  unfold touch, log_count. destruct (existsb _ l); [lia|]. rewrite List.filter_app, zlen_app. cbn [List.filter].
  destruct (is_log None _); rewrite ?zlen_cons, ?zlen_nil; lia.
Qed.

(** *** Rotation *)

(** The state in which [RotateLocked] prunes. *)
Definition closed_state (s : t) : t :=
  with_current None (if negb (failed (stream_ s)) then with_stream (close (stream_ s)) s else s).

Lemma closed_state_facts s :
  files (closed_state s) = files s /\ countLimit_ (closed_state s) = countLimit_ s /\
  currentPath_ (closed_state s) = None /\
  (is_open (stream_ (closed_state s)) = true -> failed (stream_ (closed_state s)) = true).
Proof.
  unfold closed_state. destruct (failed (stream_ s)) eqn:E; cbn; split_and!; try done.
  unfold close. by destruct (is_open (stream_ s)).
Qed.

Lemma rotate_close_unfold io s :
  let s1 := closed_state s in
  rotate_close io s = with_bytes 0 (with_check (rotate_now io + 60 * 1000000000)
                        (PruneLocked (rotate_prune io) (others s1) s1)).
Proof. done. Qed.

(** What [rotate_open] adds to the directory. *)
Lemma rotate_open_files io s :
  exists l, (l = files s \/ l = touch (rotate_name io) (rotate_mtime io) (files s)) /\
    (files (rotate_open io s) = l \/
     exists s', files s' = l /\ files (rotate_open io s) = files (PruneLocked (rotate_prune_again io) (others s') s')).
Proof.
  unfold rotate_open. cbn zeta. destruct (failed _).
  - exists (files s). split; [by left|by left].
  - eexists. split; [by right|]. right. eexists. by split; [|reflexivity].
Qed.

Lemma rotate_open_count io s :
  distinct (files s) ->
  distinct (files (rotate_open io s)) /\ log_count (files (rotate_open io s)) <= log_count (files s) + 1.
Proof.
  intros Hd. destruct (rotate_open_files io s) as (l & Hl & Hf).
  assert (distinct l /\ log_count l <= log_count (files s) + 1) as [H1 H2].
  { destruct Hl as [->| ->]; [split; [done|lia]|]. split; [by apply touch_distinct|apply touch_count]. }
  destruct Hf as [->|(s' & <- & ->)]; [done|]. split; [by apply prune_distinct|].
  pose proof (prune_count (rotate_prune_again io) (others s') s'). lia.
Qed.

(** A removal failed in the first pruning of [RotateLocked]. *)
Definition rotation_refused (io : RotateIo) (s : t) : bool :=
  prune_refused (rotate_prune io) (others (closed_state s)) (closed_state s).

(** A rotation adds at most one file, and none beyond the limit unless a removal fails;
    when every log is seen, the limit holds afterwards. *)
Lemma rotate_count io s :
  distinct (files s) -> 1 <= countLimit_ s <= 1000 ->
  let s' := RotateLocked io s in
  distinct (files s') /\ log_count (files s') <= log_count (files s) + 1 /\
  (rotation_refused io s = false ->
   log_count (files s') <= Z.max (countLimit_ s) (log_count (files s)) /\
   (log_count (files s) <= 4096 -> log_count (files s') <= countLimit_ s)).
Proof.
  intros Hd Hl s'. set (s2 := rotate_close io s).
  destruct (closed_state_facts s) as (E1 & E2 & E3 & _).
  assert (others (closed_state s) = countLimit_ s - 1) as Eo.
  { unfold others. rewrite E2. destruct (Z.ltb_spec 0 (countLimit_ s)); lia. }
  assert (files s2 = files (PruneLocked (rotate_prune io) (others (closed_state s)) (closed_state s))) as Ef by done.
  assert (distinct (files s2)) as H2 by (rewrite Ef; apply prune_distinct; by rewrite E1).
  assert (log_count (files s2) <= log_count (files s)) as Hc
    by (rewrite Ef, <- E1; apply prune_count).
  assert (distinct (files s') /\ log_count (files s') <= log_count (files s2) + 1) as [H3 H4].
  { unfold s', RotateLocked. fold s2. cbn zeta. destruct (short_of_space _ _); [split; [done|lia]|].
    by apply rotate_open_count. }
  split_and!; [done|lia|]. intros Ha.
  destruct (prune_limits (rotate_prune io) (others (closed_state s)) (closed_state s)) as [P1 P2];
    [done|by rewrite E1|done|lia|]. rewrite <- Ef, E1, Eo in *. lia.
Qed.

Lemma rotate_close_fresh io s :
  renews io s = true -> rotate_name io ∉ map file_name (files (rotate_close io s)).
Proof.
  intros [Hfresh%bool_decide_eq_true _]%andb_true_iff. destruct (closed_state_facts s) as (E1 & _).
  rewrite rotate_close_unfold. cbn zeta. cbn [files with_bytes with_check].
  destruct (prune_files (rotate_prune io) (others (closed_state s)) (closed_state s)) as [n ->]. rewrite E1.
  intros (f & E & Hin)%list_elem_of_fmap. apply Hfresh. rewrite E. apply list_elem_of_fmap_2.
  eapply elem_of_submseteq; [exact Hin|]. apply sublist_submseteq, without_sublist.
Qed.

Lemma rotate_tidy io s : renews io s = true -> tidy_ok (RotateLocked io s).
Proof.
  intros Hr. pose proof (rotate_close_fresh io s Hr) as Hn. apply andb_true_iff in Hr as [_ Hz].
  destruct (closed_state_facts s) as (_ & _ & _ & Hst). unfold RotateLocked. cbn zeta.
  assert (tidy_ok (rotate_close io s)) as H2.
  { split; [cbn; unfold kMaximumLogFileBytes; lia|]. intros Ho Hf.
    change (stream_ (rotate_close io s)) with (stream_ (closed_state s)) in *. by rewrite Hst in Hf. }
  set (s2 := rotate_close io s) in *.
  clearbody s2. destruct (short_of_space _ _); [done|]. unfold rotate_open. cbn zeta.
  set (s3 := with_stream _ _). destruct (failed (stream_ s3)) eqn:Efail.
  - split; [apply H2|]. intros _ H. by rewrite H in Efail.
  - rewrite Hz. apply prune_tidy. change (files s3) with (files s2).
    destruct (file_size_touch (rotate_name io) (rotate_mtime io) (files s2) Hn) as [Et Es]. split.
    + cbn [bytesWritten_ with_bytes]. change (files (with_current _ _)) with (touch (rotate_name io) (rotate_mtime io) (files s2)).
      rewrite Es. unfold kMaximumLogFileBytes. lia.
    + intros _ _. exists (mkLogFile (rotate_name io) (rotate_mtime io) true []).
      cbn [files currentPath_ bytesWritten_ with_bytes with_current with_files]. rewrite Es, Et.
      split_and!; [apply elem_of_app; right; by left|done|done|by left].
Qed.

Lemma rotate_renewed_bytes io s : renews io s = true -> bytesWritten_ (RotateLocked io s) = 0.
Proof.
  intros Hr. pose proof (rotate_close_fresh io s Hr) as Hn. apply andb_true_iff in Hr as [_ Hz].
  unfold RotateLocked. cbn zeta.
  destruct (short_of_space _ _); [done|]. unfold rotate_open. cbn zeta. destruct (failed _); [done|].
  rewrite Hz. exact (proj2 (file_size_touch _ (rotate_mtime io) _ Hn)).
Qed.

(** *** Writing a line *)

(** Names and kinds of files stay. *)
Lemma append_files taken mtime message s :
  map file_name (files (append_line taken mtime message s)) = map file_name (files s) /\
  log_count (files (append_line taken mtime message s)) = log_count (files s) /\
  countLimit_ (append_line taken mtime message s) = countLimit_ s.
Proof.
  unfold append_line. destruct (is_open (stream_ s)); [|done].
  cbn [files with_files countLimit_ with_stream]. set (g := fun f => if bool_decide (currentPath_ s = Some (file_name f)) then _ else f).
  assert (forall f, file_name (g f) = file_name f /\ is_log None (g f) = is_log None f) as Hg
    by (intros f; unfold g; by case_bool_decide).
  split_and!; [| |done].
  - rewrite map_map. apply map_ext. intros f. apply Hg.
  - unfold log_count. induction (files s) as [|f l IH]; [done|]. cbn. rewrite (proj2 (Hg f)).
    destruct (is_log None f); rewrite ?zlen_cons; lia.
Qed.

Lemma append_tidy taken mtime message s :
  tidy_ok s -> failed (stream_ s) = false -> Forall (fun c => c <> 10) message ->
  bytesWritten_ s + (zlen message + 1) <= kMaximumLogFileBytes -> 0 <= taken ->
  tidy_ok (with_bytes (bytesWritten_ s + (zlen message + 1)) (append_line taken mtime message s)).
Proof.
  intros [H2 H4] Hf Hm Hr Ht. pose proof (zlen_nonneg message). unfold append_line.
  destruct (is_open (stream_ s)) eqn:Ho; [|split; [cbn; lia|done]].
  set (g := fun f => if bool_decide (currentPath_ s = Some (file_name f)) then _ else f).
  split; [cbn; lia|].
  cbn [stream_ files with_bytes with_files with_stream failed bytesWritten_ currentPath_]. intros _ Htaken.
  apply Z.ltb_ge in Htaken. rewrite zlen_app, zlen_cons, zlen_nil in Htaken.
  destruct (H4 eq_refl Hf) as (f & K1 & K2 & K3 & K4). exists (g f).
  assert (file_name (g f) = file_name f) as Hg by (unfold g; by case_bool_decide).
  rewrite Hg. split_and!; [by apply list_elem_of_fmap_2|done| |];
    unfold g; rewrite bool_decide_true by done; cbn [content];
    rewrite take_ge by (rewrite length_app; unfold zlen in *; cbn; lia).
  - rewrite !zlen_app, zlen_cons, zlen_nil. lia.
  - right. by rewrite app_assoc, last_snoc.
Qed.

Lemma message_clean message : Forall (fun c => c <> 10) (Sanitize message).
Proof. eapply Forall_impl; [apply Sanitize_clean|]. intros c Hc. cbn in Hc. lia. Qed.

Lemma required_ok message : 0 < zlen (Sanitize message) + 1 <= 1025.
Proof. pose proof (Sanitize_length message). pose proof (zlen_nonneg (Sanitize message)). lia. Qed.

(** [make_room] without a rotation. *)
Lemma make_room_prunes io required s :
  full required s = false ->
  let s1 := make_room io required s in
  (forall f, f ∈ files s1 -> f ∈ files s) /\ log_count (files s1) <= log_count (files s) /\
  (distinct (files s) -> distinct (files s1)) /\ (tidy_ok s -> tidy_ok s1) /\
  countLimit_ s1 = countLimit_ s /\ stream_ s1 = stream_ s /\ bytesWritten_ s1 = bytesWritten_ s.
Proof.
  intros Hfull. unfold make_room. rewrite Hfull. destruct (nextSpaceCheck_ s <=? event_now io).
  2:{ split_and!; done. }
  cbn [files with_check]. split_and!; try done.
  - intros f Hf. destruct (prune_files (event_prune io) (others s) s) as [n Hn]. rewrite Hn in Hf.
    eapply elem_of_submseteq; [exact Hf|]. apply sublist_submseteq, without_sublist.
  - apply prune_count.
  - apply prune_distinct.
  - intros H. destruct (prune_tidy (event_prune io) (others s) s H). by split.
Qed.

(** A message has room afterwards. *)
Lemma make_room_tidy io required s :
  (full required s = false -> tidy_ok s) -> (full required s = true -> renews (event_rotate io) s = true) ->
  0 < required <= 1025 ->
  let s1 := make_room io required s in
  tidy_ok s1 /\ bytesWritten_ s1 + required <= kMaximumLogFileBytes.
Proof.
  intros Hs Hr Hq s1. unfold s1. destruct (full required s) eqn:E.
  - assert (bytesWritten_ (make_room io required s) = 0) as Hb; [|rewrite Hb].
    { unfold make_room. rewrite E. by apply rotate_renewed_bytes, Hr. }
    split; [|unfold kMaximumLogFileBytes; lia]. unfold make_room. rewrite E. by apply rotate_tidy, Hr.
  - destruct (make_room_prunes io required s E) as (_ & _ & _ & H & _ & _ & ->). split; [by apply H, Hs|].
    unfold full, kMaximumLogFileBytes in *. lia.
Qed.

(** The line that an event appends. *)
Lemma append_content taken mtime message s f :
  is_open (stream_ (append_line taken mtime message s)) = true ->
  failed (stream_ (append_line taken mtime message s)) = false ->
  f ∈ files s -> currentPath_ s = Some (file_name f) ->
  is_open (stream_ s) = true /\
  mkLogFile (file_name f) mtime (regular f) (content f ++ message ++ [10]) ∈
    files (append_line taken mtime message s).
Proof.
  unfold append_line. destruct (is_open (stream_ s)); [|done]. cbn. intros _ Ht%Z.ltb_ge Hf Hc. split; [done|].
  apply list_elem_of_fmap. exists f. split; [|done]. rewrite bool_decide_true by done. f_equal.
  rewrite take_ge; [done|]. unfold zlen in Ht. lia.
Qed.

(** ** Properties *)

(** The states of a log that starts in directory [l], with the number of rotations in which a
    removal failed, and whether every rotation started a new file. *)
Definition refusal (rotates : bool) (io : RotateIo) (s : t) : Z :=
  if rotates && rotation_refused io s then 1 else 0.

Definition renewal (rotates : bool) (io : RotateIo) (s : t) : bool := negb rotates || renews io s.

Inductive log_run (limit threshold : Z) (l : list LogFile) : Z -> bool -> t -> Prop :=
| log_created io :
    distinct l ->
    let s := mk limit threshold (mkStream false false) None 0 0 0 l in
    log_run limit threshold l (refusal true io s) (renewal true io s)
      (create limit threshold l io)
| log_event io message refused tidy s :
    log_run limit threshold l refused tidy s -> 0 <= event_taken io ->
    let rotates := full (zlen (Sanitize message) + 1) s in
    log_run limit threshold l (refused + refusal rotates (event_rotate io) s)
      (tidy && renewal rotates (event_rotate io) s) (fst (Event io message s)).

Lemma rotate_open_limit io s : countLimit_ (rotate_open io s) = countLimit_ s.
Proof.
  unfold rotate_open. cbn zeta. destruct (failed _); [reflexivity|]. rewrite PruneLocked_limit. reflexivity.
Qed.

Lemma rotate_close_limit io s : countLimit_ (rotate_close io s) = countLimit_ s.
Proof.
  unfold rotate_close. cbn zeta. cbn [countLimit_ with_bytes with_check]. rewrite PruneLocked_limit.
  cbn [countLimit_ with_current]. destruct (negb _); reflexivity.
Qed.

Lemma RotateLocked_limit io s : countLimit_ (RotateLocked io s) = countLimit_ s.
Proof.
  unfold RotateLocked. cbn zeta. destruct (short_of_space _ _); [apply rotate_close_limit|].
  by rewrite rotate_open_limit, rotate_close_limit.
Qed.

Lemma Event_limit io message s : countLimit_ (fst (Event io message s)) = countLimit_ s.
Proof.
  unfold Event. cbn [fst]. set (s1 := make_room _ _ _).
  assert (countLimit_ s1 = countLimit_ s) as <-.
  { unfold s1, make_room. destruct (full _ _); [apply RotateLocked_limit|]. by destruct (_ <=? _). }
  destruct (negb _); [|done]. unfold append_line. by destruct (is_open _).
Qed.

Record log_inv (limit : Z) (l : list LogFile) (refused : Z) (tidy : bool) (s : t) : Prop := {
  inv_distinct : distinct (files s);
  inv_limit : countLimit_ s = limit;
  inv_refused : 0 <= refused;
  inv_count : log_count (files s) <= Z.max limit (log_count l) + refused;
  inv_settled : log_count l <= 4096 -> refused = 0 -> log_count (files s) <= limit;
  inv_tidy : tidy = true -> tidy_ok s
}.

Lemma rotate_tally io s :
  distinct (files s) -> 1 <= countLimit_ s <= 1000 ->
  let s' := RotateLocked io s in
  distinct (files s') /\ 0 <= refusal true io s /\
  log_count (files s') <= Z.max (countLimit_ s) (log_count (files s)) + refusal true io s /\
  (log_count (files s) <= 4096 -> refusal true io s = 0 -> log_count (files s') <= countLimit_ s).
Proof.
  intros Hd Hl. destruct (rotate_count io s Hd Hl) as (H1 & H2 & H3). unfold refusal.
  destruct (rotation_refused io s); cbn [andb]; [|destruct (H3 eq_refl)]; split_and!; (done || lia).
Qed.

(** The line itself changes neither the files nor the limit. *)
Lemma Event_files io message s :
  let s1 := make_room io (zlen (Sanitize message) + 1) s in
  let s' := fst (Event io message s) in
  (distinct (files s1) -> distinct (files s')) /\ log_count (files s') = log_count (files s1).
Proof.
  cbn zeta. unfold Event. cbn [fst]. destruct (negb _); [|done]. cbn [files with_bytes]. unfold distinct.
  by destruct (append_files (event_taken io) (event_mtime io) (Sanitize message)
                 (make_room io (zlen (Sanitize message) + 1) s)) as (-> & -> & _).
Qed.

Lemma Event_tidy io message s :
  tidy_ok s -> 0 <= event_taken io ->
  renewal (full (zlen (Sanitize message) + 1) s) (event_rotate io) s = true ->
  tidy_ok (fst (Event io message s)).
Proof.
  intros Hs Ht Hr.
  destruct (make_room_tidy io (zlen (Sanitize message) + 1) s (fun _ => Hs)) as [H1 H2];
    [intros E; by rewrite E in Hr|apply required_ok|].
  unfold Event. cbn [fst]. destruct (failed _) eqn:E; [done|]. cbn [negb].
  apply append_tidy; try done. apply message_clean.
Qed.

Lemma log_run_inv limit threshold l refused tidy s :
  1 <= limit <= 1000 -> log_run limit threshold l refused tidy s -> log_inv limit l refused tidy s.
Proof.
  intros Hl. induction 1 as [io Hd|io message refused tidy s _ IH Ht].
  - set (s0 := mk limit threshold (mkStream false false) None 0 0 0 l).
    destruct (rotate_tally io s0 Hd Hl) as (H1 & H2 & H3 & H4).
    split; [done|apply RotateLocked_limit|done|done|done|apply rotate_tidy].
  - destruct IH as [I1 I2 I3 I4 I5 I6]. destruct (Event_files io message s) as [E1 E2].
    set (required := zlen (Sanitize message) + 1) in *. cbv zeta.
    assert (tidy && renewal (full required s) (event_rotate io) s = true -> tidy_ok (fst (Event io message s))) as Htidy.
    { intros [Ha Hb]%andb_true_iff. apply Event_tidy; [by apply I6|done|done]. }
    subst rotates. destruct (full required s) eqn:Ef.
    + assert (make_room io required s = RotateLocked (event_rotate io) s) as Em by (unfold make_room; by rewrite Ef).
      rewrite Em in E1, E2. destruct (rotate_tally (event_rotate io) s I1 ltac:(lia)) as (H1 & H2 & H3 & H4).
      rewrite I2 in H3, H4.
      split; [by apply E1|by rewrite Event_limit|lia|rewrite E2; lia|rewrite E2; lia|exact Htidy].
    + destruct (make_room_prunes io required s Ef) as (_ & H2 & H3 & _). change (refusal false _ s) with 0.
      split; [by apply E1, H3|by rewrite Event_limit|lia|rewrite E2; lia|rewrite E2; lia|exact Htidy].
Qed.


(** An event is one line: the message may hold anything, control characters and newlines
    included, yet what is printed, and what is appended to the current file when the write
    succeeds, is exactly one more line of at most 1024 bytes without control characters
    other than tabs. No message can forge a second entry. *)
Theorem Event_one_line limit threshold l refused io message s :
  1 <= limit <= 1000 -> log_run limit threshold l refused true s -> 0 <= event_taken io ->
  renewal (full (zlen (Sanitize message) + 1) s) (event_rotate io) s = true ->
  let '(s', printed) := Event io message s in
  lines printed = [Sanitize message] /\ zlen (Sanitize message) <= 1024 /\
  Forall (fun c => c = 9 \/ 32 <= c) (Sanitize message) /\
  (is_open (stream_ s') = true -> failed (stream_ s') = false ->
   exists f, f ∈ files s' /\ currentPath_ s' = Some (file_name f) /\
   exists old, lines (content f) = lines old ++ [Sanitize message] /\
     (old = [] \/ exists g, g ∈ files s /\ file_name g = file_name f /\ content g = old)).
Proof.
  intros Hl Hr Ht Hn. destruct (log_run_inv _ _ _ _ _ _ Hl Hr) as [_ _ _ _ _ Htidy].
  unfold Event. set (required := zlen (Sanitize message) + 1) in *. set (s1 := make_room _ _ _).
  split_and!; [apply lines_message|apply Sanitize_length|apply Sanitize_clean|].
  destruct (make_room_tidy io required s (fun _ => Htidy eq_refl)) as [Hok _];
    [intros E; by rewrite E in Hn|apply required_ok|]. fold s1 in Hok.
  assert (bytesWritten_ s1 = 0 \/ forall f, f ∈ files s1 -> f ∈ files s) as Hold.
  { unfold s1. destruct (full required s) eqn:E.
    - left. unfold make_room. rewrite E. by apply rotate_renewed_bytes.
    - right. by destruct (make_room_prunes io required s E) as [? _]. }
  destruct (failed (stream_ s1)) eqn:Ef; cbn [negb]; [by intros ? ?; congruence|].
  cbn [stream_ files currentPath_ with_bytes]. intros Ho Hfail.
  assert (is_open (stream_ s1) = true) as Ho1 by (revert Ho; unfold append_line; by destruct (is_open (stream_ s1))).
  destruct (ok_current s1 Hok Ho1 Ef) as (f & Hf & Hc & Hz & Hw).
  destruct (append_content _ _ _ s1 f Ho Hfail Hf Hc) as [_ Hin].
  eexists. split; [exact Hin|]. split; [unfold append_line; rewrite Ho1; exact Hc|].
  exists (content f). cbn [content file_name]. split; [by rewrite lines_app, lines_message|].
  destruct Hold as [H0|Hold]; [left; apply zlen_nil_inv; lia|right; exists f; auto].
Qed.

(** ** A log without space never resumes *)

(** The stream is closed, and the next rotation is out of reach. *)
Definition switched_off (s : t) : Prop :=
  is_open (stream_ s) = false /\ 0 <= bytesWritten_ s <= 1025 /\
  (failed (stream_ s) = false -> bytesWritten_ s = 0).

Lemma refused_rotation_off io s :
  short_of_space (freeSpaceThreshold_ s) (AvailableBytes (rotate_statistics io)) = true ->
  is_open (stream_ s) = false \/ failed (stream_ s) = false -> switched_off (RotateLocked io s).
Proof.
  intros Hs Ho. assert (freeSpaceThreshold_ (rotate_close io s) = freeSpaceThreshold_ s /\
    stream_ (rotate_close io s) = (if negb (failed (stream_ s)) then close (stream_ s) else stream_ s) /\
    bytesWritten_ (rotate_close io s) = 0) as (E1 & E2 & E3)
    by (unfold rotate_close; cbn zeta; by destruct (negb _)).
  unfold RotateLocked, switched_off. cbn zeta. rewrite E1, Hs, E2, E3. unfold close.
  destruct (failed (stream_ s)) eqn:Ef; cbn [negb].
  - destruct Ho as [Ho|]; [|done]. rewrite Ho, Ef. split_and!; (done || lia).
  - destruct (is_open (stream_ s)); cbn; split_and!; (done || lia).
Qed.

Lemma switched_off_event io message s :
  switched_off s ->
  switched_off (fst (Event io message s)) /\
  forall f, f ∈ files (fst (Event io message s)) -> f ∈ files s.
Proof.
  intros (Ho & Hb & Hf). pose proof (required_ok message) as Hq. unfold Event. cbn [fst].
  set (s1 := make_room _ _ _).
  assert (stream_ s1 = stream_ s /\ bytesWritten_ s1 = bytesWritten_ s /\ forall f, f ∈ files s1 -> f ∈ files s)
    as (E1 & E2 & E3).
  { unfold s1, make_room. clear s1.
    unfold full, kMaximumLogFileBytes.
    destruct (Z.ltb_spec (10 * 1024 * 1024 - Z.min (zlen (Sanitize message) + 1) (10 * 1024 * 1024)) (bytesWritten_ s)); [lia|].
    destruct (_ <=? _); [|done]. split; [done|]. split; [done|]. intros f Hfile. cbn [files with_check] in Hfile.
    destruct (prune_files (event_prune io) (others s) s) as [n Hn]. rewrite Hn in Hfile.
    eapply elem_of_submseteq; [exact Hfile|]. apply sublist_submseteq, without_sublist. }
  rewrite E1. destruct (failed (stream_ s)) eqn:Ef; cbn [negb].
  - unfold switched_off. rewrite E1, E2, Ef. split_and!; (done || lia).
  - unfold append_line. rewrite E1, Ho. unfold switched_off. cbn. rewrite E2, (Hf eq_refl).
    split_and!; (done || lia).
Qed.

(** When the free space is below the threshold at the start, nothing is ever written to a
    file: no later event, however much space there is by then, adds to one. The same holds
    after a rotation that was refused ([refused_rotation_off]). *)
Theorem log_never_resumes limit threshold l io events :
  short_of_space threshold (AvailableBytes (rotate_statistics io)) = true ->
  let s := fold_left (fun s e => fst (Event (fst e) (snd e) s)) events (create limit threshold l io) in
  switched_off s /\ forall f, f ∈ files s -> f ∈ files (create limit threshold l io).
Proof.
  intros Hs s. assert (switched_off (create limit threshold l io)) as H0
    by (apply refused_rotation_off; [exact Hs|by left]).
  unfold s. clear s Hs. revert H0. generalize (create limit threshold l io) as c.
  induction events as [|[e m] events IH]; intros c H0; [done|]. cbn [fold_left fst snd].
  destruct (switched_off_event e m c H0) as [H1 H2]. destruct (IH _ H1) as [H3 H4].
  split; [done|]. intros f Hf. by apply H2, H4.
Qed.

(** ** A sample log *)

Definition sample_prune : PruneIo := mkPruneIo None (fun _ => (true, None)).
Definition sample_rotation (name : bytes) : RotateIo :=
  mkRotateIo sample_prune 0 50 None name true true sample_prune.

(** Two log files of earlier runs, and a file that is none. *)
Definition sample_directory : list LogFile :=
  [mkLogFile (str "ec-systemcore-2-9-0.log") 20 true [65; 10];
   mkLogFile (str "ec-systemcore-1-9-0.log") 10 true [66; 10]; mkLogFile (str "notes.txt") 5 true [67]].

Definition sample_log : t :=
  create 2 0 sample_directory (sample_rotation (str "ec-systemcore-3-9-0.log")).

Definition sample_event : EventIo :=
  mkEventIo 1 (sample_rotation (str "ec-systemcore-3-9-1.log")) sample_prune 1 2000 60.

Lemma sample_log_run : log_run 2 0 sample_directory 0 true sample_log.
Proof.
  apply (log_created 2 0 sample_directory (sample_rotation (str "ec-systemcore-3-9-0.log"))).
  apply (bool_decide_unpack _). by vm_compute.
Qed.


(** A message with a newline. *)
Lemma Event_one_line_witness :
  lines (snd (Event sample_event [72; 10; 73] sample_log)) = [[72; 32; 73]].
Proof.
  pose proof (Event_one_line 2 0 sample_directory 0 sample_event [72; 10; 73] sample_log ltac:(lia) sample_log_run
    ltac:(done) ltac:(by vm_compute)) as H.
  destruct (Event sample_event [72; 10; 73] sample_log) as [s' printed]. cbn [snd].
  destruct H as [-> _]. by vm_compute.
Defined.
End EventLog.
