(* ===== verification/Json.v ===== *)
(** * The configuration parser (mini_json.hpp)

    A strict JSON parser with limits on size, depth, nodes and string length.
    Its state is what is left of the text (the source's [text_] from
    [offset_] on) and the node count; a parser function either returns a
    value and a new state or throws. [std::map] objects are association lists
    sorted by key. A number keeps its lexeme, from which the program takes
    all its numbers; the [double] the source also stores is never read, but
    a lexeme whose value is not a finite [double] is rejected. *)

From Stdlib Require Import Sorting.Sorted.
From S2P Require Import Prelude Utf8.

#[local] Unset Elimination Schemes.
Inductive Json :=
| JNull
| JObject (members : list (bytes * Json))
| JArray (elements : list Json)
| JString (text : bytes)
| JBool (value : bool)
| JNumber (lexeme : bytes).
#[local] Set Elimination Schemes.

Record Limits := mkLimits {
  maximumBytes : Z;
  maximumDepth : Z;
  maximumNodes : Z;
  maximumStringBytes : Z
}.

Definition default_limits : Limits := mkLimits (1024 * 1024) 64 16384 65536.

(** One constructor per message; [OutOfFuel] is the model's own and is never
    thrown by [Parse] (see [Parse_total]). *)
Inductive JsonError :=
| InputTooLarge | InvalidLimits | TrailingData | NestingTooDeep | TooManyNodes
| UnexpectedEnd | UnexpectedToken | KeyNotString | DuplicateKey
| ExpectedObjectSeparator | ExpectedArraySeparator | MalformedUtf8 | ControlCharacter
| UnsupportedEscape | UnterminatedString | StringTooLong | InvalidUnicodeEscape
| InvalidSurrogatePair | UnpairedLowSurrogate | InvalidNumber | LeadingZero
| InvalidFraction | InvalidExponent | NonFiniteNumber | InvalidLiteral
| UnexpectedCharacter | NotInteger | NotIntegerSyntax | IntegerRange
| FieldNotString | FieldNotBool | FieldNotInteger | FieldIntegerRange | OutOfFuel.

(** ** The parser's monad *)

Inductive res (A : Type) := Done (a : A) | Throw (e : JsonError).
Arguments Done {A} a.
Arguments Throw {A} e.

Record pstate := mkState { rest : bytes; nodeCount : Z }.

Definition parser (A : Type) : Type := pstate -> res (A * pstate).

#[export] Instance parser_ret : MRet parser := fun A a s => Done (a, s).
#[export] Instance parser_bind : MBind parser := fun A B k m s =>
  match m s with
  | Done (a, s) => k a s
  | Throw e => Throw e
  end.

Definition throw {A} (e : JsonError) : parser A := fun _ => Throw e.
Definition get_rest : parser bytes := fun s => Done (rest s, s).
Definition set_rest (r : bytes) : parser () := fun s => Done ((), mkState r (nodeCount s)).

(** ** Characters *)

Definition IsDigit (c : Z) : bool := (48 <=? c) && (c <=? 57).
Definition IsJsonWhitespace (c : Z) : bool := (c =? 32) || (c =? 9) || (c =? 13) || (c =? 10).

Fixpoint drop_while (p : Z -> bool) (l : bytes) : bytes :=
  match l with
  | c :: l' => if p c then drop_while p l' else l
  | [] => []
  end.

Definition skipWhitespace : parser () :=
  r ← get_rest; set_rest (drop_while IsJsonWhitespace r).

(** [finished() ? none : peek()]. *)
Definition peek : parser (option Z) :=
  r ← get_rest; mret (head r).

Definition get : parser Z :=
  r ← get_rest;
  match r with
  | [] => throw UnexpectedEnd
  | c :: r => set_rest r;; mret c
  end.

Definition expect (expected : Z) : parser () :=
  c ← get;
  if negb (c =? expected) then throw UnexpectedCharacter else mret ().

Fixpoint consumeLiteral (literal : bytes) : parser () :=
  match literal with
  | [] => mret ()
  | expected :: literal =>
      c ← get;
      if negb (c =? expected) then throw InvalidLiteral else consumeLiteral literal
  end.

(** ** Strings *)

Definition appendByte (limits : Limits) (value : bytes) (byte : Z) : parser bytes :=
  if maximumStringBytes limits <=? zlen value then throw StringTooLong
  else mret (value ++ [byte]).

Fixpoint code_unit_loop (n : nat) (value : Z) : parser Z :=
  match n with
  | O => mret value
  | S n =>
      let value := to_u16 (Z.shiftl value 4) in
      ch ← get;
      if (48 <=? ch) && (ch <=? 57) then code_unit_loop n (to_u16 (value + (ch - 48)))
      else if (97 <=? ch) && (ch <=? 102) then code_unit_loop n (to_u16 (value + (ch - 97 + 10)))
      else if (65 <=? ch) && (ch <=? 70) then code_unit_loop n (to_u16 (value + (ch - 65 + 10)))
      else throw InvalidUnicodeEscape
  end.

Definition parseUnicodeCodeUnit : parser Z := code_unit_loop 4 0.

(** The code point of an escape, with its second half if it is a pair. *)
Definition escape_code_point : parser Z :=
  codePoint ← parseUnicodeCodeUnit;
  if (0xd800 <=? codePoint) && (codePoint <=? 0xdbff) then
    c1 ← get;
    if negb (c1 =? 92) then throw InvalidSurrogatePair
    else
      c2 ← get;
      if negb (c2 =? 117) then throw InvalidSurrogatePair
      else
        low ← parseUnicodeCodeUnit;
        if (low <? 0xdc00) || (0xdfff <? low) then throw InvalidSurrogatePair
        else mret (0x10000 + Z.shiftl (codePoint - 0xd800) 10 + (low - 0xdc00))
  else if (0xdc00 <=? codePoint) && (codePoint <=? 0xdfff) then throw UnpairedLowSurrogate
  else mret codePoint.

Definition appendUnicodeEscape (limits : Limits) (value : bytes) : parser bytes :=
  codePoint ← escape_code_point;
  let encoded := utf8_encode codePoint in
  if (maximumStringBytes limits <? zlen encoded) ||
     (maximumStringBytes limits - zlen encoded <? zlen value)
  then throw StringTooLong
  else mret (value ++ encoded).

Definition appendEscape (limits : Limits) (value : bytes) : parser bytes :=
  escaped ← get;
  if (escaped =? 34) || (escaped =? 92) || (escaped =? 47) then appendByte limits value escaped
  else if escaped =? 98 then appendByte limits value 8
  else if escaped =? 102 then appendByte limits value 12
  else if escaped =? 110 then appendByte limits value 10
  else if escaped =? 114 then appendByte limits value 13
  else if escaped =? 116 then appendByte limits value 9
  else if escaped =? 117 then appendUnicodeEscape limits value
  else throw UnsupportedEscape.

(** The [while (!finished())] loop of [parseString]. *)
Fixpoint string_loop (limits : Limits) (fuel : nat) (value : bytes) : parser bytes :=
  match fuel with
  | O => throw OutOfFuel
  | S fuel =>
      p ← peek;
      match p with
      | None => throw UnterminatedString
      | Some _ =>
          ch ← get;
          if ch =? 34 then
            if negb (isValidUtf8 value) then throw MalformedUtf8 else mret value
          else if ch <? 0x20 then throw ControlCharacter
          else
            value ← (if negb (ch =? 92) then appendByte limits value ch
                     else appendEscape limits value);
            string_loop limits fuel value
      end
  end.

Definition parseString (limits : Limits) : parser bytes :=
  expect 34;;
  r ← get_rest;
  string_loop limits (S (length r)) [].

(** ** Numbers *)

(** [while (!finished() && IsDigit(peek())) get()]. *)
Definition skip_digits : parser () :=
  r ← get_rest; set_rest (drop_while IsDigit r).

Definition at_digit : parser bool :=
  p ← peek; mret (match p with Some c => IsDigit c | None => false end).

Definition at_char (c : Z) : parser bool :=
  p ← peek; mret (match p with Some c' => c' =? c | None => false end).

Definition number_integer : parser () :=
  minus ← at_char 45;
  (if minus : bool then get;; mret () else mret ());;
  digit ← at_digit;
  if negb digit then throw InvalidNumber
  else
    zero ← at_char 48;
    if zero : bool then
      get;;
      digit ← at_digit;
      if digit : bool then throw LeadingZero else mret ()
    else skip_digits.

Definition number_fraction : parser () :=
  point ← at_char 46;
  if point : bool then
    get;;
    digit ← at_digit;
    if negb digit then throw InvalidFraction else skip_digits
  else mret ().

Definition number_exponent : parser () :=
  e ← at_char 101;
  E ← at_char 69;
  if e || E then
    get;;
    plus ← at_char 43;
    minus ← at_char 45;
    (if plus || minus then get;; mret () else mret ());;
    digit ← at_digit;
    if negb digit then throw InvalidExponent else skip_digits
  else mret ().

(** The decimal value of a lexeme: an integer and a power of ten. *)
Definition digits_value (acc : Z) (l : bytes) : Z :=
  fold_left (fun acc c => acc * 10 + (c - 48)) l acc.

Definition take_while (p : Z -> bool) (l : bytes) : bytes :=
  take (length l - length (drop_while p l)) l.

Definition decimal (lexeme : bytes) : Z * Z :=
  let l := match lexeme with 45 :: l => l | l => l end in
  let whole := take_while IsDigit l in
  let l := drop_while IsDigit l in
  let '(fraction, l) := match l with
    | 46 :: l => (take_while IsDigit l, drop_while IsDigit l)
    | l => ([], l) end in
  let exponent := match l with
    | 101 :: 45 :: l | 69 :: 45 :: l => - digits_value 0 l
    | 101 :: 43 :: l | 69 :: 43 :: l => digits_value 0 l
    | 101 :: l | 69 :: l => digits_value 0 l
    | _ => 0 end in
  (digits_value 0 (whole ++ fraction), exponent - zlen fraction).

(** [std::from_chars] finds a finite [double]: the decimal value is zero, or it
    rounds neither to infinity (2^1024 - 2^970 and more) nor to zero (2^-1075 and
    less). Values beyond 10^400 and below 10^-400 are settled by size alone. *)
Definition finite_double (lexeme : bytes) : bool :=
  let '(m, e) := decimal lexeme in
  if m =? 0 then true
  else if 400 <? e then false
  else if e + zlen lexeme <? -400 then false
  else (m * 10 ^ (Z.max 0 e) <? (2 ^ 1024 - 2 ^ 970) * 10 ^ (Z.max 0 (- e))) &&
       (10 ^ (Z.max 0 (- e)) <? m * 10 ^ (Z.max 0 e) * 2 ^ 1075).

Definition parseNumber : parser bytes :=
  start ← get_rest;
  number_integer;;
  number_fraction;;
  number_exponent;;
  stop ← get_rest;
  let lexeme := take (length start - length stop) start in
  if negb (finite_double lexeme) then throw NonFiniteNumber else mret lexeme.

(** ** Values *)

(** The order of [std::string]: bytes compared from the left. *)
Fixpoint string_compare (a b : bytes) : comparison :=
  match a, b with
  | [], [] => Eq
  | [], _ :: _ => Lt
  | _ :: _, [] => Gt
  | x :: a, y :: b => match Z.compare x y with Eq => string_compare a b | c => c end
  end.

(** [objectValue.emplace(key, value)]: [None] when the key is already there. *)
Fixpoint emplace (key : bytes) (value : Json) (members : list (bytes * Json))
    : option (list (bytes * Json)) :=
  match members with
  | [] => Some [(key, value)]
  | (k, v) :: members' =>
      match string_compare key k with
      | Lt => Some ((key, value) :: members)
      | Eq => None
      | Gt => members'' ← emplace key value members'; Some ((k, v) :: members'')
      end
  end.

Definition count_node (limits : Limits) : parser () := fun s =>
  let s := mkState (rest s) (nodeCount s + 1) in
  if maximumNodes limits <? nodeCount s then Throw TooManyNodes else Done ((), s).

(** [parseValue], and the loops of [parseObject] and [parseArray] after the
    opening brace and the test for an empty value. *)
Fixpoint parseValue (limits : Limits) (fuel : nat) (depth : Z) : parser Json :=
  match fuel with
  | O => throw OutOfFuel
  | S fuel =>
      if maximumDepth limits <? depth then throw NestingTooDeep
      else
        count_node limits;;
        skipWhitespace;;
        p ← peek;
        match p with
        | None => throw UnexpectedEnd
        | Some c =>
            if c =? 123 then
              expect 123;;
              skipWhitespace;;
              close ← at_char 125;
              if close : bool then get;; mret (JObject [])
              else parseMembers limits fuel depth []
            else if c =? 91 then
              expect 91;;
              skipWhitespace;;
              close ← at_char 93;
              if close : bool then get;; mret (JArray [])
              else parseElements limits fuel depth []
            else if c =? 34 then
              text ← parseString limits; mret (JString text)
            else if c =? 116 then consumeLiteral (str "true");; mret (JBool true)
            else if c =? 102 then consumeLiteral (str "false");; mret (JBool false)
            else if c =? 110 then consumeLiteral (str "null");; mret JNull
            else if (c =? 45) || IsDigit c then
              lexeme ← parseNumber; mret (JNumber lexeme)
            else throw UnexpectedToken
        end
  end
with parseMembers (limits : Limits) (fuel : nat) (depth : Z) (members : list (bytes * Json))
    : parser Json :=
  match fuel with
  | O => throw OutOfFuel
  | S fuel =>
      skipWhitespace;;
      quote ← at_char 34;
      if negb quote then throw KeyNotString
      else
        key ← parseString limits;
        skipWhitespace;;
        expect 58;;
        value ← parseValue limits fuel (depth + 1);
        match emplace key value members with
        | None => throw DuplicateKey
        | Some members =>
            skipWhitespace;;
            separator ← get;
            if separator =? 125 then mret (JObject members)
            else if negb (separator =? 44) then throw ExpectedObjectSeparator
            else parseMembers limits fuel depth members
        end
  end
with parseElements (limits : Limits) (fuel : nat) (depth : Z) (elements : list Json)
    : parser Json :=
  match fuel with
  | O => throw OutOfFuel
  | S fuel =>
      value ← parseValue limits fuel (depth + 1);
      skipWhitespace;;
      separator ← get;
      let elements := elements ++ [value] in
      if separator =? 93 then mret (JArray elements)
      else if negb (separator =? 44) then throw ExpectedArraySeparator
      else parseElements limits fuel depth elements
  end.

Definition Parse (text : bytes) (limits : Limits) : res Json :=
  if maximumBytes limits <? zlen text then Throw InputTooLarge
  else if (maximumDepth limits =? 0) || (maximumNodes limits =? 0) ||
          (maximumStringBytes limits =? 0)
  then Throw InvalidLimits
  else
    match (result ← parseValue limits (2 * length text + 2) 0;
           skipWhitespace;;
           p ← peek;
           match p with Some _ => throw TrailingData | None => mret result end)
            (mkState text 0) with
    | Done (result, _) => Done result
    | Throw e => Throw e
    end.

(** ** Access *)

(** [std::from_chars] on a whole integer lexeme. *)
Definition parse_int64 (lexeme : bytes) : option Z :=
  let '(negative, digits) := match lexeme with 45 :: l => (true, l) | l => (false, l) end in
  if (zlen digits =? 0) || negb (forallb IsDigit digits) then None
  else
    let v := digits_value 0 digits in
    let v := if negative : bool then - v else v in
    if (I64_MIN <=? v) && (v <=? I64_MAX) then Some v else None.

Definition integer (j : Json) : res Z :=
  match j with
  | JNumber lexeme =>
      if (zlen lexeme =? 0) || existsb (fun c => (c =? 46) || (c =? 101) || (c =? 69)) lexeme
      then Throw NotIntegerSyntax
      else match parse_int64 lexeme with Some v => Done v | None => Throw IntegerRange end
  | _ => Throw NotInteger
  end.

Definition find (j : Json) (key : bytes) : option Json :=
  match j with
  | JObject members => snd <$> List.find (fun m => bool_decide (fst m = key)) members
  | _ => None
  end.

Definition stringValue (j : Json) (key fallback : bytes) : res bytes :=
  match find j key with
  | None => Done fallback
  | Some (JString text) => Done text
  | Some _ => Throw FieldNotString
  end.

Definition boolValue (j : Json) (key : bytes) (fallback : bool) : res bool :=
  match find j key with
  | None => Done fallback
  | Some (JBool value) => Done value
  | Some _ => Throw FieldNotBool
  end.

Definition integerValue (j : Json) (key : bytes) (fallback : Z) : res Z :=
  match find j key with
  | None => Done fallback
  | Some (JNumber lexeme) =>
      match integer (JNumber lexeme) with Done v => Done v | Throw _ => Throw FieldIntegerRange end
  | Some _ => Throw FieldNotInteger
  end.

(** ** Reasoning about parsers

    [safe m Q s]: running [m] in [s] returns a result that satisfies [Q], or
    throws one of the source's exceptions. *)

Definition safe {A} (m : parser A) (Q : A -> pstate -> Prop) (s : pstate) : Prop :=
  match m s with
  | Done (a, s') => Q a s'
  | Throw e => e <> OutOfFuel
  end.

Lemma safe_ret {A} (a : A) (Q : A -> pstate -> Prop) s : Q a s -> safe (mret a) Q s.
Proof. done. Qed.

Lemma safe_bind {A B} (m : parser A) (k : A -> parser B) Q s :
  safe m (fun a s' => safe (k a) Q s') s -> safe (m ≫= k) Q s.
Proof.
  unfold safe, mbind, parser_bind. destruct (m s) as [[a s']|e]; [done|done].
Qed.

Lemma safe_throw {A} e (Q : A -> pstate -> Prop) s : e <> OutOfFuel -> safe (throw e) Q s.
Proof. done. Qed.

Lemma safe_weaken {A} (m : parser A) (P Q : A -> pstate -> Prop) s :
  safe m P s -> (forall a s', P a s' -> Q a s') -> safe m Q s.
Proof. unfold safe. destruct (m s) as [[a s']|e]; auto. Qed.

(** [s'] is reached from [s] by consuming input only. *)
Definition after (s s' : pstate) : Prop :=
  (length (rest s') <= length (rest s))%nat /\ bytes_ok (rest s') /\ nodeCount s' = nodeCount s.

(** At least one byte has been consumed. *)
Definition past (s s' : pstate) : Prop :=
  (length (rest s') < length (rest s))%nat /\ bytes_ok (rest s') /\ nodeCount s' = nodeCount s.

Lemma after_refl s : bytes_ok (rest s) -> after s s.
Proof. unfold after. intros. by split_and!. Qed.

Lemma past_after s s' : past s s' -> after s s'.
Proof. unfold past, after. intros (? & ? & ?). split_and!; [lia|done|done]. Qed.

Lemma after_trans s s' s'' : after s s' -> after s' s'' -> after s s''.
Proof.
  unfold past, after. intros (? & ? & ?) (? & ? & ?). split_and!; [lia|done|congruence].
Qed.

Lemma past_trans_l s s' s'' : past s s' -> after s' s'' -> past s s''.
Proof.
  unfold past, after. intros (? & ? & ?) (? & ? & ?). split_and!; [lia|done|congruence].
Qed.

Lemma past_trans_r s s' s'' : after s s' -> past s' s'' -> past s s''.
Proof.
  unfold past, after. intros (? & ? & ?) (? & ? & ?). split_and!; [lia|done|congruence].
Qed.

Create HintDb json.
#[local] Hint Resolve after_refl past_after after_trans past_trans_l past_trans_r : json.

Lemma drop_while_suffix p l :
  (length (drop_while p l) <= length l)%nat /\ (bytes_ok l -> bytes_ok (drop_while p l)).
Proof.
  induction l as [|c l [IH1 IH2]]; cbn [drop_while]; [done|].
  destruct (p c); [|done]. split; [cbn; lia|]. intros H. apply bytes_ok_cons in H as [_ H]. auto.
Qed.

Lemma safe_skip s : bytes_ok (rest s) -> safe skipWhitespace (fun _ s' => after s s') s.
Proof.
  intros H. unfold safe, skipWhitespace. cbn.
  destruct (drop_while_suffix IsJsonWhitespace (rest s)) as [? ?].
  unfold after; split_and!; cbn; auto.
Qed.

Lemma safe_skip_digits s : bytes_ok (rest s) -> safe skip_digits (fun _ s' => after s s') s.
Proof.
  intros H. unfold safe, skip_digits. cbn.
  destruct (drop_while_suffix IsDigit (rest s)) as [? ?]. unfold after; split_and!; cbn; auto.
Qed.

Lemma safe_peek s : safe peek (fun p s' => s' = s /\ p = head (rest s)) s.
Proof. done. Qed.

Lemma safe_get s :
  bytes_ok (rest s) ->
  safe get (fun c s' => past s s' /\ in_u8 c /\ head (rest s) = Some c) s.
Proof.
  intros H. unfold safe, get, mbind, parser_bind. cbn.
  destruct (rest s) as [|c r] eqn:E; [done|]. apply bytes_ok_cons in H as [Hc Hr].
  cbn. split_and!; auto. unfold past. rewrite E. split_and!; cbn; [lia|done|done].
Qed.

(** Run one step of a sequence with its specification. *)
Ltac run_with lem :=
  apply safe_bind; eapply safe_weaken; [by apply lem|cbv beta].

Lemma safe_expect c s : bytes_ok (rest s) -> safe (expect c) (fun _ s' => past s s') s.
Proof.
  intros H. unfold expect. run_with (safe_get s). intros c' s' (Hp & _ & _).
  destruct (negb _); [by apply safe_throw|by apply safe_ret].
Qed.

Lemma safe_literal l s :
  bytes_ok (rest s) -> safe (consumeLiteral l) (fun _ s' => after s s') s.
Proof.
  revert s. induction l as [|c l IH]; intros s H; cbn [consumeLiteral].
  { apply safe_ret. by apply after_refl. }
  run_with (safe_get s). intros c' s' (Hp & _ & _). destruct (negb _); [by apply safe_throw|].
  eapply safe_weaken; [apply IH, Hp|]. intros; eauto with json.
Qed.

Lemma safe_at_char c s : safe (at_char c) (fun b s' => s' = s /\ (b = true -> rest s <> [])) s.
Proof. unfold safe, at_char. cbn. split; [done|]. by destruct (rest s). Qed.

Lemma safe_at_digit s :
  safe at_digit (fun b s' => s' = s /\ (b = true -> exists c r, rest s = c :: r /\ IsDigit c = true)) s.
Proof.
  unfold safe, at_digit. cbn. split; [done|]. destruct (rest s) as [|c r]; [done|]. cbn. eauto.
Qed.

Lemma past_ok s s' : past s s' -> bytes_ok (rest s').
Proof. by intros (_ & ? & _). Qed.
Lemma after_ok s s' : after s s' -> bytes_ok (rest s').
Proof. by intros (_ & ? & _). Qed.
#[local] Hint Resolve past_ok after_ok : json.

(** ** Strings *)

Lemma safe_append limits value c s :
  bytes_ok (rest s) -> bytes_ok value -> in_u8 c ->
  safe (appendByte limits value c)
    (fun v s' => after s s' /\ bytes_ok v /\ zlen v <= maximumStringBytes limits) s.
Proof.
  intros Hs Hv Hc. unfold appendByte. destruct (_ <=? _) eqn:E; [by apply safe_throw|].
  apply safe_ret. split_and!; [by apply after_refl| |].
  - apply bytes_ok_app. split; [done|]. apply bytes_ok_cons. split; [done|apply bytes_ok_nil].
  - rewrite zlen_app, zlen_cons, zlen_nil. lia.
Qed.

Lemma safe_code_unit n v s :
  bytes_ok (rest s) -> in_u16 v ->
  safe (code_unit_loop n v) (fun u s' => after s s' /\ in_u16 u) s.
Proof.
  revert v s. induction n as [|n IH]; intros v s Hs Hv; cbn [code_unit_loop].
  { apply safe_ret. split; [by apply after_refl|done]. }
  run_with (safe_get s). intros c s' (Hp & _ & _).
  assert (forall z, in_u16 (to_u16 z)) as Hw
    by (intros z; unfold in_u16, to_u16; pose proof (Z.mod_pos_bound z 65536); lia).
  split_ifs; try (by apply safe_throw);
    (eapply safe_weaken; [apply IH; eauto with json|]; intros u s'' [? ?]; eauto with json).
Qed.

Lemma surrogate_pair high low :
  0xd800 <= high <= 0xdbff -> 0xdc00 <= low <= 0xdfff ->
  scalar (0x10000 + Z.shiftl (high - 0xd800) 10 + (low - 0xdc00)).
Proof. intros. rewrite Z.shiftl_mul_pow2 by lia. unfold scalar. lia. Qed.

Lemma safe_code_point s :
  bytes_ok (rest s) -> safe escape_code_point (fun cp s' => after s s' /\ scalar cp) s.
Proof.
  intros Hs. unfold escape_code_point, parseUnicodeCodeUnit.
  apply safe_bind. eapply safe_weaken; [apply safe_code_unit; [done|unfold in_u16; lia]|].
  intros u s1 [H1 Hu]. cbv beta. unfold in_u16 in Hu.
  destruct ((0xd800 <=? u) && (u <=? 0xdbff)) eqn:E1.
  2: { destruct ((0xdc00 <=? u) && (u <=? 0xdfff)) eqn:E2; [by apply safe_throw|].
       apply safe_ret. split; [done|]. unfold scalar. lia. }
  apply safe_bind. eapply safe_weaken; [apply safe_get; eauto with json|].
  intros c1 s2 (H2 & _ & _). destruct (negb _); [by apply safe_throw|].
  apply safe_bind. eapply safe_weaken; [apply safe_get; eauto with json|].
  intros c2 s3 (H3 & _ & _). destruct (negb _); [by apply safe_throw|].
  apply safe_bind. eapply safe_weaken; [apply safe_code_unit; [eauto with json|unfold in_u16; lia]|].
  intros low s4 [H4 _]. destruct (_ || _) eqn:E3; [by apply safe_throw|].
  apply safe_ret. split; [eauto 7 with json|]. apply surrogate_pair; lia.
Qed.

Lemma safe_unicode limits value s :
  bytes_ok (rest s) -> bytes_ok value ->
  safe (appendUnicodeEscape limits value)
    (fun v s' => after s s' /\ bytes_ok v /\ zlen v <= maximumStringBytes limits) s.
Proof.
  intros Hs Hv. unfold appendUnicodeEscape. run_with (safe_code_point s).
  intros cp s' [H1 Hcp]. destruct (_ || _) eqn:E; [by apply safe_throw|].
  apply safe_ret. split_and!; [done| |rewrite zlen_app; lia].
  apply bytes_ok_app. split; [done|]. apply utf8_encode_bytes_ok. apply Hcp.
Qed.

Lemma safe_escape limits value s :
  bytes_ok (rest s) -> bytes_ok value ->
  safe (appendEscape limits value)
    (fun v s' => past s s' /\ bytes_ok v /\ zlen v <= maximumStringBytes limits) s.
Proof.
  intros Hs Hv. unfold appendEscape. run_with (safe_get s). intros c s1 (H1 & Hc & _).
  assert (forall b, in_u8 b -> safe (appendByte limits value b)
    (fun v s' => past s s' /\ bytes_ok v /\ zlen v <= maximumStringBytes limits) s1) as Hap.
  { intros b Hb. eapply safe_weaken; [apply safe_append; eauto with json|].
    intros v s' (? & ? & ?). eauto with json. }
  assert (in_u8 8 /\ in_u8 12 /\ in_u8 10 /\ in_u8 13 /\ in_u8 9) as (? & ? & ? & ? & ?)
    by (unfold in_u8; lia).
  split_ifs; try (by apply Hap); [|by apply safe_throw].
  eapply safe_weaken; [apply safe_unicode; eauto with json|].
  intros v s' (? & ? & ?). eauto with json.
Qed.

(** What a parsed string satisfies. *)
Definition text_ok (limits : Limits) (v : bytes) : Prop :=
  bytes_ok v /\ zlen v <= maximumStringBytes limits /\ isValidUtf8 v = true.

Lemma safe_string_loop limits fuel value s :
  (length (rest s) < fuel)%nat -> bytes_ok (rest s) -> bytes_ok value ->
  zlen value <= maximumStringBytes limits ->
  safe (string_loop limits fuel value) (fun v s' => after s s' /\ text_ok limits v) s.
Proof.
  revert value s. induction fuel as [|fuel IH]; intros value s Hf Hs Hv Hl; [lia|].
  cbn [string_loop]. run_with (safe_peek s). intros p s' [-> ->].
  destruct (head (rest s)); [|by apply safe_throw].
  run_with (safe_get s). intros c s1 (H1 & Hc & _).
  destruct (c =? 34).
  { destruct (isValidUtf8 value) eqn:E; [|by apply safe_throw].
    apply safe_ret. split; [eauto with json|done]. }
  destruct (c <? 0x20); [by apply safe_throw|]. apply safe_bind.
  eapply (safe_weaken _ (fun v s' => after s1 s' /\ bytes_ok v /\
    zlen v <= maximumStringBytes limits)).
  { destruct (negb _); [apply safe_append; eauto with json|].
    eapply safe_weaken; [apply safe_escape; eauto with json|].
    intros v s' (? & ? & ?). eauto with json. }
  intros v s2 (H2 & Hv2 & Hl2).
  eapply safe_weaken; [apply IH; [|eauto with json|done|done]|].
  - destruct H1 as (? & _ & _), H2 as (? & _ & _). lia.
  - intros w s3 [? ?]. eauto 6 with json.
Qed.

Lemma safe_string limits s :
  bytes_ok (rest s) -> 0 <= maximumStringBytes limits ->
  safe (parseString limits) (fun v s' => past s s' /\ text_ok limits v) s.
Proof.
  intros Hs Hm. unfold parseString. run_with (safe_expect 34 s). intros [] s1 H1.
  apply safe_bind. unfold safe at 1, get_rest. eapply safe_weaken.
  - apply safe_string_loop; [lia|eauto with json|apply bytes_ok_nil|by rewrite zlen_nil].
  - intros v s2 [? ?]. eauto with json.
Qed.

(** ** Numbers *)

Lemma safe_skip_some s c r :
  bytes_ok (rest s) -> rest s = c :: r -> IsDigit c = true ->
  safe skip_digits (fun _ s' => past s s') s.
Proof.
  intros H Hr Hc. change (past s (mkState (drop_while IsDigit (rest s)) (nodeCount s))).
  unfold past. cbn [rest nodeCount]. rewrite Hr in *. cbn [drop_while]. rewrite Hc.
  destruct (drop_while_suffix IsDigit r) as [? ?]. apply bytes_ok_cons in H as [_ H].
  split_and!; [cbn; lia|auto|done].
Qed.

(** An optional character. *)
Lemma safe_optional (b : bool) s :
  bytes_ok (rest s) -> (b = true -> rest s <> []) ->
  safe (if b then get;; mret () else mret ()) (fun _ s' => after s s') s.
Proof.
  intros Hs Hb. destruct b; [|apply safe_ret; eauto with json].
  run_with (safe_get s). intros c s' (? & _ & _). apply safe_ret. eauto with json.
Qed.

Lemma safe_integer_part s :
  bytes_ok (rest s) -> safe number_integer (fun _ s' => past s s') s.
Proof.
  intros Hs. unfold number_integer. run_with (safe_at_char 45 s). intros b s' [-> Hb].
  run_with (safe_optional b s). intros [] s1 H1.
  run_with (safe_at_digit s1). intros d s' [-> Hd]. destruct d; cbn [negb]; [|by apply safe_throw].
  destruct (Hd eq_refl) as (c & r & Hr & Hc).
  run_with (safe_at_char 48 s1). intros z s' [-> _]. destruct z.
  - apply safe_bind. eapply safe_weaken; [apply safe_get; eauto with json|].
    intros c' s2 (H2 & _ & _). run_with (safe_at_digit s2). intros d s' [-> _].
    destruct d; [by apply safe_throw|]. apply safe_ret. eauto with json.
  - eapply safe_weaken; [eapply safe_skip_some; eauto with json|]. eauto with json.
Qed.

Lemma safe_fraction s :
  bytes_ok (rest s) -> safe number_fraction (fun _ s' => after s s') s.
Proof.
  intros Hs. unfold number_fraction. run_with (safe_at_char 46 s). intros b s' [-> _].
  destruct b; [|apply safe_ret; eauto with json].
  run_with (safe_get s). intros c s1 (H1 & _ & _). run_with (safe_at_digit s1).
  intros d s' [-> _]. destruct d; cbn [negb]; [|by apply safe_throw].
  eapply safe_weaken; [apply safe_skip_digits; eauto with json|]. eauto with json.
Qed.

Lemma safe_exponent s :
  bytes_ok (rest s) -> safe number_exponent (fun _ s' => after s s') s.
Proof.
  intros Hs. unfold number_exponent. run_with (safe_at_char 101 s). intros b s' [-> _].
  run_with (safe_at_char 69 s). intros b' s' [-> _].
  destruct (b || b'); [|apply safe_ret; eauto with json].
  run_with (safe_get s). intros c s1 (H1 & _ & _).
  run_with (safe_at_char 43 s1). intros p s' [-> Hp]. run_with (safe_at_char 45 s1).
  intros m s' [-> Hm]. apply safe_bind. eapply safe_weaken.
  { apply safe_optional; [eauto with json|]. intros E. apply orb_true_iff in E as [E|E]; auto. }
  intros [] s2 H2. run_with (safe_at_digit s2). intros d s' [-> _].
  destruct d; cbn [negb]; [|by apply safe_throw].
  eapply safe_weaken; [apply safe_skip_digits; eauto with json|]. eauto with json.
Qed.

Definition lexeme_ok (lexeme : bytes) : Prop := lexeme <> [] /\ finite_double lexeme = true.

Lemma safe_number s :
  bytes_ok (rest s) -> safe parseNumber (fun l s' => past s s' /\ lexeme_ok l) s.
Proof.
  intros Hs. unfold parseNumber. apply safe_bind. unfold safe at 1, get_rest.
  run_with (safe_integer_part s). intros [] s1 H1.
  apply safe_bind. eapply safe_weaken; [apply safe_fraction; eauto with json|]. intros [] s2 H2.
  apply safe_bind. eapply safe_weaken; [apply safe_exponent; eauto with json|]. intros [] s3 H3.
  assert (past s s3) as Hp by eauto with json.
  apply safe_bind. unfold safe at 1, get_rest.
  destruct (finite_double _) eqn:E; cbn [negb]; [|by apply safe_throw].
  apply safe_ret. split; [done|]. split; [|done]. destruct Hp as (Hp & _ & _).
  intros Hn. apply (f_equal length) in Hn. rewrite length_take in Hn. cbn in Hn. lia.
Qed.

(** ** Values: what the limits guarantee *)

Definition slt (a b : bytes) : Prop := string_compare a b = Lt.

Fixpoint json_ok (limits : Limits) (j : Json) : Prop :=
  match j with
  | JNull | JBool _ => True
  | JString t => text_ok limits t
  | JNumber l => lexeme_ok l
  | JArray l => fold_right (fun x P => json_ok limits x /\ P) True l
  | JObject ms =>
      Sorted slt (map fst ms) /\
      fold_right (fun m P => text_ok limits (fst m) /\ json_ok limits (snd m) /\ P) True ms
  end.

(** The number of calls of [parseValue] that produce a value. *)
Fixpoint nodes (j : Json) : Z :=
  match j with
  | JArray l => 1 + fold_right (fun x n => nodes x + n) 0 l
  | JObject ms => 1 + fold_right (fun m n => nodes (snd m) + n) 0 ms
  | _ => 1
  end.

(** The depth of nesting below a value. *)
Fixpoint height (j : Json) : Z :=
  match j with
  | JArray l => fold_right (fun x n => Z.max (1 + height x) n) 0 l
  | JObject ms => fold_right (fun m n => Z.max (1 + height (snd m)) n) 0 ms
  | _ => 0
  end.

Lemma string_compare_opp a b : string_compare b a = CompOpp (string_compare a b).
Proof.
  revert b. induction a as [|x a IH]; intros [|y b]; cbn; try done.
  rewrite (Z.compare_antisym x y). destruct (x ?= y); cbn; auto.
Qed.

Lemma string_compare_Eq a b : string_compare a b = Eq -> a = b.
Proof.
  revert b. induction a as [|x a IH]; intros [|y b]; cbn; try done.
  destruct (Z.compare_spec x y) as [->| |]; [|done|done]. intros H. by rewrite (IH b H).
Qed.

Lemma emplace_spec limits key value ms ms' :
  emplace key value ms = Some ms' ->
  text_ok limits key -> json_ok limits value -> json_ok limits (JObject ms) ->
  json_ok limits (JObject ms') /\
  nodes (JObject ms') = nodes (JObject ms) + nodes value /\
  height (JObject ms') = Z.max (1 + height value) (height (JObject ms)) /\
  (forall k v, head ms' = Some (k, v) -> k = key \/ (exists v', head ms = Some (k, v'))).
Proof.
  intros He Hk Hv. revert ms' He. induction ms as [|[k v] ms IH]; cbn [emplace]; intros ms' He Hms.
  { injection He as <-. cbn. split_and!; auto; try lia; try done.
    intros k v [= <- <-]. by left. }
  destruct Hms as [Hsort Hms]. cbn in Hms. destruct Hms as (Htk & Hjv & Hms).
  destruct (string_compare key k) eqn:Hc; [done| |].
  - injection He as <-. cbn [json_ok map fold_right fst snd nodes height].
    split_and!; auto; try (cbn; lia).
    cbn. intros k' v' [= <- <-]. by left.
  - destruct (emplace key value ms) as [ms''|] eqn:Hem; [|done]. injection He as <-.
    cbn in Hsort. apply Sorted_inv in Hsort as [Hsort Hhd].
    destruct (IH ms'' eq_refl) as ([Hs'' Hj''] & Hn & Hh & Hhead); [by split|].
    cbn [json_ok map fold_right fst snd nodes height] in *. split_and!; auto; try lia.
    + constructor; [done|]. destruct ms'' as [|[k1 v1] ms'']; [constructor|]. cbn.
      constructor. destruct (Hhead k1 v1 eq_refl) as [->|(v' & Hv')].
      * unfold slt. by rewrite string_compare_opp, Hc.
      * destruct ms as [|[k2 v2] ms]; [done|]. cbn in Hv'. injection Hv' as -> ->.
        by inversion Hhd.
    + cbn. intros k' v' [= <- <-]. right. eauto.
Qed.

Section Values.
Context (limits : Limits) (Hstrings : 0 <= maximumStringBytes limits).

(** What a call that returns [j] at [depth] guarantees; [before] is the number of
    nodes the caller has already counted towards [j]. *)
Definition value_post (depth before : Z) (s : pstate) (j : Json) (s' : pstate) : Prop :=
  (length (rest s') < length (rest s))%nat /\ bytes_ok (rest s') /\ json_ok limits j /\
  nodeCount s' = nodeCount s + nodes j - before /\ nodeCount s' <= maximumNodes limits /\
  depth + height j <= maximumDepth limits.

Definition values_safe (fuel : nat) : Prop := forall depth s,
  bytes_ok (rest s) -> (2 * length (rest s) < fuel)%nat ->
  safe (parseValue limits fuel depth) (value_post depth 0 s) s.

Definition members_safe (fuel : nat) : Prop := forall depth ms s,
  bytes_ok (rest s) -> (2 * length (rest s) + 1 < fuel)%nat ->
  json_ok limits (JObject ms) -> depth + height (JObject ms) <= maximumDepth limits ->
  safe (parseMembers limits fuel depth ms) (value_post depth (nodes (JObject ms)) s) s.

Definition elements_safe (fuel : nat) : Prop := forall depth l s,
  bytes_ok (rest s) -> (2 * length (rest s) + 1 < fuel)%nat ->
  json_ok limits (JArray l) -> depth + height (JArray l) <= maximumDepth limits ->
  safe (parseElements limits fuel depth l) (value_post depth (nodes (JArray l)) s) s.

Lemma array_snoc l x :
  (json_ok limits (JArray l) -> json_ok limits x -> json_ok limits (JArray (l ++ [x]))) /\
  nodes (JArray (l ++ [x])) = nodes (JArray l) + nodes x /\
  height (JArray (l ++ [x])) = Z.max (1 + height x) (height (JArray l)).
Proof using Type.
  induction l as [|y l (IH1 & IH2 & IH3)]; cbn [app json_ok fold_right nodes height] in *.
  - split_and!; auto; lia.
  - split_and!; [tauto|lia|lia].
Qed.

Lemma height_nonneg_object ms : 0 <= height (JObject ms).
Proof using Type. induction ms as [|m ms IH]; cbn [height fold_right] in *; lia. Qed.

Lemma height_nonneg_array l : 0 <= height (JArray l).
Proof using Type. induction l as [|m ms IH]; cbn [height fold_right] in *; lia. Qed.

Lemma members_step fuel : values_safe fuel -> members_safe fuel -> members_safe (S fuel).
Proof using Hstrings.
  intros IHv IHm depth ms s Hs Hf Hms Hh. cbn [parseMembers].
  run_with (safe_skip s). intros [] s1 H1. run_with (safe_at_char 34 s1). intros q s' [-> _].
  destruct q; cbn [negb]; [|by apply safe_throw].
  apply safe_bind. eapply safe_weaken; [apply safe_string; eauto with json|].
  intros key s2 [H2 Hkey]. cbv beta.
  apply safe_bind. eapply safe_weaken; [apply safe_skip; eauto with json|]. intros [] s3 H3.
  apply safe_bind. eapply safe_weaken; [apply safe_expect; eauto with json|]. intros [] s4 H4.
  assert (past s s4) as (Hl4 & Hok4 & Hn4) by eauto 6 with json.
  apply safe_bind. eapply safe_weaken; [apply IHv; [done|lia]|].
  intros v s5 (Hl5 & Hok5 & Hv & Hn5 & Hmax5 & Hd5). cbv beta.
  destruct (emplace key v ms) as [ms'|] eqn:Hem; [|by apply safe_throw].
  destruct (emplace_spec limits key v ms ms' Hem Hkey Hv Hms) as (Hms' & Hnodes & Hheight & _).
  apply safe_bind. eapply safe_weaken; [by apply safe_skip|]. intros [] s6 H6.
  apply safe_bind. eapply safe_weaken; [apply safe_get; eauto with json|].
  intros c s7 (H7 & _ & _). cbv beta.
  assert (past s5 s7) as (Hl7 & Hok7 & Hn7) by eauto with json.
  assert (depth + height (JObject ms') <= maximumDepth limits) as Hh'.
  { rewrite Hheight. pose proof (height_nonneg_object ms). lia. }
  destruct (c =? 125).
  { apply safe_ret. unfold value_post. split_and!; [lia|done|done|lia|lia|done]. }
  destruct (negb _); [by apply safe_throw|].
  eapply safe_weaken; [apply IHm; [done|lia|done|done]|].
  intros j s8 (? & ? & ? & ? & ? & ?). unfold value_post. split_and!; [lia|done|done|lia|lia|done].
Qed.

Lemma elements_step fuel : values_safe fuel -> elements_safe fuel -> elements_safe (S fuel).
Proof using Type.
  intros IHv IHe depth l s Hs Hf Hl Hh. cbn [parseElements].
  apply safe_bind. eapply safe_weaken; [apply IHv; [done|lia]|].
  intros v s1 (Hl1 & Hok1 & Hv & Hn1 & Hmax1 & Hd1). cbv beta.
  apply safe_bind. eapply safe_weaken; [by apply safe_skip|]. intros [] s2 H2.
  apply safe_bind. eapply safe_weaken; [apply safe_get; eauto with json|].
  intros c s3 (H3 & _ & _). cbv beta zeta.
  assert (past s1 s3) as (Hl3 & Hok3 & Hn3) by eauto with json.
  destruct (array_snoc l v) as (Hj & Hnodes & Hheight). specialize (Hj Hl Hv).
  assert (depth + height (JArray (l ++ [v])) <= maximumDepth limits) as Hh'.
  { rewrite Hheight. pose proof (height_nonneg_array l). lia. }
  destruct (c =? 93).
  { apply safe_ret. unfold value_post. split_and!; [lia|done|done|lia|lia|done]. }
  destruct (negb _); [by apply safe_throw|].
  eapply safe_weaken; [apply IHe; [done|lia|done|done]|].
  intros j s4 (? & ? & ? & ? & ? & ?). unfold value_post. split_and!; [lia|done|done|lia|lia|done].
Qed.

(** A scalar consumes its own text and counts one node. *)
Lemma scalar_post depth s s1 j s' :
  (length (rest s') < length (rest s))%nat -> bytes_ok (rest s') -> nodeCount s' = nodeCount s1 ->
  nodeCount s1 = nodeCount s + 1 -> nodeCount s1 <= maximumNodes limits ->
  depth <= maximumDepth limits -> json_ok limits j -> nodes j = 1 -> height j = 0 ->
  value_post depth 0 s j s'.
Proof using Type. intros. unfold value_post. split_and!; try done; lia. Qed.

Lemma safe_literal_past l s :
  l <> [] -> bytes_ok (rest s) -> safe (consumeLiteral l) (fun _ s' => past s s') s.
Proof using Type.
  intros Hl Hs. destruct l as [|c l]; [done|]. cbn [consumeLiteral].
  run_with (safe_get s). intros c' s1 (H1 & _ & _). destruct (negb _); [by apply safe_throw|].
  eapply safe_weaken; [apply safe_literal; eauto with json|]. eauto with json.
Qed.

(** The state in which the token of a value is looked at: whitespace skipped
    and the node counted. *)
Definition token_state (s s2 : pstate) : Prop :=
  (length (rest s2) <= length (rest s))%nat /\ bytes_ok (rest s2) /\
  nodeCount s2 = nodeCount s + 1 /\ nodeCount s2 <= maximumNodes limits.

(** An object or an array after its opening bracket: empty, or [loop]. *)
Lemma safe_container (opening closing depth : Z) (empty : Json) loop s s2 :
  token_state s s2 -> depth <= maximumDepth limits ->
  json_ok limits empty -> nodes empty = 1 -> height empty = 0 ->
  (forall s4, (length (rest s4) < length (rest s2))%nat -> bytes_ok (rest s4) ->
     safe loop (value_post depth 1 s4) s4) ->
  safe (expect opening;; skipWhitespace;; close ← at_char closing;
        if close : bool then get;; mret empty else loop) (value_post depth 0 s) s2.
Proof using Type.
  intros (Hl2 & Hok2 & Hn2 & Hm2) Hd He Hen Heh Hloop.
  run_with (safe_expect opening s2). intros [] s3 H3.
  apply safe_bind. eapply safe_weaken; [apply safe_skip; eauto with json|]. intros [] s4 H4.
  assert (past s2 s4) as (Hl4 & Hok4 & Hn4) by eauto with json.
  run_with (safe_at_char closing s4). intros close s' [-> _]. destruct close.
  - apply safe_bind. eapply safe_weaken; [by apply safe_get|].
    intros c s5 ((Hl5 & Hok5 & Hn5) & _ & _). apply safe_ret.
    apply (scalar_post depth s s2); try done; lia || congruence.
  - eapply safe_weaken; [by apply Hloop|].
    intros j s5 (? & ? & ? & ? & ? & ?). unfold value_post. split_and!; [lia|done|done|lia|lia|done].
Qed.

Lemma safe_token depth s s2 (j : Json) {A} (m : parser A) (f : A -> Json) (P : A -> Prop) :
  token_state s s2 -> depth <= maximumDepth limits ->
  safe m (fun a s' => past s2 s' /\ P a) s2 ->
  (forall a, P a -> json_ok limits (f a) /\ nodes (f a) = 1 /\ height (f a) = 0) ->
  safe (a ← m; mret (f a)) (value_post depth 0 s) s2.
Proof using Type.
  intros (Hl2 & Hok2 & Hn2 & Hm2) Hd Hm Hf. apply safe_bind. eapply safe_weaken; [exact Hm|].
  intros a s' [(Hl & Hok & Hn) HP]. destruct (Hf a HP) as (? & ? & ?).
  apply safe_ret. apply (scalar_post depth s s2); try done; lia.
Qed.

Lemma values_step fuel : members_safe fuel -> elements_safe fuel -> values_safe (S fuel).
Proof using Hstrings.
  intros IHm IHe depth s Hs Hf. cbn [parseValue].
  destruct (Z.ltb_spec (maximumDepth limits) depth) as [|Hd]; [by apply safe_throw|].
  apply safe_bind. unfold safe at 1, count_node. cbn [rest nodeCount].
  destruct (Z.ltb_spec (maximumNodes limits) (nodeCount s + 1)) as [|Hmax]; [done|].
  set (s1 := mkState (rest s) (nodeCount s + 1)).
  apply safe_bind. eapply safe_weaken; [by apply (safe_skip s1)|]. intros [] s2 (Hl2 & Hok2 & Hn2).
  assert (token_state s s2) as Ht.
  { unfold token_state. rewrite Hn2. cbn in *. split_and!; [lia|done|lia|lia]. }
  run_with (safe_peek s2). intros p s' [-> ->].
  destruct (head (rest s2)) as [c|]; [|by apply safe_throw].
  cbn [rest s1] in Hl2.
  destruct (c =? 123).
  { apply safe_container; try done.
    intros s4 Hl4 Hok4. apply (IHm depth [] s4); [done|lia|cbn; by repeat constructor|cbn; lia]. }
  destruct (c =? 91).
  { apply safe_container; try done.
    intros s4 Hl4 Hok4. apply (IHe depth [] s4); [done|lia|done|cbn; lia]. }
  destruct (c =? 34).
  { eapply (safe_token depth s s2 JNull (parseString limits) JString (text_ok limits)); try done.
    by apply safe_string. }
  destruct (c =? 116).
  { eapply (safe_token depth s s2 JNull _ (fun _ => JBool true) (fun _ => True)); try done.
    eapply safe_weaken; [by apply safe_literal_past|done]. }
  destruct (c =? 102).
  { eapply (safe_token depth s s2 JNull _ (fun _ => JBool false) (fun _ => True)); try done.
    eapply safe_weaken; [by apply safe_literal_past|done]. }
  destruct (c =? 110).
  { eapply (safe_token depth s s2 JNull _ (fun _ => JNull) (fun _ => True)); try done.
    eapply safe_weaken; [by apply safe_literal_past|done]. }
  destruct (_ || _); [|by apply safe_throw].
  eapply (safe_token depth s s2 JNull parseNumber JNumber lexeme_ok); try done.
  by apply safe_number.
Qed.

Lemma parse_safe fuel : values_safe fuel /\ members_safe fuel /\ elements_safe fuel.
Proof using Hstrings.
  induction fuel as [|fuel (IHv & IHm & IHe)].
  - split_and!; intros ? **; lia.
  - split_and!; auto using values_step, members_step, elements_step.
Qed.
End Values.

(** ** Properties *)

(** C39: parse terminates with a value or one of the documented errors on every input
    (the model's fuel never runs out), and a value it returns respects the limits: at most
    maximumNodes values, nesting of at most maximumDepth, strings of at most
    maximumStringBytes that are valid UTF-8, finite numbers, and objects with unique keys
    in order. *)
Theorem Parse_total text limits :
  bytes_ok text -> 0 <= maximumStringBytes limits ->
  match Parse text limits with
  | Done j =>
      json_ok limits j /\ nodes j <= maximumNodes limits /\ height j <= maximumDepth limits
  | Throw e => e <> OutOfFuel
  end.
Proof.
  intros Hok Hs. unfold Parse. destruct (_ <? _); [done|]. destruct (_ || _); [done|].
  destruct (parse_safe limits Hs (2 * length text + 2)) as (Hv & _ & _).
  specialize (Hv 0 (mkState text 0) Hok ltac:(cbn; lia)).
  match goal with |- match match ?m ?s with _ => _ end with _ => _ end =>
    assert (safe m (fun j _ => json_ok limits j /\ nodes j <= maximumNodes limits /\
      height j <= maximumDepth limits) s) as Hsafe end.
  { apply safe_bind. eapply safe_weaken; [exact Hv|].
    intros j s1 (_ & Hok1 & Hj & Hn & Hmax & Hh). cbn [nodeCount] in Hn. cbv beta.
    apply safe_bind. eapply safe_weaken; [by apply safe_skip|]. intros [] s2 _.
    run_with (safe_peek s2). intros p s' [-> ->].
    destruct (head (rest s2)); [by apply safe_throw|]. apply safe_ret. split_and!; [done|lia|lia]. }
  unfold safe in Hsafe. by case_match; [case_match|].
Qed.

Definition sample_text : bytes := [123; 34; 97; 34; 58; 91; 49; 44; 50; 93; 125].

Lemma Parse_total_witness :
  Parse sample_text default_limits = Done (JObject [([97], JArray [JNumber [49]; JNumber [50]])]) /\
  match Parse sample_text default_limits with
  | Done j => json_ok default_limits j /\ nodes j <= 16384 /\ height j <= 64
  | Throw e => e <> OutOfFuel
  end.
Proof.
  split; [by vm_compute|]. apply (Parse_total sample_text default_limits).
  - repeat constructor; by vm_compute.
  - by vm_compute.
Defined.
