(* ===== verification/Config.v ===== *)
(** * Loading the configuration (main.cpp, LoadConfigText)

    The daemon's configuration is parsed strictly: unknown fields, values
    out of range, duplicate names and invalid locks are errors. An exception
    is a [ConfigError]. [EC_MAXSLAVE], a constant of the SOEM build, is a
    parameter of the definitions that use it. *)

From stdpp Require Import sets.
From Stdlib Require Import Sorting.Sorted.
From S2P Require Import Prelude Utf8 Protocol Json Adapter Realtime.

Definition kDefaultLogDirectory : bytes := str "/var/log/ec-systemcore".
Definition kMinimumCyclePeriodUs : Z := 5000.
Definition kMaximumCyclePeriodUs : Z := 1000000.
Definition kMaximumBuses : Z := 8.
Definition kMaximumConfigurationBytes : Z := 1024 * 1024.
Definition IFNAMSIZ : Z := 16.

Definition isalnum (c : Z) : bool :=
  isdigit c || ((65 <=? c) && (c <=? 90)) || ((97 <=? c) && (c <=? 122)).

Definition IsValidLogicalName (name : bytes) : bool :=
  if (zlen name =? 0) || (32 <? zlen name) then false
  else forallb (fun c => isalnum c || (c =? 95) || (c =? 45)) name.

Definition IsValidInterfaceName (name : bytes) : bool :=
  if (zlen name =? 0) || (IFNAMSIZ <=? zlen name) then false
  else forallb (fun c => isalnum c || (c =? 95) || (c =? 45) || (c =? 46) || (c =? 58)) name.

Definition IsRestrictedInterface (name : bytes) : bool :=
  bool_decide (name = str "eth0") || bool_decide (name = str "wlan0") ||
  bool_decide (name = str "usb0").

Record ExpectedSubDevice := mkExpected {
  expected_vendorId : Z;
  expected_productCode : Z;
  expected_revision : option Z;
  expected_outputBytes : option Z;
  expected_inputBytes : option Z
}.

Record InterfaceConfig := mkInterface {
  if_logicalName : bytes;
  if_physicalInterface : bytes;
  if_enabled : bool;
  if_lock : option AdapterIdentityLock;
  if_expectedSubDevices : list ExpectedSubDevice;
  if_maximumIoMapBytes : Z;
  if_distributedClock : bool;
  if_distributedClockShiftNs : Z;
  if_allowUnverifiedTopology : bool
}.

Record DaemonConfig := mkConfig {
  config_interfaces : list InterfaceConfig;
  config_allowRestrictedInterfaces : bool;
  config_cyclePeriod : Z;
  config_heartbeatTimeout : Z;
  config_outputCommandTimeout : Z;
  config_logDirectory : bytes;
  config_logCountLimit : Z;
  config_freeSpaceThresholdBytes : Z;
  config_realtime : RealtimeConfig;
  config_controllerUids : list Z;
  config_controllerGids : list Z;
  config_controllerGroup : bytes
}.

Inductive ConfigError :=
| JsonFailure (e : JsonError)
| MustBeObject (context : bytes)
| UnknownField (context key : bytes)
| MissingInteger (key : bytes)
| Uint32Range (key : bytes)
| StringExpected (key : bytes)
| EmptyString (key : bytes)
| RootNotObject
| Nt4Unsupported
| CyclePeriodRange
| HeartbeatRange
| OutputTimeoutRange
| OutputTimeoutTooShort
| LogDirectoryFixed
| LogCountRange
| FreeSpaceRange
| PriorityRange
| CpuRange
| ControllerGroupInvalid
| PeerIdsNotArray (key : bytes)
| PeerIdInvalid (key : bytes)
| NoInterfaceArray
| TooManyBuses
| MappingNotObject
| InvalidLogicalName (name : bytes)
| InvalidInterfaceName (name : bytes)
| RestrictedInterface (name : bytes)
| DuplicateName
| IoMapRange
| ClockShiftRange
| LockNotObject
| LockInvalid (e : LockError)
| TopologyNotArray
| SubDeviceNotObject
| OutputBytesTooLarge.

(** A computation that may throw. *)
Inductive cres (A : Type) := Fine (a : A) | Error (e : ConfigError).
Arguments Fine {A} a.
Arguments Error {A} e.

#[export] Instance cres_ret : MRet cres := fun A a => Fine a.
#[export] Instance cres_bind : MBind cres := fun A B k m =>
  match m with Fine a => k a | Error e => Error e end.

Definition json {A} (r : res A) : cres A :=
  match r with Done a => Fine a | Throw e => Error (JsonFailure e) end.

Definition check (b : bool) (e : ConfigError) : cres () := if b then Fine () else Error e.

Definition found (j : Json) (key : bytes) : bool := has_value (Json.find j key).

Definition CheckedUint32 (object : Json) (key : bytes) (fallback : option Z) : cres Z :=
  match Json.find object key with
  | None =>
      match fallback with Some v => Fine v | None => Error (MissingInteger key) end
  | Some _ =>
      integer ← json (integerValue object key 0);
      if (integer <? 0) || (U32_MAX <? integer) then Error (Uint32Range key)
      else Fine integer
  end.

Fixpoint reject_unknown (members : list (bytes * Json)) (accepted : list bytes)
    (context : bytes) : cres () :=
  match members with
  | [] => Fine ()
  | (key, _) :: members =>
      if existsb (fun a => bool_decide (a = key)) accepted
      then reject_unknown members accepted context
      else Error (UnknownField context key)
  end.

Definition RejectUnknownKeys (object : Json) (accepted : list bytes) (context : bytes)
    : cres () :=
  match object with
  | JObject members => reject_unknown members accepted context
  | _ => Error (MustBeObject context)
  end.

Definition OptionalString (object : Json) (key : bytes) : cres (option bytes) :=
  match Json.find object key with
  | None => Fine None
  | Some (JString text) => if zlen text =? 0 then Error (EmptyString key) else Fine (Some text)
  | Some _ => Error (StringExpected key)
  end.

(** ** The parts of LoadConfigText, in order *)

Definition root_keys : list bytes :=
  [str "allow_restricted_interfaces"; str "cycle_period_us"; str "heartbeat_timeout_ms";
   str "output_command_timeout_ms"; str "log_directory"; str "log_count_limit";
   str "free_space_threshold_mb"; str "realtime_memory_lock"; str "realtime_fifo";
   str "realtime_priority"; str "realtime_cpu"; str "controller_group";
   str "controller_uids"; str "controller_gids"; str "interface_mappings";
   str "nt4_server"; str "nt4_team"].

Definition in_range (lo v hi : Z) : bool := (lo <=? v) && (v <=? hi).

(** Cycle period, heartbeat timeout and output-command timeout. *)
Definition load_timing (root : Json) : cres (Z * Z * Z) :=
  cyclePeriod ← json (integerValue root (str "cycle_period_us") kMinimumCyclePeriodUs);
  check (in_range kMinimumCyclePeriodUs cyclePeriod kMaximumCyclePeriodUs) CyclePeriodRange;;
  heartbeat ← json (integerValue root (str "heartbeat_timeout_ms") 250);
  check (in_range 100 heartbeat 5000) HeartbeatRange;;
  outputCommandTimeout ← json (integerValue root (str "output_command_timeout_ms") 100);
  check (in_range 20 outputCommandTimeout heartbeat) OutputTimeoutRange;;
  check (negb (outputCommandTimeout * 1000 <? cyclePeriod * 2)) OutputTimeoutTooShort;;
  Fine (cyclePeriod, heartbeat, outputCommandTimeout).

(** Log directory, count and free space. *)
Definition load_logging (root : Json) : cres (bytes * Z * Z) :=
  logDirectory ← json (stringValue root (str "log_directory") kDefaultLogDirectory);
  check (bool_decide (logDirectory = kDefaultLogDirectory)) LogDirectoryFixed;;
  logCount ← json (integerValue root (str "log_count_limit") 10);
  check (in_range 1 logCount 1000) LogCountRange;;
  freeMegabytes ← json (integerValue root (str "free_space_threshold_mb") 50);
  check (in_range 0 freeMegabytes (1024 * 1024)) FreeSpaceRange;;
  Fine (logDirectory, logCount, to_u64 (to_u64 (freeMegabytes * 1024) * 1024)).

Definition load_realtime (root : Json) : cres RealtimeConfig :=
  memoryLock ← json (boolValue root (str "realtime_memory_lock") true);
  fifo ← json (boolValue root (str "realtime_fifo") true);
  priority ← json (integerValue root (str "realtime_priority") 55);
  check (in_range I32_MIN priority I32_MAX) PriorityRange;;
  cpu ← (if found root (str "realtime_cpu") then
           cpu ← json (integerValue root (str "realtime_cpu") 0);
           check (in_range 0 cpu U32_MAX) CpuRange;;
           Fine (Some cpu)
         else Fine None);
  Fine (mkRealtimeConfig memoryLock fifo priority cpu).

Definition load_group (root : Json) : cres bytes :=
  group ← json (stringValue root (str "controller_group") (str "ec-systemcore-controller"));
  check (negb ((zlen group =? 0) || (255 <? zlen group) ||
         negb (forallb (fun c => isalnum c || (c =? 95) || (c =? 45)) group)))
    ControllerGroupInvalid;;
  Fine group.

(** [std::sort] followed by [std::unique] and [erase]. *)
Fixpoint insert_unique (x : Z) (l : list Z) : list Z :=
  match l with
  | [] => [x]
  | y :: l' => match Z.compare x y with
               | Lt => x :: l | Eq => l | Gt => y :: insert_unique x l' end
  end.

Definition sort_unique (l : list Z) : list Z := fold_right insert_unique [] l.

Fixpoint peer_ids (key : bytes) (values : list Json) : cres (list Z) :=
  match values with
  | [] => Fine []
  | value :: values =>
      integer ← json (integer value);
      if (integer <? 0) || (U32_MAX <? integer) then Error (PeerIdInvalid key)
      else
        ids ← peer_ids key values;
        Fine (integer :: ids)
  end.

(** The [parsePeerIds] lambda on a destination that holds [initial]. *)
Definition parsePeerIds (root : Json) (key : bytes) (initial : list Z) : cres (list Z) :=
  match Json.find root key with
  | None => Fine initial
  | Some (JArray values) =>
      if 64 <? zlen values then Error (PeerIdsNotArray key)
      else
        ids ← peer_ids key values;
        Fine (sort_unique (initial ++ ids))
  | Some _ => Error (PeerIdsNotArray key)
  end.

Definition mapping_keys : list bytes :=
  [str "logical_name"; str "physical_interface"; str "enabled"; str "maximum_io_map_bytes";
   str "distributed_clock"; str "distributed_clock_shift_ns"; str "allow_unverified_topology";
   str "lock"; str "expected_subdevices"].

Definition lock_keys : list bytes :=
  [str "id_path"; str "permanent_mac"; str "usb_serial"; str "usb_vendor_id";
   str "usb_product_id"].

Definition load_lock (entry : Json) : cres (option AdapterIdentityLock) :=
  match Json.find entry (str "lock") with
  | None => Fine None
  | Some (JObject members) =>
      let lock := JObject members in
      RejectUnknownKeys lock lock_keys (str "adapter lock");;
      idPath ← json (stringValue lock (str "id_path") []);
      mac ← OptionalString lock (str "permanent_mac");
      serial ← OptionalString lock (str "usb_serial");
      vendor ← OptionalString lock (str "usb_vendor_id");
      product ← OptionalString lock (str "usb_product_id");
      match ValidateAdapterLock (mkLock idPath mac serial vendor product) with
      | Some e => Error (LockInvalid e)
      | None =>
          Fine (Some (mkLock idPath (normalized NormalizeMac mac) serial
                        (normalized NormalizeUsbId vendor) (normalized NormalizeUsbId product)))
      end
  | Some _ => Error LockNotObject
  end.

Definition subdevice_keys : list bytes :=
  [str "vendor_id"; str "product_code"; str "revision"; str "output_bytes"; str "input_bytes"].

Definition optional_uint32 (object : Json) (key : bytes) : cres (option Z) :=
  if found object key then v ← CheckedUint32 object key None; Fine (Some v) else Fine None.

Definition load_subdevice (expected : Json) : cres ExpectedSubDevice :=
  match expected with
  | JObject _ =>
      RejectUnknownKeys expected subdevice_keys (str "expected SubDevice");;
      vendorId ← CheckedUint32 expected (str "vendor_id") None;
      productCode ← CheckedUint32 expected (str "product_code") None;
      revision ← optional_uint32 expected (str "revision");
      outputBytes ← optional_uint32 expected (str "output_bytes");
      check (match outputBytes with Some n => n <=? kMaximumOutputWrite | None => true end)
        OutputBytesTooLarge;;
      inputBytes ← optional_uint32 expected (str "input_bytes");
      Fine (mkExpected vendorId productCode revision outputBytes inputBytes)
  | _ => Error SubDeviceNotObject
  end.

Fixpoint load_subdevices (values : list Json) : cres (list ExpectedSubDevice) :=
  match values with
  | [] => Fine []
  | value :: values =>
      subDevice ← load_subdevice value;
      rest ← load_subdevices values;
      Fine (subDevice :: rest)
  end.

Section Topology.
Context (EC_MAXSLAVE : Z).

Definition load_topology (entry : Json) : cres (list ExpectedSubDevice) :=
  match Json.find entry (str "expected_subdevices") with
  | None => Fine []
  | Some (JArray values) =>
      if EC_MAXSLAVE <=? zlen values then Error TopologyNotArray else load_subdevices values
  | Some _ => Error TopologyNotArray
  end.

(** One turn of the loop over the mappings; [logicalNames] and [physicalNames]
    are the names seen so far. *)
Definition load_mapping (allowRestricted : bool) (logicalNames physicalNames : list bytes)
    (entry : Json) : cres InterfaceConfig :=
  match entry with
  | JObject _ =>
      RejectUnknownKeys entry mapping_keys (str "interface mapping");;
      logicalName ← json (stringValue entry (str "logical_name") []);
      physicalInterface ← json (stringValue entry (str "physical_interface") []);
      enabled ← json (boolValue entry (str "enabled") true);
      check (IsValidLogicalName logicalName) (InvalidLogicalName logicalName);;
      check (IsValidInterfaceName physicalInterface) (InvalidInterfaceName physicalInterface);;
      check (allowRestricted || negb (IsRestrictedInterface physicalInterface))
        (RestrictedInterface physicalInterface);;
      check (negb (bool_decide (logicalName ∈ logicalNames)) &&
             negb (bool_decide (physicalInterface ∈ physicalNames))) DuplicateName;;
      ioMapLimit ← json (integerValue entry (str "maximum_io_map_bytes") (256 * 1024));
      check (in_range 1024 ioMapLimit kMaximumPdoImage) IoMapRange;;
      distributedClock ← json (boolValue entry (str "distributed_clock") false);
      allowUnverified ← json (boolValue entry (str "allow_unverified_topology") false);
      dcShift ← json (integerValue entry (str "distributed_clock_shift_ns") 0);
      check (in_range I32_MIN dcShift I32_MAX) ClockShiftRange;;
      lock ← load_lock entry;
      expected ← load_topology entry;
      Fine (mkInterface logicalName physicalInterface enabled lock expected ioMapLimit
              distributedClock dcShift allowUnverified)
  | _ => Error MappingNotObject
  end.

(** The loop; disabled mappings are checked but not kept. *)
Fixpoint load_mappings (allowRestricted : bool) (logicalNames physicalNames : list bytes)
    (entries : list Json) : cres (list InterfaceConfig) :=
  match entries with
  | [] => Fine []
  | entry :: entries =>
      interface ← load_mapping allowRestricted logicalNames physicalNames entry;
      rest ← load_mappings allowRestricted (if_logicalName interface :: logicalNames)
               (if_physicalInterface interface :: physicalNames) entries;
      Fine (if if_enabled interface then interface :: rest else rest)
  end.

Definition LoadConfigText (text : bytes) : cres DaemonConfig :=
  root ← json (Parse text (mkLimits kMaximumConfigurationBytes 32 8192 4096));
  match root with
  | JObject _ =>
      RejectUnknownKeys root root_keys (str "configuration");;
      check (negb (found root (str "nt4_server") || found root (str "nt4_team"))) Nt4Unsupported;;
      allowRestricted ← json (boolValue root (str "allow_restricted_interfaces") false);
      '(cyclePeriod, heartbeat, outputCommandTimeout) ← load_timing root;
      '(logDirectory, logCount, freeSpace) ← load_logging root;
      realtime ← load_realtime root;
      group ← load_group root;
      uids ← parsePeerIds root (str "controller_uids") [0];
      gids ← parsePeerIds root (str "controller_gids") [];
      match Json.find root (str "interface_mappings") with
      | Some (JArray entries) =>
          if kMaximumBuses <? zlen entries then Error TooManyBuses
          else
            interfaces ← load_mappings allowRestricted [] [] entries;
            Fine (mkConfig interfaces allowRestricted cyclePeriod heartbeat outputCommandTimeout
                    logDirectory logCount freeSpace realtime uids gids group)
      | _ => Error NoInterfaceArray
      end
  | _ => Error RootNotObject
  end.

End Topology.

(** ** What an accepted configuration satisfies *)

(** Case analysis on the first failing step of a computation that succeeded. *)
Ltac fine_inv :=
  repeat match goal with
  | H : Fine _ = Fine _ |- _ => injection H as H; try subst
  | H : Error _ = Fine _ |- _ => discriminate H
  | H : (?m ≫= _) = Fine _ |- _ =>
      let a := fresh "a" in let E := fresh "E" in
      destruct m as [a|] eqn:E; [cbn [mbind cres_bind] in H|discriminate H]
  | H : (let '(_, _) := ?x in _) = Fine _ |- _ => destruct x
  | H : check ?b _ = Fine _ |- _ =>
      unfold check in H; destruct b eqn:?; [clear H|discriminate H]
  | H : (if ?b then Error _ else _) = Fine _ |- _ => destruct b eqn:?; [discriminate H|]
  end.

Lemma in_range_iff lo v hi : in_range lo v hi = true -> lo <= v <= hi.
Proof. unfold in_range. lia. Qed.

Lemma CheckedUint32_range object key fallback v :
  (forall f, fallback = Some f -> in_u32 f) ->
  CheckedUint32 object key fallback = Fine v -> in_u32 v.
Proof.
  intros Hf. unfold CheckedUint32. destruct (Json.find object key).
  - intros H. fine_inv. unfold in_u32. lia.
  - destruct fallback as [f|]; [|done]. intros [= <-]. auto.
Qed.

Definition option_ok {A} (P : A -> Prop) (o : option A) : Prop :=
  match o with Some a => P a | None => True end.

Lemma optional_uint32_range object key v :
  optional_uint32 object key = Fine v -> option_ok in_u32 v.
Proof.
  unfold optional_uint32. destruct (found object key); intros H; fine_inv; [|done].
  eapply CheckedUint32_range; [|done]. done.
Qed.

Definition subdevice_ok (s : ExpectedSubDevice) : Prop :=
  in_u32 (expected_vendorId s) /\ in_u32 (expected_productCode s) /\
  option_ok in_u32 (expected_revision s) /\
  option_ok (fun n => 0 <= n <= kMaximumOutputWrite) (expected_outputBytes s) /\
  option_ok in_u32 (expected_inputBytes s).

Lemma load_subdevice_ok j s : load_subdevice j = Fine s -> subdevice_ok s.
Proof.
  unfold load_subdevice. destruct j; try done. intros H. fine_inv.
  repeat match goal with
  | E : CheckedUint32 _ _ None = Fine _ |- _ => apply CheckedUint32_range in E; [|done]
  | E : optional_uint32 _ _ = Fine _ |- _ => apply optional_uint32_range in E
  end.
  unfold subdevice_ok. cbn. split_and!; try done.
  match goal with |- option_ok _ ?o => destruct o as [n|] end; [|done].
  cbn in *. unfold in_u32 in *. lia.
Qed.

Lemma load_subdevices_ok l ss :
  load_subdevices l = Fine ss -> Forall subdevice_ok ss /\ length ss = length l.
Proof.
  revert ss. induction l as [|j l IH]; intros ss; cbn [load_subdevices]; [by intros [= <-]|].
  intros H. fine_inv. destruct (IH _ eq_refl) as [? ?]. split; [|cbn; lia].
  constructor; [by eapply load_subdevice_ok|done].
Qed.

(** A lock in normal form: valid, and unchanged by normalisation. *)
Definition lock_ok (l : AdapterIdentityLock) : Prop :=
  ValidateAdapterLock l = None /\
  normalized NormalizeMac (lock_permanentMac l) = lock_permanentMac l /\
  normalized NormalizeUsbId (lock_usbVendorId l) = lock_usbVendorId l /\
  normalized NormalizeUsbId (lock_usbProductId l) = lock_usbProductId l.

Lemma normalized_fixed normalize o :
  (forall a b, normalize a = Some b -> normalize b = Some b) ->
  (forall a, o = Some a -> normalize a <> None) ->
  normalized normalize (normalized normalize o) = normalized normalize o /\
  has_value (normalized normalize o) = has_value o.
Proof.
  intros Hidem Hv. destruct o as [a|]; [|done]. cbn. specialize (Hv a eq_refl).
  destruct (normalize a) as [b|] eqn:E; [|done]. cbn. split; [by eapply Hidem|done].
Qed.

Lemma NormalizeMac_idem a b : NormalizeMac a = Some b -> NormalizeMac b = Some b.
Proof. intros H. by destruct (NormalizeMac_Some a b H) as (? & _ & _ & _ & _ & ?). Qed.

Lemma NormalizeUsbId_idem a b : NormalizeUsbId a = Some b -> NormalizeUsbId b = Some b.
Proof. intros H. by apply NormalizeUsbId_Some in H as (_ & _ & ?). Qed.

Lemma validate_normal idPath mac serial vendor product :
  ValidateAdapterLock (mkLock idPath mac serial vendor product) = None ->
  lock_ok (mkLock idPath (normalized NormalizeMac mac) serial
             (normalized NormalizeUsbId vendor) (normalized NormalizeUsbId product)).
Proof.
  intros Hv. destruct (valid_lock _ Hv) as (Hm & Hve & Hp).
  cbn [lock_permanentMac lock_usbVendorId lock_usbProductId] in *.
  destruct (normalized_fixed _ mac NormalizeMac_idem Hm) as [Hm1 _].
  destruct (normalized_fixed _ vendor NormalizeUsbId_idem Hve) as [Hv1 _].
  destruct (normalized_fixed _ product NormalizeUsbId_idem Hp) as [Hp1 _].
  split; [|by cbn].
  revert Hv. unfold ValidateAdapterLock.
  cbn [lock_idPath lock_permanentMac lock_usbSerial lock_usbVendorId lock_usbProductId].
  destruct (_ || _); [done|].
  assert (forall normalize o,
    normalized normalize (normalized normalize o) = normalized normalize o ->
    match normalized normalize o with Some a => negb (has_value (normalize a)) | None => false end
    = false) as Hok.
  { intros normalize o Ho. destruct (normalized normalize o) as [a|]; [|done].
    cbn in Ho. by rewrite Ho. }
  rewrite (Hok _ _ Hm1), (Hok _ _ Hv1), (Hok _ _ Hp1).
  destruct (match mac with Some _ => _ | None => _ end); [done|].
  by destruct (match serial with Some _ => _ | None => _ end).
Qed.

Lemma load_lock_ok entry o : load_lock entry = Fine o -> option_ok lock_ok o.
Proof.
  unfold load_lock. destruct (Json.find entry (str "lock")) as [j|]; [|by intros [= <-]].
  destruct j; try done. intros H. fine_inv.
  destruct (ValidateAdapterLock _) eqn:Ev; [done|]. fine_inv. by apply validate_normal.
Qed.

Section Accepted.
Context (EC_MAXSLAVE : Z) (HMax : 0 < EC_MAXSLAVE).

Record interface_ok (allow : bool) (i : InterfaceConfig) : Prop := {
  ok_logical : IsValidLogicalName (if_logicalName i) = true;
  ok_physical : IsValidInterfaceName (if_physicalInterface i) = true;
  ok_restricted : allow = false -> IsRestrictedInterface (if_physicalInterface i) = false;
  ok_iomap : 1024 <= if_maximumIoMapBytes i <= kMaximumPdoImage;
  ok_shift : I32_MIN <= if_distributedClockShiftNs i <= I32_MAX;
  ok_lock : option_ok lock_ok (if_lock i);
  ok_subdevices : Forall subdevice_ok (if_expectedSubDevices i);
  ok_count : zlen (if_expectedSubDevices i) < EC_MAXSLAVE
}.

Lemma load_topology_ok entry ss :
  load_topology EC_MAXSLAVE entry = Fine ss ->
  Forall subdevice_ok ss /\ zlen ss < EC_MAXSLAVE.
Proof using HMax.
  unfold load_topology. destruct (Json.find entry _) as [j|]; [|by intros [= <-]].
  destruct j; try done. intros H. fine_inv. apply load_subdevices_ok in H as [? Hl].
  split; [done|]. unfold zlen in *. rewrite Hl. lia.
Qed.

Lemma load_mapping_ok allow ln pn entry i :
  load_mapping EC_MAXSLAVE allow ln pn entry = Fine i ->
  interface_ok allow i /\ (if_logicalName i ∉ ln) /\ (if_physicalInterface i ∉ pn).
Proof using HMax.
  unfold load_mapping. destruct entry; try done. intros H. fine_inv.
  repeat match goal with
  | E : load_lock _ = Fine _ |- _ => apply load_lock_ok in E
  | E : load_topology _ _ = Fine _ |- _ => apply load_topology_ok in E as [? ?]
  | E : in_range _ _ _ = true |- _ => apply in_range_iff in E
  | E : (_ && _) = true |- _ => rewrite andb_true_iff, !negb_true_iff in E; destruct E as [? ?]
  | E : bool_decide (_ ∈ _) = false |- _ => apply bool_decide_eq_false in E
  end.
  split; [|done]. constructor; cbn; auto. intros ->. cbn in *. by apply negb_true_iff.
Qed.

(** The names kept are new and unique. *)
Lemma load_mappings_ok allow ln pn entries ifs :
  load_mappings EC_MAXSLAVE allow ln pn entries = Fine ifs ->
  Forall (interface_ok allow) ifs /\ Forall (fun i => if_enabled i = true) ifs /\
  NoDup (map if_logicalName ifs) /\ NoDup (map if_physicalInterface ifs) /\
  Forall (fun i => (if_logicalName i ∉ ln) /\ (if_physicalInterface i ∉ pn)) ifs /\
  zlen ifs <= zlen entries.
Proof using HMax.
  revert ln pn ifs. induction entries as [|e entries IH]; intros ln pn ifs; cbn [load_mappings].
  { intros [= <-]. cbn. split_and!; constructor || done. }
  intros H. fine_inv. apply load_mapping_ok in E as (Hi & Hl & Hp).
  apply IH in E0 as (Hall & Hen & Hnl & Hnp & Hnew & Hlen). rewrite zlen_cons.
  assert (Forall (fun i => (if_logicalName i ∉ ln) /\ (if_physicalInterface i ∉ pn)) a0) as Hnew'.
  { eapply Forall_impl; [exact Hnew|]. intros i [? ?]. set_solver. }
  destruct (if_enabled a) eqn:En; [|split_and!; auto; lia].
  assert (forall (f : InterfaceConfig -> bytes),
    Forall (fun i => f i ∉ [f a]) a0 -> f a ∉ map f a0) as Hnot.
  { intros f Hf Hin. apply list_elem_of_In, in_map_iff in Hin as (i & Hfi & Hin).
    apply list_elem_of_In in Hin. rewrite Forall_forall in Hf. apply (Hf i Hin). rewrite Hfi. set_solver. }
  split_and!.
  - by constructor.
  - by constructor.
  - cbn. constructor; [|done]. apply Hnot. eapply Forall_impl; [exact Hnew|]. set_solver.
  - cbn. constructor; [|done]. apply Hnot. eapply Forall_impl; [exact Hnew|]. set_solver.
  - by constructor.
  - rewrite zlen_cons. lia.
Qed.
End Accepted.

(** ** Peer ids *)

Lemma insert_unique_spec x l :
  StronglySorted Z.lt l ->
  StronglySorted Z.lt (insert_unique x l) /\ (forall y, y ∈ insert_unique x l <-> y = x \/ y ∈ l).
Proof.
  intros Hs. induction Hs as [|y l Hs [IH1 IH2] Hall]; cbn [insert_unique].
  { split; [repeat constructor|]. set_solver. }
  destruct (Z.compare_spec x y) as [->|Hlt|Hgt].
  - split; [by constructor|]. set_solver.
  - split; [|set_solver]. constructor; [by constructor|]. constructor; [done|].
    eapply Forall_impl; [exact Hall|]. cbn. intros; lia.
  - split; [|intros z; rewrite !elem_of_cons, IH2; tauto]. constructor; [done|].
    apply Forall_forall. intros z Hz. rewrite Forall_forall in Hall.
    apply IH2 in Hz as [->|Hz]; [done|by apply Hall].
Qed.

Lemma sort_unique_spec l :
  StronglySorted Z.lt (sort_unique l) /\ (forall y, y ∈ sort_unique l <-> y ∈ l).
Proof.
  induction l as [|x l [IH1 IH2]]; cbn [sort_unique fold_right].
  { split; [constructor|done]. }
  destruct (insert_unique_spec x (sort_unique l) IH1) as [H1 H2].
  split; [done|]. intros y. by rewrite H2, IH2, elem_of_cons.
Qed.

Lemma peer_ids_range key l ids : peer_ids key l = Fine ids -> Forall in_u32 ids.
Proof.
  revert ids. induction l as [|j l IH]; intros ids; cbn [peer_ids]; [by intros [= <-]|].
  intros H. fine_inv. constructor; [unfold in_u32; lia|by apply IH].
Qed.

Definition ids_ok (initial ids : list Z) : Prop :=
  StronglySorted Z.lt ids /\ Forall in_u32 ids /\ forall x, x ∈ initial -> x ∈ ids.

Lemma parsePeerIds_ok root key initial ids :
  StronglySorted Z.lt initial -> Forall in_u32 initial ->
  parsePeerIds root key initial = Fine ids -> ids_ok initial ids.
Proof.
  intros Hs Hi. unfold parsePeerIds. destruct (Json.find root key) as [j|]; [|by intros [= <-]].
  destruct j; try done. intros H. fine_inv. apply peer_ids_range in E.
  destruct (sort_unique_spec (initial ++ a)) as [H1 H2]. split_and!; [done| |].
  - apply Forall_forall. intros x Hx. apply H2, elem_of_app in Hx.
    rewrite Forall_forall in Hi, E. destruct Hx; auto.
  - intros x Hx. apply H2, elem_of_app. by left.
Qed.

(** ** Properties *)

Record config_ok (EC_MAXSLAVE : Z) (c : DaemonConfig) : Prop := {
  ok_cycle : kMinimumCyclePeriodUs <= config_cyclePeriod c <= kMaximumCyclePeriodUs;
  ok_heartbeat : 100 <= config_heartbeatTimeout c <= 5000;
  ok_command : 20 <= config_outputCommandTimeout c <= config_heartbeatTimeout c;
  ok_two_cycles : 2 * config_cyclePeriod c <= config_outputCommandTimeout c * 1000;
  ok_log : config_logDirectory c = kDefaultLogDirectory /\ 1 <= config_logCountLimit c <= 1000;
  ok_free : 0 <= config_freeSpaceThresholdBytes c <= 1024 * 1024 * 1024 * 1024;
  ok_priority : I32_MIN <= fifoPriority (config_realtime c) <= I32_MAX;
  ok_cpu : option_ok in_u32 (cpuAffinity (config_realtime c));
  ok_uids : ids_ok [0] (config_controllerUids c);
  ok_gids : ids_ok [] (config_controllerGids c);
  ok_buses : zlen (config_interfaces c) <= kMaximumBuses;
  ok_interfaces : Forall (interface_ok EC_MAXSLAVE (config_allowRestrictedInterfaces c))
                    (config_interfaces c);
  ok_enabled : Forall (fun i => if_enabled i = true) (config_interfaces c);
  ok_logical_unique : NoDup (map if_logicalName (config_interfaces c));
  ok_physical_unique : NoDup (map if_physicalInterface (config_interfaces c))
}.

Lemma load_timing_ok root cyc hb oc :
  load_timing root = Fine (cyc, hb, oc) ->
  kMinimumCyclePeriodUs <= cyc <= kMaximumCyclePeriodUs /\ 100 <= hb <= 5000 /\
  20 <= oc <= hb /\ 2 * cyc <= oc * 1000.
Proof.
  unfold load_timing. intros H. fine_inv.
  repeat match goal with E : in_range _ _ _ = true |- _ => apply in_range_iff in E end.
  split_and!; lia.
Qed.

Lemma load_logging_ok root dir count free :
  load_logging root = Fine (dir, count, free) ->
  dir = kDefaultLogDirectory /\ 1 <= count <= 1000 /\ 0 <= free <= 1024 * 1024 * 1024 * 1024.
Proof.
  unfold load_logging. intros H. fine_inv.
  repeat match goal with
  | E : in_range _ _ _ = true |- _ => apply in_range_iff in E
  | E : bool_decide _ = true |- _ => apply bool_decide_eq_true in E end.
  match goal with |- context [to_u64 (to_u64 (?m * 1024) * 1024)] =>
    assert (to_u64 (to_u64 (m * 1024) * 1024) = m * 1024 * 1024) as ->
      by (unfold to_u64; rewrite (Z.mod_small (m * 1024)) by lia; apply Z.mod_small; lia) end.
  split_and!; try done; lia.
Qed.

Lemma load_realtime_ok root r :
  load_realtime root = Fine r ->
  I32_MIN <= fifoPriority r <= I32_MAX /\ option_ok in_u32 (cpuAffinity r).
Proof.
  unfold load_realtime. intros H. fine_inv. cbn.
  repeat match goal with E : in_range _ _ _ = true |- _ => apply in_range_iff in E end.
  split; [done|]. destruct (found root _); fine_inv; [|done]. by apply in_range_iff.
Qed.

Lemma LoadConfigText_accepted EC_MAXSLAVE text config :
  0 < EC_MAXSLAVE -> LoadConfigText EC_MAXSLAVE text = Fine config -> config_ok EC_MAXSLAVE config.
Proof.
  intros HMax. unfold LoadConfigText. intros H.
  destruct (json _) as [root|] eqn:Eroot; [|discriminate H]. cbn [mbind cres_bind] in H.
  destruct root; try discriminate H. fine_inv.
  destruct (Json.find _ (str "interface_mappings")) as [[]|]; try discriminate H. fine_inv.
  repeat match goal with
  | E : load_timing _ = Fine _ |- _ => apply load_timing_ok in E; destruct_and! E
  | E : load_logging _ = Fine _ |- _ => apply load_logging_ok in E; destruct_and! E
  | E : load_realtime _ = Fine _ |- _ => apply load_realtime_ok in E; destruct_and! E
  | E : load_mappings _ _ _ _ _ = Fine _ |- _ =>
      apply load_mappings_ok in E; [destruct_and! E|done]
  | E : parsePeerIds _ _ _ = Fine _ |- _ =>
      apply parsePeerIds_ok in E; [|repeat constructor; unfold in_u32; lia..]
  end.
  constructor; cbn; try done. lia.
Qed.

(** C37: a configuration that is accepted is safe to run with: the timeouts are in range
    and cover at least two bus cycles, at most eight enabled buses have valid, pairwise
    different logical and physical names, none of eth0, wlan0 and usb0 is used unless
    restricted interfaces are allowed (lo, which the documentation lists with them, is not
    checked: [loopback_unrestricted]), every lock is valid and in normal form, the expected output images fit one atomic
    write, and the controller ids are sorted, unique, 32-bit and always include root. *)
Theorem LoadConfigText_ok EC_MAXSLAVE text config :
  0 < EC_MAXSLAVE -> LoadConfigText EC_MAXSLAVE text = Fine config -> config_ok EC_MAXSLAVE config.
Proof. apply LoadConfigText_accepted. Qed.

(** A configuration with one locked bus, on the interface [physical]. *)
Definition config_text (physical : bytes) : bytes :=
  let q := [34] in
  let field (k v : bytes) := q ++ k ++ q ++ [58] ++ v in
  let string (v : bytes) := q ++ v ++ q in
  [123] ++ field (str "interface_mappings") (
    [91; 123] ++ field (str "logical_name") (string (str "arm")) ++ [44] ++
    field (str "physical_interface") (string physical) ++ [44] ++
    field (str "lock") ([123] ++ field (str "id_path") (string (str "usb-1")) ++ [44] ++
      field (str "permanent_mac") (string (str "00-11-22-33-44-55")) ++ [125]) ++
    [125; 93]) ++ [125].

Definition sample_config : bytes := config_text (str "eth1").

Lemma LoadConfigText_ok_witness :
  exists config, LoadConfigText 200 sample_config = Fine config /\ config_ok 200 config.
Proof.
  destruct (LoadConfigText 200 sample_config) as [config|e] eqn:E.
  - exists config. split; [reflexivity|]. apply (LoadConfigText_ok 200 sample_config); [lia|exact E].
  - exfalso. vm_compute in E. discriminate E.
Defined.

(** The loopback interface needs no permission: a configuration without
    allow_restricted_interfaces that maps a bus to lo is accepted, one that maps it to eth0 is
    not. *)
Theorem loopback_unrestricted :
  (exists config, LoadConfigText 200 (config_text (str "lo")) = Fine config /\
     config_allowRestrictedInterfaces config = false /\
     map if_physicalInterface (config_interfaces config) = [str "lo"]) /\
  LoadConfigText 200 (config_text (str "eth0")) = Error (RestrictedInterface (str "eth0")).
Proof. split; [eexists; split; [by vm_compute|done]|by vm_compute]. Qed.
