(* ===== verification/Clock.v ===== *)
(** * Deadlines of the bus thread (main.cpp, EthercatBus)

    The bus thread sleeps until an absolute deadline, a POSIX [timespec], and
    moves it by one period and the distributed-clock correction per cycle. The
    loops that normalise the nanoseconds carry fuel; [carry_fuel] rounds are
    enough for a normalised time plus any duration, since each term
    contributes less than a second. Seconds are unbounded. *)

From S2P Require Import Prelude.

Record timespec := mkTime { tv_sec : Z; tv_nsec : Z }.

Definition carry_fuel : nat := 2.

(** [while (value->tv_nsec >= 1000000000L)]. *)
Fixpoint carry (fuel : nat) (t : timespec) : timespec :=
  match fuel with
  | O => t
  | S fuel =>
      if 1000000000 <=? tv_nsec t
      then carry fuel (mkTime (tv_sec t + 1) (tv_nsec t - 1000000000)) else t
  end.

(** [while (value->tv_nsec < 0)]. *)
Fixpoint borrow (fuel : nat) (t : timespec) : timespec :=
  match fuel with
  | O => t
  | S fuel =>
      if tv_nsec t <? 0
      then borrow fuel (mkTime (tv_sec t - 1) (tv_nsec t + 1000000000)) else t
  end.

Definition AddToTimespec (value : timespec) (microseconds : Z) : timespec :=
  carry carry_fuel
    (mkTime (tv_sec value + Z.quot microseconds 1000000)
            (tv_nsec value + Z.rem microseconds 1000000 * 1000)).

Definition AddNanoseconds (value : timespec) (nanoseconds : Z) : timespec :=
  borrow carry_fuel
    (carry carry_fuel
       (mkTime (tv_sec value + Z.quot nanoseconds 1000000000)
               (tv_nsec value + Z.rem nanoseconds 1000000000))).

Definition TimespecLess (left right : timespec) : bool :=
  (tv_sec left <? tv_sec right) ||
  ((tv_sec left =? tv_sec right) && (tv_nsec left <? tv_nsec right)).

Definition DifferenceMicros (later earlier : timespec) : Z :=
  let seconds := tv_sec later - tv_sec earlier in
  let nanoseconds := tv_nsec later - tv_nsec earlier in
  let '(seconds, nanoseconds) :=
    if nanoseconds <? 0 then (seconds - 1, nanoseconds + 1000000000)
    else (seconds, nanoseconds) in
  if seconds <? 0 then 0
  else
    let result := to_u64 (to_u64 (seconds * 1000000) + Z.quot nanoseconds 1000) in
    Z.min result U32_MAX.

(** The end of a cycle: the next deadline and the number of cycles missed. [period]
    is in microseconds, [after] the time at the end of the cycle. *)
Definition next_deadline (next after : timespec) (period correctionNs : Z) : timespec * Z :=
  let next := AddNanoseconds next (period * 1000 + correctionNs) in
  if TimespecLess next after then
    let lateUs := DifferenceMicros after next in
    let missed := lateUs / period + 1 in
    (AddToTimespec next (to_u64 (Z.min missed (I64_MAX / period) * period)), missed)
  else (next, 0).

(** ** Lemmas *)

(** A time as a number of nanoseconds. *)
Definition ns (t : timespec) : Z := tv_sec t * 1000000000 + tv_nsec t.

Definition normal (t : timespec) : Prop := 0 <= tv_nsec t < 1000000000.

Lemma ns_carry fuel t : ns (carry fuel t) = ns t.
Proof.
  revert t. induction fuel as [|fuel IH]; intros t; cbn; [done|].
  destruct (_ <=? _); [|done]. rewrite IH. unfold ns. cbn. lia.
Qed.

Lemma ns_borrow fuel t : ns (borrow fuel t) = ns t.
Proof.
  revert t. induction fuel as [|fuel IH]; intros t; cbn; [done|].
  destruct (_ <? _); [|done]. rewrite IH. unfold ns. cbn. lia.
Qed.

Lemma carry_range t :
  tv_nsec t < 2000000000 ->
  tv_nsec (carry carry_fuel t) < 1000000000 /\
  (tv_nsec t < 1000000000 \/ 0 <= tv_nsec (carry carry_fuel t)) /\
  (0 <= tv_nsec t -> 0 <= tv_nsec (carry carry_fuel t)) /\
  (tv_nsec t < 0 -> carry carry_fuel t = t).
Proof.
  intros H. unfold carry_fuel. cbn [carry].
  destruct (Z.leb_spec 1000000000 (tv_nsec t)); cbn [tv_nsec].
  - destruct (Z.leb_spec 1000000000 (tv_nsec t - 1000000000)); cbn [tv_nsec]; [lia|].
    split_and!; intros; lia.
  - split_and!; intros; try done; lia.
Qed.

Lemma AddNanoseconds_exact t d :
  normal t -> normal (AddNanoseconds t d) /\ ns (AddNanoseconds t d) = ns t + d.
Proof.
  intros Ht. unfold normal in Ht. unfold AddNanoseconds.
  pose proof (Z.quot_rem d 1000000000 ltac:(lia)) as Hq.
  pose proof (Z.rem_bound_abs d 1000000000 ltac:(lia)) as Hr.
  set (u := mkTime _ _). assert (-1000000000 < tv_nsec u < 2000000000) as Hu by (cbn; lia).
  destruct (carry_range u) as (H1 & _ & H3 & H4); [lia|]. split.
  - unfold normal. unfold carry_fuel at 1 3. cbn [borrow].
    destruct (Z.ltb_spec (tv_nsec (carry carry_fuel u)) 0) as [Hneg|]; [|lia].
    assert (tv_nsec u < 0) as Hn by lia. rewrite (H4 Hn) in *. cbn [tv_nsec].
    destruct (Z.ltb_spec (tv_nsec u + 1000000000) 0); cbn [tv_nsec]; lia.
  - rewrite ns_borrow, ns_carry. unfold u, ns. cbn [tv_sec tv_nsec]. lia.
Qed.

Lemma AddToTimespec_exact t d :
  normal t -> 0 <= d -> normal (AddToTimespec t d) /\ ns (AddToTimespec t d) = ns t + d * 1000.
Proof.
  intros Ht Hd. unfold normal in Ht. unfold AddToTimespec.
  pose proof (Z.quot_rem d 1000000 ltac:(lia)) as Hq.
  pose proof (Z.rem_bound_pos d 1000000 Hd ltac:(lia)) as Hr.
  set (u := mkTime _ _). assert (0 <= tv_nsec u < 2000000000) as Hu by (cbn; lia).
  destruct (carry_range u) as (H1 & _ & H3 & _); [lia|]. split.
  - unfold normal. specialize (H3 ltac:(lia)). lia.
  - rewrite ns_carry. unfold u, ns. cbn [tv_sec tv_nsec]. lia.
Qed.

Lemma TimespecLess_ns a b : normal a -> normal b -> TimespecLess a b = (ns a <? ns b).
Proof. unfold normal, TimespecLess, ns. lia. Qed.

(** Less than 2^32 microseconds apart, the difference is exact. *)
Lemma DifferenceMicros_exact a b :
  normal a -> normal b -> ns b <= ns a < ns b + 1000 * U32_MAX ->
  DifferenceMicros a b = (ns a - ns b) / 1000.
Proof.
  unfold normal. intros Ha Hb Hd. unfold DifferenceMicros, ns in *.
  destruct (Z.ltb_spec (tv_nsec a - tv_nsec b) 0) as [Hn|Hn].
  - destruct (Z.ltb_spec (tv_sec a - tv_sec b - 1) 0) as [Hs|Hs]; [lia|].
    unfold to_u64. rewrite Z.quot_div_nonneg by lia.
    rewrite !Z.mod_small by dlia. dlia.
  - destruct (Z.ltb_spec (tv_sec a - tv_sec b) 0) as [Hs|Hs]; [lia|].
    unfold to_u64. rewrite Z.quot_div_nonneg by lia.
    rewrite !Z.mod_small by dlia. dlia.
Qed.

(** ** Properties *)

(** the bus thread catches up without drifting: from a normalised deadline, the next
    deadline is the old one plus the period and the correction plus a whole number of
    further periods, exactly the number reported as missed; and if the thread is late by
    less than 71 minutes, the next deadline lies strictly in the future, less than one
    period and one microsecond ahead unless no cycle was missed. *)
Theorem deadline_catches_up next after period correction :
  normal next -> normal after -> 0 < period <= 1000000 ->
  let '(next', missed) := next_deadline next after period correction in
  normal next' /\ 0 <= missed /\
  ns next' = ns next + (period * 1000 + correction) + missed * (period * 1000) /\
  (ns after < ns next + period * 1000 + correction + 1000 * U32_MAX ->
   ns after <= ns next' /\
   (missed <> 0 -> ns next' <= ns after + period * 1000)).
Proof.
  intros Hn Ha Hp. unfold next_deadline.
  destruct (AddNanoseconds_exact next (period * 1000 + correction) Hn) as [Hn1 E1].
  set (n1 := AddNanoseconds _ _) in *. rewrite TimespecLess_ns by done.
  destruct (Z.ltb_spec (ns n1) (ns after)) as [Hlt|Hge].
  2: { split_and!; [done|lia|lia|intros; lia]. }
  assert (0 <= DifferenceMicros after n1 <= U32_MAX) as Hd.
  { unfold DifferenceMicros, to_u64. destruct (_ <? 0); cbn zeta beta iota;
      (destruct (_ <? 0); [lia|]);
      pose proof (Z.mod_pos_bound (to_u64 ((tv_sec after - tv_sec n1) * 1000000) +
         Z.quot (tv_nsec after - tv_nsec n1) 1000) 18446744073709551616); dlia. }
  set (missed := DifferenceMicros after n1 / period + 1).
  assert (1 <= missed <= 4294967296) as Hm.
  { unfold missed. pose proof (Z.div_le_upper_bound (DifferenceMicros after n1) period 4294967295).
    pose proof (Z.div_pos (DifferenceMicros after n1) period). nia. }
  assert (4294967296 <= I64_MAX / period) as Hcap.
  { apply Z.div_le_lower_bound; [lia|]. nia. }
  rewrite Z.min_l by lia. unfold to_u64. rewrite Z.mod_small by nia.
  destruct (AddToTimespec_exact n1 (missed * period) Hn1 ltac:(nia)) as [Hn2 E2].
  split_and!; [done|lia|rewrite E2; lia|].
  intros Hlate. unfold missed in *. clear missed.
  rewrite DifferenceMicros_exact in * by (done || lia).
  set (late := (ns after - ns n1) / 1000) in *.
  assert (1000 * late <= ns after - ns n1 < 1000 * late + 1000) as Hl by (unfold late; dlia).
  pose proof (Z.div_mod late period ltac:(lia)) as Hdm.
  pose proof (Z.mod_pos_bound late period ltac:(lia)) as Hmb. rewrite E2.
  split; [nia|]. intros _. nia.
Qed.

(** A 5 ms cycle that ended 12.5 ms after the next deadline: three further periods. *)
Lemma deadline_catches_up_witness :
  next_deadline (mkTime 7 999000000) (mkTime 8 16500000) 5000 0 = (mkTime 8 19000000, 3) /\
  ns (mkTime 8 16500000) <= ns (mkTime 8 19000000).
Proof.
  split; [reflexivity|].
  pose proof (deadline_catches_up (mkTime 7 999000000) (mkTime 8 16500000) 5000 0
                ltac:(by vm_compute) ltac:(by vm_compute) ltac:(lia)) as H.
  change (next_deadline _ _ _ _) with (mkTime 8 19000000, 3) in H. cbv iota in H.
  destruct H as (_ & _ & _ & H). exact (proj1 (H ltac:(by vm_compute))).
Defined.
