(* ===== verification/IoMap.v ===== *)
(** * The IO map and the topology of a bus (main.cpp, EthercatBus)

    SOEM lays the process data of all SubDevices out in one byte array, the IO
    map, and describes each SubDevice by an [ec_slavet] whose [outputs] and
    [inputs] point into it. A pointer is an [option Z]: [None] is [nullptr],
    [Some o] the address [o] bytes after the start of the map (any integer,
    since the code does not trust it). The context that SOEM fills in during
    initialisation is an argument of the definitions. *)

From stdpp Require Import list_numbers.
From S2P Require Import Prelude Protocol Pdo Config.

(** The members of SOEM's [ec_slavet] that the daemon reads. *)
Record ec_slavet := mkSlave {
  eep_man : Z;
  eep_id : Z;
  eep_rev : Z;
  Obits : Z;
  Obytes : Z;
  Ostartbit : Z;
  outputs : option Z;
  Ibits : Z;
  Ibytes : Z;
  Istartbit : Z;
  inputs : option Z
}.

(** The members of [ec_groupt] in use. *)
Record ec_groupt := mkGroup {
  group_outputs : option Z;
  group_Obytes : Z;
  group_inputs : option Z;
  group_Ibytes : Z;
  outputsWKC : Z;
  inputsWKC : Z;
  group_hasdc : bool
}.

(** The part of [ecx_contextt] in use: entry 0 of [slavelist] is the master,
    [group] is [grouplist[0]]. *)
Record ecx_contextt := mkContext {
  slavecount : Z;
  slavelist : list ec_slavet;
  group : ec_groupt
}.

(** An entry after [memset]. *)
Definition no_slave : ec_slavet := mkSlave 0 0 0 0 0 0 None 0 0 0 None.

Definition no_context : ecx_contextt := mkContext 0 [] (mkGroup None 0 None 0 0 0 false).

(** [context_.slavelist[index]]. *)
Definition slave (c : ecx_contextt) (index : Z) : ec_slavet :=
  default no_slave (slavelist c !! Z.to_nat index).

(** [for (int index = 1; index <= context_.slavecount; ++index)]. *)
Definition indices (c : ecx_contextt) : list Z := seqZ 1 (slavecount c).

(** ** Bounds *)

(** [ioMapSize] is [ioMap_.size()]. *)
Definition PointerRangeInIoMap (ioMapSize : Z) (pointer : option Z) (length : Z) : bool :=
  if length =? 0 then
    match pointer with
    | None => true
    | Some candidate => (0 <=? candidate) && (candidate <=? ioMapSize)
    end
  else
    match pointer with
    | None => false
    | Some candidate =>
        (0 <=? candidate) && (candidate <=? ioMapSize) && (length <=? ioMapSize - candidate)
    end.

(** The span of [length] bytes at [pointer], and the map after a store to it. *)
Definition span (m : bytes) (pointer length : Z) : bytes :=
  take (Z.to_nat length) (drop (Z.to_nat pointer) m).

Definition store_span (m : bytes) (pointer : Z) (r : bytes) : bytes :=
  take (Z.to_nat pointer) m ++ r ++ drop (Z.to_nat pointer + length r) m.

(** ** Outputs *)

(** One SubDevice of [ZeroOutputs]. *)
Definition zero_slave (m : bytes) (d : ec_slavet) : bytes :=
  let mappedBytes := PdoMappedByteLength (Obits d) (Ostartbit d) in
  match outputs d with
  | Some p =>
      if negb (Obits d =? 0) && PointerRangeInIoMap (zlen m) (Some p) mappedBytes
      then match ZeroPackedPdoImage (span m p mappedBytes) (Ostartbit d) (Obits d) with
           | Some r => store_span m p r
           | None => m
           end
      else m
  | None => m
  end.

Definition ZeroOutputs (contextOpen : bool) (c : ecx_contextt) (m : bytes) : bytes :=
  if negb contextOpen then m
  else fold_left (fun m index => zero_slave m (slave c index)) (indices c) m.

(** The store of one command's image; [None] is the [continue] of a refused one. *)
Definition write_slave (m : bytes) (d : ec_slavet) (offset : Z) (image : bytes)
    : option bytes :=
  let outputBytes := PdoImageByteLength (Obits d) in
  let mappedBytes := PdoMappedByteLength (Obits d) (Ostartbit d) in
  match outputs d with
  | None => None
  | Some p =>
      if negb (PointerRangeInIoMap (zlen m) (Some p) mappedBytes) then None
      else if negb (bool_decide (ValidateWholeOutputWrite outputBytes offset (zlen image) = Ok))
      then None
      else
        r ← WritePackedPdoImage (span m p mappedBytes) (Ostartbit d) (Obits d) image;
        Some (store_span m p r)
  end.

(** [ecx_receive_processdata]: the frame that came back fills the group's input range. *)
Definition receive (c : ecx_contextt) (data m : bytes) : bytes :=
  match group_inputs (group c) with
  | Some p => if zlen data =? group_Ibytes (group c) then store_span m p data else m
  | None => m
  end.

(** ** Topology validation *)

Inductive TopologyError :=
| CountMismatch (expected found : Z)
| InconsistentMetadata (index : Z)
| OutputImageTooLarge (index : Z)
| PointerOutsideMap (index : Z)
| ImplicitPdoSize (index : Z)
| IdentityMismatch (index : Z)
| TopologyRequired
| TooManyInputChunks.

(** The bus members that [ValidateTopology] stores to. *)
Record TopologyState := mkTopology {
  outputSizes : list Z;
  outputBits : list Z;
  outputTopologyVerified : bool
}.

(** [values[index].store(v)]. *)
Definition store_at {A} (values : list A) (index : Z) (v : A) : list A :=
  <[Z.to_nat index := v]> values.

Definition is_empty {A} (l : list A) : bool := match l with [] => true | _ => false end.

(** [has_value() && *v != actual]. *)
Definition differs (v : option Z) (actual : Z) : bool :=
  match v with Some x => negb (actual =? x) | None => false end.

Definition has_value (v : option Z) : bool := match v with Some _ => true | None => false end.

Definition input_chunks (inputBytes : Z) : Z :=
  (inputBytes + kMaximumPdoChunk - 1) / kMaximumPdoChunk.

(** One SubDevice. The accumulator is [outputCapable], [totalInputChunks] and the stores. *)
Definition validate_slave (configuration : InterfaceConfig) (ioMapSize : Z) (index : Z)
    (actual : ec_slavet) (acc : bool * Z * TopologyState)
    : (bool * Z * TopologyState) * option TopologyError :=
  let '(outputCapable, totalInputChunks, t) := acc in
  let expectedSubDevices := if_expectedSubDevices configuration in
  let outputBytes := PdoImageByteLength (Obits actual) in
  let inputBytes := PdoImageByteLength (Ibits actual) in
  if negb (IsValidSoemPdoMetadata (Obits actual) (Obytes actual) (Ostartbit actual)) ||
     negb (IsValidSoemPdoMetadata (Ibits actual) (Ibytes actual) (Istartbit actual))
  then (acc, Some (InconsistentMetadata index))
  else
    let outputCapable := outputCapable || negb (outputBytes =? 0) in
    if kMaximumOutputWrite <? outputBytes
    then ((outputCapable, totalInputChunks, t), Some (OutputImageTooLarge index))
    else
      let totalInputChunks := totalInputChunks + input_chunks inputBytes in
      if negb (PointerRangeInIoMap ioMapSize (outputs actual)
                 (PdoMappedByteLength (Obits actual) (Ostartbit actual))) ||
         negb (PointerRangeInIoMap ioMapSize (inputs actual)
                 (PdoMappedByteLength (Ibits actual) (Istartbit actual)))
      then ((outputCapable, totalInputChunks, t), Some (PointerOutsideMap index))
      else
        let unverified :=
          is_empty expectedSubDevices && if_allowUnverifiedTopology configuration in
        let t :=
          mkTopology
            (store_at (outputSizes t) index (if unverified then 0 else outputBytes))
            (store_at (outputBits t) index (if unverified then 0 else Obits actual))
            (outputTopologyVerified t) in
        let acc := (outputCapable, totalInputChunks, t) in
        match expectedSubDevices !! Z.to_nat (index - 1) with
        | None => (acc, None)
        | Some expected =>
            if (negb (outputBytes =? 0) && negb (has_value (expected_outputBytes expected))) ||
               (negb (inputBytes =? 0) && negb (has_value (expected_inputBytes expected)))
            then (acc, Some (ImplicitPdoSize index))
            else if negb (eep_man actual =? expected_vendorId expected) ||
                    negb (eep_id actual =? expected_productCode expected) ||
                    differs (expected_revision expected) (eep_rev actual) ||
                    differs (expected_outputBytes expected) outputBytes ||
                    differs (expected_inputBytes expected) inputBytes
            then (acc, Some (IdentityMismatch index))
            else (acc, None)
        end.

(** The loop: the first error returns. *)
Fixpoint validate_slaves (configuration : InterfaceConfig) (ioMapSize : Z) (c : ecx_contextt)
    (todo : list Z) (acc : bool * Z * TopologyState)
    : (bool * Z * TopologyState) * option TopologyError :=
  match todo with
  | [] => (acc, None)
  | index :: todo =>
      match validate_slave configuration ioMapSize index (slave c index) acc with
      | (acc, None) => validate_slaves configuration ioMapSize c todo acc
      | (acc, Some e) => (acc, Some e)
      end
  end.

Definition ValidateTopology (configuration : InterfaceConfig) (ioMapSize : Z)
    (c : ecx_contextt) (t : TopologyState) : TopologyState * option TopologyError :=
  let expectedSubDevices := if_expectedSubDevices configuration in
  if negb (is_empty expectedSubDevices) && negb (zlen expectedSubDevices =? slavecount c)
  then (t, Some (CountMismatch (zlen expectedSubDevices) (slavecount c)))
  else
    let allPdoSizesVerified := negb (is_empty expectedSubDevices) in
    match validate_slaves configuration ioMapSize c (indices c) (false, 0, t) with
    | ((_, _, t), Some e) => (t, Some e)
    | ((outputCapable, totalInputChunks, t), None) =>
        if outputCapable && is_empty expectedSubDevices &&
           negb (if_allowUnverifiedTopology configuration)
        then (t, Some TopologyRequired)
        else if 128 <? totalInputChunks then (t, Some TooManyInputChunks)
        else
          (mkTopology (outputSizes t) (outputBits t)
             (outputCapable && negb (is_empty expectedSubDevices) && allPdoSizesVerified),
           None)
    end.

(** [EthercatBus::ValidateOutput], on the values of its atomic loads. *)
Definition ValidateOutput (state : BusState) (subDeviceCount : Z) (t : TopologyState)
    (subDevice offset : Z) (image : bytes) : AckStatus :=
  if negb (bool_decide (state = Operational)) then Disabled
  else if (subDevice =? 0) || (subDeviceCount <? subDevice) ||
          (zlen (outputSizes t) <=? subDevice)
  then BadTarget
  else
    let size := default 0 (outputSizes t !! Z.to_nat subDevice) in
    let bounds := ValidateWholeOutputWrite size offset (zlen image) in
    if negb (bool_decide (bounds = Ok)) then bounds
    else
      let bits := default 0 (outputBits t !! Z.to_nat subDevice) in
      if HasCanonicalPdoPadding bits image then Ok else Malformed.

(** ** The bits of the map *)

Lemma zlen_span m p len : 0 <= p -> 0 <= len -> p + len <= zlen m -> zlen (span m p len) = len.
Proof. intros. unfold zlen, span in *. rewrite length_take, length_drop. lia. Qed.

Lemma bytes_ok_span m p len : bytes_ok m -> bytes_ok (span m p len).
Proof. unfold span. auto with ec. Qed.

Lemma zlen_store_span m p r : 0 <= p -> p + zlen r <= zlen m -> zlen (store_span m p r) = zlen m.
Proof.
  intros. unfold zlen, store_span in *. rewrite !length_app, length_take, length_drop. lia.
Qed.

Lemma byte_at_store_span m p r k :
  0 <= p -> p + zlen r <= zlen m -> 0 <= k ->
  byte_at (store_span m p r) k
  = if (p <=? k) && (k <? p + zlen r) then byte_at r (k - p) else byte_at m k.
Proof.
  intros Hp Hr Hk. unfold byte_at, store_span, zlen in *.
  destruct (Z.leb_spec p k) as [H1|H1]; cbn [andb].
  - rewrite lookup_app_r by (rewrite length_take; lia). rewrite length_take.
    replace (Z.to_nat k - Z.to_nat p `min` length m)%nat with (Z.to_nat (k - p)) by lia.
    destruct (Z.ltb_spec k (p + Z.of_nat (length r))) as [H2|H2].
    + by rewrite lookup_app_l by lia.
    + rewrite lookup_app_r, lookup_drop by lia. do 2 f_equal. lia.
  - rewrite lookup_app_l by (rewrite length_take; lia). rewrite lookup_take_lt by lia. done.
Qed.

(** A store to a span is a store to the map, shifted. *)
Lemma store_written m p len r s n f :
  bytes_ok m -> 0 <= p -> 0 <= len -> p + len <= zlen m -> 0 <= s -> s + n <= 8 * len ->
  written (span m p len) r s (s + n) f ->
  written m (store_span m p r) (8 * p + s) (8 * p + s + n) (fun i => f (i - 8 * p)).
Proof.
  intros Hm Hp Hl Hb Hs Hn (Hok & Hz & Hbits). rewrite zlen_span in Hz by done. split_and!.
  - unfold store_span. rewrite !bytes_ok_app. auto with ec.
  - apply zlen_store_span; lia.
  - intros i Hi. unfold tb at 1. rewrite byte_at_store_span by dlia. rewrite Hz.
    destruct ((p <=? i / 8) && (i / 8 <? p + len)) eqn:E.
    + replace (i / 8 - p) with ((i - 8 * p) / 8) by dlia.
      replace (i mod 8) with ((i - 8 * p) mod 8) by dlia.
      fold (tb r (i - 8 * p)). rewrite Hbits by dlia. unfold span.
      rewrite tb_slice by dlia. replace (8 * p + (i - 8 * p)) with i by lia.
      replace ((s <=? i - 8 * p) && (i - 8 * p <? s + n))
        with ((8 * p + s <=? i) && (i <? 8 * p + s + n)) by lia. done.
    + fold (tb m i).
      replace ((8 * p + s <=? i) && (i <? 8 * p + s + n)) with false by (symmetry; dlia).
      done.
Qed.

(** *** SubDevices and their bits *)

(** The fields have the widths of their C types. *)
Definition slave_typed (d : ec_slavet) : Prop :=
  in_u16 (Obits d) /\ in_u8 (Ostartbit d) /\ in_u16 (Ibits d) /\ in_u8 (Istartbit d).

(** The output bits of [d] lie inside a map of [size] bytes. *)
Definition placed (size : Z) (d : ec_slavet) : Prop :=
  slave_typed d /\
  (Obits d <> 0 -> Ostartbit d <= 7 /\ exists p, outputs d = Some p /\ 0 <= p /\
     p + PdoMappedByteLength (Obits d) (Ostartbit d) <= size).

(** Bit [i] of the map belongs to the outputs of [d]. *)
Definition owns (d : ec_slavet) (i : Z) : bool :=
  match outputs d with
  | Some p => (8 * p + Ostartbit d <=? i) && (i <? 8 * p + Ostartbit d + Obits d)
  | None => false
  end.

(** The first output bit of [d]. *)
Definition first_bit (d : ec_slavet) : Z :=
  match outputs d with Some p => 8 * p + Ostartbit d | None => 0 end.

(** [m'] is [m] with the output bits of [d] replaced by those of [image]. *)
Definition carries (m m' : bytes) (d : ec_slavet) (image : bytes) : Prop :=
  bytes_ok m' /\ zlen m' = zlen m /\
  forall i, 0 <= i -> tb m' i = if owns d i then tb image (i - first_bit d) else tb m i.

(** The outputs of [d] in the map are [image]; [[]] is the zero image. *)
Definition shows (m : bytes) (d : ec_slavet) (image : bytes) : Prop :=
  forall i, owns d i = true -> 0 <= i -> tb m i = tb image (i - first_bit d).

Lemma tb_nil i : tb [] i = false.
Proof. unfold tb, byte_at. cbn. apply Z.bits_0. Qed.

Lemma tb_zeros n i : tb (replicate n 0) i = false.
Proof.
  unfold tb, byte_at. destruct (_ !! _) eqn:E; cbn; [|apply Z.bits_0].
  apply lookup_replicate in E as [-> _]. apply Z.bits_0.
Qed.

Lemma mapped_nonneg n s : in_u16 n -> in_u8 s -> 0 <= PdoMappedByteLength n s.
Proof.
  intros. unfold PdoMappedByteLength, in_u16, in_u8 in *. destruct (_ || _); [lia|dlia].
Qed.

Lemma pointer_range_Some size p len :
  0 <= len -> PointerRangeInIoMap size (Some p) len = true -> 0 <= p /\ p + len <= size.
Proof. unfold PointerRangeInIoMap. destruct (Z.eqb_spec len 0); lia. Qed.

Lemma pointer_range_intro size p len :
  0 <= p -> 0 <= len -> p + len <= size -> PointerRangeInIoMap size (Some p) len = true.
Proof. unfold PointerRangeInIoMap. destruct (Z.eqb_spec len 0); lia. Qed.

Lemma owns_no_bits d i : Obits d = 0 -> owns d i = false.
Proof. intros H. unfold owns. destruct (outputs d); [lia|done]. Qed.

Section Store.
Context (m : bytes) (d : ec_slavet) (Hm : bytes_ok m) (Hd : slave_typed d).

Lemma zero_slave_carries : placed (zlen m) d -> carries m (zero_slave m d) d [].
Proof using Hm Hd.
  intros [_ Hp]. destruct Hd as (Hn & Hs & _). unfold zero_slave, carries.
  destruct (Z.eq_dec (Obits d) 0) as [Hz|Hz].
  { rewrite Hz. cbn. assert (forall i, owns d i = false) as Ho by (intros; by apply owns_no_bits).
    destruct (outputs d); (split_and!; [done..|]); intros; by rewrite Ho. }
  destruct (Hp Hz) as (H7 & p & E & Hp0 & Hb). unfold owns, first_bit. rewrite E.
  pose proof (mapped_nonneg _ _ Hn Hs) as Hl.
  rewrite pointer_range_intro by lia. replace (Obits d =? 0) with false by (symmetry; lia).
  cbn [negb andb]. unfold in_u8 in Hs.
  rewrite zero_is_write by (auto using bytes_ok_span).
  set (zeros := replicate _ 0).
  destruct (write_written (Ostartbit d) (Obits d) ltac:(lia) Hn
              (span m p (PdoMappedByteLength (Obits d) (Ostartbit d))) zeros) as (r & -> & Hw).
  - by apply bytes_ok_span.
  - apply Forall_replicate. unfold in_u8. lia.
  - apply zlen_span; lia.
  - apply (zero_padding (Obits d)).
    exact Hn.
  - pose proof (mapped_covers (Ostartbit d) (Obits d) ltac:(lia) Hn
      (span m p (PdoMappedByteLength (Obits d) (Ostartbit d))) ltac:(apply zlen_span; lia) Hz)
      as Hc. rewrite zlen_span in Hc by lia.
    eapply store_written in Hw as (Hok & Hz' & Hbits); [|done|lia..].
    split_and!; [done|done|]. intros i Hi. rewrite Hbits by done. rewrite tb_nil.
    unfold zeros. rewrite tb_zeros. done.
Qed.

Lemma write_slave_carries offset image m' :
  bytes_ok image -> write_slave m d offset image = Some m' ->
  carries m m' d image /\ placed (zlen m) d.
Proof using Hm Hd.
  intros Himg. destruct Hd as (Hn & Hs & Hin & His). unfold write_slave, carries, owns, first_bit, placed.
  destruct (outputs d) as [p|] eqn:E; [|done].
  destruct (PointerRangeInIoMap _ _ _) eqn:Hr; [cbn [negb]|done].
  pose proof (mapped_nonneg _ _ Hn Hs) as Hl. apply pointer_range_Some in Hr as [Hp Hb]; [|done].
  destruct (bool_decide _) eqn:Hv; [cbn [negb]|done]. intros H. opt_inv. subst m'. unfold in_u8 in Hs.
  assert (Ostartbit d <= 7) as H7.
  { destruct (Z.le_gt_cases (Ostartbit d) 7); [done|]. unfold WritePackedPdoImage in Hread.
    by replace (7 <? Ostartbit d) with true in Hread by (symmetry; lia). }
  pose proof (write_Some _ _ _ _ _ Hread) as [Hlen Hpad].
  destruct (write_written (Ostartbit d) (Obits d) ltac:(lia) Hn _ _
              (bytes_ok_span _ _ _ Hm) Himg Hlen Hpad) as (r & Hr & Hw).
  assert (r = x) as -> by congruence.
  destruct (Z.eq_dec (Obits d) 0) as [Hz|Hz].
  { apply bool_decide_eq_true in Hv. unfold ValidateWholeOutputWrite in Hv.
    rewrite Hz in Hv. done. }
  pose proof (mapped_covers (Ostartbit d) (Obits d) ltac:(lia) Hn _ Hlen Hz) as Hc.
  rewrite Hlen in Hc.
  eapply store_written in Hw as (Hok & Hz' & Hbits); [|done|lia..]. split.
  - split_and!; [done|done|]. intros i Hi. rewrite Hbits by done.
    replace (i - 8 * p - Ostartbit d) with (i - (8 * p + Ostartbit d)) by lia. done.
  - unfold slave_typed, in_u8. split_and!; [done|lia|lia|done|apply His|apply His|]. eauto 10.
Qed.

End Store.

(** *** Layouts *)

(** What SOEM guarantees of a context it has mapped: the fields have their types, two
    SubDevices have no output bit in common, and no output bit lies in the range that
    received frames fill. *)
Record soem_layout (c : ecx_contextt) : Prop := {
  layout_typed : forall a, a ∈ indices c -> slave_typed (slave c a);
  layout_disjoint : forall a b i, a ∈ indices c -> b ∈ indices c -> a <> b ->
    owns (slave c a) i = true -> owns (slave c b) i = false;
  layout_inputs : forall a i p, a ∈ indices c -> group_inputs (group c) = Some p ->
    owns (slave c a) i = true -> i < 8 * p \/ 8 * (p + group_Ibytes (group c)) <= i
}.

(** What the daemon has checked before it goes on: every output bit and the input range
    lie inside a map of [size] bytes. *)
Record checked_layout (size : Z) (c : ecx_contextt) : Prop := {
  layout_placed : forall a, a ∈ indices c -> placed size (slave c a);
  layout_group : PointerRangeInIoMap size (group_inputs (group c)) (group_Ibytes (group c)) = true
}.

(** Every SubDevice's outputs are zero. *)
Definition all_zero (c : ecx_contextt) (m : bytes) : Prop :=
  forall a, a ∈ indices c -> shows m (slave c a) [].

Lemma carries_shows m m' d image : carries m m' d image -> shows m' d image.
Proof. intros (_ & _ & H) i Hi H0. by rewrite H, Hi. Qed.

Lemma carries_other m m' d d' image x :
  carries m m' d image -> (forall i, owns d' i = true -> owns d i = false) ->
  shows m d' x -> shows m' d' x.
Proof. intros (_ & _ & H) Hdis Hs i Hi H0. rewrite H, Hdis by done. by apply Hs. Qed.

(** A store to one SubDevice, seen by all of them. *)
Lemma carries_layout c a b m m' image x :
  soem_layout c -> a ∈ indices c -> b ∈ indices c -> carries m m' (slave c a) image ->
  shows m (slave c b) x -> a <> b -> shows m' (slave c b) x.
Proof.
  intros Hl Ha Hb Hc Hs Hne. eapply carries_other; [done| |done].
  intros i. by apply (layout_disjoint c Hl b a i).
Qed.

Lemma zero_slaves_spec c m (todo : list Z) :
  soem_layout c -> checked_layout (zlen m) c -> bytes_ok m ->
  (forall a, a ∈ todo -> a ∈ indices c) ->
  let m' := fold_left (fun m index => zero_slave m (slave c index)) todo m in
  bytes_ok m' /\ zlen m' = zlen m /\
  (forall a, a ∈ todo -> shows m' (slave c a) []) /\
  (forall a, a ∈ indices c -> shows m (slave c a) [] -> shows m' (slave c a) []).
Proof.
  intros Hl Hc. revert m Hc. induction todo as [|a todo IH]; intros m Hc Hm Hin; cbn.
  { split_and!; [done|done|intros ? H%elem_of_nil; done|done]. }
  assert (a ∈ indices c) as Ha by (apply Hin; left).
  pose proof (zero_slave_carries m (slave c a) Hm (layout_typed c Hl a Ha)
                (layout_placed _ _ Hc a Ha)) as Hz.
  pose proof Hz as (Hok & Hlen & _).
  destruct (IH (zero_slave m (slave c a))) as (H1 & H2 & H3 & H4).
  - by rewrite Hlen.
  - done.
  - intros b Hb. apply Hin. by right.
  - assert (forall b, b ∈ indices c -> b = a \/ shows m (slave c b) [] ->
      shows (zero_slave m (slave c a)) (slave c b) []) as Hstep.
    { intros b Hb. destruct (Z.eq_dec b a) as [->|Hne]; [intros _; by eapply carries_shows|].
      intros [?|Hs]; [done|]. apply (carries_layout c a b m _ [] []); auto. }
    split_and!; [done|lia| |].
    + intros b [->|Hb]%elem_of_cons; [|by apply H3]. apply H4; auto.
    + intros b Hb Hs. apply H4; auto.
Qed.

Lemma ZeroOutputs_spec c m :
  soem_layout c -> checked_layout (zlen m) c -> bytes_ok m ->
  bytes_ok (ZeroOutputs true c m) /\ zlen (ZeroOutputs true c m) = zlen m /\
  all_zero c (ZeroOutputs true c m).
Proof.
  intros Hl Hc Hm. unfold ZeroOutputs. cbn [negb].
  destruct (zero_slaves_spec c m (indices c) Hl Hc Hm (fun _ H => H)) as (? & ? & ? & _).
  done.
Qed.

Lemma receive_spec c data m x a :
  soem_layout c -> checked_layout (zlen m) c -> bytes_ok m -> bytes_ok data ->
  a ∈ indices c -> shows m (slave c a) x ->
  shows (receive c data m) (slave c a) x.
Proof.
  intros Hl Hc Hm Hd Ha Hs. unfold receive. destruct (group_inputs (group c)) as [p|] eqn:E; [|done].
  destruct (Z.eqb_spec (zlen data) (group_Ibytes (group c))) as [Hz|]; [|done].
  pose proof (layout_group _ _ Hc) as Hg. rewrite E in Hg. pose proof (zlen_nonneg data).
  apply pointer_range_Some in Hg as [Hp Hb]; [|lia].
  intros i Hi H0. pose proof (layout_inputs c Hl a i p Ha E Hi).
  rewrite <- Hs by done. unfold tb. rewrite byte_at_store_span by dlia.
  destruct (Z.leb_spec p (i / 8)); [|done]. destruct (Z.ltb_spec (i / 8) (p + zlen data)); [|done].
  dlia.
Qed.

Lemma receive_map c data m :
  checked_layout (zlen m) c -> bytes_ok m -> bytes_ok data ->
  bytes_ok (receive c data m) /\ zlen (receive c data m) = zlen m.
Proof.
  intros Hc Hm Hd. unfold receive. destruct (group_inputs (group c)) as [p|] eqn:E; [|done].
  destruct (Z.eqb_spec (zlen data) (group_Ibytes (group c))) as [Hz|]; [|done].
  pose proof (layout_group _ _ Hc) as Hg. rewrite E in Hg. pose proof (zlen_nonneg data).
  apply pointer_range_Some in Hg as [Hp Hb]; [|lia]. split; [|apply zlen_store_span; lia].
  unfold store_span. rewrite !bytes_ok_app. auto with ec.
Qed.

(** *** What an accepted topology satisfies *)

(** The mode in which the outputs of an unlisted topology are kept at size zero. *)
Definition unverified (configuration : InterfaceConfig) : bool :=
  is_empty (if_expectedSubDevices configuration) && if_allowUnverifiedTopology configuration.

(** The entry of [expected_subdevices] for SubDevice [index] describes it. *)
(** A listed size is the mapped one, and only a direction without a mapping may be unlisted. *)
Definition expected_size (listed : option Z) (bits : Z) : Prop :=
  match listed with Some n => n = PdoImageByteLength bits | None => bits = 0 end.

(** The SubDevice found is the one listed. *)
Record is_expected (e : ExpectedSubDevice) (d : ec_slavet) : Prop := {
  expected_vendor : eep_man d = expected_vendorId e;
  expected_product : eep_id d = expected_productCode e;
  expected_rev : forall r, expected_revision e = Some r -> eep_rev d = r;
  expected_outputs : expected_size (expected_outputBytes e) (Obits d);
  expected_inputs : expected_size (expected_inputBytes e) (Ibits d)
}.

Definition matches (configuration : InterfaceConfig) (index : Z) (d : ec_slavet) : Prop :=
  forall e, if_expectedSubDevices configuration !! Z.to_nat (index - 1) = Some e -> is_expected e d.

(** What [ValidateTopology] has established of one SubDevice. *)
Definition slave_valid (configuration : InterfaceConfig) (size index : Z) (d : ec_slavet)
    : Prop :=
  IsValidSoemPdoMetadata (Obits d) (Obytes d) (Ostartbit d) = true /\
  IsValidSoemPdoMetadata (Ibits d) (Ibytes d) (Istartbit d) = true /\
  PdoImageByteLength (Obits d) <= kMaximumOutputWrite /\
  PointerRangeInIoMap size (outputs d) (PdoMappedByteLength (Obits d) (Ostartbit d)) = true /\
  PointerRangeInIoMap size (inputs d) (PdoMappedByteLength (Ibits d) (Istartbit d)) = true /\
  matches configuration index d.

Lemma image_length_zero n : 0 <= n -> (PdoImageByteLength n =? 0) = (n =? 0).
Proof. intros Hn. unfold PdoImageByteLength. destruct (Z.eqb_spec n 0) as [->|]; dlia. Qed.

Lemma differs_false v x : differs v x = false <-> forall y, v = Some y -> x = y.
Proof.
  destruct v as [y|]; cbn; [|done]. rewrite negb_false_iff, Z.eqb_eq. split; [by intros -> ? [= <-]|auto].
Qed.

(** The two tests of a PDO size. *)
Lemma expected_size_tests listed bits :
  0 <= bits ->
  negb (bits =? 0) && negb (has_value listed) = false /\ differs listed (PdoImageByteLength bits) = false <->
  expected_size listed bits.
Proof. intros H. destruct listed as [n|]; cbn; lia. Qed.

Lemma validate_slave_ok configuration size index d oc chunks t acc :
  slave_typed d ->
  validate_slave configuration size index d (oc, chunks, t) = (acc, None) ->
  slave_valid configuration size index d /\
  acc = (oc || negb (Obits d =? 0), chunks + input_chunks (PdoImageByteLength (Ibits d)),
         mkTopology
           (store_at (outputSizes t) index
              (if unverified configuration then 0 else PdoImageByteLength (Obits d)))
           (store_at (outputBits t) index (if unverified configuration then 0 else Obits d))
           (outputTopologyVerified t)).
Proof.
  intros ([Hn _] & _ & [Hi _] & _) H. unfold validate_slave in H. fold (unverified configuration) in H.
  rewrite !image_length_zero in H by done.
  destruct (negb (IsValidSoemPdoMetadata _ _ _) || _) eqn:E1; [done|].
  destruct (_ <? PdoImageByteLength _) eqn:E2; [done|].
  destruct (negb (PointerRangeInIoMap _ _ _) || _) eqn:E3; [done|].
  apply orb_false_iff in E1 as [?%negb_false_iff ?%negb_false_iff].
  apply orb_false_iff in E3 as [?%negb_false_iff ?%negb_false_iff].
  assert (forall a b : bool * Z * TopologyState, (a, @None TopologyError) = (b, None) -> b = a)
    as Hpair by congruence.
  unfold slave_valid, matches.
  destruct (_ !! Z.to_nat (index - 1)) as [e|] eqn:Ee.
  2: { apply Hpair in H as ->. split_and!; [done..|lia|done|done|done|done]. }
  destruct (negb (Obits d =? 0) && _ || _) eqn:E4; [done|].
  destruct (negb (eep_man d =? _) || _ || _ || _ || _) eqn:E5; [done|].
  apply Hpair in H as ->. rewrite !orb_false_iff in E5. apply orb_false_iff in E4 as [Eo Ei].
  destruct E5 as ((((? & ?) & Hr) & Ho) & Hin).
  split_and!; [done..|lia|done|done| |done]. intros e' [= <-].
  split; [lia|lia|by apply differs_false|by apply expected_size_tests..].
Qed.

(** A SubDevice that is in order passes. *)
Lemma validate_slave_passes configuration size index d acc :
  slave_typed d -> slave_valid configuration size index d ->
  snd (validate_slave configuration size index d acc) = None.
Proof.
  intros ([Hn _] & _ & [Hi _] & _) (H1 & H2 & H3 & H4 & H5 & Hm). destruct acc as [[oc chunks] t].
  unfold validate_slave. rewrite H1, H2, H4, H5. cbn [negb orb].
  destruct (Z.ltb_spec kMaximumOutputWrite (PdoImageByteLength (Obits d))); [lia|].
  destruct (_ !! Z.to_nat (index - 1)) as [e|] eqn:Ee; [|done]. destruct (Hm e Ee) as [E1 E2 E3 E4 E5].
  rewrite !image_length_zero by done.
  apply expected_size_tests in E4 as [-> ->], E5 as [-> ->]; [|done..]. apply differs_false in E3 as ->.
  by rewrite E1, E2, !Z.eqb_refl.
Qed.

Lemma validate_slaves_pass configuration size c todo acc :
  (forall a, a ∈ todo -> slave_typed (slave c a) /\ slave_valid configuration size a (slave c a)) ->
  snd (validate_slaves configuration size c todo acc) = None.
Proof.
  revert acc. induction todo as [|a todo IH]; intros acc H; [done|]. cbn [validate_slaves].
  destruct (H a) as [Ht Hv]; [left|]. pose proof (validate_slave_passes _ _ _ _ acc Ht Hv) as E.
  destruct (validate_slave _ _ _ _ _) as [acc' e]. cbn in E. subst e. apply IH. intros b Hb. apply H. by right.
Qed.

Lemma lookup_store_at {A} (l : list A) a b v :
  0 <= a < zlen l -> 0 <= b ->
  store_at l a v !! Z.to_nat b = if a =? b then Some v else l !! Z.to_nat b.
Proof.
  intros Ha Hb. unfold store_at, zlen in *. destruct (Z.eqb_spec a b) as [->|].
  - apply list_lookup_insert_eq. lia.
  - apply list_lookup_insert_ne. lia.
Qed.

Lemma zlen_store_at {A} (l : list A) a v : zlen (store_at l a v) = zlen l.
Proof. unfold zlen, store_at. by rewrite length_insert. Qed.

(** What the loop has stored for the SubDevices of [todo]. *)
Definition stored (configuration : InterfaceConfig) (c : ecx_contextt) (todo : list Z)
    (t t' : TopologyState) : Prop :=
  zlen (outputSizes t') = zlen (outputSizes t) /\ zlen (outputBits t') = zlen (outputBits t) /\
  forall a, 0 <= a ->
    outputSizes t' !! Z.to_nat a
    = (if bool_decide (a ∈ todo)
       then Some (if unverified configuration then 0 else PdoImageByteLength (Obits (slave c a)))
       else outputSizes t !! Z.to_nat a) /\
    outputBits t' !! Z.to_nat a
    = (if bool_decide (a ∈ todo)
       then Some (if unverified configuration then 0 else Obits (slave c a))
       else outputBits t !! Z.to_nat a).

Lemma validate_slaves_ok configuration size c todo oc chunks t oc' chunks' t' :
  (forall a, a ∈ todo -> slave_typed (slave c a) /\
     0 <= a < zlen (outputSizes t) /\ a < zlen (outputBits t)) ->
  validate_slaves configuration size c todo (oc, chunks, t) = ((oc', chunks', t'), None) ->
  (forall a, a ∈ todo -> slave_valid configuration size a (slave c a)) /\
  (oc' = true <-> oc = true \/ exists a, a ∈ todo /\ Obits (slave c a) <> 0) /\
  chunks' = fold_left Z.add
    (map (fun a => input_chunks (PdoImageByteLength (Ibits (slave c a)))) todo) chunks /\
  stored configuration c todo t t'.
Proof.
  revert oc chunks t. induction todo as [|a todo IH]; intros oc chunks t Hall H;
    cbn [validate_slaves] in H.
  - injection H as -> -> ->. cbn. split_and!; [intros ? H%elem_of_nil; done| |done|].
    + split; [by left|]. intros [?|(a & H%elem_of_nil & _)]; done.
    + split_and!; [done..|]. intros a Ha. by rewrite bool_decide_eq_false_2 by apply not_elem_of_nil.
  - destruct (Hall a ltac:(left)) as (Hty & Ha & Hb).
    destruct (validate_slave _ _ _ _ _) as [acc [e|]] eqn:E; [done|].
    apply validate_slave_ok in E as [Hv ->]; [|done].
    apply IH in H as (H1 & H2 & H3 & Hs1 & Hs2 & Hs3).
    2: { intros b Hb'. cbn. rewrite !zlen_store_at. apply Hall. by right. }
    cbn in *. rewrite !zlen_store_at in *. split_and!.
    + intros b [->|?]%elem_of_cons; auto.
    + rewrite H2, orb_true_iff, negb_true_iff, Z.eqb_neq.
      setoid_rewrite elem_of_cons. clear. naive_solver.
    + done.
    + split_and!; [done..|]. intros b Hb'. destruct (Hs3 b Hb') as [-> ->].
      rewrite !lookup_store_at by lia.
      destruct (Z.eqb_spec a b) as [->|Hne].
      * rewrite (bool_decide_eq_true_2 (b ∈ b :: todo)) by left.
        by destruct (bool_decide (b ∈ todo)).
      * destruct (bool_decide (b ∈ todo)) eqn:Et.
        -- apply bool_decide_eq_true in Et. by rewrite bool_decide_eq_true_2 by by right.
        -- apply bool_decide_eq_false in Et. rewrite bool_decide_eq_false_2; [done|].
           by intros [?|?]%elem_of_cons.
Qed.

Lemma elem_of_indices c a : a ∈ indices c <-> 1 <= a <= slavecount c.
Proof. unfold indices. rewrite elem_of_seqZ. lia. Qed.

Lemma slave_valid_placed configuration size index d :
  slave_typed d -> slave_valid configuration size index d -> placed size d.
Proof.
  intros Ht (Hm & _ & _ & Hp & _). pose proof Ht as (Hn & Hs & _). split; [done|]. intros Hne.
  assert (Ostartbit d <= 7) as H7.
  { unfold IsValidSoemPdoMetadata in Hm. destruct (Z.ltb_spec 7 (Ostartbit d)); [done|lia]. }
  split; [done|]. unfold in_u8, in_u16 in *.
  assert (0 < PdoMappedByteLength (Obits d) (Ostartbit d)) as Hpos.
  { rewrite mapped_length by lia. destruct (Z.eqb_spec (Obits d) 0); [lia|dlia]. }
  destruct (outputs d) as [p|].
  - exists p. apply pointer_range_Some in Hp; [tauto|lia].
  - unfold PointerRangeInIoMap in Hp. by replace (_ =? 0) with false in Hp by (symmetry; lia).
Qed.

Lemma ValidateTopology_ok configuration size c t t' :
  (forall a, a ∈ indices c -> slave_typed (slave c a)) ->
  slavecount c < zlen (outputSizes t) -> slavecount c < zlen (outputBits t) ->
  ValidateTopology configuration size c t = (t', None) ->
  (if_expectedSubDevices configuration = [] \/
   zlen (if_expectedSubDevices configuration) = slavecount c) /\
  (forall a, a ∈ indices c -> slave_valid configuration size a (slave c a)) /\
  (if_expectedSubDevices configuration = [] ->
   if_allowUnverifiedTopology configuration = false ->
   forall a, a ∈ indices c -> Obits (slave c a) = 0) /\
  fold_left Z.add
    (map (fun a => input_chunks (PdoImageByteLength (Ibits (slave c a)))) (indices c)) 0 <= 128 /\
  (outputTopologyVerified t' = true <->
   if_expectedSubDevices configuration <> [] /\
   exists a, a ∈ indices c /\ Obits (slave c a) <> 0) /\
  stored configuration c (indices c) t t'.
Proof.
  intros Hty Hs Hb. unfold ValidateTopology.
  destruct (negb (is_empty _) && _) eqn:E0; [done|].
  destruct (validate_slaves _ _ _ _ _) as [[[oc chunks] t1] [e|]] eqn:E; [done|].
  apply validate_slaves_ok in E as (Hv & Hoc & Hch & Hst).
  2: { intros a Ha. split; [by apply Hty|]. rewrite elem_of_indices in Ha. lia. }
  destruct (oc && _ && _) eqn:E1; [done|]. destruct (Z.ltb_spec 128 chunks) as [|Hle]; [done|].
  intros [= <-].
  assert (is_empty (if_expectedSubDevices configuration) = true <->
          if_expectedSubDevices configuration = []) as He by by destruct (if_expectedSubDevices _).
  refine (conj _ (conj Hv (conj _ (conj _ (conj _ Hst))))); [| |lia|].
  - destruct (if_expectedSubDevices configuration) eqn:Ex; [by left|right]. cbn [is_empty] in E0. lia.
  - intros Hnil Hallow a Ha. rewrite Hnil, Hallow in E1. cbn in E1. rewrite !andb_true_r in E1.
    destruct (Z.eq_dec (Obits (slave c a)) 0); [done|].
    assert (oc = true) by (apply Hoc; right; eauto). congruence.
  - cbn [outputTopologyVerified]. rewrite <- andb_assoc, andb_diag, andb_true_iff, negb_true_iff, Hoc.
    rewrite <- not_true_iff_false, He. split; [intros [[?|?] ?]; [done|]|]; tauto.
Qed.

(** What a topology must be to be accepted. *)
Record acceptable (configuration : InterfaceConfig) (size : Z) (c : ecx_contextt) : Prop := {
  acceptable_count : if_expectedSubDevices configuration <> [] ->
    zlen (if_expectedSubDevices configuration) = slavecount c;
  acceptable_listed : if_expectedSubDevices configuration <> [] -> forall a, a ∈ indices c -> exists e,
    if_expectedSubDevices configuration !! Z.to_nat (a - 1) = Some e /\ is_expected e (slave c a);
  acceptable_unlisted : if_expectedSubDevices configuration = [] ->
    (exists a, a ∈ indices c /\ Obits (slave c a) <> 0) -> if_allowUnverifiedTopology configuration = true;
  acceptable_slaves : forall a, a ∈ indices c ->
    IsValidSoemPdoMetadata (Obits (slave c a)) (Obytes (slave c a)) (Ostartbit (slave c a)) = true /\
    IsValidSoemPdoMetadata (Ibits (slave c a)) (Ibytes (slave c a)) (Istartbit (slave c a)) = true /\
    PdoImageByteLength (Obits (slave c a)) <= kMaximumOutputWrite /\
    PointerRangeInIoMap size (outputs (slave c a))
      (PdoMappedByteLength (Obits (slave c a)) (Ostartbit (slave c a))) = true /\
    PointerRangeInIoMap size (inputs (slave c a))
      (PdoMappedByteLength (Ibits (slave c a)) (Istartbit (slave c a))) = true;
  acceptable_chunks : fold_left Z.add
    (map (fun a => input_chunks (PdoImageByteLength (Ibits (slave c a)))) (indices c)) 0 <= 128
}.

Lemma acceptable_valid configuration size c a :
  acceptable configuration size c -> a ∈ indices c -> slave_valid configuration size a (slave c a).
Proof.
  intros [_ Hl _ Hs _] Ha. destruct (Hs a Ha) as (? & ? & ? & ? & ?). split_and!; try done.
  intros e He. destruct (Hl ltac:(intros E; by rewrite E in He) a Ha) as (e' & He' & ?). congruence.
Qed.

Lemma ValidateTopology_acceptable configuration size c t t' :
  (forall a, a ∈ indices c -> slave_typed (slave c a)) ->
  slavecount c < zlen (outputSizes t) -> slavecount c < zlen (outputBits t) ->
  ValidateTopology configuration size c t = (t', None) -> acceptable configuration size c.
Proof.
  intros Hty Hs Hb H. apply ValidateTopology_ok in H as (Hlen & Hv & Hun & Hch & _); [|done..].
  split; [by destruct Hlen| | | |done].
  - intros Hne a Ha. destruct Hlen as [?|Hlen]; [done|]. pose proof (proj1 (elem_of_indices c a) Ha) as Hr.
    destruct (lookup_lt_is_Some_2 (if_expectedSubDevices configuration) (Z.to_nat (a - 1)))
      as [e He]; [unfold zlen in Hlen; lia|].
    destruct (Hv a Ha) as (_ & _ & _ & _ & _ & Hm). exists e. auto.
  - intros Hnil (a & Ha & Hne). destruct (if_allowUnverifiedTopology configuration) eqn:E; [done|].
    exfalso. by apply Hne, Hun.
  - intros a Ha. destruct (Hv a Ha) as (? & ? & ? & ? & ? & _). done.
Qed.

Lemma acceptable_accepted configuration size c t :
  (forall a, a ∈ indices c -> slave_typed (slave c a)) ->
  slavecount c < zlen (outputSizes t) -> slavecount c < zlen (outputBits t) ->
  acceptable configuration size c -> snd (ValidateTopology configuration size c t) = None.
Proof.
  intros Hty Hs Hb Ha. pose proof Ha as [Hc _ Hu _ Hch]. unfold ValidateTopology.
  destruct (negb (is_empty _) && _) eqn:E0.
  { exfalso. apply andb_true_iff in E0 as [E1 E2]. destruct (if_expectedSubDevices configuration); [done|].
    specialize (Hc ltac:(done)). lia. }
  pose proof (validate_slaves_pass configuration size c (indices c) (false, 0, t)) as Hp.
  destruct (validate_slaves _ _ _ _ _) as [[[oc chunks] t1] e] eqn:E. cbn in Hp.
  rewrite Hp in * by (intros a Hin; split; [by apply Hty|by apply acceptable_valid]).
  apply validate_slaves_ok in E as (_ & Hoc & Hsum & _).
  2: { intros a Hin. split; [by apply Hty|]. rewrite elem_of_indices in Hin. lia. }
  destruct (oc && _ && _) eqn:E1.
  - exfalso. rewrite !andb_true_iff in E1. destruct E1 as [[Ho He] Hn].
    destruct (if_expectedSubDevices configuration); [|done].
    apply Hoc in Ho as [|Ho]; [done|]. by rewrite (Hu eq_refl Ho) in Hn.
  - destruct (Z.ltb_spec 128 chunks); [lia|done].
Qed.

(** ** What the main thread checks a write against *)

(** The published count and sizes are those of the context, or a size is withheld (zero)
    because the topology is unverified. *)
Definition agrees (c : ecx_contextt) (count : Z) (t : TopologyState) : Prop :=
  count <= slavecount c /\
  forall a, a ∈ indices c ->
    outputSizes t !! Z.to_nat a = Some 0 \/
    outputSizes t !! Z.to_nat a = Some (PdoImageByteLength (Obits (slave c a))) /\
    outputBits t !! Z.to_nat a = Some (Obits (slave c a)).

Lemma ValidateTopology_agrees configuration size c t t' count :
  soem_layout c -> ValidateTopology configuration size c t = (t', None) -> count <= slavecount c ->
  slavecount c < zlen (outputSizes t) -> slavecount c < zlen (outputBits t) ->
  agrees c count t'.
Proof.
  intros Hl H Hn Hs Hb.
  apply ValidateTopology_ok in H as (_ & _ & _ & _ & _ & _ & _ & Hst); [|by apply layout_typed|done..].
  split; [done|]. intros a Ha.
  destruct (Hst a) as [Hsz Hbits]; [apply elem_of_indices in Ha; lia|].
  rewrite bool_decide_eq_true_2 in Hsz, Hbits by done. rewrite Hsz, Hbits.
  destruct (unverified configuration); auto.
Qed.

(** A write that passes the main thread's checks passes those of the bus thread. *)
Lemma agreed_write state c count t m subDevice offset image :
  soem_layout c -> (forall a, a ∈ indices c -> placed (zlen m) (slave c a)) -> agrees c count t ->
  0 <= subDevice -> bytes_ok m -> bytes_ok image ->
  ValidateOutput state count t subDevice offset image = Ok ->
  subDevice ∈ indices c /\
  outputSizes t !! Z.to_nat subDevice = Some (PdoImageByteLength (Obits (slave c subDevice))) /\
  zlen image = PdoImageByteLength (Obits (slave c subDevice)) /\
  Obits (slave c subDevice) <> 0 /\
  exists m', write_slave m (slave c subDevice) offset image = Some m' /\
    carries m m' (slave c subDevice) image.
Proof.
  intros Hl Hc [Hcnt Hag] Hsub Hm Himg Hv. unfold ValidateOutput in Hv.
  destruct (bool_decide (state = Operational)); cbn [negb] in Hv; [|done].
  destruct (_ || _ || _) eqn:E1; [done|].
  assert (subDevice ∈ indices c) as Hin by (apply elem_of_indices; lia).
  case_bool_decide as E3; cbn [negb] in Hv; [|done].
  pose proof E3 as E2. unfold ValidateWholeOutputWrite in E2.
  destruct (_ || _ || _ || _) eqn:G; [done|]. clear E2.
  destruct (Hag subDevice Hin) as [Hz|[Hsz Hbits]]; [by rewrite Hz in G|].
  rewrite Hsz, Hbits in *. cbn [default from_option id] in *.
  destruct (HasCanonicalPdoPadding _ image) eqn:Hpad; [|done].
  pose proof (layout_typed c Hl subDevice Hin) as Hty. pose proof Hty as (Hn & Hst & _).
  assert (Obits (slave c subDevice) <> 0) as Hne by (intros E; by rewrite E in G).
  destruct (Hc subDevice Hin) as [_ Hpl].
  destruct (Hpl Hne) as (H7 & p & Hp & Hp0 & Hpb).
  split_and!; [done|done|lia|done|].
  unfold in_u8 in Hst. pose proof (mapped_nonneg _ _ Hn (proj1 (proj2 Hty))) as Hmn.
  destruct (write_written (Ostartbit (slave c subDevice)) (Obits (slave c subDevice))
              ltac:(lia) Hn (span m p (PdoMappedByteLength (Obits (slave c subDevice))
                                         (Ostartbit (slave c subDevice)))) image)
    as (r & Hr & _); [by apply bytes_ok_span|done|apply zlen_span; lia|done|].
  assert (write_slave m (slave c subDevice) offset image = Some (store_span m p r)) as Hw.
  { unfold write_slave. rewrite Hp, pointer_range_intro by lia. cbn [negb].
    rewrite bool_decide_eq_true_2 by done. cbn [negb]. by rewrite Hr. }
  eexists. split; [done|]. by apply write_slave_carries in Hw as [? _].
Qed.

(** ** Properties *)

(** C34: a topology is accepted exactly when it is the configured one: either SubDevices are
    listed, then as many are found as listed, and each has the listed vendor, product and, if
    listed, revision, a listed PDO size is exactly the mapped one, and a size may be left out
    only for a direction without a mapping; or none are listed, then outputs are allowed only in
    the input-only mode. In both cases each SubDevice has consistent metadata, output and input
    regions inside the IO map and an output image that fits one write, and the inputs of all
    make at most 128 chunks. The topology then counts as verified exactly when it is listed and
    has an output, and the outputs of every SubDevice are placed inside the map. The fields that
    SOEM filled in are taken to be in the ranges of their C types, and the SubDevices to fit
    the arrays of the bus, which Initialize has checked. *)
Theorem ValidateTopology_exact configuration size c t :
  (forall a, a ∈ indices c -> slave_typed (slave c a)) ->
  slavecount c < zlen (outputSizes t) -> slavecount c < zlen (outputBits t) ->
  let '(t', error) := ValidateTopology configuration size c t in
  (error = None <-> acceptable configuration size c) /\
  (error = None ->
   (outputTopologyVerified t' = true <->
    if_expectedSubDevices configuration <> [] /\ exists a, a ∈ indices c /\ Obits (slave c a) <> 0) /\
   forall a, a ∈ indices c -> placed size (slave c a)).
Proof.
  intros Hty Hs Hb. destruct (ValidateTopology configuration size c t) as [t' error] eqn:E. split.
  - split; [intros ->; by eapply ValidateTopology_acceptable|].
    intros Ha. apply (acceptable_accepted _ _ _ t) in Ha; [|done..]. by rewrite E in Ha.
  - intros ->. apply ValidateTopology_ok in E as (_ & Hv & _ & _ & Hver & _); [|done..].
    split; [exact Hver|]. intros a Ha. eapply slave_valid_placed; auto.
Qed.

(** The main thread and the bus thread agree on what a valid command is: on an
    accepted topology, a command that ValidateOutput accepts names a SubDevice of the
    configured topology, its image has exactly the configured size, and the bus thread's
    own checks let it through to the IO map. Without a configured topology no command is
    accepted. *)
Theorem validated_commands_apply configuration c t t' m subDevice offset image :
  soem_layout c -> slavecount c < zlen (outputSizes t) -> slavecount c < zlen (outputBits t) ->
  ValidateTopology configuration (zlen m) c t = (t', None) ->
  0 <= subDevice -> bytes_ok m -> bytes_ok image ->
  ValidateOutput Operational (slavecount c) t' subDevice offset image = Ok ->
  subDevice ∈ indices c /\
  (exists e, if_expectedSubDevices configuration !! Z.to_nat (subDevice - 1) = Some e /\
     expected_outputBytes e = Some (zlen image)) /\
  exists m', write_slave m (slave c subDevice) offset image = Some m' /\
    carries m m' (slave c subDevice) image.
Proof.
  intros Hl Hs Hb H Hsub Hm Himg Hv. pose proof H as Hok.
  apply ValidateTopology_ok in Hok as (Hlen & Hval & Hun & _ & _ & Hz1 & Hz2 & Hst);
    [|by apply layout_typed|done..].
  destruct (agreed_write _ _ _ _ m _ _ _ Hl
              (fun a Ha => slave_valid_placed _ _ _ _ (layout_typed c Hl a Ha) (Hval a Ha))
              (ValidateTopology_agrees _ _ _ _ _ _ Hl H (Z.le_refl _) Hs Hb) Hsub Hm Himg Hv)
    as (Hin & Hsz & Hlen' & Hne & Hw).
  split; [done|]. split; [|done]. destruct (Hst subDevice Hsub) as [Hsz' _].
  rewrite bool_decide_eq_true_2, Hsz in Hsz' by done.
  destruct (unverified configuration) eqn:Eu.
  { injection Hsz' as Hsz'. pose proof (layout_typed c Hl subDevice Hin) as ([Hn _] & _).
    pose proof (image_length_zero (Obits (slave c subDevice)) Hn). lia. }
  assert (if_expectedSubDevices configuration <> []) as Hexp.
  { intros Hnil. apply Hne, Hun; [done| |done]. unfold unverified in Eu. by rewrite Hnil in Eu. }
  destruct Hlen as [?|Hlen]; [done|].
  destruct (lookup_lt_is_Some_2 (if_expectedSubDevices configuration) (Z.to_nat (subDevice - 1)))
    as [e He]; [apply elem_of_indices in Hin; unfold zlen in Hlen; lia|].
  exists e. split; [done|]. destruct (Hval _ Hin) as (_ & _ & _ & _ & _ & Hmt).
  destruct (Hmt e He) as [_ _ _ Ho _]. unfold expected_size in Ho.
  destruct (expected_outputBytes e); [f_equal; lia|done].
Qed.

(** A bus with one listed SubDevice: sixteen output bits and eight input bits. *)
Definition sample_configuration : InterfaceConfig :=
  mkInterface (str "drive") (str "eth1") true None
    [mkExpected 1 2 (Some 3) (Some 2) (Some 1)] 64 false 0 false.

Definition sample_context : ecx_contextt :=
  mkContext 1 [no_slave; mkSlave 1 2 3 16 2 0 (Some 0) 8 1 0 (Some 2)]
    (mkGroup (Some 0) 2 (Some 2) 1 1 1 false).

Definition sample_topology : TopologyState := mkTopology [0; 0; 0] [0; 0; 0] false.

Lemma sample_index a : a ∈ indices sample_context -> a = 1.
Proof. rewrite elem_of_indices. cbn. lia. Qed.

Lemma sample_layout : soem_layout sample_context.
Proof.
  split.
  - intros a ->%sample_index. unfold slave_typed, in_u8, in_u16. change (slave sample_context 1) with (mkSlave 1 2 3 16 2 0 (Some 0) 8 1 0 (Some 2)).
    cbn [Obits Ostartbit Ibits Istartbit]. lia.
  - intros a b i ->%sample_index ->%sample_index. done.
  - intros a i p ->%sample_index [= <-].
    change (owns (slave sample_context 1) i) with ((0 <=? i) && (i <? 16)).
    change (group_Ibytes (group sample_context)) with 1. lia.
Qed.

(** A second SubDevice is listed but missing. *)
Definition short_configuration : InterfaceConfig :=
  mkInterface (str "drive") (str "eth1") true None
    [mkExpected 1 2 (Some 3) (Some 2) (Some 1); mkExpected 1 2 None None None] 64 false 0 false.

Lemma ValidateTopology_exact_witness :
  acceptable sample_configuration 3 sample_context /\ placed 3 (slave sample_context 1) /\
  ~ acceptable short_configuration 3 sample_context.
Proof.
  assert (ValidateTopology sample_configuration 3 sample_context sample_topology
          = (mkTopology [0; 2; 0] [0; 16; 0] true, None)) as E by reflexivity.
  assert (ValidateTopology short_configuration 3 sample_context sample_topology
          = (sample_topology, Some (CountMismatch 2 1))) as E' by reflexivity.
  pose proof (ValidateTopology_exact sample_configuration 3 sample_context sample_topology
              (layout_typed _ sample_layout) ltac:(done) ltac:(done)) as H.
  pose proof (ValidateTopology_exact short_configuration 3 sample_context sample_topology
              (layout_typed _ sample_layout) ltac:(done) ltac:(done)) as H'.
  rewrite E in H. rewrite E' in H'. destruct H as [Ha Hp], H' as [Hn _]. split_and!.
  - by apply Ha.
  - apply Hp; [done|]. by apply elem_of_indices.
  - intros Hs. by apply Hn in Hs.
Defined.

Lemma validated_commands_apply_witness :
  exists m', write_slave [0; 0; 0] (slave sample_context 1) 0 [7; 9] = Some m' /\
    carries [0; 0; 0] m' (slave sample_context 1) [7; 9].
Proof.
  apply (validated_commands_apply sample_configuration sample_context sample_topology
           (mkTopology [0; 2; 0] [0; 16; 0] true) [0; 0; 0] 1 0 [7; 9]).
  - apply sample_layout.
  - done.
  - done.
  - reflexivity.
  - lia.
  - repeat constructor; by vm_compute.
  - repeat constructor; by vm_compute.
  - reflexivity.
Defined.
