(* ===== verification/BusIo.v ===== *)
(** * Process data in and out of a bus (main.cpp, EthercatBus)

    The bus thread drains the output commands of the main thread into the IO
    map ([ApplyOutputCommands]), zeroes the outputs of SubDevices whose command
    is too old ([EnforcePerSubDeviceFreshness]) and publishes the input images
    in chunks ([PublishInputs]). The values of the atomic loads and of the
    clock are arguments; time is in microseconds. *)

From stdpp Require Import list_numbers.
From S2P Require Import Prelude Protocol Pdo SpscQueue IoMap.

Definition kMaximumOutputCommands : nat := 512.
Definition kMaximumInputChunks : nat := 256.

(** ** Output commands *)

(** [command_data] is the first [length] bytes of the [data] array. *)
Record OutputCommand := mkCommand {
  command_epoch : Z;
  subDeviceIndex : Z;
  command_offset : Z;
  acceptedMonotonicUs : Z;
  command_data : bytes
}.

#[export] Instance OutputCommand_inhabited : Inhabited OutputCommand :=
  populate (mkCommand 0 0 0 0 []).

(** The worker's output members. *)
Record OutputState := mkOutputs {
  ioMap : bytes;
  outputsWerePermitted : bool;
  lastOutputCommandUs : list Z;
  staleOutput : list bool;
  staleOutputFaults : Z
}.

(** [ZeroOutputs(); outputsWerePermitted_ = false]. *)
Definition withdraw (contextOpen : bool) (c : ecx_contextt) (o : OutputState) : OutputState :=
  mkOutputs (ZeroOutputs contextOpen c (ioMap o)) false (lastOutputCommandUs o) (staleOutput o)
    (staleOutputFaults o).

(** [array[index] = v] for every SubDevice. *)
Definition fill {A} (c : ecx_contextt) (v : A) (array : list A) : list A :=
  fold_left (fun array index => store_at array index v) (indices c) array.

(** The rising edge of the permission. *)
Definition open_outputs (contextOpen : bool) (c : ecx_contextt) (now : Z) (o : OutputState)
    : OutputState :=
  mkOutputs (ZeroOutputs contextOpen c (ioMap o)) true (fill c now (lastOutputCommandUs o))
    (fill c false (staleOutput o)) (staleOutputFaults o).

(** [now < last || now - last > timeoutUs], or a time that was never set. *)
Definition too_old (now last timeoutUs : Z) : bool :=
  (last =? 0) || (now <? last) || (timeoutUs <? now - last).

(** [static_cast<uint64_t>(outputCommandTimeout_.count()) * 1000ULL]. *)
Definition timeout_us (outputCommandTimeout : Z) : Z := to_u64 (to_u64 outputCommandTimeout * 1000).

(** One command popped from the queue. *)
Definition apply_command (c : ecx_contextt) (outputCommandTimeout epoch : Z) (permitted : bool)
    (now : Z) (command : OutputCommand) (o : OutputState) : OutputState :=
  if negb permitted || negb (command_epoch command =? epoch) ||
     (subDeviceIndex command =? 0) || (slavecount c <? subDeviceIndex command)
  then o
  else if too_old now (acceptedMonotonicUs command) (timeout_us outputCommandTimeout) then o
  else
    match write_slave (ioMap o) (slave c (subDeviceIndex command)) (command_offset command)
            (command_data command) with
    | None => o
    | Some m =>
        mkOutputs m (outputsWerePermitted o)
          (store_at (lastOutputCommandUs o) (subDeviceIndex command)
             (acceptedMonotonicUs command))
          (store_at (staleOutput o) (subDeviceIndex command) false)
          (staleOutputFaults o)
    end.

(** [while (outputCommands_.TryPop(&command))]; the fuel bounds the pops. *)
Fixpoint apply_loop (fuel : nat) (c : ecx_contextt) (outputCommandTimeout epoch : Z)
    (permitted : bool) (now : Z) (q : @Ring OutputCommand) (o : OutputState)
    : option (@Ring OutputCommand * OutputState) :=
  match TryPop kMaximumOutputCommands q with
  | (q, None) => Some (q, o)
  | (q, Some command) =>
      match fuel with
      | O => None
      | S fuel =>
          apply_loop fuel c outputCommandTimeout epoch permitted now q
            (apply_command c outputCommandTimeout epoch permitted now command o)
      end
  end.

Definition ApplyOutputCommands (contextOpen : bool) (c : ecx_contextt)
    (outputCommandTimeout epoch : Z) (permitted : bool) (now : Z)
    (q : @Ring OutputCommand) (o : OutputState) : option (@Ring OutputCommand * OutputState) :=
  let o := if permitted && negb (outputsWerePermitted o) then open_outputs contextOpen c now o
           else o in
  apply_loop kMaximumOutputCommands c outputCommandTimeout epoch permitted now q o.

(** One SubDevice of [EnforcePerSubDeviceFreshness], with [staleCount]. *)
Definition enforce_slave (c : ecx_contextt) (outputCommandTimeout now : Z)
    (acc : OutputState * Z) (index : Z) : OutputState * Z :=
  let '(o, staleCount) := acc in
  let subDevice := slave c index in
  let bytes := PdoImageByteLength (Obits subDevice) in
  match outputs subDevice with
  | None => acc
  | Some p =>
      if bytes =? 0 then acc
      else
        let last := default 0 (lastOutputCommandUs o !! Z.to_nat index) in
        let o :=
          if too_old now last (timeout_us outputCommandTimeout) then
            let mappedBytes := PdoMappedByteLength (Obits subDevice) (Ostartbit subDevice) in
            mkOutputs
              (if PointerRangeInIoMap (zlen (ioMap o)) (Some p) mappedBytes
               then match ZeroPackedPdoImage (span (ioMap o) p mappedBytes)
                            (Ostartbit subDevice) (Obits subDevice) with
                    | Some r => store_span (ioMap o) p r
                    | None => ioMap o
                    end
               else ioMap o)
              (outputsWerePermitted o) (lastOutputCommandUs o)
              (store_at (staleOutput o) index true) (staleOutputFaults o)
          else o in
        (o, if default false (staleOutput o !! Z.to_nat index) && negb (staleCount =? U16_MAX)
            then staleCount + 1 else staleCount)
  end.

Definition EnforcePerSubDeviceFreshness (c : ecx_contextt) (outputCommandTimeout : Z)
    (permitted : bool) (now : Z) (o : OutputState) : OutputState :=
  if negb permitted then o
  else
    let '(o, staleCount) :=
      fold_left (enforce_slave c outputCommandTimeout now) (indices c) (o, 0) in
    mkOutputs (ioMap o) (outputsWerePermitted o) (lastOutputCommandUs o) (staleOutput o)
      staleCount.

(** ** Input publication *)

(** [chunk_header]'s [data] member stays empty; the bytes are in [chunk_data]. *)
Record InputChunk := mkChunk {
  chunk_header : PdoInputPayload;
  chunk_data : bytes;
  snapshotChunkIndex : Z;
  snapshotChunkCount : Z
}.

#[export] Instance InputChunk_inhabited : Inhabited InputChunk :=
  populate (mkChunk (mkPdoInput 0 0 0 0 0 0 []) [] 0 0).

Record InputRange := mkRange {
  range_subDevice : Z;
  range_data : Z;
  range_size : Z;
  range_bitCount : Z;
  range_startBit : Z;
  range_mappedBytes : Z;
  firstOrdinal : Z;
  chunkCount : Z
}.

(** The first loop, with [totalChunks]. *)
Definition add_range (c : ecx_contextt) (ioMapSize : Z) (acc : list InputRange * Z) (index : Z)
    : list InputRange * Z :=
  let '(ranges, totalChunks) := acc in
  let subDevice := slave c index in
  let inputBytes := PdoImageByteLength (Ibits subDevice) in
  let mappedBytes := PdoMappedByteLength (Ibits subDevice) (Istartbit subDevice) in
  match inputs subDevice with
  | None => acc
  | Some p =>
      if (inputBytes =? 0) || negb (PointerRangeInIoMap ioMapSize (Some p) mappedBytes) then acc
      else
        let chunks := input_chunks inputBytes in
        (ranges ++ [mkRange (to_u16 index) p inputBytes (Ibits subDevice) (Istartbit subDevice)
                      mappedBytes totalChunks chunks],
         totalChunks + chunks)
  end.

Definition input_ranges (c : ecx_contextt) (ioMapSize : Z) : list InputRange * Z :=
  fold_left (add_range c ioMapSize) (indices c) ([], 0).

(** [std::find_if] over the ranges. *)
Fixpoint find_range (ordinal : Z) (ranges : list InputRange) : option InputRange :=
  match ranges with
  | [] => None
  | r :: ranges =>
      if (firstOrdinal r <=? ordinal) && (ordinal <? firstOrdinal r + chunkCount r)
      then Some r else find_range ordinal ranges
  end.

(** The chunk at [ordinal]; [None] when the range or the read is missing. *)
Definition make_chunk (m : bytes) (busIndex epoch sequence totalChunks : Z)
    (ranges : list InputRange) (ordinal count : Z) : option InputChunk :=
  range ← find_range ordinal ranges;
  let chunkWithinRange := ordinal - firstOrdinal range in
  let offset := to_u32 (chunkWithinRange * kMaximumPdoChunk) in
  let length := to_u16 (Z.min kMaximumPdoChunk (to_u32 (range_size range - offset))) in
  data ← ReadPackedPdoChunk (span m (range_data range) (range_mappedBytes range))
           (range_startBit range) (range_bitCount range) offset (Z.to_nat length);
  Some (mkChunk (mkPdoInput busIndex (range_subDevice range) offset (range_size range) epoch
                   sequence [])
          data (to_u16 count) (to_u16 totalChunks)).

(** The second loop: [n] iterations from [count]; a failure breaks out of it. *)
Fixpoint publish_loop (m : bytes) (busIndex epoch sequence totalChunks cursor : Z)
    (ranges : list InputRange) (count : Z) (n : nat) (q : @Ring InputChunk) (published : Z)
    : @Ring InputChunk * Z :=
  match n with
  | O => (q, published)
  | S n =>
      let ordinal := (cursor + count) mod totalChunks in
      match make_chunk m busIndex epoch sequence totalChunks ranges ordinal count with
      | None => (q, published)
      | Some chunk =>
          match TryPush kMaximumInputChunks q chunk with
          | (q, false) => (q, published)
          | (q, true) =>
              publish_loop m busIndex epoch sequence totalChunks cursor ranges (count + 1) n q
                (published + 1)
          end
      end
  end.

Definition kMaximumChunksPerPublication : Z := 128.

(** The result is the queue and [inputChunkCursor_]. *)
Definition PublishInputs (c : ecx_contextt) (m : bytes) (busIndex epoch sequence cursor : Z)
    (q : @Ring InputChunk) : @Ring InputChunk * Z :=
  let '(ranges, totalChunks) := input_ranges c (zlen m) in
  if totalChunks =? 0 then (q, 0)
  else if (kMaximumChunksPerPublication <? totalChunks) ||
          (Z.of_nat (AvailableToWrite kMaximumInputChunks q) <? totalChunks)
  then (q, cursor)
  else
    let publishLimit := Z.min totalChunks kMaximumChunksPerPublication in
    let '(q, published) :=
      publish_loop m busIndex epoch sequence totalChunks cursor ranges 0
        (Z.to_nat publishLimit) q 0 in
    (q, (cursor + published) mod totalChunks).

(** ** Outputs: lemmas *)

Lemma filter_ext_in {A} (P Q : A -> Prop) `{!forall x, Decision (P x), !forall x, Decision (Q x)}
    (l : list A) :
  (forall x, x ∈ l -> P x <-> Q x) -> filter P l = filter Q l.
Proof.
  induction l as [|x l IH]; intros Hpq; [done|]. rewrite !filter_cons, IH.
  - pose proof (Hpq x ltac:(left)). by destruct (decide (P x)), (decide (Q x)); try tauto.
  - intros y Hy. apply Hpq. by right.
Qed.

Lemma zlen_fill {A} c (v : A) l : zlen (fill c v l) = zlen l.
Proof.
  unfold fill. generalize (indices c). intros todo. revert l.
  induction todo as [|a todo IH]; intros l; cbn; [done|]. by rewrite IH, zlen_store_at.
Qed.

(** The worker's state is well formed: the map is a map of the checked layout, and the
    per-SubDevice arrays are long enough. *)
Record outputs_ok (c : ecx_contextt) (o : OutputState) : Prop := {
  outputs_bytes : bytes_ok (ioMap o);
  outputs_layout : checked_layout (zlen (ioMap o)) c;
  outputs_last : slavecount c < zlen (lastOutputCommandUs o);
  outputs_stale : slavecount c < zlen (staleOutput o)
}.

(** Whether a store succeeds depends on the size of the map only. *)
Lemma write_slave_size m m' d offset image :
  slave_typed d -> zlen m = zlen m' ->
  is_Some (write_slave m d offset image) -> is_Some (write_slave m' d offset image).
Proof.
  intros (Hn & Hs & _) Hz. unfold write_slave. destruct (outputs d) as [p|]; [|by intros []].
  rewrite <- Hz. destruct (PointerRangeInIoMap _ _ _) eqn:Hr; cbn [negb]; [|by intros []].
  destruct (bool_decide _); cbn [negb]; [|by intros []].
  apply pointer_range_Some in Hr as [Hp Hb]; [|by apply mapped_nonneg].
  unfold WritePackedPdoImage.
  rewrite !zlen_span by (lia || by apply mapped_nonneg).
  destruct (_ || _); [by intros []|]. destruct (_ && _); cbn; by eexists.
Qed.

Section Applying.
Context (c : ecx_contextt) (Hc : soem_layout c).
Context (timeout epoch : Z) (now : Z).

(** The command is for SubDevice [a] and reaches the map. *)
Definition applicable (m : bytes) (a : Z) (command : OutputCommand) : Prop :=
  command_epoch command = epoch /\ subDeviceIndex command = a /\
  too_old now (acceptedMonotonicUs command) (timeout_us timeout) = false /\
  is_Some (write_slave m (slave c a) (command_offset command) (command_data command)).

#[global] Instance applicable_dec m a command : Decision (applicable m a command).
Proof. unfold applicable. apply _. Defined.

(** The effect of one command: it is refused, or it replaces one SubDevice's outputs. *)
Lemma apply_command_cases o permitted command :
  outputs_ok c o -> bytes_ok (command_data command) -> 0 <= subDeviceIndex command ->
  let o' := apply_command c timeout epoch permitted now command o in
  outputs_ok c o' /\ zlen (ioMap o') = zlen (ioMap o) /\
  outputsWerePermitted o' = outputsWerePermitted o /\
  ((o' = o /\ (permitted = true -> forall a, a ∈ indices c -> ~ applicable (ioMap o) a command)) \/
   (permitted = true /\ subDeviceIndex command ∈ indices c /\
    applicable (ioMap o) (subDeviceIndex command) command /\
    carries (ioMap o) (ioMap o') (slave c (subDeviceIndex command)) (command_data command) /\
    lastOutputCommandUs o' = store_at (lastOutputCommandUs o) (subDeviceIndex command)
                               (acceptedMonotonicUs command))).
Proof using Hc.
  intros Ho Hd Hsub. unfold apply_command. cbn zeta.
  destruct (_ || _ || _ || _) eqn:E1.
  { split_and!; [done..|]. left. split; [done|]. intros -> a Ha (H1 & H2 & _).
    apply elem_of_indices in Ha. subst. lia. }
  destruct (too_old _ _ _) eqn:E2.
  { split_and!; [done..|]. left. split; [done|]. intros _ a Ha (_ & _ & H3 & _). congruence. }
  destruct (write_slave _ _ _ _) as [m|] eqn:E3.
  2: { split_and!; [done..|]. left. split; [done|]. intros _ a Ha (_ & <- & _ & H4).
       rewrite E3 in H4. by destruct H4. }
  assert (subDeviceIndex command ∈ indices c) as Hin by (apply elem_of_indices; lia).
  pose proof E3 as E4. apply write_slave_carries in E3 as [Hcar _];
    [|apply Ho|by apply layout_typed|done].
  pose proof Hcar as (Hok & Hz & _). cbn [ioMap outputsWerePermitted lastOutputCommandUs].
  split_and!; [|done|done|].
  - split; cbn; [done|rewrite Hz; apply Ho|rewrite zlen_store_at; apply Ho..].
  - right. assert (permitted = true) as -> by (destruct permitted; [done|discriminate]).
    split_and!; [done|done| |done|done]. split_and!; [lia|done|done|by eexists].
Qed.

Lemma lookup_last_store (o o' : OutputState) a command :
  outputs_ok c o -> a ∈ indices c -> subDeviceIndex command ∈ indices c ->
  lastOutputCommandUs o' = store_at (lastOutputCommandUs o) (subDeviceIndex command)
                             (acceptedMonotonicUs command) ->
  lastOutputCommandUs o' !! Z.to_nat a
  = if subDeviceIndex command =? a then Some (acceptedMonotonicUs command)
    else lastOutputCommandUs o !! Z.to_nat a.
Proof using Type.
  intros Ho Ha Hs ->. apply elem_of_indices in Ha, Hs. pose proof (outputs_last _ _ Ho).
  apply lookup_store_at; lia.
Qed.

(** The commands of a batch, in order: the last applicable one wins. *)
Lemma apply_batch o l :
  outputs_ok c o ->
  Forall (fun x => bytes_ok (command_data x) /\ 0 <= subDeviceIndex x) l ->
  let o' := fold_left (fun o x => apply_command c timeout epoch true now x o) l o in
  outputs_ok c o' /\ zlen (ioMap o') = zlen (ioMap o) /\
  outputsWerePermitted o' = outputsWerePermitted o /\
  forall a, a ∈ indices c ->
    match last (filter (applicable (ioMap o) a) l) with
    | Some x => shows (ioMap o') (slave c a) (command_data x) /\
                lastOutputCommandUs o' !! Z.to_nat a = Some (acceptedMonotonicUs x)
    | None => (forall image, shows (ioMap o) (slave c a) image ->
                 shows (ioMap o') (slave c a) image) /\
              lastOutputCommandUs o' !! Z.to_nat a = lastOutputCommandUs o !! Z.to_nat a
    end.
Proof using Hc.
  intros Ho. induction l as [|x l IH] using rev_ind; intros Hall; [done|].
  apply Forall_app in Hall as [Hall Hx]. apply Forall_cons in Hx as [[Hx1 Hx2] _].
  rewrite fold_left_app. cbn [fold_left]. destruct (IH Hall) as (Ho1 & Hz1 & Hw1 & H1).
  set (o1 := fold_left _ l o) in *. clearbody o1.
  destruct (apply_command_cases o1 true x Ho1 Hx1 Hx2) as (Ho2 & Hz2 & Hw2 & Hcase).
  set (o2 := apply_command _ _ _ _ _ x o1) in *. clearbody o2.
  split_and!; [done|lia|congruence|]. intros a Ha. specialize (H1 a Ha).
  assert (applicable (ioMap o) a x <-> applicable (ioMap o1) a x) as Happ.
  { unfold applicable. pose proof (layout_typed c Hc a Ha) as Hty.
    split; intros (? & ? & ? & ?); split_and!; try done;
      (eapply write_slave_size; [done| |done]; congruence). }
  rewrite filter_app. destruct Hcase as [[-> Hno]|(_ & Hin & Hyes & Hcar & Hlast)].
  - rewrite (filter_cons_False _ x []); [|by rewrite Happ; auto]. by rewrite filter_nil, app_nil_r.
  - rewrite (lookup_last_store o1 o2 a x) by done.
    destruct (Z.eqb_spec (subDeviceIndex x) a) as [<-|Hne].
    + rewrite (filter_cons_True _ x []) by by rewrite Happ.
      rewrite filter_nil, last_snoc. split; [by eapply carries_shows|done].
    + rewrite (filter_cons_False _ x []); [|by intros (_ & ? & _)].
      rewrite filter_nil, app_nil_r. destruct (last _) as [y|].
      * destruct H1 as [Hs Hl]. split; [|done].
        eapply carries_layout; [done|exact Hin|done|done|done|done].
      * destruct H1 as [Hs Hl]. split; [|done]. intros image Hi.
        eapply carries_layout; [done|exact Hin|done|done|by apply Hs|done].
Qed.

Lemma apply_loop_drains permitted q l fuel o :
  represents kMaximumOutputCommands q l -> (length l <= fuel)%nat ->
  exists q', represents kMaximumOutputCommands q' [] /\
    apply_loop fuel c timeout epoch permitted now q o
    = Some (q', fold_left (fun o x => apply_command c timeout epoch permitted now x o) l o).
Proof using Type.
  revert fuel q o. induction l as [|x l IH]; intros fuel q o Hq Hf.
  - exists q. split; [done|]. assert (2 <= kMaximumOutputCommands)%nat as H2 by (vm_compute; lia).
    pose proof (pop_represents _ H2 q [] Hq) as E. destruct fuel; cbn [apply_loop]; by rewrite E.
  - assert (2 <= kMaximumOutputCommands)%nat as H2 by (vm_compute; lia).
    destruct (pop_represents _ H2 q (x :: l) Hq) as (q1 & E & Hq1).
    destruct fuel as [|fuel]; cbn [length] in Hf; [lia|].
    cbn [apply_loop]. rewrite E. apply IH; [done|lia].
Qed.

End Applying.

(** *** Freshness *)

Section Freshness.
Context (c : ecx_contextt) (Hc : soem_layout c) (timeout now : Z).

Definition expired (o : OutputState) (a : Z) : bool :=
  negb (Obits (slave c a) =? 0) &&
  too_old now (default 0 (lastOutputCommandUs o !! Z.to_nat a)) (timeout_us timeout).

Definition is_stale (o : OutputState) (a : Z) : bool :=
  negb (Obits (slave c a) =? 0) && default false (staleOutput o !! Z.to_nat a).

Lemma enforce_slave_eq o n a :
  outputs_ok c o -> a ∈ indices c ->
  let o' := if expired o a
            then mkOutputs (zero_slave (ioMap o) (slave c a)) (outputsWerePermitted o)
                   (lastOutputCommandUs o) (store_at (staleOutput o) a true)
                   (staleOutputFaults o)
            else o in
  enforce_slave c timeout now (o, n) a
  = (o', if is_stale o' a && negb (n =? U16_MAX) then n + 1 else n).
Proof using Hc.
  intros Ho Ha. pose proof (layout_placed _ _ (outputs_layout _ _ Ho) a Ha) as [Hty Hpl].
  destruct Hty as ([Hn _] & _). unfold enforce_slave, expired, is_stale.
  rewrite image_length_zero by done. destruct (Z.eqb_spec (Obits (slave c a)) 0) as [Hz|Hz].
  { cbn [negb andb]. by destruct (outputs (slave c a)). }
  destruct (Hpl Hz) as (_ & p & Hp & Hp0 & Hpb). rewrite Hp. cbn [negb andb].
  destruct (too_old _ _ _); [|done]. unfold zero_slave. rewrite Hp.
  replace (Obits (slave c a) =? 0) with false by (symmetry; lia). done.
Qed.

Lemma lookup_stale_store o a b :
  outputs_ok c o -> a ∈ indices c -> b ∈ indices c ->
  store_at (staleOutput o) a true !! Z.to_nat b
  = if a =? b then Some true else staleOutput o !! Z.to_nat b.
Proof using Type.
  intros Ho Ha Hb. apply elem_of_indices in Ha, Hb. pose proof (outputs_stale _ _ Ho).
  apply lookup_store_at; lia.
Qed.

(** The loop after the SubDevices of [l]. *)
Lemma enforce_loop o l :
  outputs_ok c o -> NoDup l -> (forall a, a ∈ l -> a ∈ indices c) ->
  exists o' n, fold_left (enforce_slave c timeout now) l (o, 0) = (o', n) /\
  outputs_ok c o' /\ zlen (ioMap o') = zlen (ioMap o) /\
  outputsWerePermitted o' = outputsWerePermitted o /\
  lastOutputCommandUs o' = lastOutputCommandUs o /\
  n = Z.min U16_MAX (zlen (filter (is_stale o') l)) /\
  forall a, a ∈ indices c ->
    if bool_decide (a ∈ l) && expired o a
    then shows (ioMap o') (slave c a) [] /\ staleOutput o' !! Z.to_nat a = Some true
    else (forall image, shows (ioMap o) (slave c a) image -> shows (ioMap o') (slave c a) image) /\
         staleOutput o' !! Z.to_nat a = staleOutput o !! Z.to_nat a.
Proof using Hc.
  intros Ho. induction l as [|x l IH] using rev_ind; intros Hnd Hin.
  { exists o, 0. split_and!; [done..|]. intros a Ha. by rewrite bool_decide_eq_false_2 by apply not_elem_of_nil. }
  apply NoDup_app in Hnd as (Hnd & Hx & _).
  assert (x ∉ l) as Hxl by (intros H; by apply (Hx x H), list_elem_of_singleton).
  assert (x ∈ indices c) as Hxi by (apply Hin, elem_of_app; right; by apply list_elem_of_singleton).
  destruct IH as (o1 & n1 & E & Ho1 & Hz1 & Hw1 & Hl1 & Hn1 & H1);
    [done|intros a Ha; apply Hin, elem_of_app; by left|].
  rewrite fold_left_app, E. cbn [fold_left]. rewrite enforce_slave_eq by done.
  set (o2 := if expired o1 x then _ else o1).
  assert (expired o1 = expired o) as Hex by (unfold expired; by rewrite Hl1).
  pose proof (zero_slave_carries (ioMap o1) (slave c x) (outputs_bytes _ _ Ho1)
                (layout_typed c Hc x Hxi) (layout_placed _ _ (outputs_layout _ _ Ho1) x Hxi))
    as Hcar. pose proof Hcar as (Hok & Hz & _).
  assert (outputs_ok c o2) as Ho2.
  { unfold o2. destruct (expired o1 x); [|done].
    split; cbn; [done|rewrite Hz; apply Ho1|apply Ho1|rewrite zlen_store_at; apply Ho1]. }
  assert (forall a, a ∈ indices c -> a <> x ->
    staleOutput o2 !! Z.to_nat a = staleOutput o1 !! Z.to_nat a /\
    forall image, shows (ioMap o1) (slave c a) image -> shows (ioMap o2) (slave c a) image)
    as Hother.
  { intros a Ha Hne. unfold o2. destruct (expired o1 x); [|done]. cbn. split.
    - rewrite lookup_stale_store by done. by replace (x =? a) with false by (symmetry; lia).
    - intros image Hs. eapply carries_layout; [done|exact Hxi|done|done|done|done]. }
  exists o2. eexists. split; [done|]. split_and!.
  - done.
  - unfold o2. destruct (expired o1 x); cbn; lia.
  - unfold o2. by destruct (expired o1 x).
  - unfold o2. by destruct (expired o1 x).
  - assert (filter (is_stale o2) l = filter (is_stale o1) l) as Hf.
    { apply filter_ext_in. intros a Ha. unfold is_stale.
      destruct (Hother a) as [-> _]; [apply Hin, elem_of_app; by left|by intros ->|done]. }
    rewrite filter_app, zlen_app, Hf, Hn1.
    pose proof (zlen_nonneg (filter (is_stale o1) l)).
    destruct (is_stale o2 x) eqn:Es.
    + rewrite filter_cons_True by by rewrite Es. rewrite filter_nil. change (zlen [x]) with 1.
      cbn [andb]. destruct (Z.eqb_spec (Z.min U16_MAX (zlen (filter (is_stale o1) l))) U16_MAX);
        cbn [negb]; lia.
    + rewrite filter_cons_False by (rewrite Es; cbn; tauto). rewrite filter_nil. change (zlen []) with 0.
      cbn [andb]. lia.
  - intros a Ha. destruct (Z.eq_dec a x) as [->|Hne].
    + rewrite bool_decide_eq_true_2 by (apply elem_of_app; right; by apply list_elem_of_singleton).
      specialize (H1 x Hxi). rewrite bool_decide_eq_false_2 in H1 by done. cbn [andb] in *.
      destruct H1 as [H1 H1']. unfold o2. rewrite Hex. destruct (expired o x); [|by split].
      cbn. split; [by eapply carries_shows|].
      rewrite lookup_stale_store by done. by rewrite Z.eqb_refl.
    + destruct (Hother a Ha Hne) as [-> Hs]. specialize (H1 a Ha).
      assert (bool_decide (a ∈ l ++ [x]) = bool_decide (a ∈ l)) as ->.
      { apply bool_decide_ext. rewrite elem_of_app, list_elem_of_singleton. tauto. }
      destruct (_ && _); destruct H1; split; auto.
Qed.

Lemma enforce_spec o :
  outputs_ok c o ->
  let o' := EnforcePerSubDeviceFreshness c timeout true now o in
  outputs_ok c o' /\ zlen (ioMap o') = zlen (ioMap o) /\
  outputsWerePermitted o' = outputsWerePermitted o /\
  lastOutputCommandUs o' = lastOutputCommandUs o /\
  staleOutputFaults o' = Z.min U16_MAX (zlen (filter (is_stale o') (indices c))) /\
  forall a, a ∈ indices c ->
    if expired o a
    then shows (ioMap o') (slave c a) [] /\ staleOutput o' !! Z.to_nat a = Some true
    else (forall image, shows (ioMap o) (slave c a) image -> shows (ioMap o') (slave c a) image) /\
         staleOutput o' !! Z.to_nat a = staleOutput o !! Z.to_nat a.
Proof using Hc.
  intros Ho. unfold EnforcePerSubDeviceFreshness. cbn [negb].
  destruct (enforce_loop o (indices c) Ho) as (o1 & n & -> & Ho1 & Hz & Hw & Hl & Hn & H);
    [apply NoDup_seqZ|done|]. cbn.
  split_and!; [|done|done|done|by rewrite Hn|].
  - destruct Ho1. by split.
  - intros a Ha. specialize (H a Ha). by rewrite bool_decide_eq_true_2 in H.
Qed.

End Freshness.

Lemma lookup_fill {A} c (v : A) l a :
  a ∈ indices c -> slavecount c < zlen l -> fill c v l !! Z.to_nat a = Some v.
Proof.
  intros Ha Hl. unfold fill.
  assert (forall todo k, zlen k = zlen l -> (forall b, b ∈ todo -> b ∈ indices c) ->
    (a ∈ todo \/ k !! Z.to_nat a = Some v) ->
    fold_left (fun array index => store_at array index v) todo k !! Z.to_nat a = Some v) as H.
  { intros todo. induction todo as [|b todo IH]; intros k Hk Hin Hor; cbn.
    - destruct Hor as [H%elem_of_nil|]; done.
    - pose proof (proj1 (elem_of_indices c b) (Hin b ltac:(left))).
      pose proof (proj1 (elem_of_indices c a) Ha).
      apply IH; [by rewrite zlen_store_at|intros d Hd; apply Hin; by right|].
      rewrite lookup_store_at by lia. destruct (Z.eqb_spec b a) as [->|Hne]; [by right|].
      destruct Hor as [[?|]%elem_of_cons|]; [congruence|auto|auto]. }
  apply H; auto.
Qed.

Lemma open_outputs_ok c o now :
  soem_layout c -> outputs_ok c o ->
  outputs_ok c (open_outputs true c now o) /\ all_zero c (ioMap (open_outputs true c now o)) /\
  zlen (ioMap (open_outputs true c now o)) = zlen (ioMap o).
Proof.
  intros Hl Ho.
  destruct (ZeroOutputs_spec c (ioMap o) Hl (outputs_layout _ _ Ho) (outputs_bytes _ _ Ho))
    as (H1 & H2 & H3).
  split_and!; [|done|done]. split; cbn [open_outputs ioMap lastOutputCommandUs staleOutput];
    [done|rewrite H2; apply Ho|rewrite zlen_fill; apply Ho..].
Qed.

Lemma withdraw_ok c o :
  soem_layout c -> outputs_ok c o ->
  outputs_ok c (withdraw true c o) /\ all_zero c (ioMap (withdraw true c o)) /\
  zlen (ioMap (withdraw true c o)) = zlen (ioMap o).
Proof.
  intros Hl Ho.
  destruct (ZeroOutputs_spec c (ioMap o) Hl (outputs_layout _ _ Ho) (outputs_bytes _ _ Ho))
    as (H1 & H2 & H3).
  split_and!; [|done|done]. split; cbn [withdraw ioMap lastOutputCommandUs staleOutput];
    [done|rewrite H2; apply Ho|apply Ho..].
Qed.

Definition command_typed (x : OutputCommand) : Prop :=
  bytes_ok (command_data x) /\ 0 <= subDeviceIndex x.

Lemma apply_not_permitted c timeout epoch now l o :
  fold_left (fun o x => apply_command c timeout epoch false now x o) l o = o.
Proof. by induction l. Qed.

(** ** Input publication: lemmas *)

(** The chunks of one SubDevice's image, in order. *)
Definition slave_chunks (m : bytes) (c : ecx_contextt) (index : Z) : list (Z * Z * bytes) :=
  let d := slave c index in
  let size := PdoImageByteLength (Ibits d) in
  match inputs d with
  | None => []
  | Some p =>
      let mappedBytes := PdoMappedByteLength (Ibits d) (Istartbit d) in
      if (size =? 0) || negb (PointerRangeInIoMap (zlen m) (Some p) mappedBytes) then []
      else
        match ReadPackedPdoChunk (span m p mappedBytes) (Istartbit d) (Ibits d) 0
                (Z.to_nat size) with
        | None => []
        | Some image =>
            map (fun k => (index, Z.of_nat k * kMaximumPdoChunk,
                           take 1024 (drop (k * 1024) image)))
              (seq 0 (Z.to_nat (input_chunks size)))
        end
  end.

(** The whole snapshot: the chunks of every SubDevice. *)
Definition snapshot_parts (m : bytes) (c : ecx_contextt) : list (Z * Z * bytes) :=
  concat (map (slave_chunks m c) (indices c)).

(** The chunk that carries the [count]-th part. *)
Definition part_chunk (c : ecx_contextt) (busIndex epoch sequence total : Z)
    (count : nat) (part : Z * Z * bytes) : InputChunk :=
  let '(index, offset, data) := part in
  mkChunk (mkPdoInput busIndex index offset (PdoImageByteLength (Ibits (slave c index))) epoch
             sequence [])
    data (Z.of_nat count) total.

Definition snapshot (c : ecx_contextt) (m : bytes) (busIndex epoch sequence : Z)
    : list InputChunk :=
  imap (part_chunk c busIndex epoch sequence (zlen (snapshot_parts m c))) (snapshot_parts m c).

Section Publication.
Context (c : ecx_contextt) (m : bytes) (Hm : bytes_ok m).
Context (Htyped : forall a, a ∈ indices c -> slave_typed (slave c a)).
Context (Hcount : slavecount c <= U16_MAX).

Lemma input_chunks_bound size : 0 <= size -> 0 <= input_chunks size /\
  forall k, 0 <= k < input_chunks size -> 0 <= k * 1024 < size.
Proof using Type.
  intros Hs. unfold input_chunks, kMaximumPdoChunk. split; [dlia|]. intros k Hk. dlia.
Qed.

(** The range of SubDevice [a] whose chunks start at ordinal [first]. *)
Definition range_of (a p first : Z) : InputRange :=
  let d := slave c a in
  mkRange (to_u16 a) p (PdoImageByteLength (Ibits d)) (Ibits d) (Istartbit d)
    (PdoMappedByteLength (Ibits d) (Istartbit d)) first
    (input_chunks (PdoImageByteLength (Ibits d))).

(** What the worker reads at ordinal [k] through range [r] is the [k]-th part. *)
Definition locates (parts : list (Z * Z * bytes)) (k : Z) (r : InputRange) : Prop :=
  exists a p first image, a ∈ indices c /\ r = range_of a p first /\
    0 <= p /\ p + range_mappedBytes r <= zlen m /\
    0 <= k - first < chunkCount r /\ Istartbit (slave c a) <= 7 /\
    ReadPackedPdoChunk (span m p (range_mappedBytes r)) (Istartbit (slave c a))
      (Ibits (slave c a)) 0 (Z.to_nat (range_size r)) = Some image /\
    parts !! Z.to_nat k
    = Some (a, (k - first) * kMaximumPdoChunk,
            take 1024 (drop (Z.to_nat (k - first) * 1024) image)).

Definition indexed (ranges : list InputRange) (total : Z) (parts : list (Z * Z * bytes)) : Prop :=
  total = zlen parts /\
  (forall k, 0 <= k < total -> exists r, find_range k ranges = Some r /\ locates parts k r) /\
  (forall k, total <= k -> find_range k ranges = None).

Lemma find_range_app k ranges r :
  find_range k (ranges ++ [r])
  = match find_range k ranges with
    | Some x => Some x
    | None => find_range k [r]
    end.
Proof using Type. induction ranges as [|x ranges IH]; cbn; [done|]. by destruct (_ && _). Qed.

Lemma locates_app parts more k r : locates parts k r -> locates (parts ++ more) k r.
Proof using Type.
  intros (a & p & first & image & H). exists a, p, first, image.
  destruct H as (? & ? & ? & ? & ? & ? & ? & Hl). split_and!; try done; try apply H3.
  by apply lookup_app_l_Some.
Qed.

(** A readable SubDevice adds its chunks. *)
Lemma slave_chunks_readable a p :
  a ∈ indices c -> inputs (slave c a) = Some p ->
  let size := PdoImageByteLength (Ibits (slave c a)) in
  let mapped := PdoMappedByteLength (Ibits (slave c a)) (Istartbit (slave c a)) in
  (size =? 0) || negb (PointerRangeInIoMap (zlen m) (Some p) mapped) = false ->
  Istartbit (slave c a) <= 7 ->
  exists image, 0 <= p /\ p + mapped <= zlen m /\ zlen image = size /\
    ReadPackedPdoChunk (span m p mapped) (Istartbit (slave c a)) (Ibits (slave c a)) 0
      (Z.to_nat size) = Some image /\
    slave_chunks m c a
    = map (fun k => (a, Z.of_nat k * kMaximumPdoChunk, take 1024 (drop (k * 1024) image)))
        (seq 0 (Z.to_nat (input_chunks size))).
Proof using Hm Htyped.
  intros Ha Hp size mapped Hg H7. destruct (Htyped a Ha) as (_ & _ & Hn & Hs).
  pose proof (mapped_nonneg _ _ Hn Hs) as Hl. fold mapped in Hl. unfold in_u8 in Hs.
  pose proof Hg as Hg'. apply orb_false_iff in Hg' as [_ Hr%negb_false_iff].
  apply pointer_range_Some in Hr as [Hp0 Hpb]; [|done].
  destruct (read_viewed (Istartbit (slave c a)) (Ibits (slave c a)) ltac:(lia) Hn
    (span m p mapped) 0 (Z.to_nat size) ltac:(by apply bytes_ok_span) ltac:(by apply zlen_span)
    ltac:(lia) ltac:(unfold size, PdoImageByteLength, in_u16 in *; dlia)) as (image & E & _ & Hz & _).
  exists image. split_and!; [done|done| |done|].
  - unfold zlen. rewrite Hz. unfold size, PdoImageByteLength, in_u16 in *. dlia.
  - unfold slave_chunks. rewrite Hp. fold size mapped. by rewrite Hg, E.
Qed.

Lemma add_range_indexed a ranges total parts :
  a ∈ indices c -> Istartbit (slave c a) <= 7 \/ Ibits (slave c a) = 0 ->
  indexed ranges total parts ->
  let '(ranges', total') := add_range c (zlen m) (ranges, total) a in
  indexed ranges' total' (parts ++ slave_chunks m c a).
Proof using Hm Htyped.
  intros Ha H7 Hi. pose proof Hi as (Htot & Hfind & Hnone). unfold add_range.
  destruct (inputs (slave c a)) as [p|] eqn:Hp.
  2: { unfold slave_chunks. by rewrite Hp, app_nil_r. }
  destruct (_ || _) eqn:Hg.
  { unfold slave_chunks. by rewrite Hp, Hg, app_nil_r. }
  assert (Istartbit (slave c a) <= 7) as H7'.
  { destruct H7 as [|Hz]; [done|]. by rewrite Hz in Hg. }
  destruct (slave_chunks_readable a p Ha Hp Hg H7') as (image & Hp0 & Hpb & Hz & Hread & Hch).
  set (size := PdoImageByteLength (Ibits (slave c a))) in *.
  assert (0 <= size) as Hsz by (rewrite <- Hz; apply zlen_nonneg).
  destruct (input_chunks_bound size Hsz) as [Hc0 _].
  assert (zlen (slave_chunks m c a) = input_chunks size) as Hlen.
  { rewrite Hch. unfold zlen. rewrite length_map, length_seq. lia. }
  fold (range_of a p total). split_and!.
  - rewrite zlen_app, Hlen. lia.
  - intros k Hk. rewrite find_range_app. destruct (Z.lt_ge_cases k total) as [Hlt|Hge].
    + destruct (Hfind k ltac:(lia)) as (r & -> & Hloc). exists r. split; [done|].
      by apply locates_app.
    + rewrite Hnone by done. cbn [find_range range_of firstOrdinal chunkCount]. fold size.
      replace ((total <=? k) && (k <? total + input_chunks size)) with true by (symmetry; lia).
      eexists. split; [done|]. exists a, p, total, image. cbn [range_of range_mappedBytes chunkCount range_size].
      fold size. split_and!; [done|done|done|done|lia|lia|done|done|].
      rewrite lookup_app_r by (unfold zlen in Htot; lia). rewrite Hch, list_lookup_fmap.
      replace (Z.to_nat k - length parts)%nat with (Z.to_nat (k - total))
        by (unfold zlen in Htot; lia).
      rewrite lookup_seq_lt by lia. cbn [fmap option_fmap option_map].
      rewrite Nat.add_0_l. do 3 f_equal. rewrite Z2Nat.id by lia. done.
  - intros k Hk. rewrite find_range_app, Hnone by lia. cbn. fold size.
    by replace ((total <=? k) && (k <? total + input_chunks size)) with false by (symmetry; lia).
Qed.

(** The worker can read every input image: the start bits are below 8. *)
Context (Hstart : forall a, a ∈ indices c ->
  Istartbit (slave c a) <= 7 \/ Ibits (slave c a) = 0).

Lemma input_ranges_indexed :
  let '(ranges, total) := input_ranges c (zlen m) in
  indexed ranges total (snapshot_parts m c).
Proof using Hm Htyped Hstart.
  unfold input_ranges, snapshot_parts.
  assert (forall todo ranges total parts, (forall a, a ∈ todo -> a ∈ indices c) ->
    indexed ranges total parts ->
    let '(ranges', total') := fold_left (add_range c (zlen m)) todo (ranges, total) in
    indexed ranges' total' (parts ++ concat (map (slave_chunks m c) todo))) as H.
  { intros todo. induction todo as [|a todo IH]; intros ranges total parts Hin Hi; cbn.
    - by rewrite app_nil_r.
    - assert (a ∈ indices c) as Ha by (apply Hin; left).
      pose proof (add_range_indexed a ranges total parts Ha (Hstart a Ha) Hi) as Hi1.
      fold (add_range c (zlen m) (ranges, total) a).
      destruct (add_range c (zlen m) (ranges, total) a) as [r1 t1].
      rewrite app_assoc. apply IH; [|done]. intros b Hb. apply Hin. by right. }
  apply (H (indices c) [] 0 []); [done|]. split_and!; [done|lia|done].
Qed.

Lemma make_chunk_located parts ranges total busIndex epoch sequence k r part :
  find_range k ranges = Some r -> locates parts k r -> parts !! Z.to_nat k = Some part ->
  0 <= k <= U16_MAX -> 0 <= total <= U16_MAX ->
  make_chunk m busIndex epoch sequence total ranges k k
  = Some (part_chunk c busIndex epoch sequence total (Z.to_nat k) part).
Proof using Hm Htyped Hcount.
  intros Hf (a & p & first & image & Ha & -> & Hp0 & Hpb & Hk & H7 & Hread & Hpart) Hpart' Hk16 Ht.
  rewrite Hpart in Hpart'. injection Hpart' as <-.
  cbn [range_of range_mappedBytes range_size chunkCount] in *.
  set (size := PdoImageByteLength (Ibits (slave c a))) in *.
  set (mapped := PdoMappedByteLength (Ibits (slave c a)) (Istartbit (slave c a))) in *.
  destruct (Htyped a Ha) as (_ & _ & Hn & Hs).
  pose proof (mapped_nonneg _ _ Hn Hs) as Hmn. fold mapped in Hmn. unfold in_u8 in Hs.
  assert (0 <= size <= 8192) as Hsz by (unfold size, PdoImageByteLength, in_u16 in *; dlia).
  destruct (input_chunks_bound size ltac:(lia)) as [_ Hb]. specialize (Hb (k - first) Hk).
  unfold make_chunk. rewrite Hf. cbn [mbind option_bind range_of firstOrdinal range_size
    range_data range_mappedBytes range_startBit range_bitCount range_subDevice].
  fold size mapped. unfold kMaximumPdoChunk, to_u32, to_u16.
  apply elem_of_indices in Ha.
  rewrite !(Z.mod_small ((k - first) * 1024)), (Z.mod_small (size - _)), (Z.mod_small a),
    (Z.mod_small k), (Z.mod_small total), (Z.mod_small (Z.min _ _)) by lia.
  destruct (chunk_of_image (span m p mapped) (Istartbit (slave c a)) (Ibits (slave c a))
    ((k - first) * 1024) (Z.to_nat (Z.min 1024 (size - (k - first) * 1024))))
    as (image' & Hi & Hch);
    [by apply bytes_ok_span|lia|done|by apply zlen_span|lia|fold size; lia|].
  fold size in Hi. assert (image' = image) as -> by congruence.
  rewrite Hch. cbn [mbind option_bind part_chunk]. fold size. f_equal.
  assert (length image = Z.to_nat size) as Hli.
  { eapply read_view_length; [| |by apply bytes_ok_span|exact Hread]; [lia|done]. }
  f_equal; [|lia]. replace (Z.to_nat ((k - first) * 1024)) with (Z.to_nat (k - first) * 1024)%nat by lia.
  destruct (Z.le_gt_cases 1024 (size - (k - first) * 1024)).
  - f_equal. lia.
  - rewrite !take_ge; [done|rewrite length_drop; lia..].
Qed.

(** The loop from the start of the snapshot: it pushes the whole of it. *)
Lemma publish_loop_all ranges total busIndex epoch sequence n count q l published :
  indexed ranges total (snapshot_parts m c) -> total <= 128 -> 0 <= count ->
  count + Z.of_nat n = total ->
  represents kMaximumInputChunks q l ->
  (length l + n <= kMaximumInputChunks - 1)%nat ->
  exists q', publish_loop m busIndex epoch sequence total 0 ranges count n q published
    = (q', published + Z.of_nat n) /\
    represents kMaximumInputChunks q'
      (l ++ drop (Z.to_nat count) (snapshot c m busIndex epoch sequence)).
Proof using Hm Htyped Hcount.
  intros Hi Ht. revert count q l published.
  assert (2 <= kMaximumInputChunks)%nat as H2 by (vm_compute; lia).
  pose proof Hi as (Htot & Hfind & _).
  assert (length (snapshot c m busIndex epoch sequence) = Z.to_nat total) as Hsl.
  { unfold snapshot. rewrite length_imap, Htot. unfold zlen. lia. }
  induction n as [|n IH]; intros count q l published Hc0 Hn Hq Hroom.
  - exists q. cbn [publish_loop]. split; [f_equal; lia|]. rewrite drop_ge, app_nil_r by lia. done.
  - cbn [publish_loop]. rewrite Z.add_0_l, Z.mod_small by lia.
    destruct (Hfind count ltac:(lia)) as (r & Hr & Hloc).
    destruct (lookup_lt_is_Some_2 (snapshot_parts m c) (Z.to_nat count)) as [part Hpart];
      [unfold zlen in Htot; lia|].
    rewrite (make_chunk_located _ _ _ _ _ _ _ _ _ Hr Hloc Hpart) by lia.
    pose proof (push_represents _ H2 q l
      (part_chunk c busIndex epoch sequence total (Z.to_nat count) part) Hq) as Hpush.
    destruct (Nat.ltb_spec (length l) (kMaximumInputChunks - 1)) as [Hlt|]; [|lia].
    destruct Hpush as (q1 & -> & Hq1).
    destruct (IH (count + 1) q1 (l ++ [part_chunk c busIndex epoch sequence total
                                         (Z.to_nat count) part]) (published + 1))
      as (q' & -> & Hq'); [lia|lia|done|rewrite length_app; cbn [length]; lia|].
    exists q'. split; [f_equal; lia|].
    rewrite <- app_assoc in Hq'. cbn [app] in Hq'.
    rewrite (drop_S _ (part_chunk c busIndex epoch sequence total (Z.to_nat count) part)
               (Z.to_nat count)).
    + by replace (S (Z.to_nat count)) with (Z.to_nat (count + 1)) by lia.
    + unfold snapshot. rewrite list_lookup_imap, Hpart. cbn. by rewrite Htot.
Qed.

End Publication.

(** ** Properties *)

(** Draining the command queue terminates and empties it; if outputs are not permitted
    nothing changes, otherwise each SubDevice shows the image of the last command in the
    queue that is of the current epoch, addressed to it, fresh and well sized, and what
    it showed before when there is none, or zero when this call opens the outputs. *)
Theorem ApplyOutputCommands_spec c timeout epoch permitted now q l o :
  soem_layout c -> outputs_ok c o ->
  represents kMaximumOutputCommands q l -> Forall command_typed l ->
  exists q' o',
    ApplyOutputCommands true c timeout epoch permitted now q o = Some (q', o') /\
    represents kMaximumOutputCommands q' [] /\
    (permitted = false -> o' = o) /\
    (permitted = true -> forall a, a ∈ indices c ->
       match last (filter (applicable c timeout epoch now (ioMap o) a) l) with
       | Some x => shows (ioMap o') (slave c a) (command_data x) /\
                   lastOutputCommandUs o' !! Z.to_nat a = Some (acceptedMonotonicUs x)
       | None =>
           if outputsWerePermitted o
           then (forall image, shows (ioMap o) (slave c a) image ->
                   shows (ioMap o') (slave c a) image) /\
                lastOutputCommandUs o' !! Z.to_nat a = lastOutputCommandUs o !! Z.to_nat a
           else shows (ioMap o') (slave c a) [] /\
                lastOutputCommandUs o' !! Z.to_nat a = Some now
       end).
Proof.
  intros Hl Ho Hq Ht. unfold ApplyOutputCommands.
  set (o1 := if permitted && _ then _ else o).
  destruct (apply_loop_drains c timeout epoch now permitted q l kMaximumOutputCommands o1 Hq)
    as (q' & Hq' & ->). { destruct Hq as (r & _ & _ & _ & ? & _). lia. }
  eexists _, _. split; [done|]. split; [done|]. destruct permitted.
  - split; [done|]. intros _ a Ha. destruct (open_outputs_ok c o now Hl Ho) as (H1 & H2 & H3).
    assert (outputs_ok c o1 /\ zlen (ioMap o1) = zlen (ioMap o)) as [Ho1 Hz1].
    { unfold o1. destruct (outputsWerePermitted o); cbn [negb andb]; done. }
    destruct (apply_batch c Hl timeout epoch now o1 l Ho1 Ht) as (_ & _ & _ & Hb).
    specialize (Hb a Ha).
    replace (filter (applicable c timeout epoch now (ioMap o1) a) l)
      with (filter (applicable c timeout epoch now (ioMap o) a) l) in Hb.
    2: { apply list_filter_iff. intros x. unfold applicable.
         pose proof (layout_typed c Hl a Ha) as Hty.
         split; intros (? & ? & ? & ?); split_and!; try done;
           (eapply write_slave_size; [done| |done]; congruence). }
    destruct (last _) as [x|]; [done|]. unfold o1 in *. clear o1 Ho1 Hz1.
    destruct (outputsWerePermitted o); cbn [negb andb] in *; [done|].
    destruct Hb as [Hs Hlast]. split; [by apply Hs, H2|]. rewrite Hlast. cbn [open_outputs lastOutputCommandUs].
    apply lookup_fill; [done|apply Ho].
  - split; [|done]. intros _. rewrite apply_not_permitted. done.
Qed.

(** Stale outputs are zeroed: after the freshness check at time [now], the outputs of a
    SubDevice whose last command is older than the timeout (or lies in the future) are
    zero and flagged stale; the other SubDevices keep theirs; and the published count is
    the number of flagged SubDevices, saturated at 65535. *)
Theorem freshness_enforced c timeout now o :
  soem_layout c -> outputs_ok c o ->
  let o' := EnforcePerSubDeviceFreshness c timeout true now o in
  staleOutputFaults o' = Z.min U16_MAX (zlen (filter (is_stale c o') (indices c))) /\
  forall a, a ∈ indices c -> Obits (slave c a) <> 0 ->
    let last := default 0 (lastOutputCommandUs o !! Z.to_nat a) in
    if (last =? 0) || (now <? last) || (timeout_us timeout <? now - last)
    then shows (ioMap o') (slave c a) [] /\ staleOutput o' !! Z.to_nat a = Some true
    else (forall image, shows (ioMap o) (slave c a) image -> shows (ioMap o') (slave c a) image) /\
         staleOutput o' !! Z.to_nat a = staleOutput o !! Z.to_nat a.
Proof.
  intros Hl Ho. destruct (enforce_spec c Hl timeout now o Ho) as (_ & _ & _ & _ & Hn & H).
  split; [done|]. intros a Ha Hb. specialize (H a Ha). unfold expired in H.
  replace (Obits (slave c a) =? 0) with false in H by (symmetry; lia). exact H.
Qed.

(** A publication is a whole snapshot or nothing: from the cursor's initial position,
    PublishInputs pushes, in order, every chunk of every SubDevice's input image, read
    from one state of the map and numbered 0 .. total-1, exactly when the snapshot is at
    most 128 chunks and the queue has room for all of them; otherwise the queue is
    unchanged. The cursor returns to its initial position. *)
Theorem PublishInputs_snapshot c m busIndex epoch sequence q l :
  bytes_ok m -> (forall a, a ∈ indices c -> slave_typed (slave c a)) ->
  slavecount c <= U16_MAX ->
  (forall a, a ∈ indices c -> Istartbit (slave c a) <= 7 \/ Ibits (slave c a) = 0) ->
  represents kMaximumInputChunks q l ->
  let s := snapshot c m busIndex epoch sequence in
  exists q', PublishInputs c m busIndex epoch sequence 0 q = (q', 0) /\
    represents kMaximumInputChunks q'
      (if (zlen s <=? 128) && (zlen l + zlen s <=? Z.of_nat kMaximumInputChunks - 1)
       then l ++ s else l).
Proof.
  intros Hm Hty Hcnt Hstart Hq s. unfold PublishInputs.
  pose proof (input_ranges_indexed c m Hm Hty Hstart) as Hi.
  destruct (input_ranges c (zlen m)) as [ranges total].
  pose proof Hi as (Htot & _ & _).
  assert (zlen s = total) as Hs.
  { unfold s, snapshot, zlen in *. by rewrite length_imap. }
  assert (2 <= kMaximumInputChunks)%nat as H2 by (vm_compute; lia).
  rewrite (available_represents _ H2 q l Hq). rewrite Hs. unfold kMaximumChunksPerPublication.
  pose proof (zlen_nonneg s) as Hnn. pose proof (zlen_nonneg l) as Hnl.
  assert (length l < kMaximumInputChunks)%nat as Hll by (destruct Hq as (? & _ & _ & _ & ? & _); done).
  destruct (Z.eqb_spec total 0) as [Hz|Hz].
  { exists q. split; [done|]. assert (s = []) as -> by (apply zlen_nil_inv; lia).
    by rewrite app_nil_r; destruct (_ && _). }
  destruct ((128 <? total) || _) eqn:E.
  { exists q. split; [done|].
    assert (128 < total \/ Z.of_nat kMaximumInputChunks - 1 < zlen l + total) as Hno.
    { unfold zlen in *. apply orb_true_iff in E as [E|E]; apply Z.ltb_lt in E; lia. }
    by replace (_ && _) with false by (symmetry; apply andb_false_iff; rewrite !Z.leb_gt; tauto). }
  assert (total <= 128 /\ zlen l + total <= Z.of_nat kMaximumInputChunks - 1) as [H128 Hroom].
  { unfold zlen in *. apply orb_false_iff in E as [E1 E2]. apply Z.ltb_ge in E1, E2. lia. }
  rewrite Z.min_l by lia.
  destruct (publish_loop_all c m Hm Hty Hcnt ranges total busIndex epoch sequence
              (Z.to_nat total) 0 q l 0) as (q' & -> & Hq'); try done; [lia|unfold zlen in *; lia|].
  exists q'. split.
  - f_equal. rewrite Z2Nat.id by lia. rewrite !Z.add_0_l. apply Z.mod_same. lia.
  - replace (_ && _) with true by (symmetry; apply andb_true_iff; rewrite !Z.leb_le; done).
    exact Hq'.
Qed.

(** The sample bus with its outputs open, and one command for it. *)
Definition sample_outputs : OutputState := mkOutputs [0; 0; 0x55] true [0; 1000] [false; false] 0.

Definition sample_command : OutputCommand := mkCommand 5 1 0 2000 [7; 9].

Definition sample_queue : @Ring OutputCommand :=
  fst (TryPush kMaximumOutputCommands (empty_ring kMaximumOutputCommands) sample_command).

Lemma sample_outputs_ok : outputs_ok sample_context sample_outputs.
Proof.
  split; [repeat constructor; by vm_compute| |done|done].
  split; [|done]. intros a ->%sample_index. split; [apply (layout_typed _ sample_layout); by apply elem_of_indices|].
  intros _. split; [done|]. exists 0. done.
Qed.

Lemma sample_queue_represents : represents kMaximumOutputCommands sample_queue [sample_command].
Proof.
  assert (2 <= kMaximumOutputCommands)%nat as H2 by (vm_compute; lia).
  destruct (push_represents _ H2 _ _ sample_command (represents_empty _ H2)) as (q & E & Hq).
  unfold sample_queue. by rewrite E.
Qed.

Lemma ApplyOutputCommands_spec_witness :
  exists q' o',
    ApplyOutputCommands true sample_context 100 5 true 3000 sample_queue sample_outputs
    = Some (q', o') /\ shows (ioMap o') (slave sample_context 1) [7; 9].
Proof.
  destruct (ApplyOutputCommands_spec sample_context 100 5 true 3000 sample_queue
              [sample_command] sample_outputs sample_layout sample_outputs_ok
              sample_queue_represents) as (q' & o' & E & _ & _ & H).
  { repeat constructor; by vm_compute. }
  exists q', o'. split; [done|]. specialize (H eq_refl 1 ltac:(by apply elem_of_indices)).
  replace (last _) with (Some sample_command) in H by (by vm_compute). apply H.
Defined.

(** The last command is 201 ms old when the timeout is 100 ms. *)
Lemma freshness_enforced_witness :
  staleOutput (EnforcePerSubDeviceFreshness sample_context 100 true 202000 sample_outputs)
    !! 1%nat = Some true.
Proof.
  destruct (freshness_enforced sample_context 100 202000 sample_outputs sample_layout
              sample_outputs_ok) as [_ H].
  specialize (H 1 ltac:(by apply elem_of_indices) ltac:(done)). cbv zeta in H.
  destruct (_ || _ || _) eqn:E in H; [apply H|]. by vm_compute in E.
Defined.

Lemma PublishInputs_snapshot_witness :
  exists q', PublishInputs sample_context [0; 0; 0x55] 0 5 9 0 (empty_ring kMaximumInputChunks)
    = (q', 0) /\
    represents kMaximumInputChunks q' [mkChunk (mkPdoInput 0 1 0 1 5 9 []) [0x55] 0 1].
Proof.
  destruct (PublishInputs_snapshot sample_context [0; 0; 0x55] 0 5 9
              (empty_ring kMaximumInputChunks) []) as (q' & E & Hq).
  - repeat constructor; by vm_compute.
  - apply (layout_typed _ sample_layout).
  - done.
  - intros a ->%sample_index. by left.
  - apply represents_empty. vm_compute; lia.
  - exists q'. by split.
Defined.
