(* ===== verification/Discovery.v ===== *)
(** What a bus thread reports of the SubDevices it finds ([LogDiscoveredTopology] of
    [main.cpp]): one line per SubDevice, repeated only when the topology has changed. The
    signature by which it decides is a text of decimal numbers; it determines the numbers. *)

From Stdlib Require Import Decimal DecimalZ.
From stdpp Require Import list_numbers.
From S2P Require Import Prelude Pdo IoMap.

(** ** Decimal numbers *)

Fixpoint uint_bytes (u : uint) : bytes :=
  match u with
  | Nil => []
  | D0 u => 48 :: uint_bytes u | D1 u => 49 :: uint_bytes u | D2 u => 50 :: uint_bytes u
  | D3 u => 51 :: uint_bytes u | D4 u => 52 :: uint_bytes u | D5 u => 53 :: uint_bytes u
  | D6 u => 54 :: uint_bytes u | D7 u => 55 :: uint_bytes u | D8 u => 56 :: uint_bytes u
  | D9 u => 57 :: uint_bytes u
  end.

(** [stream << n] for an integer. *)
Definition decimal (n : Z) : bytes :=
  match Z.to_int n with Pos u => uint_bytes u | Neg u => 45 :: uint_bytes u end.

(** ** LogDiscoveredTopology *)

(** The numbers of one SubDevice, in the order of the signature. *)
Definition described (d : ec_slavet) : list Z :=
  [eep_man d; eep_id d; eep_rev d; PdoImageByteLength (Obits d); PdoImageByteLength (Ibits d);
   Obits d; Ibits d; Ostartbit d; Istartbit d].

(** Numbers separated by [','] and closed by [';']. *)
Fixpoint entry (numbers : list Z) : bytes :=
  match numbers with
  | [] => [59]
  | [n] => decimal n ++ [59]
  | n :: numbers => decimal n ++ 44 :: entry numbers
  end.

Definition signature (c : ecx_contextt) : bytes :=
  decimal (slavecount c) ++ 59 :: concat (map (fun index => entry (described (slave c index))) (indices c)).

Definition topology_line (logicalName : bytes) (c : ecx_contextt) (index : Z) : bytes :=
  let d := slave c index in
  logicalName ++ str ": discovered SubDevice " ++ decimal index ++
  str " vendor_id=" ++ decimal (eep_man d) ++ str " product_code=" ++ decimal (eep_id d) ++
  str " revision=" ++ decimal (eep_rev d) ++
  str " output_bytes=" ++ decimal (PdoImageByteLength (Obits d)) ++
  str " input_bytes=" ++ decimal (PdoImageByteLength (Ibits d)) ++
  str " output_bits=" ++ decimal (Obits d) ++ str " input_bits=" ++ decimal (Ibits d) ++
  str " output_start_bit=" ++ decimal (Ostartbit d) ++
  str " input_start_bit=" ++ decimal (Istartbit d).

(** The result is [lastLoggedTopology_] and the lines handed to the log. *)
Definition LogDiscoveredTopology (logicalName : bytes) (c : ecx_contextt) (lastLoggedTopology : bytes)
    : bytes * list bytes :=
  if bool_decide (signature c = lastLoggedTopology) then (lastLoggedTopology, [])
  else (signature c, map (topology_line logicalName c) (indices c)).

(** ** The signature determines the numbers *)

(** A digit or a sign, as opposed to a separator. *)
Definition numeral (b : Z) : Prop := b <> 44 /\ b <> 59.

Lemma uint_numeral u : Forall numeral (uint_bytes u).
Proof. induction u; constructor; (done || by split). Qed.

Lemma decimal_numeral n : Forall numeral (decimal n).
Proof.
  unfold decimal. destruct (Z.to_int n); [apply uint_numeral|]. constructor; [by split|apply uint_numeral].
Qed.

Lemma uint_bytes_inj u v : uint_bytes u = uint_bytes v -> u = v.
Proof. revert v. induction u as [|u IH|u IH|u IH|u IH|u IH|u IH|u IH|u IH|u IH|u IH];
  intros []; cbn; intros [=]; try done; f_equal; by apply IH. Qed.

(** A number never starts with a sign of another kind: digits are not ['-']. *)
Lemma uint_no_sign u v : uint_bytes u <> 45 :: v.
Proof. by destruct u; cbn; intros [=]. Qed.

Lemma decimal_inj m n : decimal m = decimal n -> m = n.
Proof.
  intros H. apply to_int_inj. unfold decimal in H.
  destruct (Z.to_int m), (Z.to_int n).
  - f_equal. by apply uint_bytes_inj.
  - by apply uint_no_sign in H.
  - symmetry in H. by apply uint_no_sign in H.
  - injection H as H. f_equal. by apply uint_bytes_inj.
Qed.

(** A separator ends a number. *)
Lemma numerals_end xs ys x y r s :
  Forall numeral xs -> Forall numeral ys -> ~ numeral x -> ~ numeral y ->
  xs ++ x :: r = ys ++ y :: s -> xs = ys /\ x = y /\ r = s.
Proof.
  intros Hx. revert ys. induction Hx as [|a xs Ha Hx IH]; intros ys Hy Hnx Hny H.
  - destruct Hy as [|b ys Hb Hy]; cbn in H; injection H as -> ->; [done|by destruct Hnx].
  - destruct Hy as [|b ys Hb Hy]; cbn in H; [injection H as -> _; by destruct Hny|].
    injection H as -> H. destruct (IH ys Hy Hnx Hny H) as (-> & -> & ->). done.
Qed.

Lemma decimal_end m n x y r s :
  ~ numeral x -> ~ numeral y -> decimal m ++ x :: r = decimal n ++ y :: s -> m = n /\ x = y /\ r = s.
Proof.
  intros Hx Hy H. apply numerals_end in H as (E & -> & ->); try done; try apply decimal_numeral.
  by apply decimal_inj in E.
Qed.

Lemma comma : ~ numeral 44. Proof. by intros []. Qed.
Lemma semicolon : ~ numeral 59. Proof. by intros []. Qed.

Lemma entry_end ms ns r s :
  length ms = length ns -> entry ms ++ r = entry ns ++ s -> ms = ns /\ r = s.
Proof.
  revert ns. induction ms as [|m ms IH]; intros [|n ns] Hl H; try done.
  - cbn in H. by injection H as ->.
  - destruct ms as [|m' ms], ns as [|n' ns]; try done.
    + cbn [entry] in H. rewrite <- !app_assoc in H. cbn [app] in H.
      by apply decimal_end in H as (-> & _ & ->); [|apply semicolon..].
    + change (entry (m :: m' :: ms)) with (decimal m ++ 44 :: entry (m' :: ms)) in H.
      change (entry (n :: n' :: ns)) with (decimal n ++ 44 :: entry (n' :: ns)) in H.
      rewrite <- !app_assoc in H. cbn [app] in H.
      apply decimal_end in H as (-> & _ & H); [|apply comma..].
      apply (IH (n' :: ns)) in H as [-> ->]; [done|cbn in *; lia].
Qed.

Lemma entries_inj {A} (f g : A -> list Z) todo :
  (forall a, length (f a) = length (g a)) ->
  concat (map (fun a => entry (f a)) todo) = concat (map (fun a => entry (g a)) todo) ->
  forall a, a ∈ todo -> f a = g a.
Proof.
  intros Hl. induction todo as [|a todo IH]; intros H b Hb; [by apply elem_of_nil in Hb|].
  cbn in H. apply entry_end in H as [E H]; [|apply Hl].
  apply elem_of_cons in Hb as [->|Hb]; [done|by apply IH].
Qed.

Lemma signature_inj c c' :
  signature c = signature c' ->
  slavecount c = slavecount c' /\
  forall a, a ∈ indices c -> described (slave c a) = described (slave c' a).
Proof.
  unfold signature. intros H. apply decimal_end in H as (E & _ & H); [|apply semicolon..].
  split; [done|]. unfold indices in *. rewrite <- E in H.
  by apply (entries_inj (fun a => described (slave c a)) (fun a => described (slave c' a))).
Qed.

(** ** Properties *)

(** The log keeps up with the topology: if the last topology reported is that of [c], then for
    a newly found [c'] either one line per SubDevice is logged and [c'] becomes the last one
    reported, or nothing is logged because [c'] has the SubDevices of [c], with the same
    identities, sizes and positions. *)
Theorem topology_reported logicalName c c' :
  match LogDiscoveredTopology logicalName c' (signature c) with
  | (last, []) =>
      last = signature c' /\
      (slavecount c' = slavecount c /\
       (forall a, a ∈ indices c' -> described (slave c' a) = described (slave c a)) \/
       slavecount c' <= 0)
  | (last, lines) =>
      last = signature c' /\ zlen lines = slavecount c' /\
      forall a, 1 <= a <= slavecount c' ->
        lines !! Z.to_nat (a - 1) = Some (topology_line logicalName c' a)
  end.
Proof.
  unfold LogDiscoveredTopology. case_bool_decide as H.
  - split; [done|left]. by apply signature_inj.
  - assert (zlen (map (topology_line logicalName c') (indices c')) = Z.max 0 (slavecount c')) as Hl.
    { unfold zlen, indices. rewrite length_map, length_seqZ. lia. }
    destruct (map _ (indices c')) as [|x lines] eqn:E.
    { split; [done|right]. unfold zlen in Hl. cbn [length] in Hl. lia. }
    split; [done|]. split; [unfold zlen in *; cbn [length] in *; lia|].
    intros a Ha. rewrite <- E. change (map ?f ?l) with (f <$> l). rewrite list_lookup_fmap.
    unfold indices. rewrite lookup_seqZ_lt by lia. cbn. do 2 f_equal. lia.
Qed.
