(* ===== verification/Cycle.v ===== *)
(** * The bus thread and its races with the main thread (main.cpp, EthercatBus)

    The bus thread ([Run], [Initialize], [RunCyclic], [CloseContext],
    [RaiseFault]) and the main thread ([SetSafety], [QueueOutput], [SetLinkUp],
    [Stop]) share atomics. This file interleaves them at the level of the
    atomic accesses: [worker] is the next action of the bus thread, with at
    most one access of a shared atomic that the other side also writes (the
    loop condition and the stores of [CloseContext] apart, on which nothing
    depends); [step] adds the actions of the main thread and of the other
    buses, which share [globalFaultedEpoch_]. What the hardware answers is in
    [Io]. The deadlines and the counters of the thread are added in [Timed]. *)

From stdpp Require Import list_numbers.
From S2P Require Import Prelude Protocol Pdo SafetyGate SpscQueue DcSync Realtime Config.
From S2P Require Import IoMap BusIo.

(** ** State *)

(** The atomics of the safety protocol. *)
Record Shared := mkShared {
  safetyEpoch : Z;
  outputsPermitted : bool;
  safetyEpochApplied : Z;
  faultedEpoch : Z;
  globalFaultedEpoch : Z;
  faultReason : DisableReason;
  faultSequence : Z;
  linkUp : bool;
  running : bool
}.

Definition set_safetyEpoch v s := mkShared v (outputsPermitted s) (safetyEpochApplied s)
  (faultedEpoch s) (globalFaultedEpoch s) (faultReason s) (faultSequence s) (linkUp s) (running s).
Definition set_outputsPermitted v s := mkShared (safetyEpoch s) v (safetyEpochApplied s)
  (faultedEpoch s) (globalFaultedEpoch s) (faultReason s) (faultSequence s) (linkUp s) (running s).
Definition set_safetyEpochApplied v s := mkShared (safetyEpoch s) (outputsPermitted s) v
  (faultedEpoch s) (globalFaultedEpoch s) (faultReason s) (faultSequence s) (linkUp s) (running s).
Definition set_faultedEpoch v s := mkShared (safetyEpoch s) (outputsPermitted s)
  (safetyEpochApplied s) v (globalFaultedEpoch s) (faultReason s) (faultSequence s) (linkUp s)
  (running s).
Definition set_globalFaultedEpoch v s := mkShared (safetyEpoch s) (outputsPermitted s)
  (safetyEpochApplied s) (faultedEpoch s) v (faultReason s) (faultSequence s) (linkUp s)
  (running s).
Definition set_report reason s := mkShared (safetyEpoch s) (outputsPermitted s)
  (safetyEpochApplied s) (faultedEpoch s) (globalFaultedEpoch s) reason
  (SaturatingIncrement U64_MAX (faultSequence s)) (linkUp s) (running s).
Definition set_linkUp v s := mkShared (safetyEpoch s) (outputsPermitted s) (safetyEpochApplied s)
  (faultedEpoch s) (globalFaultedEpoch s) (faultReason s) (faultSequence s) v (running s).
Definition set_running v s := mkShared (safetyEpoch s) (outputsPermitted s) (safetyEpochApplied s)
  (faultedEpoch s) (globalFaultedEpoch s) (faultReason s) (faultSequence s) (linkUp s) v.

(** What the bus publishes for the main thread to read. *)
Record Published := mkPublished {
  busState : BusState;
  reinitializing : bool;
  subDeviceCount : Z;
  topology : TopologyState;
  faults : Z;
  lostFrames : Z;
  cycleSequence : Z;
  distributedClockSynchronized : bool;
  realtimeErrorBits : Z
}.

Definition set_busState v p := mkPublished v (reinitializing p) (subDeviceCount p) (topology p)
  (faults p) (lostFrames p) (cycleSequence p) (distributedClockSynchronized p)
  (realtimeErrorBits p).
Definition set_reinitializing v p := mkPublished (busState p) v (subDeviceCount p) (topology p)
  (faults p) (lostFrames p) (cycleSequence p) (distributedClockSynchronized p)
  (realtimeErrorBits p).
Definition set_topology count t p := mkPublished (busState p) (reinitializing p) count t
  (faults p) (lostFrames p) (cycleSequence p) (distributedClockSynchronized p)
  (realtimeErrorBits p).
Definition set_faults v p := mkPublished (busState p) (reinitializing p) (subDeviceCount p)
  (topology p) v (lostFrames p) (cycleSequence p) (distributedClockSynchronized p)
  (realtimeErrorBits p).
Definition set_lostFrames v p := mkPublished (busState p) (reinitializing p) (subDeviceCount p)
  (topology p) (faults p) v (cycleSequence p) (distributedClockSynchronized p)
  (realtimeErrorBits p).
Definition set_cycleSequence v p := mkPublished (busState p) (reinitializing p) (subDeviceCount p)
  (topology p) (faults p) (lostFrames p) v (distributedClockSynchronized p)
  (realtimeErrorBits p).
Definition set_clock synchronized bits p := mkPublished (busState p) (reinitializing p)
  (subDeviceCount p) (topology p) (faults p) (lostFrames p) (cycleSequence p) synchronized bits.

(** The members only the bus thread touches. *)
Record Private := mkPrivate {
  context : ecx_contextt;
  contextAttempted : bool;
  contextOpen : bool;
  out : OutputState;
  observedSafetyEpoch : Z;
  expectedWorkingCounter : Z;
  dcConfigured : bool;
  dcController : Dc.t;
  attemptedInitialization : bool;
  consecutiveWorkingCounterMisses : Z;
  observedInputPublicationPeriod : Z;
  nextInputPublication : Z;
  inputChunkCursor : Z
}.

Definition set_context c attempted opened p := mkPrivate c attempted opened (out p)
  (observedSafetyEpoch p) (expectedWorkingCounter p) (dcConfigured p) (dcController p)
  (attemptedInitialization p) (consecutiveWorkingCounterMisses p)
  (observedInputPublicationPeriod p) (nextInputPublication p) (inputChunkCursor p).
Definition set_out v p := mkPrivate (context p) (contextAttempted p) (contextOpen p) v
  (observedSafetyEpoch p) (expectedWorkingCounter p) (dcConfigured p) (dcController p)
  (attemptedInitialization p) (consecutiveWorkingCounterMisses p)
  (observedInputPublicationPeriod p) (nextInputPublication p) (inputChunkCursor p).
Definition set_observed v p := mkPrivate (context p) (contextAttempted p) (contextOpen p) (out p)
  v (expectedWorkingCounter p) (dcConfigured p) (dcController p)
  (attemptedInitialization p) (consecutiveWorkingCounterMisses p)
  (observedInputPublicationPeriod p) (nextInputPublication p) (inputChunkCursor p).
Definition set_expected v p := mkPrivate (context p) (contextAttempted p) (contextOpen p) (out p)
  (observedSafetyEpoch p) v (dcConfigured p) (dcController p)
  (attemptedInitialization p) (consecutiveWorkingCounterMisses p)
  (observedInputPublicationPeriod p) (nextInputPublication p) (inputChunkCursor p).
Definition set_dc configured v p := mkPrivate (context p) (contextAttempted p) (contextOpen p)
  (out p) (observedSafetyEpoch p) (expectedWorkingCounter p) configured v
  (attemptedInitialization p) (consecutiveWorkingCounterMisses p)
  (observedInputPublicationPeriod p) (nextInputPublication p) (inputChunkCursor p).
Definition set_attempted v p := mkPrivate (context p) (contextAttempted p) (contextOpen p) (out p)
  (observedSafetyEpoch p) (expectedWorkingCounter p) (dcConfigured p) (dcController p)
  v (consecutiveWorkingCounterMisses p)
  (observedInputPublicationPeriod p) (nextInputPublication p) (inputChunkCursor p).
Definition set_misses v p := mkPrivate (context p) (contextAttempted p) (contextOpen p) (out p)
  (observedSafetyEpoch p) (expectedWorkingCounter p) (dcConfigured p) (dcController p)
  (attemptedInitialization p) v
  (observedInputPublicationPeriod p) (nextInputPublication p) (inputChunkCursor p).
Definition set_publication period next cursor p := mkPrivate (context p) (contextAttempted p)
  (contextOpen p) (out p) (observedSafetyEpoch p) (expectedWorkingCounter p) (dcConfigured p)
  (dcController p) (attemptedInitialization p) (consecutiveWorkingCounterMisses p)
  period next cursor.

(** What follows a fault. *)
Inductive after_fault := ToFaultState | ToClose | ToInitialize.

(** The next action of the bus thread. *)
Inductive pc :=
| AtStart                                           (* ApplyRealtimeConfiguration *)
| AtRun                                             (* the condition of Run's loop *)
| AtInitialize
| AtEnter                                           (* the first statements of RunCyclic *)
| AtLoop                                            (* the condition of its loop *)
| AtWake                                            (* the sleep and the clock *)
| AtEpoch                                           (* activeEpoch = safetyEpoch_ *)
| AtApplyEpoch                                      (* ApplyOutputCommands: epoch *)
| AtApplyPermitted (epoch : Z)                      (* ApplyOutputCommands: permitted *)
| AtDrain (epoch : Z) (permitted : bool) (now : Z)  (* its loop *)
| AtFreshness
| AtPermitted (barrier : bool)                      (* epochBarrier || !outputsPermitted_ *)
| AtRecheckEpoch (barrier : bool)                   (* transmitEpoch = safetyEpoch_ *)
| AtRecheckPermitted (barrier : bool)
| AtRecheckGlobal (barrier : bool)                  (* globalFaultedEpoch_ *)
| AtSend (barrier : bool)
| AtAcknowledge (barrier : bool) (sent workingCounter : Z)
| AtCount (workingCounter : Z)
| AtClock (workingCounter : Z)
| AtPublish (workingCounter : Z)
| AtFaultSend
| AtRaise (reason : DisableReason) (k : after_fault)
| AtRaiseOwn (reason : DisableReason) (k : after_fault) (epoch : Z)
| AtRaiseGlobal (reason : DisableReason) (k : after_fault) (epoch : Z)
| AtRaiseWithdraw (reason : DisableReason) (k : after_fault)
| AtRaiseReport (reason : DisableReason) (k : after_fault)
| AtFaultState
| AtExit                                            (* after RunCyclic's loop *)
| AtClose
| AtStopped.

(** Where the main thread is inside [SetSafety]. *)
Inductive main_pc :=
| MainIdle
| MainLoadOwn (epoch : Z) (permitted : bool)
| MainLoadGlobal (epoch : Z) (permitted latched : bool)
| MainStore (permitted : bool).

(** A process-data frame handed to the network: the epoch the thread had observed, the
    context, the map, and whether the working counter confirmed it. *)
Record frame := mkFrame {
  frame_epoch : Z;
  frame_context : ecx_contextt;
  frame_map : bytes;
  frame_confirmed : bool
}.

(** [accepted] and [sent] record the history of [QueueOutput] and of the frames. *)
Record bus := mkBus {
  shared : Shared;
  published : Published;
  private : Private;
  outputCommands : @Ring OutputCommand;
  inputChunks : @Ring InputChunk;
  worker_pc : pc;
  main : main_pc;
  accepted : list OutputCommand;
  sent : list frame
}.

Definition with_shared f s := mkBus (f (shared s)) (published s) (private s) (outputCommands s)
  (inputChunks s) (worker_pc s) (main s) (accepted s) (sent s).
Definition with_published f s := mkBus (shared s) (f (published s)) (private s) (outputCommands s)
  (inputChunks s) (worker_pc s) (main s) (accepted s) (sent s).
Definition with_private f s := mkBus (shared s) (published s) (f (private s)) (outputCommands s)
  (inputChunks s) (worker_pc s) (main s) (accepted s) (sent s).
Definition with_commands q s := mkBus (shared s) (published s) (private s) q
  (inputChunks s) (worker_pc s) (main s) (accepted s) (sent s).
Definition with_chunks q s := mkBus (shared s) (published s) (private s) (outputCommands s)
  q (worker_pc s) (main s) (accepted s) (sent s).
Definition goto p s := mkBus (shared s) (published s) (private s) (outputCommands s)
  (inputChunks s) p (main s) (accepted s) (sent s).
Definition with_main p s := mkBus (shared s) (published s) (private s) (outputCommands s)
  (inputChunks s) (worker_pc s) p (accepted s) (sent s).
Definition with_accepted x s := mkBus (shared s) (published s) (private s) (outputCommands s)
  (inputChunks s) (worker_pc s) (main s) (accepted s ++ [x]) (sent s).
Definition with_sent fs s := mkBus (shared s) (published s) (private s) (outputCommands s)
  (inputChunks s) (worker_pc s) (main s) (accepted s) (sent s ++ fs).

(** ** The bus thread *)

(** What SOEM and the network answer during [Initialize]: whether [ecx_init] opened the
    interface, the results of [ecx_config_init] and [ecx_config_map_group], the context
    they filled in, the answer of [ecx_configdc], the inputs received after each frame of
    the transition, and whether the bus reached OP. *)
Record InitIo := mkInitIo {
  init_opened : bool;
  init_discovered : Z;
  init_mapped : Z;
  init_context : ecx_contextt;
  init_configdc : bool;
  init_received : list bytes;
  init_operational : bool
}.

(** What the environment answers to one action: the clocks, the results of
    [ecx_send_processdata] and [ecx_receive_processdata], [context_.DCtime], the main
    thread's request to reset counters and its publication period, and the error bits of
    [ApplyRealtimeConfiguration]. *)
Record Io := mkIo {
  io_clock : bool;
  io_micros : Z;
  io_sent : Z;
  io_workingCounter : Z;
  io_received : bytes;
  io_DCtime : Z;
  io_reset : bool;
  io_publicationPeriod : Z;
  io_realtimeErrorBits : Z;
  io_init : InitIo
}.

Section Worker.
Context (configuration : InterfaceConfig) (outputCommandTimeout cyclePeriod busIndex : Z).

(** [EC_MAXSLAVE], a constant of the SOEM build. *)
Context (EC_MAXSLAVE : Z).

(** *** Small steps shared by several actions *)

Definition epoch_of (s : bus) : Z := safetyEpoch (shared s).
Definition observed (s : bus) : Z := observedSafetyEpoch (private s).
Definition map_of (s : bus) : bytes := ioMap (out (private s)).

(** [ZeroOutputs(); outputsWerePermitted_ = false]. *)
Definition withdraw_outputs (s : bus) : bus :=
  with_private (fun p => set_out (withdraw (contextOpen p) (context p) (out p)) p) s.

(** [ZeroOutputs()]. *)
Definition zero_outputs (s : bus) : bus :=
  with_private
    (fun p => set_out (mkOutputs (ZeroOutputs (contextOpen p) (context p) (ioMap (out p)))
                         (outputsWerePermitted (out p)) (lastOutputCommandUs (out p))
                         (staleOutput (out p)) (staleOutputFaults (out p))) p) s.

(** [ecx_send_processdata]. *)
Definition send (confirmed : bool) (s : bus) : bus :=
  with_sent [mkFrame (observed s) (context (private s)) (map_of s) confirmed] s.

Definition set_ioMap (m : bytes) (o : OutputState) : OutputState :=
  mkOutputs m (outputsWerePermitted o) (lastOutputCommandUs o) (staleOutput o)
    (staleOutputFaults o).

Definition receive_inputs (data : bytes) (s : bus) : bus :=
  with_private (fun p => set_out (set_ioMap (receive (context p) data (ioMap (out p))) (out p)) p)
    s.

Definition set_error_bits (bits : Z) (s : bus) : bus :=
  with_published
    (fun p => set_clock (distributedClockSynchronized p) (Z.lor (realtimeErrorBits p) bits) p) s.

(** *** CloseContext *)

Definition zero_topology (t : TopologyState) : TopologyState :=
  mkTopology (map (fun _ => 0) (outputSizes t)) (map (fun _ => 0) (outputBits t)) false.

(** The stores before [if (!contextAttempted_) return]. *)
Definition close_stores (s : bus) : bus :=
  with_private
    (fun p => set_out (mkOutputs (ioMap (out p)) false
                         (map (fun _ => 0) (lastOutputCommandUs (out p)))
                         (map (fun _ => false) (staleOutput (out p))) 0) p)
    (with_published (fun p => set_topology 0 (zero_topology (topology p)) p)
       (with_shared (set_outputsPermitted false) s)).

(** [received] is what comes back for the safe frame. *)
Definition CloseContext (transmitSafeFrame : bool) (received : bytes) (s : bus) : bus :=
  let s := close_stores s in
  if negb (contextAttempted (private s)) then s
  else
    let s :=
      if contextOpen (private s) then
        let s := zero_outputs s in
        if transmitSafeFrame then receive_inputs received (send false s) else s
      else s in
    let s := with_private (fun p => set_expected 0 (set_dc false (dcController p)
                                      (set_context no_context false false p))) s in
    with_published (fun p => set_clock false (realtimeErrorBits p) p) s.

(** *** Initialize *)

(** [Initialize] up to the context: everything is reset, the map is clear. *)
Definition init_reset (s : bus) : bus :=
  let s := CloseContext false [] s in
  let s := with_published
             (fun p => set_topology (subDeviceCount p) (zero_topology (topology p))
                         (set_busState Initializing p)) s in
  with_private
    (fun p => set_context no_context true (contextOpen p)
                (set_out (set_ioMap (map (fun _ => 0) (ioMap (out p))) (out p)) p)) s.

(** The frames of the transition to OP: zero outputs, send, receive. *)
Definition exchange (s : bus) (received : bytes) : bus :=
  receive_inputs received (send false (zero_outputs s)).

(** What is received after them: one frame in SAFE_OP, then one for each attempt to reach OP,
    at least one and, if none succeeds, ten; an answer that is missing is empty. *)
Definition transition_inputs (io : InitIo) : list bytes :=
  let received := take 11 (init_received io) in
  received ++ replicate ((if init_operational io then 2 else 11) - length received) [].

(** [log; CloseContext(false); return false]. *)
Definition init_failed (s : bus) : bus * bool := (CloseContext false [] s, false).

Definition Initialize (io : InitIo) (s : bus) : bus * bool :=
  let s := init_reset s in
  if negb (init_opened io) then init_failed s
  else
    let c := init_context io in
    let s := with_private (set_context c true true) s in
    if (init_discovered io <=? 0) || (slavecount c <=? 0) || (EC_MAXSLAVE <=? slavecount c)
    then init_failed s
    else if (init_mapped io <? 0) || (if_maximumIoMapBytes configuration <? init_mapped io) ||
            (zlen (map_of s) <? init_mapped io)
    then init_failed s
    else
      match ValidateTopology configuration (zlen (map_of s)) c (topology (published s)) with
      | (t, Some _) =>
          init_failed (with_published (fun p => set_topology (subDeviceCount p) t p) s)
      | (t, None) =>
          let s := with_published (fun p => set_topology (subDeviceCount p) t p) s in
          let expected := outputsWKC (group c) * 2 + inputsWKC (group c) in
          let s := with_private (set_expected expected) s in
          if expected <=? 0 then init_failed s
          else if negb (PointerRangeInIoMap (zlen (map_of s)) (group_outputs (group c))
                          (group_Obytes (group c))) ||
                  negb (PointerRangeInIoMap (zlen (map_of s)) (group_inputs (group c))
                          (group_Ibytes (group c)))
          then init_failed s
          else
            let clockFails :=
              if_distributedClock configuration &&
              (negb (init_configdc io) || negb (group_hasdc (group c)) ||
               (cyclePeriod * 1000 <=? 0) || (U32_MAX <? cyclePeriod * 1000)) in
            if clockFails then init_failed s
            else
              let s :=
                if if_distributedClock configuration then
                  set_error_bits RealtimeDistributedClockUnlocked
                    (with_published (fun p => set_clock false (realtimeErrorBits p) p)
                       (with_private (fun p => set_dc true (Dc.Reset (dcController p)) p) s))
                else s in
              let s := with_published (set_busState SafeOperational) s in
              let s := fold_left exchange (transition_inputs io) s in
              if negb (init_operational io) then init_failed s
              else
                (with_published
                   (fun p => set_busState Operational
                               (set_faults 0 (set_topology (to_u16 (slavecount c)) (topology p) p)))
                   s, true)
      end.

(** *** The actions *)

(** [workingCounter >= expectedWorkingCounter_]. *)
Definition confirmed (s : bus) (workingCounter : Z) : bool :=
  expectedWorkingCounter (private s) <=? workingCounter.

Definition resume (k : after_fault) : pc :=
  match k with
  | ToFaultState => AtFaultState
  | ToClose => AtClose
  | ToInitialize => AtInitialize
  end.

Definition publish (io : Io) (s : bus) : bus :=
  let '(q, cursor) :=
    PublishInputs (context (private s)) (map_of s) busIndex (epoch_of s)
      (cycleSequence (published s)) (inputChunkCursor (private s)) (inputChunks s) in
  with_chunks q
    (with_private (fun p => set_publication (observedInputPublicationPeriod p)
                              (to_u64 (io_micros io + io_publicationPeriod io)) cursor p) s).

(** The next action of the bus thread. *)
Definition worker (io : Io) (s : bus) : bus :=
  match worker_pc s with
  | AtStart =>
      goto AtRun (with_published
                    (fun p => set_clock (distributedClockSynchronized p) (io_realtimeErrorBits io) p) s)
  | AtRun =>
      if negb (running (shared s)) then
        goto AtStopped (CloseContext true (io_received io)
                          (with_published (set_busState Stopping) s))
      else if negb (linkUp (shared s)) then with_published (set_busState WaitingForLink) s
      else if attemptedInitialization (private s) then goto (AtRaise Reinitialize ToInitialize) s
      else goto AtInitialize s
  | AtInitialize =>
      let s := with_private (set_attempted true) s in
      let s := with_published (set_reinitializing true) s in
      match Initialize (io_init io) s with
      | (s, true) => goto AtEnter (with_published (set_reinitializing false) s)
      | (s, false) =>
          goto AtRun (with_published (fun p => set_busState Fault (set_reinitializing false p)) s)
      end
  | AtEnter =>
      if negb (io_clock io)
      then goto (AtRaise ProcessDataFault ToClose) (set_error_bits RealtimeClockError s)
      else goto AtLoop
             (with_private (fun p => set_misses 0 (set_publication 0 0 (inputChunkCursor p) p)) s)
  | AtLoop =>
      if running (shared s) && linkUp (shared s) &&
         bool_decide (busState (published s) = Operational)
      then goto AtWake s else goto AtExit s
  | AtWake =>
      if negb (io_clock io)
      then goto (AtRaise ProcessDataFault ToClose) (set_error_bits RealtimeClockError s)
      else goto AtEpoch
             (if io_reset io then with_published (set_lostFrames 0) s else s)
  | AtEpoch =>
      let activeEpoch := epoch_of s in
      if negb (activeEpoch =? observed s)
      then goto (AtPermitted true)
             (withdraw_outputs (with_private (set_observed activeEpoch) s))
      else goto AtApplyEpoch s
  | AtApplyEpoch => goto (AtApplyPermitted (epoch_of s)) s
  | AtApplyPermitted epoch =>
      let permitted := outputsPermitted (shared s) in
      let now := io_micros io in
      goto (AtDrain epoch permitted now)
        (if permitted && negb (outputsWerePermitted (out (private s)))
         then with_private
                (fun p => set_out (open_outputs (contextOpen p) (context p) now (out p)) p) s
         else s)
  | AtDrain epoch permitted now =>
      match TryPop kMaximumOutputCommands (outputCommands s) with
      | (q, None) => goto AtFreshness (with_commands q s)
      | (q, Some command) =>
          with_commands q
            (with_private
               (fun p => set_out (apply_command (context p) outputCommandTimeout epoch permitted
                                    now command (out p)) p) s)
      end
  | AtFreshness =>
      goto (AtPermitted false)
        (with_private
           (fun p => set_out (EnforcePerSubDeviceFreshness (context p) outputCommandTimeout
                                (outputsPermitted (shared s)) (io_micros io) (out p)) p) s)
  | AtPermitted barrier =>
      goto (AtRecheckEpoch barrier)
        (if barrier || negb (outputsPermitted (shared s)) then withdraw_outputs s else s)
  | AtRecheckEpoch barrier =>
      let transmitEpoch := epoch_of s in
      if negb (transmitEpoch =? observed s)
      then goto (AtRecheckPermitted true)
             (withdraw_outputs (with_private (set_observed transmitEpoch) s))
      else goto (AtRecheckPermitted barrier) s
  | AtRecheckPermitted barrier =>
      goto (AtRecheckGlobal barrier)
        (if negb (outputsPermitted (shared s)) then withdraw_outputs s else s)
  | AtRecheckGlobal barrier =>
      goto (AtSend barrier)
        (if globalFaultedEpoch (shared s) =? observed s then withdraw_outputs s else s)
  | AtSend barrier =>
      let sent := io_sent io in
      let workingCounter := if 0 <? sent then io_workingCounter io else -1 in
      let s := send ((0 <? sent) && confirmed s workingCounter) s in
      goto (AtAcknowledge barrier sent workingCounter)
        (if 0 <? sent then receive_inputs (io_received io) s else s)
  | AtAcknowledge barrier sent workingCounter =>
      goto (AtCount workingCounter)
        (if barrier && (0 <? sent) && confirmed s workingCounter && (epoch_of s =? observed s)
         then with_shared (set_safetyEpochApplied (observed s)) s else s)
  | AtCount workingCounter =>
      let s := with_published
                 (fun p => set_cycleSequence (SaturatingIncrement U64_MAX (cycleSequence p)) p) s in
      if negb (confirmed s workingCounter) then
        let s := with_published
                   (fun p => set_lostFrames (SaturatingIncrement U64_MAX (lostFrames p)) p) s in
        let misses := to_u32 (consecutiveWorkingCounterMisses (private s) + 1) in
        let s := with_private (set_misses misses) s in
        if 3 <=? misses then goto AtFaultSend s else goto (AtClock workingCounter) s
      else goto (AtClock workingCounter) (with_private (set_misses 0) s)
  | AtClock workingCounter =>
      if confirmed s workingCounter && dcConfigured (private s) then
        let '(adjustment, dc) := Dc.Update (dcController (private s)) (io_DCtime io) in
        let s := with_private (set_dc (dcConfigured (private s)) dc) s in
        let s := with_published
                   (fun p => set_clock (Dc.synchronized adjustment)
                      (if Dc.synchronized adjustment
                       then Z.land (realtimeErrorBits p)
                              (to_u8 (Z.lnot RealtimeDistributedClockUnlocked))
                       else Z.lor (realtimeErrorBits p) RealtimeDistributedClockUnlocked) p) s in
        if Dc.fault adjustment then goto AtFaultSend s else goto (AtPublish workingCounter) s
      else goto (AtPublish workingCounter) s
  | AtPublish workingCounter =>
      let period := io_publicationPeriod io in
      let s :=
        if negb (period =? observedInputPublicationPeriod (private s))
        then with_private (fun p => set_publication period
               (if period =? 0 then 0 else to_u64 (io_micros io + period)) (inputChunkCursor p) p) s
        else s in
      let s :=
        if confirmed s workingCounter && negb (period =? 0) &&
           (nextInputPublication (private s) <=? io_micros io)
        then publish io s else s in
      if negb (io_clock io)
      then goto (AtRaise ProcessDataFault ToClose) (set_error_bits RealtimeClockError s)
      else goto AtLoop s
  | AtFaultSend =>
      let s := with_published (set_faults 1) s in
      let s := with_shared (set_outputsPermitted false) s in
      goto (AtRaise ProcessDataFault ToFaultState) (send false (zero_outputs s))
  | AtRaise reason k => goto (AtRaiseOwn reason k (epoch_of s)) s
  | AtRaiseOwn reason k epoch =>
      goto (AtRaiseGlobal reason k epoch) (with_shared (set_faultedEpoch epoch) s)
  | AtRaiseGlobal reason k epoch =>
      goto (AtRaiseWithdraw reason k) (with_shared (set_globalFaultedEpoch epoch) s)
  | AtRaiseWithdraw reason k =>
      goto (AtRaiseReport reason k) (with_shared (set_outputsPermitted false) s)
  | AtRaiseReport reason k => goto (resume k) (with_shared (set_report reason) s)
  | AtFaultState => goto AtClose (with_published (set_busState Fault) s)
  | AtExit => if negb (linkUp (shared s)) then goto (AtRaise LinkLoss ToClose) s else goto AtClose s
  | AtClose => goto AtRun (CloseContext true (io_received io) s)
  | AtStopped => s
  end.

(** ** The interleaving *)

(** What the hardware layer guarantees of its answers: received data are bytes, and a
    context that SOEM filled in has the layout [soem_layout]. *)
Definition io_ok (io : Io) : Prop :=
  bytes_ok (io_received io) /\ Forall bytes_ok (init_received (io_init io)) /\
  soem_layout (init_context (io_init io)).

(** One action of either thread. The main thread's [SetSafety] is four actions; the epochs
    it passes are those of the safety gate, which never go back. *)
Inductive step (s : bus) : bus -> Prop :=
| step_worker io : io_ok io -> step s (worker io s)
| step_set_epoch epoch permitted :
    main s = MainIdle -> epoch_of s <= epoch ->
    step s (with_main (MainLoadOwn epoch permitted) (with_shared (set_safetyEpoch epoch) s))
| step_load_own epoch permitted :
    main s = MainLoadOwn epoch permitted ->
    step s (with_main (MainLoadGlobal epoch permitted (faultedEpoch (shared s) =? epoch)) s)
| step_load_global epoch permitted latched :
    main s = MainLoadGlobal epoch permitted latched ->
    step s (with_main (MainStore (permitted &&
              negb (latched || (globalFaultedEpoch (shared s) =? epoch)))) s)
| step_store_permitted permitted :
    main s = MainStore permitted ->
    step s (with_main MainIdle (with_shared (set_outputsPermitted permitted) s))
| step_queue command q :
    main s = MainIdle -> command_typed command ->
    TryPush kMaximumOutputCommands (outputCommands s) command = (q, true) ->
    step s (with_accepted command (with_commands q s))
| step_queue_full command q :
    main s = MainIdle ->
    TryPush kMaximumOutputCommands (outputCommands s) command = (q, false) ->
    step s (with_commands q s)
| step_link_down :
    step s (with_shared (fun h => set_linkUp false (set_outputsPermitted false h)) s)
| step_link_up : step s (with_shared (set_linkUp true) s)
| step_stop : step s (with_shared (fun h => set_running false (set_outputsPermitted false h)) s)
| step_other_fault epoch : step s (with_shared (set_globalFaultedEpoch epoch) s).

Inductive steps : bus -> bus -> Prop :=
| steps_refl s : steps s s
| steps_next s s1 s2 : steps s s1 -> step s1 s2 -> steps s s2.

(** The bus after [Start]: the queue may still hold commands of an earlier run. *)
Definition started (s : bus) : Prop :=
  worker_pc s = AtStart /\ main s = MainIdle /\ sent s = [] /\
  (exists l, represents kMaximumOutputCommands (outputCommands s) l /\ accepted s = l /\
     Forall command_typed l) /\
  safetyEpochApplied (shared s) = 0 /\ 0 <= epoch_of s /\
  contextAttempted (private s) = false /\ contextOpen (private s) = false /\
  observed s = 0 /\
  zlen (lastOutputCommandUs (out (private s))) = EC_MAXSLAVE /\
  zlen (staleOutput (out (private s))) = EC_MAXSLAVE /\
  zlen (outputSizes (topology (published s))) = EC_MAXSLAVE /\
  zlen (outputBits (topology (published s))) = EC_MAXSLAVE.

Definition reached (s : bus) : Prop := exists s0, started s0 /\ steps s0 s.

(** ** Where the outputs in the map come from *)

(** Every SubDevice shows zeros or the image of a command that satisfies [P]. *)
Definition image_from (P : OutputCommand -> Prop) (c : ecx_contextt) (m : bytes) : Prop :=
  forall a, a ∈ indices c ->
    shows m (slave c a) [] \/
    exists x, P x /\ subDeviceIndex x = a /\ shows m (slave c a) (command_data x).

Lemma image_from_zero P c m : all_zero c m -> image_from P c m.
Proof using Type. intros H a Ha. left. by apply H. Qed.

Lemma image_from_weaken (P Q : OutputCommand -> Prop) c m :
  (forall x, P x -> Q x) -> image_from P c m -> image_from Q c m.
Proof using Type. intros H Hm a Ha. destruct (Hm a Ha) as [|(x & ? & ? & ?)]; eauto 10. Qed.

Lemma image_from_apply P c o epoch permitted now x :
  soem_layout c -> outputs_ok c o -> command_typed x ->
  (command_epoch x = epoch -> P x) -> image_from P c (ioMap o) ->
  let o' := apply_command c outputCommandTimeout epoch permitted now x o in
  outputs_ok c o' /\ image_from P c (ioMap o') /\ zlen (ioMap o') = zlen (ioMap o).
Proof using Type.
  intros Hl Ho [Hx1 Hx2] HP Hm.
  destruct (apply_command_cases c Hl outputCommandTimeout epoch now o permitted x Ho Hx1 Hx2)
    as (Ho' & Hz & _ & Hcase). split_and!; [done| |done].
  destruct Hcase as [[-> _]|(_ & Hin & (He & _) & Hcar & _)]; [done|].
  intros a Ha. destruct (Z.eq_dec (subDeviceIndex x) a) as [<-|Hne].
  - right. exists x. split_and!; [by apply HP|done|by eapply carries_shows].
  - destruct (Hm a Ha) as [Hs|(y & ? & ? & Hs)].
    + left. eapply carries_layout; [done|exact Hin|done|done|done|done].
    + right. exists y. split_and!; [done|done|].
      eapply carries_layout; [done|exact Hin|done|done|done|done].
Qed.

Lemma image_from_preserved P c m m' :
  (forall a image, a ∈ indices c -> shows m (slave c a) image ->
     shows m' (slave c a) image \/ shows m' (slave c a) []) ->
  image_from P c m -> image_from P c m'.
Proof using Type.
  intros H Hm a Ha. destruct (Hm a Ha) as [Hs|(x & ? & ? & Hs)];
    apply H in Hs as [|]; eauto 10.
Qed.

Lemma image_from_enforce P c o permitted now :
  soem_layout c -> outputs_ok c o -> image_from P c (ioMap o) ->
  let o' := EnforcePerSubDeviceFreshness c outputCommandTimeout permitted now o in
  outputs_ok c o' /\ image_from P c (ioMap o') /\ zlen (ioMap o') = zlen (ioMap o).
Proof using Type.
  intros Hl Ho Hm. destruct permitted; [|done].
  destruct (enforce_spec c Hl outputCommandTimeout now o Ho) as (Ho' & Hz & _ & _ & _ & H).
  split_and!; [done| |done]. eapply image_from_preserved; [|done].
  intros a image Ha Hs. specialize (H a Ha). destruct (expired _ _ _ _); destruct H; auto.
Qed.

(** ** The invariant *)

(** [x] was accepted under epoch [e]. *)
Definition from (s : bus) (e : Z) (x : OutputCommand) : Prop :=
  x ∈ accepted s /\ command_epoch x = e.

(** The map carries only commands of the observed epoch. *)
Definition clean (s : bus) : Prop :=
  image_from (from s (observed s)) (context (private s)) (map_of s).

(** While commands are applied, the epoch read for them may be newer than the observed
    one. *)
Definition mixed (s : bus) (e : Z) : Prop :=
  observed s <= e <= epoch_of s /\
  image_from (fun x => from s (observed s) x \/ from s e x) (context (private s)) (map_of s).

Definition zeroed (s : bus) : Prop := all_zero (context (private s)) (map_of s).

Definition leads_to_open (k : after_fault) : bool :=
  match k with ToInitialize => false | _ => true end.

(** The actions during which the context is open. *)
Definition opened (p : pc) : bool :=
  match p with
  | AtStart | AtRun | AtInitialize | AtStopped => false
  | AtRaise _ k | AtRaiseOwn _ k _ | AtRaiseGlobal _ k _ | AtRaiseWithdraw _ k
  | AtRaiseReport _ k => leads_to_open k
  | _ => true
  end.

(** What is known of the outputs before each action. *)
Definition local (s : bus) : Prop :=
  match worker_pc s with
  | AtApplyPermitted e | AtDrain e _ _ => mixed s e
  | AtFreshness | AtPermitted false | AtRecheckEpoch false => exists e, mixed s e
  | AtPermitted true | AtRecheckEpoch true | AtRecheckPermitted true | AtRecheckGlobal true
  | AtSend true => zeroed s
  | AtAcknowledge true n w =>
      clean s /\ exists f, f ∈ sent s /\ frame_epoch f = observed s /\
        all_zero (frame_context f) (frame_map f) /\
        frame_confirmed f = (0 <? n) && confirmed s w
  | p => if opened p then clean s else True
  end.

Definition sized (o : OutputState) : Prop :=
  zlen (lastOutputCommandUs o) = EC_MAXSLAVE /\ zlen (staleOutput o) = EC_MAXSLAVE.

Definition topology_sized (t : TopologyState) : Prop :=
  zlen (outputSizes t) = EC_MAXSLAVE /\ zlen (outputBits t) = EC_MAXSLAVE.

Definition frame_ok (s : bus) (f : frame) : Prop :=
  image_from (from s (frame_epoch f)) (frame_context f) (frame_map f).

Definition confirmed_zero (s : bus) (e : Z) : Prop :=
  exists f, f ∈ sent s /\ frame_epoch f = e /\ all_zero (frame_context f) (frame_map f) /\
    frame_confirmed f = true.

Definition frame_zero (f : frame) : Prop := all_zero (frame_context f) (frame_map f).

(** The last frame, if there is one, has no output set. *)
Definition last_zero (fs : list frame) : Prop := forall f, last fs = Some f -> frame_zero f.

Lemma last_zero_app fs gs : last_zero fs -> Forall frame_zero gs -> last_zero (fs ++ gs).
Proof using Type.
  intros Hf Hg f Hl. rewrite last_app in Hl. destruct (last gs) as [g|] eqn:E; [|by apply Hf].
  injection Hl as <-. apply last_Some_elem_of in E. by eapply Forall_forall in Hg.
Qed.

(** The sizes the main thread checks a write against are those of the open context. *)
Definition published_agrees (s : bus) : Prop :=
  agrees (context (private s)) (subDeviceCount (published s)) (topology (published s)).

Record inv (s : bus) : Prop := {
  inv_queue : exists l, represents kMaximumOutputCommands (outputCommands s) l /\
    Forall (fun x => x ∈ accepted s /\ command_typed x) l;
  inv_observed : observed s <= epoch_of s;
  inv_sized : sized (out (private s));
  inv_topology : topology_sized (topology (published s));
  inv_attempted : contextAttempted (private s) = opened (worker_pc s);
  inv_open : contextOpen (private s) = opened (worker_pc s);
  inv_layout : opened (worker_pc s) = true ->
    soem_layout (context (private s)) /\ outputs_ok (context (private s)) (out (private s));
  inv_local : local s;
  inv_sent : Forall (frame_ok s) (sent s);
  inv_applied : safetyEpochApplied (shared s) = 0 \/
    confirmed_zero s (safetyEpochApplied (shared s));
  inv_parked : opened (worker_pc s) = false -> last_zero (sent s);
  inv_agreed : opened (worker_pc s) = true -> published_agrees s
}.

(** *** Sizes *)

Lemma sized_apply c epoch permitted now x o :
  sized o -> sized (apply_command c outputCommandTimeout epoch permitted now x o).
Proof using Type.
  intros [H1 H2]. unfold apply_command.
  destruct (_ || _); [done|]. destruct (too_old _ _ _); [done|].
  destruct (write_slave _ _ _ _); [|done]. unfold sized. cbn. by rewrite !zlen_store_at.
Qed.

Lemma sized_enforce c permitted now o :
  sized o -> sized (EnforcePerSubDeviceFreshness c outputCommandTimeout permitted now o).
Proof using Type.
  intros H. unfold EnforcePerSubDeviceFreshness. destruct permitted; [cbn [negb]|done].
  assert (forall todo o n, sized o ->
    sized (fst (fold_left (enforce_slave c outputCommandTimeout now) todo (o, n)))) as Hf.
  { intros todo. induction todo as [|a todo IH]; intros o' n Ho; [done|]. cbn [fold_left].
    unfold enforce_slave at 2. destruct (outputs (slave c a)); [|by apply IH].
    destruct (_ =? 0); [by apply IH|]. apply IH. destruct (too_old _ _ _); [|done].
    destruct Ho. unfold sized. cbn. by rewrite zlen_store_at. }
  specialize (Hf (indices c) o 0 H). destruct (fold_left _ _ _) as [o' n]. exact Hf.
Qed.

Lemma zlen_map {A B} (f : A -> B) l : zlen (map f l) = zlen l.
Proof using Type. unfold zlen. by rewrite length_map. Qed.

Lemma sized_withdraw b c o : sized o -> sized (withdraw b c o).
Proof using Type. done. Qed.

Lemma sized_open b c now o : sized o -> sized (open_outputs b c now o).
Proof using Type. intros [H1 H2]. unfold sized. cbn. by rewrite !zlen_fill. Qed.

(** *** Frames and commands only accumulate *)

Lemma from_mono s s' e x : (forall x, x ∈ accepted s -> x ∈ accepted s') -> from s e x -> from s' e x.
Proof using Type. intros H [? ?]. split; auto. Qed.

Lemma frame_ok_mono s s' f :
  (forall x, x ∈ accepted s -> x ∈ accepted s') -> frame_ok s f -> frame_ok s' f.
Proof using Type. intros H. apply image_from_weaken. intros x. by apply from_mono. Qed.

Lemma frames_mono s s' fs :
  (forall x, x ∈ accepted s -> x ∈ accepted s') -> Forall (frame_ok s) fs -> Forall (frame_ok s') fs.
Proof using Type.
  intros H Hf. eapply Forall_impl; [exact Hf|]. intros f. by apply frame_ok_mono.
Qed.

Lemma confirmed_zero_mono s s' e :
  (forall f, f ∈ sent s -> f ∈ sent s') -> confirmed_zero s e -> confirmed_zero s' e.
Proof using Type. intros H (f & Hf & ?). exists f. auto. Qed.

(** *** Actions that leave the outputs alone *)

(** [s'] has the outputs, the queue and the history of [s]; its epoch may be newer. *)
Record same_outputs (s s' : bus) : Prop := {
  same_commands : outputCommands s' = outputCommands s;
  same_accepted : accepted s' = accepted s;
  same_sent : sent s' = sent s;
  same_epoch : epoch_of s <= epoch_of s';
  same_applied : safetyEpochApplied (shared s') = safetyEpochApplied (shared s);
  same_context : context (private s') = context (private s);
  same_attempted : contextAttempted (private s') = contextAttempted (private s);
  same_open : contextOpen (private s') = contextOpen (private s);
  same_out : out (private s') = out (private s);
  same_observed : observed s' = observed s;
  same_topology : topology (published s') = topology (published s);
  same_count : subDeviceCount (published s') = subDeviceCount (published s)
}.

Lemma same_clean s s' : same_outputs s s' -> clean s -> clean s'.
Proof using Type.
  intros H. unfold clean, map_of. rewrite (same_context _ _ H), (same_out _ _ H), (same_observed _ _ H).
  apply image_from_weaken. intros x. apply from_mono. by rewrite (same_accepted _ _ H).
Qed.

Lemma same_mixed s s' e : same_outputs s s' -> mixed s e -> mixed s' e.
Proof using Type.
  intros H [He Hm]. unfold mixed, map_of in *.
  rewrite (same_context _ _ H), (same_out _ _ H), (same_observed _ _ H).
  pose proof (same_epoch _ _ H). split; [lia|]. revert Hm. apply image_from_weaken.
  intros x [Hx|Hx]; [left|right]; (eapply from_mono; [|exact Hx]);
    by rewrite (same_accepted _ _ H).
Qed.

Lemma same_zeroed s s' : same_outputs s s' -> zeroed s -> zeroed s'.
Proof using Type.
  intros H. unfold zeroed, map_of. by rewrite (same_context _ _ H), (same_out _ _ H).
Qed.

Lemma zeroed_clean s : zeroed s -> clean s.
Proof using Type. apply image_from_zero. Qed.

Lemma clean_mixed s e : observed s <= e <= epoch_of s -> clean s -> mixed s e.
Proof using Type. intros He Hc. split; [done|]. revert Hc. apply image_from_weaken. auto. Qed.

Lemma inv_same s s' :
  inv s -> same_outputs s s' -> opened (worker_pc s') = opened (worker_pc s) -> local s' -> inv s'.
Proof using Type.
  intros Hi H Hp Hl. destruct Hi. split.
  - by rewrite (same_commands _ _ H), (same_accepted _ _ H).
  - pose proof (same_epoch _ _ H). rewrite (same_observed _ _ H). lia.
  - by rewrite (same_out _ _ H).
  - by rewrite (same_topology _ _ H).
  - by rewrite (same_attempted _ _ H), Hp.
  - by rewrite (same_open _ _ H), Hp.
  - by rewrite (same_context _ _ H), (same_out _ _ H), Hp.
  - done.
  - rewrite (same_sent _ _ H). eapply frames_mono; [|done]. by rewrite (same_accepted _ _ H).
  - rewrite (same_applied _ _ H). destruct inv_applied0 as [|Hz]; [by left|right].
    eapply confirmed_zero_mono; [|done]. by rewrite (same_sent _ _ H).
  - by rewrite (same_sent _ _ H), Hp.
  - unfold published_agrees. by rewrite (same_context _ _ H), (same_topology _ _ H), (same_count _ _ H), Hp.
Qed.

(** *** Actions that change the outputs *)

(** [s'] is [s] with new outputs, a newly observed epoch and possibly fewer queued
    commands. *)
Record new_outputs (s s' : bus) (o : OutputState) : Prop := {
  new_accepted : accepted s' = accepted s;
  new_sent : sent s' = sent s;
  new_shared : shared s' = shared s;
  new_context : context (private s') = context (private s);
  new_attempted : contextAttempted (private s') = contextAttempted (private s);
  new_open : contextOpen (private s') = contextOpen (private s);
  new_out : out (private s') = o;
  new_topology : topology (published s') = topology (published s);
  new_pc : opened (worker_pc s') = true;
  new_count : subDeviceCount (published s') = subDeviceCount (published s)
}.

Lemma inv_new s s' o :
  inv s -> opened (worker_pc s) = true -> new_outputs s s' o ->
  (exists l, represents kMaximumOutputCommands (outputCommands s') l /\
     Forall (fun x => x ∈ accepted s /\ command_typed x) l) ->
  observed s' <= epoch_of s -> outputs_ok (context (private s)) o -> sized o -> local s' ->
  inv s'.
Proof using Type.
  intros Hi Hop H Hq Hob Hok Hsz Hl. destruct Hi. destruct H as [E1 E2 E3 E4 E5 E6 E7 E8 E9 E10].
  split; rewrite ?E1, ?E2, ?E3, ?E4, ?E5, ?E6, ?E7, ?E8, ?E9; try done.
  - unfold epoch_of in *. by rewrite E3.
  - congruence.
  - congruence.
  - intros _. split; [by apply inv_layout0|done].
  - eapply frames_mono; [|done]. by rewrite E1.
  - destruct inv_applied0 as [|Hz]; [by left|right]. eapply confirmed_zero_mono; [|done].
    by rewrite E2.
  - intros _. unfold published_agrees. rewrite E4, E8, E10. by apply inv_agreed0.
Qed.

(** *** The bus thread preserves the invariant *)

#[local] Arguments ZeroOutputs : simpl never.
#[local] Arguments withdraw : simpl never.
#[local] Arguments open_outputs : simpl never.
#[local] Arguments apply_command : simpl never.
#[local] Arguments EnforcePerSubDeviceFreshness : simpl never.
#[local] Arguments receive : simpl never.
#[local] Arguments PublishInputs : simpl never.
#[local] Arguments Dc.Update : simpl never.
#[local] Arguments TryPop : simpl never.
#[local] Arguments SaturatingIncrement : simpl never.
#[local] Arguments CloseContext : simpl never.
#[local] Arguments Initialize : simpl never.

(** An action that leaves the outputs alone: the goal left is the local knowledge. *)
Ltac quiet Hpc :=
  eapply inv_same; [eassumption|split; (done || reflexivity)|rewrite Hpc; reflexivity|].

Lemma publish_same io s : same_outputs s (publish io s) /\ worker_pc (publish io s) = worker_pc s.
Proof using Type.
  unfold publish. destruct (PublishInputs _ _ _ _ _ _ _) as [q cursor]. by split; [split|].
Qed.

Lemma same_trans s s1 s2 : same_outputs s s1 -> same_outputs s1 s2 -> same_outputs s s2.
Proof using Type.
  intros H1 H2. pose proof (same_epoch _ _ H1). pose proof (same_epoch _ _ H2).
  split; (destruct H1, H2; congruence || lia).
Qed.

(** The actions after the frame, up to the next cycle. *)
Lemma worker_after_frame io s :
  inv s ->
  match worker_pc s with AtCount _ | AtClock _ | AtPublish _ => inv (worker io s) | _ => True end.
Proof using Type.
  intros Hi. pose proof (inv_local s Hi) as Hl. unfold local in Hl.
  destruct (worker_pc s) eqn:Hpc; try done; cbn in Hl; unfold worker; rewrite Hpc.
  - destruct (negb _); [destruct (3 <=? _)|]; quiet Hpc; exact Hl.
  - destruct (_ && _); [|by quiet Hpc; exact Hl].
    destruct (Dc.Update _ _) as [adjustment dc].
    destruct (Dc.fault adjustment); quiet Hpc; exact Hl.
  - set (s1 := if negb _ then _ else s).
    assert (same_outputs s s1 /\ worker_pc s1 = worker_pc s) as [H1 Hp1].
    { unfold s1. destruct (negb _); by split; [split|]. }
    set (s2 := if _ && _ then publish io s1 else s1).
    assert (same_outputs s s2 /\ worker_pc s2 = worker_pc s) as [H2 Hp2].
    { unfold s2. destruct (_ && _); [|done]. destruct (publish_same io s1) as [H Hp].
      split; [by eapply same_trans|congruence]. }
    clearbody s2. clear s1 H1 Hp1.
    destruct (io_clock io); cbn [negb]; (eapply (inv_same s); [done| |by rewrite Hpc|]).
    + eapply same_trans; [exact H2|by split].
    + eapply same_clean; [|exact Hl]. eapply same_trans; [exact H2|by split].
    + eapply same_trans; [exact H2|by split].
    + eapply same_clean; [|exact Hl]. eapply same_trans; [exact H2|by split].
Qed.

(** Control flow, faults and the loads that start a cycle. *)
Lemma worker_control io s :
  inv s ->
  match worker_pc s with
  | AtStart | AtEnter | AtLoop | AtWake | AtApplyEpoch | AtRaise _ _ | AtRaiseOwn _ _ _
  | AtRaiseGlobal _ _ _ | AtRaiseWithdraw _ _ | AtRaiseReport _ _ | AtFaultState | AtExit
  | AtStopped => inv (worker io s)
  | _ => True
  end.
Proof using Type.
  intros Hi. pose proof (inv_local s Hi) as Hl. unfold local in Hl. pose proof (inv_observed s Hi).
  destruct (worker_pc s) eqn:Hpc; try done; cbn in Hl; unfold worker; rewrite Hpc.
  - quiet Hpc. exact Hl.
  - destruct (negb _); quiet Hpc; exact Hl.
  - destruct (_ && _); quiet Hpc; exact Hl.
  - destruct (negb _); [|destruct (io_reset io)]; quiet Hpc; exact Hl.
  - quiet Hpc. apply (clean_mixed s); [lia|exact Hl].
  - quiet Hpc. exact Hl.
  - quiet Hpc. exact Hl.
  - quiet Hpc. exact Hl.
  - quiet Hpc. exact Hl.
  - destruct k; quiet Hpc; exact Hl.
  - quiet Hpc. exact Hl.
  - destruct (negb _); quiet Hpc; exact Hl.
  - done.
Qed.

Lemma inv_open_facts s :
  inv s -> opened (worker_pc s) = true ->
  contextOpen (private s) = true /\ soem_layout (context (private s)) /\
  outputs_ok (context (private s)) (out (private s)).
Proof using Type.
  intros Hi Hp. destruct (inv_layout s Hi Hp). pose proof (inv_open s Hi). split_and!; congruence || done.
Qed.

(** The outputs are withdrawn, an epoch is observed, and the thread goes on at [p]. *)
Lemma inv_withdraw s e p :
  inv s -> opened (worker_pc s) = true -> opened p = true -> e <= epoch_of s ->
  let s' := goto p (withdraw_outputs (with_private (set_observed e) s)) in
  zeroed s' /\ (local s' -> inv s').
Proof using Type.
  intros Hi Hop Hp He s'. destruct (inv_open_facts s Hi Hop) as (Hopen & Hl & Ho).
  destruct (withdraw_ok _ _ Hl Ho) as (Ho' & Hz & _). rewrite <- Hopen in Ho', Hz.
  split; [exact Hz|]. intros Hloc.
  eapply (inv_new s s' (withdraw (contextOpen (private s)) (context (private s)) (out (private s))));
    try done; [exact (inv_queue s Hi)|exact (inv_sized s Hi)].
Qed.

Lemma withdraw_keeps_epoch s p :
  goto p (withdraw_outputs s)
  = goto p (withdraw_outputs (with_private (set_observed (observed s)) s)).
Proof using Type. by destruct s as [? ? [] ? ? ? ? ? ?]. Qed.

(** The checks before the frame. *)
Lemma worker_checks io s :
  inv s ->
  match worker_pc s with
  | AtPermitted _ | AtRecheckEpoch _ | AtRecheckPermitted _ | AtRecheckGlobal _ =>
      inv (worker io s)
  | _ => True
  end.
Proof using Type.
  intros Hi. pose proof (inv_local s Hi) as Hl. unfold local in Hl. pose proof (inv_observed s Hi) as Hob.
  assert (opened (worker_pc s) = true -> forall p, opened p = true ->
    zeroed (goto p (withdraw_outputs s)) /\
    (local (goto p (withdraw_outputs s)) -> inv (goto p (withdraw_outputs s)))) as Hw.
  { intros Hop p Hp. rewrite withdraw_keeps_epoch. by apply inv_withdraw. }
  destruct (worker_pc s) eqn:Hpc; try done; unfold worker; rewrite Hpc; specialize (Hw eq_refl).
  - destruct (Hw (AtRecheckEpoch barrier) eq_refl) as [Hz Hinv].
    destruct (barrier || _) eqn:E.
    + apply Hinv. unfold local. cbn. destruct barrier; [exact Hz|].
      exists (observed s). apply clean_mixed; [exact (conj (Z.le_refl _) Hob)|by apply zeroed_clean].
    + destruct barrier; [done|]. quiet Hpc. exact Hl.
  - destruct (Z.eqb_spec (epoch_of s) (observed s)) as [He|He]; cbn [negb].
    + quiet Hpc. destruct barrier; [exact Hl|]. destruct Hl as (e & Hr & Hm).
      unfold local. cbn. unfold clean. cbn. revert Hm. apply image_from_weaken.
      intros x [Hx|Hx]; [exact Hx|]. assert (e = observed s) as -> by lia. exact Hx.
    + destruct (inv_withdraw s (epoch_of s) (AtRecheckPermitted true) Hi) as [Hz Hinv];
        [by rewrite Hpc|done|done|]. by apply Hinv.
  - destruct (Hw (AtRecheckGlobal barrier) eq_refl) as [Hz Hinv].
    destruct (negb _); [|by quiet Hpc; destruct barrier; exact Hl].
    apply Hinv. unfold local. cbn. destruct barrier; [exact Hz|by apply zeroed_clean].
  - destruct (Hw (AtSend barrier) eq_refl) as [Hz Hinv].
    destruct (_ =? _); [|by quiet Hpc; destruct barrier; exact Hl].
    apply Hinv. unfold local. cbn. destruct barrier; [exact Hz|by apply zeroed_clean].
Qed.

(** The commands reach the map. *)
Lemma worker_apply io s :
  inv s ->
  match worker_pc s with
  | AtEpoch | AtApplyPermitted _ | AtDrain _ _ _ | AtFreshness => inv (worker io s)
  | _ => True
  end.
Proof using Type.
  intros Hi. pose proof (inv_local s Hi) as Hl. unfold local in Hl. pose proof (inv_observed s Hi) as Hob.
  pose proof (inv_sized s Hi) as Hsz. pose proof (inv_queue s Hi) as Hq.
  assert (opened (worker_pc s) = true -> contextOpen (private s) = true /\
    soem_layout (context (private s)) /\ outputs_ok (context (private s)) (out (private s)))
    as Hfacts by (by apply inv_open_facts).
  destruct (worker_pc s) eqn:Hpc; try done; cbn in Hl; unfold worker; rewrite Hpc;
    destruct (Hfacts eq_refl) as (Hopen & Hlay & Ho); clear Hfacts.
  - destruct (Z.eqb_spec (epoch_of s) (observed s)) as [He|He]; cbn [negb].
    + quiet Hpc. exact Hl.
    + destruct (inv_withdraw s (epoch_of s) (AtPermitted true) Hi) as [Hz Hinv];
        [by rewrite Hpc|done|done|]. by apply Hinv.
  - destruct (_ && _); [|by quiet Hpc; exact Hl].
    destruct (open_outputs_ok _ _ (io_micros io) Hlay Ho) as (Ho' & Hz & _).
    rewrite <- Hopen in Ho', Hz.
    eapply (inv_new s); [done|by rewrite Hpc|by split|done|done|exact Ho'|by apply sized_open|].
    destruct Hl as [He _]. split; [exact He|]. apply image_from_zero. exact Hz.
  - assert (2 <= kMaximumOutputCommands)%nat as H2 by (vm_compute; lia).
    destruct Hq as (l & Hrep & Hall). pose proof (pop_represents _ H2 _ _ Hrep) as Hpop.
    destruct l as [|x l].
    { rewrite Hpop. eapply inv_same; [done|by split|by rewrite Hpc|]. by exists epoch. }
    destruct Hpop as (q & -> & Hrep'). apply Forall_cons in Hall as [[Hx Hty] Hall].
    destruct Hl as [He Hm].
    destruct (image_from_apply _ _ _ epoch permitted now x Hlay Ho Hty
                (fun E => or_intror (conj Hx E)) Hm) as (Ho' & Hm' & _).
    eapply (inv_new s); [done|by rewrite Hpc|split; try done; by cbn; rewrite Hpc| | |exact Ho'
      |by apply sized_apply|].
    + by exists l.
    + exact Hob.
    + unfold local. cbn. rewrite Hpc. split; [exact He|exact Hm'].
  - destruct Hl as (e & He & Hm).
    destruct (image_from_enforce _ _ _ (outputsPermitted (shared s)) (io_micros io) Hlay Ho Hm)
      as (Ho' & Hm' & _).
    eapply (inv_new s); [done|by rewrite Hpc|by split|done|done|exact Ho'|by apply sized_enforce|].
    exists e. split; [exact He|exact Hm'].
Qed.

(** *** Frames *)

Lemma zero_outputs_facts s :
  contextOpen (private s) = true -> soem_layout (context (private s)) ->
  outputs_ok (context (private s)) (out (private s)) ->
  outputs_ok (context (private s)) (out (private (zero_outputs s))) /\ zeroed (zero_outputs s).
Proof using Type.
  intros Hopen Hl Ho. unfold zeroed, zero_outputs, map_of. cbn. rewrite Hopen.
  destruct (ZeroOutputs_spec _ _ Hl (outputs_layout _ _ Ho) (outputs_bytes _ _ Ho))
    as (H1 & H2 & H3).
  split; [|done]. split; cbn; [done|rewrite H2; apply Ho|apply Ho..].
Qed.

Lemma receive_facts s data :
  soem_layout (context (private s)) -> outputs_ok (context (private s)) (out (private s)) ->
  bytes_ok data ->
  outputs_ok (context (private s)) (out (private (receive_inputs data s))) /\
  (forall P, image_from P (context (private s)) (map_of s) ->
     image_from P (context (private s)) (map_of (receive_inputs data s))) /\
  (zeroed s -> zeroed (receive_inputs data s)).
Proof using Type.
  intros Hl Ho Hd. pose proof (outputs_layout _ _ Ho) as Hc. pose proof (outputs_bytes _ _ Ho) as Hb.
  destruct (receive_map _ data _ Hc Hb Hd) as [H1 H2].
  assert (forall a x, a ∈ indices (context (private s)) ->
    shows (map_of s) (slave (context (private s)) a) x ->
    shows (map_of (receive_inputs data s)) (slave (context (private s)) a) x) as Hs.
  { intros a x Ha. by apply receive_spec. }
  split_and!.
  - split; cbn; [done|rewrite H2; apply Ho|apply Ho..].
  - intros P. apply image_from_preserved. auto.
  - intros Hz a Ha. apply Hs; [done|]. by apply Hz.
Qed.

(** After a frame whose content is clean, the history is still right. *)
Lemma sent_ok s f :
  inv s -> frame_ok s f -> Forall (frame_ok s) (sent s ++ [f]).
Proof using Type.
  intros Hi Hf. apply Forall_app. split; [apply (inv_sent s Hi)|by constructor].
Qed.

Lemma applied_more s fs :
  inv s -> safetyEpochApplied (shared s) = 0 \/
    confirmed_zero (with_sent fs s) (safetyEpochApplied (shared s)).
Proof using Type.
  intros Hi. destruct (inv_applied s Hi) as [|Hz]; [by left|right].
  eapply confirmed_zero_mono; [|done]. intros f Hf. cbn. apply elem_of_app. by left.
Qed.

(** [s'] is [s] after the frame [f]. *)
Record framed (s s' : bus) (f : frame) : Prop := {
  framed_commands : outputCommands s' = outputCommands s;
  framed_accepted : accepted s' = accepted s;
  framed_sent : sent s' = sent s ++ [f];
  framed_epoch : epoch_of s' = epoch_of s;
  framed_applied : safetyEpochApplied (shared s') = safetyEpochApplied (shared s);
  framed_context : context (private s') = context (private s);
  framed_attempted : contextAttempted (private s') = contextAttempted (private s);
  framed_open : contextOpen (private s') = contextOpen (private s);
  framed_observed : observed s' = observed s;
  framed_topology : topology (published s') = topology (published s);
  framed_pc : opened (worker_pc s') = true;
  framed_count : subDeviceCount (published s') = subDeviceCount (published s)
}.

Lemma inv_framed s s' f :
  inv s -> opened (worker_pc s) = true -> framed s s' f -> frame_ok s f ->
  outputs_ok (context (private s)) (out (private s')) -> sized (out (private s')) -> local s' ->
  inv s'.
Proof using Type.
  intros Hi Hop H Hf Ho Hsz Hl. destruct H as [E1 E2 E3 E4 E5 E6 E7 E8 E9 E10 E11 E12].
  pose proof (sent_ok s f Hi Hf) as Hsent. pose proof (applied_more s [f] Hi) as Happ. destruct Hi.
  split; rewrite ?E1, ?E2, ?E3, ?E4, ?E5, ?E6, ?E7, ?E8, ?E9, ?E10, ?E11; try done.
  - congruence.
  - congruence.
  - intros _. split; [by apply inv_layout0|done].
  - eapply frames_mono; [|done]. by rewrite E2.
  - destruct Happ as [|Hz]; [by left|right]. eapply confirmed_zero_mono; [|done]. by rewrite E3.
  - intros _. unfold published_agrees. rewrite E6, E10, E12. by apply inv_agreed0.
Qed.

Lemma worker_send io s :
  inv s -> io_ok io ->
  match worker_pc s with
  | AtSend _ | AtAcknowledge _ _ _ | AtFaultSend => inv (worker io s)
  | _ => True
  end.
Proof using Type.
  intros Hi (Hd & _ & _). pose proof (inv_local s Hi) as Hl. unfold local in Hl.
  pose proof (inv_sized s Hi) as Hsz.
  assert (opened (worker_pc s) = true -> contextOpen (private s) = true /\
    soem_layout (context (private s)) /\ outputs_ok (context (private s)) (out (private s)))
    as Hfacts by (by apply inv_open_facts).
  destruct (worker_pc s) eqn:Hpc; try done; unfold worker; rewrite Hpc;
    destruct (Hfacts eq_refl) as (Hopen & Hlay & Ho); clear Hfacts.
  - assert (clean s) as Hc by (destruct barrier; [by apply zeroed_clean|exact Hl]).
    cbn zeta. set (w := if 0 <? io_sent io then io_workingCounter io else -1).
    set (f := mkFrame (observed s) (context (private s)) (map_of s)
                ((0 <? io_sent io) && confirmed s w)).
    destruct (receive_facts s (io_received io) Hlay Ho Hd) as (Ho' & Hkeep & _).
    eapply (inv_framed s _ f); [done|by rewrite Hpc|by destruct (0 <? io_sent io); split|exact Hc
      |by destruct (0 <? io_sent io)|by destruct (0 <? io_sent io)|].
    assert (clean (if 0 <? io_sent io then receive_inputs (io_received io) s else s)) as Hc'.
    { destruct (0 <? io_sent io); [|exact Hc]. apply Hkeep. exact Hc. }
    unfold local. cbn [goto worker_pc]. destruct barrier.
    + split; [by destruct (0 <? io_sent io)|]. exists f. split_and!.
      * assert (f ∈ sent s ++ [f]) by (apply elem_of_app; right; by apply list_elem_of_singleton).
        by destruct (0 <? io_sent io).
      * by destruct (0 <? io_sent io).
      * exact Hl.
      * by destruct (0 <? io_sent io).
    + cbn [opened]. by destruct (0 <? io_sent io).
  - destruct (_ && _ && _ && _) eqn:E.
    2: { quiet Hpc. destruct barrier; [apply Hl|exact Hl]. }
    rewrite !andb_true_iff in E. destruct E as (((-> & E1) & E2) & E3). destruct Hl as [Hc Hz].
    destruct Hi. split; try done; cbn [with_shared goto worker_pc shared set_safetyEpochApplied
      safetyEpochApplied opened]; try (by rewrite Hpc in *).
    right. destruct Hz as (f & ? & ? & ? & Hf). rewrite E1, E2 in Hf. by exists f.
  - set (s1 := with_shared (set_outputsPermitted false) (with_published (set_faults 1) s)).
    destruct (zero_outputs_facts s1 Hopen Hlay Ho) as [Ho' Hz].
    eapply (inv_framed s _ (mkFrame (observed s) (context (private s)) (map_of (zero_outputs s1)) false));
      [done|by rewrite Hpc|by split|by apply image_from_zero|exact Ho'|exact Hsz|].
    apply image_from_zero. exact Hz.
Qed.

(** *** Opening and closing the context *)

(** The part of the invariant that does not depend on where the thread is. *)
Record core (s : bus) : Prop := {
  core_queue : exists l, represents kMaximumOutputCommands (outputCommands s) l /\
    Forall (fun x => x ∈ accepted s /\ command_typed x) l;
  core_observed : observed s <= epoch_of s;
  core_sized : sized (out (private s));
  core_topology : topology_sized (topology (published s));
  core_sent : Forall (frame_ok s) (sent s);
  core_applied : safetyEpochApplied (shared s) = 0 \/
    confirmed_zero s (safetyEpochApplied (shared s))
}.

(** The context is open and its outputs are in order. *)
Definition in_order (s : bus) : Prop :=
  soem_layout (context (private s)) /\ outputs_ok (context (private s)) (out (private s)).

Lemma inv_core s : inv s -> core s.
Proof using Type. by intros []. Qed.

Lemma zero_outputs_core s : core s -> core (zero_outputs s).
Proof using Type. by intros []. Qed.

Lemma exchange_core s data :
  core s -> contextOpen (private s) = true -> in_order s -> bytes_ok data ->
  core (exchange s data) /\ in_order (exchange s data) /\ zeroed (exchange s data) /\
  private (exchange s data) = set_out (out (private (exchange s data))) (private s) /\
  published (exchange s data) = published s.
Proof using Type.
  intros Hc Hopen [Hl Ho] Hd. destruct (zero_outputs_facts s Hopen Hl Ho) as [Ho1 Hz1].
  destruct (receive_facts (send false (zero_outputs s)) data Hl Ho1 Hd) as (Ho2 & _ & Hz2).
  split_and!; [|by split|by apply Hz2|done|done].
  destruct Hc. split; try done.
  - apply Forall_app. split; [done|]. constructor; [|done]. by apply image_from_zero.
  - destruct core_applied0 as [|Hz]; [by left|right].
    eapply confirmed_zero_mono; [|done]. intros f Hf. cbn. apply elem_of_app. by left.
Qed.

Lemma close_stores_core s : core s -> core (close_stores s).
Proof using Type.
  intros []. split; try done.
  - destruct core_sized0. unfold sized. cbn. by rewrite !zlen_map.
  - destruct core_topology0. unfold topology_sized. cbn. by rewrite !zlen_map.
Qed.

Lemma CloseContext_core transmit data s :
  core s -> bytes_ok data ->
  (contextAttempted (private s) = false -> contextOpen (private s) = false) ->
  (transmit = true -> contextOpen (private s) = true -> in_order s) ->
  let s' := CloseContext transmit data s in
  core s' /\ contextAttempted (private s') = false /\ contextOpen (private s') = false.
Proof using Type.
  intros Hc Hd Hatt Hord. apply close_stores_core in Hc as Hc1. unfold CloseContext. cbn zeta.
  set (s1 := close_stores s) in *.
  assert (contextAttempted (private s1) = contextAttempted (private s) /\
          contextOpen (private s1) = contextOpen (private s)) as [Ea Eo] by done.
  destruct (contextAttempted (private s1)) eqn:E; cbn [negb]; [|split_and!; auto; congruence].
  assert (core (if contextOpen (private s1)
                then if transmit then receive_inputs data (send false (zero_outputs s1))
                     else zero_outputs s1 else s1)) as Hc2.
  { destruct (contextOpen (private s1)) eqn:E1; [|done].
    destruct transmit; [|by apply zero_outputs_core].
    destruct (Hord eq_refl) as [Hl Ho]; [congruence|].
    apply (exchange_core s1 data); [done|done| |done]. split; [done|].
    destruct Ho as [? ? ? ?]. split; cbn; rewrite ?zlen_map; done. }
  destruct Hc2. by split_and!.
Qed.

Lemma init_failed_core s :
  core s -> contextAttempted (private s) = true ->
  let '(s', ok) := init_failed s in
  core s' /\ ok = false /\ contextAttempted (private s') = false /\
  contextOpen (private s') = false.
Proof using Type.
  intros Hc Ha. unfold init_failed.
  destruct (CloseContext_core false [] s Hc) as (? & ? & ?); [constructor|congruence|done|].
  by split_and!.
Qed.

Lemma exchange_fold l s :
  core s -> contextOpen (private s) = true -> in_order s -> zeroed s -> Forall bytes_ok l ->
  let s' := fold_left exchange l s in
  core s' /\ in_order s' /\ zeroed s' /\ contextOpen (private s') = true /\
  contextAttempted (private s') = contextAttempted (private s) /\
  context (private s') = context (private s) /\ published s' = published s.
Proof using Type.
  revert s. induction l as [|d l IH]; intros s Hc Hop Hi Hz Hl; [by split_and!|].
  apply Forall_cons in Hl as [Hd Hl]. cbn [fold_left].
  destruct (exchange_core s d Hc Hop Hi Hd) as (Hc1 & Hi1 & Hz1 & _).
  by destruct (IH (exchange s d)) as (? & ? & ? & ? & ? & ? & ?).
Qed.

Lemma validate_slave_sized size a d oc chunks t acc e :
  topology_sized t -> validate_slave configuration size a d (oc, chunks, t) = (acc, e) ->
  topology_sized (snd acc).
Proof using Type.
  intros [H1 H2] H. unfold validate_slave in H.
  repeat (case_match; simplify_eq; try done); unfold topology_sized; cbn; by rewrite !zlen_store_at.
Qed.

Lemma ValidateTopology_sized size c t t' e :
  topology_sized t -> ValidateTopology configuration size c t = (t', e) -> topology_sized t'.
Proof using Type.
  intros Ht. unfold ValidateTopology. destruct (_ && _); [by intros [= <- _]|].
  assert (forall todo oc chunks t acc e', topology_sized t ->
    validate_slaves configuration size c todo (oc, chunks, t) = (acc, e') ->
    topology_sized (snd acc)) as Hs.
  { intros todo. induction todo as [|a todo IH]; intros oc chunks t0 acc e' H0 H;
      cbn [validate_slaves] in H; [by injection H as <- _|].
    destruct (validate_slave _ _ _ _ _) as [[[oc1 chunks1] t1] [e1|]] eqn:E;
      apply validate_slave_sized in E; try done.
    - by injection H as <- _.
    - by eapply IH. }
  destruct (validate_slaves _ _ _ _ _) as [[[oc chunks] t1] [e1|]] eqn:E;
    apply Hs in E; try done.
  - by intros [= <- _].
  - destruct (_ && _); [by intros [= <- _]|]. destruct (_ <? _); by intros [= <- _].
Qed.

Lemma tb_cleared (m : bytes) i : tb (map (fun _ => 0) m) i = false.
Proof using Type.
  assert (map (fun _ => 0) m = replicate (length m) 0) as ->.
  { induction m as [|b m IH]; cbn; [done|by rewrite IH]. }
  apply tb_zeros.
Qed.

Lemma init_reset_core s :
  core s -> contextAttempted (private s) = false -> contextOpen (private s) = false ->
  core (init_reset s) /\ contextAttempted (private (init_reset s)) = true /\
  bytes_ok (map_of (init_reset s)) /\ (forall i, tb (map_of (init_reset s)) i = false).
Proof using Type.
  intros Hc Ha Ho. destruct (CloseContext_core false [] s Hc) as (Hc1 & _ & _); [constructor|done|done|].
  unfold init_reset. set (s1 := CloseContext false [] s) in *. clearbody s1. split_and!; [|done| |].
  - destruct Hc1. split; try done. destruct core_topology0. unfold topology_sized. cbn.
    by rewrite !zlen_map.
  - cbn. apply Forall_fmap, Forall_true. intros b. cbn. unfold in_u8. lia.
  - intros i. apply tb_cleared.
Qed.

(** A context that passed the checks. *)
Lemma init_in_order s c t t' :
  core s -> soem_layout c -> bytes_ok (map_of s) -> context (private s) = c ->
  slavecount c < EC_MAXSLAVE -> topology_sized t ->
  ValidateTopology configuration (zlen (map_of s)) c t = (t', None) ->
  PointerRangeInIoMap (zlen (map_of s)) (group_inputs (group c)) (group_Ibytes (group c)) = true ->
  in_order s.
Proof using Type.
  intros Hc Hl Hb E Hn [Ht1 Ht2] Hv Hg. destruct (core_sized s Hc) as [Hs1 Hs2].
  apply ValidateTopology_ok in Hv as (_ & Hval & _); [|by apply layout_typed|lia|lia].
  split; [by rewrite E|]. rewrite E. split; [done| |lia|lia].
  split; [|done]. intros a Ha. eapply slave_valid_placed; [by apply layout_typed|by apply Hval].
Qed.

(** *** The frames of opening and closing *)

(** The history grows by zero frames only. *)
Definition zero_growth (s s' : bus) : Prop :=
  exists fs, sent s' = sent s ++ fs /\ Forall frame_zero fs.

Lemma zero_growth_refl s s' : sent s' = sent s -> zero_growth s s'.
Proof using Type. intros H. exists []. by rewrite app_nil_r. Qed.

Lemma zero_growth_trans s s1 s2 : zero_growth s s1 -> zero_growth s1 s2 -> zero_growth s s2.
Proof using Type.
  intros (f1 & E1 & H1) (f2 & E2 & H2). exists (f1 ++ f2).
  rewrite E2, E1, app_assoc. by rewrite Forall_app.
Qed.

Lemma exchange_growth s data :
  contextOpen (private s) = true -> in_order s -> zero_growth s (exchange s data).
Proof using Type.
  intros Hop [Hl Ho]. destruct (zero_outputs_facts s Hop Hl Ho) as [_ Hz].
  eexists. split; [done|]. by constructor.
Qed.

Lemma CloseContext_growth transmit data s :
  (transmit = true -> contextOpen (private s) = true -> in_order s) ->
  zero_growth s (CloseContext transmit data s).
Proof using Type.
  intros Hord. unfold CloseContext. cbn zeta.
  destruct (negb _); [by apply zero_growth_refl|].
  destruct (contextOpen (private (close_stores s))) eqn:E; [|by apply zero_growth_refl].
  destruct transmit; [|by apply zero_growth_refl].
  destruct (Hord eq_refl E) as [Hl [? ? ? ?]].
  destruct (exchange_growth (close_stores s) data E) as (fs & H1 & H2).
  { split; [done|]. split; cbn; rewrite ?zlen_map; done. }
  by exists fs.
Qed.

(** The frame that closing an open context sends is a zero frame. *)
Lemma CloseContext_parks data s :
  contextAttempted (private s) = true -> contextOpen (private s) = true -> in_order s ->
  last_zero (sent (CloseContext true data s)).
Proof using Type.
  intros Ha Ho [Hl [? ? ? ?]]. unfold CloseContext. cbn zeta.
  change (contextAttempted (private (close_stores s))) with (contextAttempted (private s)).
  change (contextOpen (private (close_stores s))) with (contextOpen (private s)).
  rewrite Ha, Ho. cbn [negb sent with_published with_private receive_inputs send with_sent].
  intros f. rewrite last_snoc. intros [= <-].
  destruct (zero_outputs_facts (close_stores s) Ho Hl) as [_ Hz]; [|exact Hz].
  split; cbn; rewrite ?zlen_map; done.
Qed.

Lemma zero_growth_last s s' : zero_growth s s' -> last_zero (sent s) -> last_zero (sent s').
Proof using Type. intros (fs & -> & H) Hs. by apply last_zero_app. Qed.

Lemma init_failed_growth s : zero_growth s (fst (init_failed s)).
Proof using Type. by apply (CloseContext_growth false []). Qed.

Lemma exchange_fold_growth l s :
  core s -> contextOpen (private s) = true -> in_order s -> Forall bytes_ok l ->
  zero_growth s (fold_left exchange l s).
Proof using Type.
  revert s. induction l as [|d l IH]; intros s Hc Hop Hi Hl; [by apply zero_growth_refl|].
  apply Forall_cons in Hl as [Hd Hl]. cbn [fold_left].
  destruct (exchange_core s d Hc Hop Hi Hd) as (Hc1 & Hi1 & _ & Hp & _).
  eapply zero_growth_trans; [by apply (exchange_growth s d)|].
  apply IH; [done|by rewrite Hp|done|done].
Qed.

Lemma init_reset_growth s : zero_growth s (init_reset s).
Proof using Type. by apply (CloseContext_growth false []). Qed.

(** What [Initialize] establishes, from [s] to its result. *)
Definition initialized (s s' : bus) (ok : bool) : Prop :=
  core s' /\ contextAttempted (private s') = ok /\ contextOpen (private s') = ok /\
  (ok = true -> in_order s' /\ zeroed s' /\ published_agrees s') /\ zero_growth s s'.

Lemma init_failed_initialized s0 s :
  core s -> contextAttempted (private s) = true -> zero_growth s0 s ->
  let '(s', ok) := init_failed s in initialized s0 s' ok.
Proof using Type.
  intros Hs Has Hg. pose proof (init_failed_core s Hs Has) as H.
  pose proof (init_failed_growth s) as Hg'.
  destruct (init_failed s) as [s' ok]. destruct H as (? & -> & ? & ?).
  split_and!; try done. by eapply zero_growth_trans.
Qed.

Lemma Initialize_core io s :
  core s -> contextAttempted (private s) = false -> contextOpen (private s) = false ->
  Forall bytes_ok (init_received io) -> soem_layout (init_context io) ->
  let '(s', ok) := Initialize io s in initialized s s' ok.
Proof using Type.
  intros Hc Ha Ho Hd Hl. unfold Initialize. cbn zeta.
  destruct (init_reset_core s Hc Ha Ho) as (Hc1 & Ha1 & Hb1 & Hz1).
  pose proof (init_reset_growth s) as Hg1. pose proof (init_failed_initialized s) as Hfail.
  set (s1 := init_reset s) in *. clearbody s1. clear Hc Ha Ho.
  destruct (init_opened io); cbn [negb]; [|by apply Hfail].
  set (c := init_context io) in *. set (s2 := with_private (set_context c true true) s1).
  assert (core s2) as Hc2 by (destruct Hc1; by split).
  destruct ((init_discovered io <=? 0) || _ || _) eqn:E1; [by apply Hfail|].
  destruct ((init_mapped io <? 0) || _ || _) eqn:E2; [by apply Hfail|].
  destruct (ValidateTopology _ _ _ _) as [t [e|]] eqn:Ev.
  { apply Hfail; [|done|done]. destruct Hc2. split; try done. by eapply ValidateTopology_sized. }
  set (s3 := with_private (set_expected _) _).
  assert (core s3) as Hc3.
  { destruct Hc2. split; try done. by eapply ValidateTopology_sized. }
  destruct (_ * 2 + _ <=? 0); [by apply Hfail|].
  destruct (negb (PointerRangeInIoMap _ _ _) || negb _) eqn:E3; [by apply Hfail|].
  destruct (if_distributedClock configuration && _) eqn:E4; [by apply Hfail|].
  set (s4 := with_published (set_busState SafeOperational) _).
  assert (core s4 /\ contextOpen (private s4) = true /\ contextAttempted (private s4) = true /\
    context (private s4) = c /\ map_of s4 = map_of s2 /\ topology (published s4) = t /\
    zero_growth s s4) as (Hc4 & Ho4 & Ha4 & Ec4 & Em4 & Et4 & Hg4).
  { unfold s4. destruct Hc3. destruct (if_distributedClock configuration); by split_and!. }
  clearbody s4.
  assert (in_order s4) as Hi4.
  { eapply (init_in_order s4 c); rewrite ?Em4; try done; [lia|apply (core_topology s2 Hc2)|].
    apply orb_false_iff in E3 as [_ E3]. by apply negb_false_iff in E3. }
  assert (zeroed s4) as Hz4.
  { intros a _ i _ _. rewrite Em4, tb_nil. apply Hz1. }
  assert (Forall bytes_ok (transition_inputs io)) as Hd'
    by (apply Forall_app; split; [by apply Forall_take|apply Forall_replicate; constructor]).
  destruct (exchange_fold _ s4 Hc4 Ho4 Hi4 Hz4 Hd') as (Hc5 & Hi5 & Hz5 & Ho5 & Ha5 & Ec5 & Ep5).
  pose proof (zero_growth_trans _ _ _ Hg4 (exchange_fold_growth _ s4 Hc4 Ho4 Hi4 Hd')) as Hg5.
  destruct (init_operational io); cbn [negb].
  - split_and!; [by destruct Hc5|by cbn; rewrite Ha5|done| |done]. intros _. split_and!; [done|done|].
    unfold published_agrees. cbn. rewrite Ec5, Ep5, Ec4, Et4.
    destruct (core_topology s2 Hc2).
    eapply ValidateTopology_agrees; [exact Hl|exact Ev|unfold to_u16; apply Z.mod_le; lia|lia..].
  - apply Hfail; [done|by rewrite Ha5|done].
Qed.

(** The context is opened or closed. *)
Lemma worker_context io s :
  inv s -> io_ok io ->
  match worker_pc s with AtRun | AtInitialize | AtClose => inv (worker io s) | _ => True end.
Proof using Type.
  intros Hi (Hd & Hdi & Hl). pose proof (inv_core s Hi) as Hc. pose proof (inv_attempted s Hi) as Ha.
  pose proof (inv_open s Hi) as Ho. pose proof (inv_layout s Hi) as Hlay.
  pose proof (inv_parked s Hi) as Hpark.
  destruct (worker_pc s) eqn:Hpc; try done; unfold worker; rewrite Hpc; cbn in Ha, Ho.
  - destruct (negb (running (shared s))).
    { assert (last_zero (sent (CloseContext true (io_received io) (with_published (set_busState Stopping) s)))).
      { eapply zero_growth_last; [apply CloseContext_growth; cbn; by rewrite Ho|by apply Hpark]. }
      destruct (CloseContext_core true (io_received io) (with_published (set_busState Stopping) s))
        as ([] & ? & ?); [by destruct Hc|done|done|by cbn; rewrite Ho|]. by split. }
    destruct (negb _); [|destruct (attemptedInitialization _)];
      (eapply (inv_same s); [done|by split|by cbn; rewrite ?Hpc|unfold local; cbn; by rewrite ?Hpc]).
  - set (s1 := with_published _ _). assert (core s1) as Hc1 by (by destruct Hc).
    pose proof (Initialize_core (io_init io) s1 Hc1 Ha Ho Hdi Hl) as H.
    destruct (Initialize (io_init io) s1) as [s' [|]]; destruct H as ([] & Ha' & Ho' & Hok & Hg).
    + destruct (Hok eq_refl) as ([? ?] & Hz & ?). split; try done. by apply zeroed_clean in Hz.
    + split; try done. intros _. eapply (zero_growth_last s1); [exact Hg|by apply Hpark].
  - pose proof (CloseContext_parks (io_received io) s Ha Ho (Hlay eq_refl)).
    destruct (CloseContext_core true (io_received io) s Hc Hd) as ([] & ? & ?);
      [congruence|intros _ _; by apply Hlay|]. by split.
Qed.

Lemma worker_inv io s : inv s -> io_ok io -> inv (worker io s).
Proof using Type.
  intros Hi Hio.
  pose proof (worker_after_frame io s Hi). pose proof (worker_control io s Hi).
  pose proof (worker_checks io s Hi). pose proof (worker_apply io s Hi).
  pose proof (worker_send io s Hi Hio). pose proof (worker_context io s Hi Hio).
  by destruct (worker_pc s).
Qed.

(** The local knowledge survives whatever the main thread does. *)
Lemma local_transfer s s' :
  worker_pc s' = worker_pc s -> private s' = private s -> sent s' = sent s ->
  (clean s -> clean s') -> (forall e, mixed s e -> mixed s' e) -> (zeroed s -> zeroed s') ->
  local s -> local s'.
Proof using Type.
  intros Hp Hpr Hs Hc Hm Hz. unfold local. rewrite Hp.
  assert ((exists e, mixed s e) -> exists e, mixed s' e) as Hm' by (intros (e & ?); eauto).
  destruct (worker_pc s); cbn [opened]; auto; try (destruct k; by auto);
    try (destruct barrier; by auto).
  destruct barrier; [|by auto]. intros [H1 H2]. split; [by auto|].
  unfold observed, confirmed in *. by rewrite Hpr, Hs.
Qed.

Lemma inv_environment s s' :
  inv s -> same_outputs s s' -> worker_pc s' = worker_pc s -> private s' = private s -> inv s'.
Proof using Type.
  intros Hi H Hp He. eapply inv_same; [done|done|by rewrite Hp|].
  apply (local_transfer s); auto using inv_local, same_sent.
  - by apply same_clean.
  - intros e. by apply same_mixed.
  - by apply same_zeroed.
Qed.

Lemma image_from_more s s' e c m :
  (forall x, x ∈ accepted s -> x ∈ accepted s') ->
  image_from (from s e) c m -> image_from (from s' e) c m.
Proof using Type. intros H. apply image_from_weaken. intros x. by apply from_mono. Qed.

Lemma queued_inv s x q :
  inv s -> command_typed x ->
  TryPush kMaximumOutputCommands (outputCommands s) x = (q, true) ->
  inv (with_accepted x (with_commands q s)).
Proof using Type.
  intros Hi Hx Hpush. assert (2 <= kMaximumOutputCommands)%nat as H2 by (vm_compute; lia).
  assert (forall y, y ∈ accepted s -> y ∈ accepted (with_accepted x (with_commands q s))) as Hmono.
  { intros y Hy. cbn. apply elem_of_app. by left. }
  destruct (inv_queue s Hi) as (l & Hrep & Hall).
  pose proof (push_represents _ H2 _ _ x Hrep) as Hp. destruct (_ <? _)%nat; [|congruence].
  destruct Hp as (q' & Hq & Hrep'). assert (q' = q) as -> by congruence.
  pose proof (inv_local s Hi) as Hl.
  destruct Hi. split; try done.
  - exists (l ++ [x]). split; [done|]. apply Forall_app. split.
    + eapply Forall_impl; [done|]. intros y [Hy ?]. split; [by apply Hmono|done].
    + constructor; [|done]. split; [|done]. cbn. apply elem_of_app. right.
      by apply list_elem_of_singleton.
  - apply (local_transfer s); try done.
    + by apply image_from_more.
    + intros e [He Hm]. split; [done|]. revert Hm. apply image_from_weaken.
      intros y [Hy|Hy]; [left|right]; by eapply from_mono.
  - cbn. by eapply frames_mono.
Qed.

Lemma step_inv s s' : inv s -> step s s' -> inv s'.
Proof using Type.
  intros Hi Hs. destruct Hs; try (by eapply inv_environment; [done|split; done|done|done]).
  - by apply worker_inv.
  - by apply queued_inv.
  - eapply inv_environment; [done| |done|done]. split; try done. cbn.
    unfold TryPush in H0. destruct (_ =? _)%nat; [|done]. by injection H0.
Qed.

Lemma started_inv s : started s -> inv s.
Proof using Type.
  intros (Hp & Hm & Hs & (l & Hl & Ha & Ht) & Hap & He & Hat & Ho & Hob & H1 & H2 & H3 & H4).
  split; rewrite ?Hp, ?Hs; try done.
  - exists l. split; [done|]. rewrite Ha. apply Forall_forall. intros x Hx. split; [done|].
    by eapply Forall_forall in Ht.
  - by rewrite Hob.
  - unfold local. by rewrite Hp.
  - by left.
Qed.

Lemma reached_inv s : reached s -> inv s.
Proof using Type.
  intros (s0 & H0 & Hs). apply started_inv in H0. induction Hs; [done|]. eapply step_inv; [by apply IHHs|done].
Qed.

(** The frames of one action of the bus thread: the map at [AtSend], zeros otherwise. *)
Lemma worker_frames io s :
  inv s -> io_ok io ->
  match worker_pc s with
  | AtSend _ => exists b, sent (worker io s)
      = sent s ++ [mkFrame (observed s) (context (private s)) (map_of s) b]
  | _ => zero_growth s (worker io s)
  end.
Proof using Type.
  intros Hi (Hd & Hdi & Hl). pose proof (inv_core s Hi) as Hc. pose proof (inv_attempted s Hi) as Ha.
  pose proof (inv_open s Hi) as Ho. pose proof (inv_layout s Hi) as Hlay.
  unfold worker. destruct (worker_pc s) eqn:Hpc; cbn in Ha, Ho; cbn zeta;
    try (repeat match goal with
         | |- zero_growth s ?x => match x with context [if ?b then _ else _] => destruct b end
         end; by apply zero_growth_refl).
  - destruct (negb (running _)).
    2: { destruct (negb _); [|destruct (attemptedInitialization _)]; by apply zero_growth_refl. }
    apply (CloseContext_growth true (io_received io) (with_published (set_busState Stopping) s)).
    intros _. cbn. by rewrite Ho.
  - set (s1 := with_published _ _). assert (core s1) as Hc1 by (by destruct Hc).
    pose proof (Initialize_core (io_init io) s1 Hc1 Ha Ho Hdi Hl) as H.
    destruct (Initialize (io_init io) s1) as [s' [|]]; by destruct H as (_ & _ & _ & _ & H).
  - destruct (TryPop _ _) as [q [x|]]; by apply zero_growth_refl.
  - exists ((0 <? io_sent io) && confirmed s (if 0 <? io_sent io then io_workingCounter io else -1)).
    by destruct (0 <? io_sent io).
  - destruct (_ && _); [|by apply zero_growth_refl]. destruct (Dc.Update _ _) as [adjustment dc].
    destruct (Dc.fault adjustment); by apply zero_growth_refl.
  - set (s1 := if negb _ then _ else s). set (s2 := if _ && _ then publish io s1 else s1).
    assert (sent s2 = sent s) as E.
    { unfold s2. destruct (_ && _); [|unfold s1; by destruct (negb _)].
      destruct (publish_same io s1) as [Hp _]. rewrite (same_sent _ _ Hp).
      unfold s1. by destruct (negb _). }
    clearbody s2. destruct (io_clock io); by apply zero_growth_refl.
  - set (s1 := with_shared _ _).
    destruct (Hlay eq_refl) as [Hl1 Ho1].
    destruct (zero_outputs_facts s1 Ho Hl1 Ho1) as [_ Hz]. eexists. split; [done|]. by constructor.
  - apply (CloseContext_growth true (io_received io) s). intros _ _. by apply Hlay.
Qed.

(** The steps during which the latch of the faulted epoch stays at [e]. *)
Inductive latched_steps (e : Z) : bus -> bus -> Prop :=
| latched_refl s : globalFaultedEpoch (shared s) = e -> latched_steps e s s
| latched_next s s1 s2 :
    latched_steps e s s1 -> step s1 s2 -> globalFaultedEpoch (shared s2) = e ->
    latched_steps e s s2.

(** The thread has not yet passed the check of the latch in this cycle. *)
Definition before_check (s : bus) : Prop := forall barrier, worker_pc s <> AtSend barrier.

(** While the latch stays at [e], the frames of epoch [e] are zero, and the one about to be
    sent is. *)
Definition silent (e : Z) (s s' : bus) : Prop :=
  (exists fs, sent s' = sent s ++ fs /\ Forall (fun f => frame_epoch f = e -> frame_zero f) fs) /\
  (forall barrier, worker_pc s' = AtSend barrier -> observed s' = e -> zeroed s').

Lemma silent_environment e s s1 s2 :
  silent e s s1 -> sent s2 = sent s1 -> worker_pc s2 = worker_pc s1 -> private s2 = private s1 ->
  silent e s s2.
Proof using Type.
  intros [(fs & E & H) Hz] Hs Hp Hpr. split.
  - exists fs. by rewrite Hs.
  - unfold zeroed, observed, map_of in *. rewrite Hp, Hpr. exact Hz.
Qed.

Lemma worker_to_send io s barrier :
  inv s -> globalFaultedEpoch (shared s) = observed (worker io s) ->
  worker_pc (worker io s) = AtSend barrier -> zeroed (worker io s).
Proof using Type.
  intros Hi Hg Hp. destruct (worker_pc s) eqn:Hpc; unfold worker in *; rewrite Hpc in *; cbn zeta in *;
    try (exfalso; revert Hp; repeat case_match; cbn; congruence).
  - destruct (globalFaultedEpoch (shared s) =? observed s) eqn:E.
    + rewrite withdraw_keeps_epoch. apply inv_withdraw; [done|by rewrite Hpc|done|apply (inv_observed s Hi)].
    + apply Z.eqb_neq in E. by destruct (E Hg).
  - by destruct k.
Qed.

Lemma silent_worker e io s s1 :
  inv s1 -> io_ok io -> globalFaultedEpoch (shared s1) = e -> silent e s s1 ->
  silent e s (worker io s1).
Proof using Type.
  intros Hi Hio Hg [(fs & E & H) Hz]. split.
  - pose proof (worker_frames io s1 Hi Hio) as Hf. destruct (worker_pc s1) eqn:Hpc;
      try (destruct Hf as (gs & Eg & Hgs); exists (fs ++ gs); rewrite Eg, E, app_assoc;
           split; [done|]; apply Forall_app; split; [done|];
           eapply Forall_impl; [exact Hgs|]; by intros f Hf _).
    destruct Hf as (b & Eb). eexists. rewrite Eb, E, <- app_assoc. split; [done|].
    apply Forall_app. split; [done|]. constructor; [|done]. intros He. by apply (Hz barrier).
  - intros barrier Hp Ho. eapply worker_to_send; [done|congruence|done].
Qed.

Lemma silent_steps e s s' :
  inv s -> before_check s -> latched_steps e s s' -> inv s' /\ silent e s s'.
Proof using Type.
  intros Hi Hb Hs. induction Hs as [s Hg|s s1 s2 Hs IH Hst Hg].
  { split; [done|]. split; [exists []; by rewrite app_nil_r|]. intros b Hp. by destruct (Hb b). }
  destruct (IH Hi Hb) as [Hi1 Hs1]. split; [by eapply step_inv|].
  assert (globalFaultedEpoch (shared s1) = e) as Hg1 by (by destruct Hs).
  destruct Hst; try (by eapply silent_environment; [exact Hs1|done..]).
  by apply silent_worker.
Qed.

End Worker.

(** ** Properties *)

(** C3: the fence at transmission: however the threads interleave, every process-data frame
    that the bus thread hands to the network shows, for each SubDevice, zeros or the image
    of a command that was accepted under the very epoch the frame is sent under. A command
    of an earlier controller generation never reaches the wire. *)
Theorem frames_fenced configuration timeout period index EC_MAXSLAVE s f a :
  reached configuration timeout period index EC_MAXSLAVE s ->
  f ∈ sent s -> a ∈ indices (frame_context f) ->
  shows (frame_map f) (slave (frame_context f) a) [] \/
  exists x, x ∈ accepted s /\ command_epoch x = frame_epoch f /\ subDeviceIndex x = a /\
    shows (frame_map f) (slave (frame_context f) a) (command_data x).
Proof.
  intros Hr Hf Ha. apply reached_inv in Hr. pose proof (inv_sent _ _ Hr) as Hs.
  rewrite Forall_forall in Hs. destruct (Hs f Hf a Ha) as [|(x & [? ?] & ? & ?)]; [by left|right].
  by exists x.
Qed.

(** The epoch barrier: the bus thread reports an epoch as applied (the condition for
    enabling outputs) only after a frame with all outputs zero has been sent under that
    epoch and confirmed by the working counter. *)
Theorem barrier_confirmed configuration timeout period index EC_MAXSLAVE s :
  reached configuration timeout period index EC_MAXSLAVE s ->
  safetyEpochApplied (shared s) <> 0 ->
  exists f, f ∈ sent s /\ frame_epoch f = safetyEpochApplied (shared s) /\
    all_zero (frame_context f) (frame_map f) /\ frame_confirmed f = true.
Proof.
  intros Hr Ha. apply reached_inv in Hr. by destruct (inv_applied _ _ Hr).
Qed.

(** C15: a fault of one bus silences all of them: from the moment the latch of the faulted
    epoch holds [e], and while it does, every further frame that a bus sends under epoch
    [e] has all outputs zero, even if the main thread's SetSafety raced the fault and
    permitted outputs again. (The frame whose check of the latch is already over when the
    latch is set is the one exception.) *)
Theorem fault_silences configuration timeout period index EC_MAXSLAVE e s s' :
  reached configuration timeout period index EC_MAXSLAVE s -> before_check s ->
  latched_steps configuration timeout period index EC_MAXSLAVE e s s' ->
  exists fs, sent s' = sent s ++ fs /\
    Forall (fun f => frame_epoch f = e -> all_zero (frame_context f) (frame_map f)) fs.
Proof.
  intros Hr Hb Hs. apply reached_inv in Hr. eapply silent_steps in Hs; [|done|done].
  destruct Hs as [_ [H _]]. exact H.
Qed.

(** *** A run of the sample bus *)

Definition sample_io : Io :=
  mkIo true 1000 1 3 [0x55] 0 false 0 0
    (mkInitIo true 1 3 sample_context true [[0x11]; [0x22]] true).

Definition sample_start : bus :=
  mkBus (mkShared 5 false 0 0 0 ProcessDataFault 0 true true)
    (mkPublished Starting false 0 sample_topology 0 0 0 false 0)
    (mkPrivate no_context false false
       (mkOutputs [1; 2; 3] false [0; 0; 0] [false; false; false] 0)
       0 0 false (Dc.create 5000000) false 0 0 0 0)
    (empty_ring kMaximumOutputCommands) (empty_ring kMaximumInputChunks) AtStart MainIdle [] [].

Definition sample_worker : Io -> bus -> bus := worker sample_configuration 100 5000 0 3.

(** [n] actions of the bus thread. *)
Fixpoint run_worker (n : nat) (s : bus) : bus :=
  match n with O => s | S n => sample_worker sample_io (run_worker n s) end.

(** The whole of SetSafety, undisturbed. *)
Definition set_safety (epoch : Z) (permitted : bool) (s : bus) : bus :=
  let s1 := with_main (MainLoadOwn epoch permitted) (with_shared (set_safetyEpoch epoch) s) in
  let latched := faultedEpoch (shared s1) =? epoch in
  let s2 := with_main (MainLoadGlobal epoch permitted latched) s1 in
  let allowed := permitted && negb (latched || (globalFaultedEpoch (shared s2) =? epoch)) in
  let s3 := with_main (MainStore allowed) s2 in
  with_main MainIdle (with_shared (set_outputsPermitted allowed) s3).

Abbreviation sample_steps_to := (steps sample_configuration 100 5000 0 3).
Abbreviation sample_step := (step sample_configuration 100 5000 0 3).

Lemma sample_io_ok : io_ok sample_io.
Proof.
  split_and!; [repeat constructor; by vm_compute..|apply sample_layout].
Qed.

Lemma run_worker_steps n s0 s : sample_steps_to s0 s -> sample_steps_to s0 (run_worker n s).
Proof.
  intros H. induction n as [|n IH]; [done|]. eapply steps_next; [exact IH|].
  apply step_worker, sample_io_ok.
Qed.

Lemma set_safety_steps s0 s epoch permitted :
  main s = MainIdle -> epoch_of s <= epoch -> sample_steps_to s0 s ->
  sample_steps_to s0 (set_safety epoch permitted s).
Proof.
  intros Hm He H. eapply steps_next; [eapply steps_next; [eapply steps_next;
    [eapply steps_next; [exact H|by apply (step_set_epoch _ _ _ _ _ _ epoch permitted)]|]|]|].
  - by eapply step_load_own.
  - by eapply step_load_global.
  - by eapply step_store_permitted.
Qed.

Lemma sample_started : started 3 sample_start.
Proof.
  unfold started. split_and!; try done. exists []. split_and!; [|done|constructor].
  apply represents_empty. vm_compute; lia.
Qed.

(** The first cycle is the barrier of epoch 5; then outputs are permitted, a command is
    queued, and the next cycle sends it. *)
Definition sample_barrier : bus := run_worker 16 sample_start.

Definition sample_queued : bus :=
  let s := set_safety 5 true sample_barrier in
  let command := mkCommand 5 1 0 900 [7; 9] in
  with_accepted command
    (with_commands (fst (TryPush kMaximumOutputCommands (outputCommands s) command)) s).

Definition sample_sent : bus := run_worker 13 sample_queued.

Lemma sample_barrier_steps : sample_steps_to sample_start sample_barrier.
Proof. apply run_worker_steps. constructor. Qed.

Lemma sample_queued_steps : sample_steps_to sample_start sample_queued.
Proof.
  unfold sample_queued. cbn zeta. eapply steps_next.
  - apply (set_safety_steps _ sample_barrier 5 true); [by vm_compute|by vm_compute|].
    apply sample_barrier_steps.
  - apply (step_queue _ _ _ _ _ (set_safety 5 true sample_barrier)); [done| |by vm_compute].
    split; [repeat constructor; by vm_compute|done].
Qed.

Lemma sample_sent_steps : sample_steps_to sample_start sample_sent.
Proof. apply run_worker_steps, sample_queued_steps. Qed.

Lemma frames_fenced_witness :
  let f := mkFrame 5 sample_context [7; 9; 0x55] true in
  f ∈ sent sample_sent /\
  (shows [7; 9; 0x55] (slave sample_context 1) [] \/
   exists x, x ∈ accepted sample_sent /\ command_epoch x = 5 /\ subDeviceIndex x = 1 /\
     shows [7; 9; 0x55] (slave sample_context 1) (command_data x)).
Proof.
  intros f. assert (f ∈ sent sample_sent) as Hf.
  { replace (sent sample_sent) with (take 3 (sent sample_sent) ++ [f]) by by vm_compute.
    apply elem_of_app. right. by apply list_elem_of_singleton. }
  split; [done|].
  apply (frames_fenced sample_configuration 100 5000 0 3 sample_sent f 1).
  - exists sample_start. split; [apply sample_started|apply sample_sent_steps].
  - exact Hf.
  - by apply elem_of_indices.
Defined.

Lemma barrier_confirmed_witness :
  exists f, f ∈ sent sample_barrier /\ frame_epoch f = 5 /\
    all_zero (frame_context f) (frame_map f) /\ frame_confirmed f = true.
Proof.
  apply (barrier_confirmed sample_configuration 100 5000 0 3 sample_barrier).
  - exists sample_start. split; [apply sample_started|apply sample_barrier_steps].
  - by vm_compute.
Defined.

(** The command is queued, then another bus faults in epoch 5. *)
Definition sample_latched : bus := with_shared (set_globalFaultedEpoch 5) sample_queued.

Lemma latched_run e n s :
  forallb (fun k => globalFaultedEpoch (shared (run_worker k s)) =? e) (seq 0 (S n)) = true ->
  latched_steps sample_configuration 100 5000 0 3 e s (run_worker n s).
Proof.
  intros H. rewrite forallb_forall in H. induction n as [|n IH].
  - apply latched_refl. apply Z.eqb_eq, (H 0%nat). by left.
  - eapply latched_next; [apply IH|apply step_worker, sample_io_ok|].
    + intros k Hk. apply H. apply in_seq in Hk. apply in_seq. lia.
    + apply Z.eqb_eq, (H (S n)). apply in_seq. lia.
Qed.

Lemma fault_silences_witness :
  exists fs, sent (run_worker 13 sample_latched) = sent sample_latched ++ fs /\
    Forall (fun f => frame_epoch f = 5 -> all_zero (frame_context f) (frame_map f)) fs.
Proof.
  apply (fault_silences sample_configuration 100 5000 0 3 5 sample_latched).
  - exists sample_start. split; [apply sample_started|].
    eapply steps_next; [|apply (step_other_fault _ _ _ _ _ sample_queued 5)].
    apply sample_queued_steps.
  - intros barrier. by vm_compute.
  - apply latched_run. by vm_compute.
Defined.
