(* ===== verification/Threads.v ===== *)
(** The main thread's view of a bus thread: what an action of the thread can change of the
    state both use, and that a thread that is asked to stop does so. *)

From S2P Require Import Prelude Protocol SpscQueue DcSync Realtime Config.
From S2P Require Import IoMap BusIo Cycle.

(** ** What the thread leaves to the main thread *)

(** The epoch is the main thread's, only the main thread permits outputs, accepts commands
    and clears [running_]. *)
Record obeys (s s' : bus) : Prop := {
  obeys_epoch : epoch_of s' = epoch_of s;
  obeys_permitted : outputsPermitted (shared s') = true -> outputsPermitted (shared s) = true;
  obeys_running : running (shared s') = running (shared s);
  obeys_accepted : accepted s' = accepted s;
  obeys_commands : outputCommands s' = outputCommands s;
  obeys_main : main s' = main s
}.

Lemma obeys_refl s : obeys s s.
Proof. by split. Qed.

Lemma obeys_trans s s1 s2 : obeys s s1 -> obeys s1 s2 -> obeys s s2.
Proof. intros [] []. split; try congruence; auto. Qed.

(** A change of anything but the state shared with the main thread. *)
Lemma obeys_local s s' :
  shared s' = shared s -> accepted s' = accepted s -> outputCommands s' = outputCommands s ->
  main s' = main s -> obeys s s'.
Proof. intros H1 H2 H3 H4. split; unfold epoch_of; rewrite ?H1; try done. Qed.

Lemma obeys_goto p s s' : obeys s s' -> obeys s (goto p s').
Proof. by intros []. Qed.

Lemma obeys_published f s s' : obeys s s' -> obeys s (with_published f s').
Proof. by intros []. Qed.

Lemma obeys_private f s s' : obeys s s' -> obeys s (with_private f s').
Proof. by intros []. Qed.

Lemma obeys_shared f s s' :
  (forall h, safetyEpoch (f h) = safetyEpoch h /\
     (outputsPermitted (f h) = true -> outputsPermitted h = true) /\ running (f h) = running h) ->
  obeys s s' -> obeys s (with_shared f s').
Proof.
  intros Hf H. destruct (Hf (shared s')) as (E1 & E2 & E3).
  eapply obeys_trans; [done|]. by split.
Qed.

#[export] Hint Resolve obeys_refl obeys_goto obeys_published obeys_private : ec.

Lemma CloseContext_obeys transmit data s : obeys s (CloseContext transmit data s).
Proof.
  assert (obeys s (close_stores s)) as H by (by split).
  unfold CloseContext. cbn zeta. destruct (negb _); [done|].
  apply obeys_published, obeys_private. destruct (contextOpen _); [|done].
  destruct transmit; eapply obeys_trans; try exact H; by apply obeys_local.
Qed.

Lemma init_failed_obeys s s' : obeys s s' -> obeys s (fst (init_failed s')).
Proof. intros H. eapply obeys_trans; [done|]. apply CloseContext_obeys. Qed.

Lemma exchange_obeys l s : obeys s (fold_left exchange l s).
Proof.
  revert s. induction l as [|x l IH]; intros s; [apply obeys_refl|]. cbn [fold_left].
  eapply obeys_trans; [|apply IH]. by apply obeys_local.
Qed.

Lemma Initialize_obeys configuration cyclePeriod EC_MAXSLAVE io s :
  obeys s (fst (Initialize configuration cyclePeriod EC_MAXSLAVE io s)).
Proof.
  unfold Initialize. cbn zeta. set (s1 := init_reset s).
  assert (obeys s s1) as H1.
  { apply obeys_private, obeys_published. apply CloseContext_obeys. }
  clearbody s1. destruct (negb _); [by apply init_failed_obeys|].
  set (s2 := with_private _ s1). assert (obeys s s2) as H2 by by apply obeys_private.
  clearbody s2. destruct (_ || _ || _); [by apply init_failed_obeys|].
  destruct (_ || _ || _); [by apply init_failed_obeys|].
  destruct (ValidateTopology _ _ _ _) as [t [e|]]; [by apply init_failed_obeys, obeys_published|].
  set (s3 := with_private _ _). assert (obeys s s3) as H3 by by apply obeys_private, obeys_published.
  clearbody s3. destruct (_ <=? 0); [by apply init_failed_obeys|].
  destruct (_ || _); [by apply init_failed_obeys|].
  destruct (_ && _); [by apply init_failed_obeys|].
  set (s4 := if if_distributedClock configuration then _ else s3).
  assert (obeys s s4) as H4.
  { unfold s4. destruct (if_distributedClock _); [|done]. by apply obeys_published, obeys_published, obeys_private. }
  clearbody s4.
  set (s5 := fold_left exchange _ _).
  assert (obeys s s5) as H5.
  { eapply obeys_trans; [|apply exchange_obeys]. by apply obeys_published. }
  clearbody s5.
  destruct (negb _); [by apply init_failed_obeys|by apply obeys_published].
Qed.

Section Stopping.
Context (configuration : InterfaceConfig) (outputCommandTimeout cyclePeriod busIndex : Z).
Context (EC_MAXSLAVE : Z).

Abbreviation act := (worker configuration outputCommandTimeout cyclePeriod busIndex EC_MAXSLAVE).

(** The queue after the action: only [AtDrain] pops. *)
Definition popped (s : bus) : bus :=
  match worker_pc s with
  | AtDrain _ _ _ => with_commands (fst (TryPop kMaximumOutputCommands (outputCommands s))) s
  | _ => s
  end.

Lemma publish_obeys io s : obeys s (publish busIndex io s).
Proof using Type.
  unfold publish. destruct (PublishInputs _ _ _ _ _ _ _) as [q cursor]. by apply obeys_local.
Qed.

Lemma publishing_obeys io workingCounter s :
  obeys s
    (let period := io_publicationPeriod io in
     let s :=
       if negb (period =? observedInputPublicationPeriod (private s))
       then with_private (fun p => set_publication period
              (if period =? 0 then 0 else to_u64 (io_micros io + period)) (inputChunkCursor p) p) s
       else s in
     if confirmed s workingCounter && negb (period =? 0) &&
        (nextInputPublication (private s) <=? io_micros io)
     then publish busIndex io s else s).
Proof using Type.
  cbn zeta. set (s1 := if negb _ then _ else s).
  assert (obeys s s1) by (unfold s1; destruct (negb _); auto with ec).
  destruct (_ && _); [|done]. eapply obeys_trans; [done|apply publish_obeys].
Qed.

(** An action of the bus thread leaves the main thread's variables alone. *)
Lemma worker_obeys io s : obeys (popped s) (act io s).
Proof using Type.
  unfold worker, popped. destruct (worker_pc s);
    try (repeat match goal with |- context [if ?b then _ else _] => destruct b end;
         by apply obeys_local).
  - destruct (negb _).
    + apply obeys_goto. eapply obeys_trans; [|apply CloseContext_obeys]. auto with ec.
    + destruct (negb _); [auto with ec|]. destruct (attemptedInitialization _); auto with ec.
  - cbn zeta. set (s1 := with_published _ _). assert (obeys s s1) as H by apply obeys_published, obeys_private, obeys_refl.
    pose proof (Initialize_obeys configuration cyclePeriod EC_MAXSLAVE (io_init io) s1) as Hi.
    pose proof (obeys_trans _ _ _ H Hi) as H'.
    destruct (Initialize _ _ _ _ _) as [s2 [|]]; cbn in H'; auto with ec.
  - destruct (TryPop _ _) as [q [x|]]; by split.
  - apply obeys_goto. destruct (_ && _); by split.
  - cbn zeta. destruct (_ && _); [|auto with ec]. destruct (Dc.Update _ _) as [adj dc].
    destruct (Dc.fault adj); by apply obeys_local.
  - pose proof (publishing_obeys io workingCounter s) as H. cbn zeta in *.
    set (s2 := if _ && _ then publish busIndex io _ else _) in *. clearbody s2.
    destruct (negb (io_clock io)); [by apply obeys_goto, obeys_published|by apply obeys_goto].
  - by split.
  - by split.
  - by split.
  - by split.
  - by split.
  - apply obeys_goto, CloseContext_obeys.
Qed.

(** ** Stopping *)

Definition rank_after (k : after_fault) : nat :=
  match k with ToClose => 2 | ToFaultState => 3 | ToInitialize => 11 end.

(** How many actions the thread is from its end once [running_] is false, besides the
    commands it still has to pop. *)
Definition rank (p : pc) : nat :=
  match p with
  | AtStopped => 0 | AtRun => 1 | AtStart => 2 | AtClose => 2 | AtFaultState => 3
  | AtRaiseReport _ k => 1 + rank_after k
  | AtRaiseWithdraw _ k => 2 + rank_after k
  | AtRaiseGlobal _ k _ => 3 + rank_after k
  | AtRaiseOwn _ k _ => 4 + rank_after k
  | AtRaise _ k => 5 + rank_after k
  | AtExit => 8 | AtLoop => 9 | AtFaultSend => 9 | AtEnter => 10 | AtInitialize => 11
  | AtPublish _ => 10 | AtClock _ => 11 | AtCount _ => 12 | AtAcknowledge _ _ _ => 13
  | AtSend _ => 14 | AtRecheckGlobal _ => 15 | AtRecheckPermitted _ => 16
  | AtRecheckEpoch _ => 17 | AtPermitted _ => 18 | AtFreshness => 19 | AtDrain _ _ _ => 20
  | AtApplyPermitted _ => 21 | AtApplyEpoch => 22 | AtEpoch => 23 | AtWake => 24
  end.

Lemma resume_rank k : rank (resume k) = rank_after k.
Proof using Type. by destruct k. Qed.

(** Every action of a thread that is to stop brings it nearer to its end. *)
Lemma worker_rank io s :
  running (shared s) = false -> worker_pc s <> AtStopped ->
  match worker_pc s with
  | AtDrain _ _ _ =>
      worker_pc (act io s) = worker_pc s /\ snd (TryPop kMaximumOutputCommands (outputCommands s)) <> None \/
      (rank (worker_pc (act io s)) < rank (worker_pc s))%nat
  | _ => (rank (worker_pc (act io s)) < rank (worker_pc s))%nat
  end.
Proof using Type.
  intros Hr Hp. unfold worker. destruct (worker_pc s) eqn:E; rewrite ?Hr; cbn [negb andb]; cbn zeta;
    try (repeat match goal with |- context [if ?b then _ else _] => destruct b end;
         cbn [goto worker_pc rank rank_after]; rewrite ?resume_rank; lia || done).
  - destruct (Initialize _ _ _ _ _) as [s2 [|]]; cbn; lia.
  - destruct (TryPop _ _) as [q [x|]]; [by left|right; cbn; lia].
  - destruct (_ && _); [|cbn; lia]. destruct (Dc.Update _ _) as [adj dc].
    destruct (Dc.fault adj); cbn; lia.
Qed.

(** The actions that suffice to join a thread: the ranks and a full queue. *)
Definition join_fuel : nat := 24 + kMaximumOutputCommands.

Lemma stopped_stays ios s :
  worker_pc s = AtStopped -> fold_left (fun s io => act io s) ios s = s.
Proof using Type.
  intros Hp. induction ios as [|io ios IH]; [done|]. cbn [fold_left].
  assert (act io s = s) as -> by (unfold worker; by rewrite Hp). done.
Qed.

Lemma stopped_dec s : {worker_pc s = AtStopped} + {worker_pc s <> AtStopped}.
Proof using Type. destruct (worker_pc s); (by left) || (by right). Qed.

Lemma worker_stops ios s l :
  represents kMaximumOutputCommands (outputCommands s) l -> running (shared s) = false ->
  (rank (worker_pc s) + length l <= length ios)%nat ->
  worker_pc (fold_left (fun s io => act io s) ios s) = AtStopped.
Proof using Type.
  assert (2 <= kMaximumOutputCommands)%nat as H2 by (vm_compute; lia).
  revert s l. induction ios as [|io ios IH]; intros s l Hl Hr Hn; cbn [fold_left length] in *.
  { by destruct (worker_pc s); cbn in Hn; try lia. }
  destruct (stopped_dec s) as [Hp|Hp].
  { change (fold_left _ ios (act io s)) with (fold_left (fun s io => act io s) (io :: ios) s).
    by rewrite stopped_stays. }
  pose proof (worker_rank io s Hr Hp) as Hrank. pose proof (worker_obeys io s) as Ho.
  unfold popped in Ho. pose proof (obeys_running _ _ Ho) as Hr'.
  pose proof (pop_represents _ H2 _ _ Hl) as Hpop.
  destruct (worker_pc s) eqn:E; try (apply (IH _ l);
    [by rewrite (obeys_commands _ _ Ho)|by rewrite Hr'|lia]).
  pose proof (obeys_commands _ _ Ho) as Hq. cbn in Hq, Hr'. destruct l as [|x l].
  - rewrite Hpop in Hq, Hrank. destruct Hrank as [[_ H]|Hrank]; [done|].
    apply (IH _ []); [by rewrite Hq|by rewrite Hr'|cbn in *; lia].
  - destruct Hpop as (q & Hpop & Hq'). rewrite Hpop in Hq. cbn in Hq, Hn.
    apply (IH _ l); [by rewrite Hq|by rewrite Hr'|].
    destruct Hrank as [[-> _]|Hrank]; cbn in *; lia.
Qed.

Lemma rank_bound p : (rank p <= 24)%nat.
Proof using Type. destruct p; cbn; try destruct k; cbn; lia. Qed.

(** [Stop] joins the thread: enough actions are [join_fuel]. *)
Lemma join_returns ios s :
  inv EC_MAXSLAVE s -> running (shared s) = false -> (join_fuel <= length ios)%nat ->
  worker_pc (fold_left (fun s io => act io s) ios s) = AtStopped.
Proof using Type.
  intros Hi Hr Hn. destruct (inv_queue _ _ Hi) as (l & Hl & _). apply (worker_stops ios s l); [done|done|].
  pose proof (rank_bound (worker_pc s)). destruct Hl as (_ & _ & _ & _ & Hl & _).
  unfold join_fuel in Hn. lia.
Qed.

Lemma worker_fold_inv ios s :
  inv EC_MAXSLAVE s -> Forall io_ok ios -> inv EC_MAXSLAVE (fold_left (fun s io => act io s) ios s).
Proof using Type.
  intros Hi Hio. revert s Hi. induction Hio as [|io ios H Hio IH]; intros s Hi; [done|].
  by apply IH, worker_inv.
Qed.

(** The main thread's variables after any number of actions; commands may have been
    popped. *)
Lemma worker_fold_obeys ios s :
  let s' := fold_left (fun s io => act io s) ios s in
  epoch_of s' = epoch_of s /\
  (outputsPermitted (shared s') = true -> outputsPermitted (shared s) = true) /\
  accepted s' = accepted s /\ main s' = main s.
Proof using Type.
  revert s. induction ios as [|io ios IH]; intros s; [done|]. cbn [fold_left].
  assert (obeys (popped s) (act io s)) as [] by apply worker_obeys.
  destruct (IH (act io s)) as (E1 & E2 & E3 & E4).
  assert (epoch_of (popped s) = epoch_of s /\ shared (popped s) = shared s /\
          accepted (popped s) = accepted s /\ main (popped s) = main s) as (F1 & F2 & F3 & F4)
    by (unfold popped; by destruct (worker_pc s)).
  rewrite E1, E3, E4, obeys_epoch0, obeys_accepted0, obeys_main0, F1, F3, F4. split_and!; try done.
  intros H. rewrite <- F2. auto.
Qed.
End Stopping.
