(* ===== verification/Sockets.v ===== *)
(** What the daemon and the client library share of non-blocking stream sockets: the answers
    of the calls, and a queue of frames that is sent piece by piece. *)

From S2P Require Import Prelude.

(** The answers of [send]. *)
Inductive send_answer := SendCount (n : Z) | SendAgain | SendIntr | SendError.

(** The answers of [recv]; [RecvBytes] carries at least one byte. *)
Inductive recv_answer := RecvBytes (data : bytes) | RecvAgain | RecvIntr | RecvClosed | RecvError.

(** What [recv] delivers is bytes. *)
Definition recv_ok (a : recv_answer) : Prop :=
  match a with RecvBytes data => bytes_ok data | _ => True end.

(** ** A queue of frames, of which the first [offset] bytes are gone *)

(** The queue and the offset after [send] has taken [n] more bytes. *)
Definition sent_frames (n : Z) (fs : list bytes) (offset : Z) : list bytes :=
  if offset + n =? zlen (default [] (head fs)) then tail fs else fs.
Definition sent_offset (n : Z) (fs : list bytes) (offset : Z) : Z :=
  if offset + n =? zlen (default [] (head fs)) then 0 else offset + n.

(** The bytes that [send] takes. *)
Definition sent_bytes (n : Z) (fs : list bytes) (offset : Z) : bytes :=
  take (Z.to_nat n) (drop (Z.to_nat offset) (default [] (head fs))).

Definition unsent (fs : list bytes) (offset : Z) : bytes := drop (Z.to_nat offset) (concat fs).

Record cursor_ok (fs : list bytes) (offset : Z) : Prop := {
  cursor_frames : Forall (fun f => f <> []) fs;
  cursor_offset : 0 <= offset;
  cursor_head : match fs with [] => offset = 0 | f :: _ => offset < zlen f end
}.

(** [send] takes no more than it is given. *)
Definition send_count_ok (n : Z) (fs : list bytes) (offset : Z) : Prop :=
  0 <= n <= zlen (default [] (head fs)) - offset.

Lemma cursor_le fs offset : cursor_ok fs offset -> offset <= zlen (concat fs).
Proof.
  intros [_ ? H]. destruct fs as [|f fs]; [by subst|]. cbn [concat]. rewrite zlen_app.
  pose proof (zlen_nonneg (concat fs)). lia.
Qed.

Lemma unsent_length fs offset : cursor_ok fs offset -> zlen (unsent fs offset) = zlen (concat fs) - offset.
Proof.
  intros H. pose proof (cursor_le fs offset H). destruct H. unfold unsent, zlen in *.
  rewrite length_drop. lia.
Qed.

Lemma cursor_sent n fs offset :
  cursor_ok fs offset -> fs <> [] -> send_count_ok n fs offset -> n <> 0 ->
  cursor_ok (sent_frames n fs offset) (sent_offset n fs offset) /\
  unsent fs offset = sent_bytes n fs offset ++ unsent (sent_frames n fs offset) (sent_offset n fs offset).
Proof.
  intros [Hf Ho Hh] E Hn Hz. destruct fs as [|f fs]; [done|]. clear E.
  unfold send_count_ok, unsent, sent_bytes, sent_frames, sent_offset in *. cbn [head default concat tail] in *.
  change (id f) with f in *.
  apply Forall_cons in Hf as [Hf Hfs].
  assert (Z.to_nat offset <= length f)%nat as Hlen by (unfold zlen in Hh; lia).
  rewrite drop_app_le by done.
  destruct (Z.eqb_spec (offset + n) (zlen f)) as [Hd|Hd].
  - split.
    + split; [done|lia|]. destruct fs as [|g gs]; [done|].
      apply Forall_cons in Hfs as [Hg _]. destruct g; [done|]. rewrite zlen_cons.
      pose proof (zlen_nonneg g). lia.
    + rewrite drop_0, take_ge; [done|].
      rewrite length_drop. unfold zlen in Hd. lia.
  - split.
    + split; [by constructor|lia|]. lia.
    + cbn [concat]. rewrite Z2Nat.inj_add by lia. rewrite <- drop_drop, (drop_app_le _ _ _ Hlen).
      rewrite drop_app_le by (rewrite length_drop; unfold zlen in *; lia).
      by rewrite app_assoc, take_drop.
Qed.

Lemma sent_bytes_length n fs offset :
  cursor_ok fs offset -> send_count_ok n fs offset -> zlen (sent_bytes n fs offset) = n.
Proof.
  intros [_ Ho _] Hn. unfold sent_bytes, send_count_ok, zlen in *.
  rewrite length_take, length_drop. lia.
Qed.

Lemma unsent_app fs more offset :
  cursor_ok fs offset -> unsent (fs ++ more) offset = unsent fs offset ++ concat more.
Proof.
  intros H. pose proof (cursor_le fs offset H). destruct H. unfold unsent. rewrite concat_app.
  apply drop_app_le. unfold zlen in *. lia.
Qed.

Lemma cursor_app fs more offset :
  cursor_ok fs offset -> Forall (fun f => f <> []) more -> cursor_ok (fs ++ more) offset.
Proof.
  intros [Hf Ho Hh] Hm. split; [by apply Forall_app|done|]. destruct fs as [|f fs]; [|done].
  cbn. subst offset. destruct more as [|f more]; [done|]. apply Forall_cons in Hm as [Hm _].
  destruct f; [done|]. rewrite zlen_cons. pose proof (zlen_nonneg f). lia.
Qed.

Lemma cursor_nil : cursor_ok [] 0.
Proof. by split. Qed.
