(* ===== verification/Connection.v ===== *)
(** One client connection of the daemon ([struct ClientConnection] of [main.cpp]): the peer
    credentials, the session state, the bounded output queue and the token bucket, with the
    parts of [QueueFrame], [QueueFramesAtomically], [FlushClient], [CloseClient],
    [ConsumeRateToken] and [AcceptClients] that touch the connection alone. The bucket is
    in binary64 arithmetic, as in the source.

    The theorems show that the queue never exceeds its limit and its byte counter is exact,
    and that a connection's byte stream is the queued frames, whole and in order. *)

From Stdlib Require Import SpecFloat.
From S2P Require Import Prelude Protocol Frame SafetyGate Config Sockets.

Definition kMaximumClients : Z := 16.
Definition kMaximumClientOutputBytes : Z := 2 * 1024 * 1024.

(** ** State *)

Record Peer := mkPeer {
  client_id : Z;
  client_pid : Z;
  client_uid : Z;
  client_gid : Z;
  peerGroups : list Z
}.

(** [lastInputSequence] and [selectedInputSequence], which are only ever cleared, are left
    out. *)
Record Session := mkSession {
  helloReceived : bool;
  role : ClientRole;
  subscribeInputs : bool;
  inputPeriodMs : Z;
  nextPublication : list Z
}.

(** A [SharedFrame] is the byte string it points to: the pointee is constant. *)
Record Outgoing := mkOutgoing {
  outgoing : list bytes;
  outgoingOffset : Z;
  outgoingBytes : Z;
  closeAfterWrite : bool;
  optionalQueueDrops : Z;
  firstOptionalDrop : Z
}.

Record Rate := mkRate {
  rateUpdated : Z;
  rateTokens : spec_float;
  rateCapacity : spec_float;
  rateRefillPerSecond : spec_float
}.

(** [descriptor] is [descriptor >= 0]. Times are nanoseconds of the steady clock. *)
Record ClientConnection := mkClient {
  descriptor : bool;
  peer : Peer;
  session : Session;
  queue : Outgoing;
  decoder : FrameDecoder.t;
  rate : Rate;
  acceptedAt : Z
}.

Definition on_session f c := mkClient (descriptor c) (peer c) (f (session c)) (queue c) (decoder c)
  (rate c) (acceptedAt c).
Definition on_queue f c := mkClient (descriptor c) (peer c) (session c) (f (queue c)) (decoder c)
  (rate c) (acceptedAt c).
Definition set_decoder v c := mkClient (descriptor c) (peer c) (session c) (queue c) v
  (rate c) (acceptedAt c).
Definition set_rate v c := mkClient (descriptor c) (peer c) (session c) (queue c) (decoder c)
  v (acceptedAt c).

(** [client.closeAfterWrite = true]. *)
Definition close_after_write (c : ClientConnection) : ClientConnection :=
  on_queue (fun q => mkOutgoing (outgoing q) (outgoingOffset q) (outgoingBytes q) true
                       (optionalQueueDrops q) (firstOptionalDrop q)) c.

(** The stores of [CloseClient] to the connection. *)
Definition close_connection (c : ClientConnection) : ClientConnection :=
  let q := queue c in
  mkClient false (peer c) (session c)
    (mkOutgoing [] (outgoingOffset q) 0 (closeAfterWrite q) (optionalQueueDrops q)
       (firstOptionalDrop q))
    (decoder c) (rate c) (acceptedAt c).

Definition client_of (c : ClientConnection) : Z := client_id (peer c).
Definition greeted (c : ClientConnection) : bool := helloReceived (session c).

(** [client.helloReceived && client.descriptor >= 0]. *)
Definition reachable_client (c : ClientConnection) : bool := greeted c && descriptor c.

(** [client.helloReceived && client.subscribeInputs && client.descriptor >= 0]. *)
Definition subscriber (c : ClientConnection) : bool :=
  greeted c && subscribeInputs (session c) && descriptor c.

(** ** The output queue *)

(** What becomes of a frame offered to the queue. *)
Inductive verdict := Queued | Dropped | Close.

#[export] Instance verdict_eq_dec : EqDecision verdict.
Proof. solve_decision. Defined.

(** [size > kMaximumClientOutputBytes - min(outgoingBytes, kMaximumClientOutputBytes)]. *)
Definition no_room (q : Outgoing) (size : Z) : bool :=
  kMaximumClientOutputBytes - Z.min (outgoingBytes q) kMaximumClientOutputBytes <? size.

(** The bookkeeping of a frame that may be dropped. *)
Definition count_drop (now : Z) (q : Outgoing) : Outgoing :=
  mkOutgoing (outgoing q) (outgoingOffset q) (outgoingBytes q) (closeAfterWrite q)
    (to_u64 (optionalQueueDrops q + 1))
    (if optionalQueueDrops q =? 0 then now else firstOptionalDrop q).

Definition too_many_drops (now : Z) (q : Outgoing) : bool :=
  (100 <=? optionalQueueDrops q) || (5000000000 <=? now - firstOptionalDrop q).

Definition drop_frame (now : Z) (c : ClientConnection) : ClientConnection * verdict :=
  let c := on_queue (count_drop now) c in
  (c, if too_many_drops now (queue c) then Close else Dropped).

Definition push_frames (frames : list bytes) (totalBytes : Z) (q : Outgoing) : Outgoing :=
  mkOutgoing (outgoing q ++ frames) (outgoingOffset q) (outgoingBytes q + totalBytes)
    (closeAfterWrite q) (optionalQueueDrops q) (firstOptionalDrop q).

Definition forgive_drops (q : Outgoing) : Outgoing :=
  mkOutgoing (outgoing q) (outgoingOffset q) (outgoingBytes q) (closeAfterWrite q) 0
    (firstOptionalDrop q).

Definition is_nil (frame : bytes) : bool := match frame with [] => true | _ => false end.

(** [QueueFrame] up to its calls of [CloseClient]. *)
Definition offer (now : Z) (frame : bytes) (required : bool) (c : ClientConnection)
    : ClientConnection * verdict :=
  if negb (descriptor c) || is_nil frame || no_room (queue c) (zlen frame) then
    if required then (c, Close) else drop_frame now c
  else
    let forgiven :=
      negb required && negb (optionalQueueDrops (queue c) =? 0) &&
      (outgoingBytes (queue c) <? kMaximumClientOutputBytes / 4) in
    let c := if forgiven then on_queue forgive_drops c else c in
    (on_queue (push_frames [frame] (zlen frame)) c, Queued).

(** [QueueFramesAtomically] up to its call of [CloseClient]. *)
Definition offer_all (now : Z) (frames : list bytes) (totalBytes : Z) (c : ClientConnection)
    : ClientConnection * verdict :=
  if negb (descriptor c) || no_room (queue c) totalBytes then drop_frame now c
  else (on_queue (push_frames frames totalBytes) c, Queued).

(** ** Sending *)

Definition advance (n : Z) (q : Outgoing) : Outgoing :=
  mkOutgoing (sent_frames n (outgoing q) (outgoingOffset q))
    (sent_offset n (outgoing q) (outgoingOffset q)) (outgoingBytes q - n) (closeAfterWrite q)
    (optionalQueueDrops q) (firstOptionalDrop q).

(** The loop of [FlushClient]: the connection, whether it is to be closed, whether the loop
    ran to its end, and the bytes handed to the socket. The loop makes one call of [send]
    per answer; it waits for the next event when the answers are used up. *)
Fixpoint flush_loop (answers : list send_answer) (c : ClientConnection) (sent : bytes)
    : ClientConnection * bool * bool * bytes :=
  match outgoing (queue c) with
  | [] => (c, false, true, sent)
  | _ :: _ =>
      match answers with
      | [] | SendAgain :: _ => (c, false, false, sent)
      | SendIntr :: answers => flush_loop answers c sent
      | SendError :: _ => (c, true, false, sent)
      | SendCount n :: answers =>
          if n =? 0 then (c, true, false, sent)
          else
            flush_loop answers (on_queue (advance n) c)
              (sent ++ sent_bytes n (outgoing (queue c)) (outgoingOffset (queue c)))
      end
  end.

(** [FlushClient] up to its calls of [CloseClient]. *)
Definition flush (answers : list send_answer) (c : ClientConnection)
    : ClientConnection * bool * bytes :=
  if negb (descriptor c) then
    (c, closeAfterWrite (queue c) && bool_decide (outgoing (queue c) = []), [])
  else
    match flush_loop answers c [] with
    | (c, true, _, sent) => (c, true, sent)
    | (c, false, false, sent) => (c, false, sent)
    | (c, false, true, sent) =>
        (c, closeAfterWrite (queue c) && bool_decide (outgoing (queue c) = []), sent)
    end.

(** ** The token bucket *)

(** [double] is binary64. *)
Definition double_of (z : Z) : spec_float := binary_normalize 53 1024 z 0 false.
Definition fadd : spec_float -> spec_float -> spec_float := SFadd 53 1024.
Definition fsub : spec_float -> spec_float -> spec_float := SFsub 53 1024.
Definition fmul : spec_float -> spec_float -> spec_float := SFmul 53 1024.
Definition fdiv : spec_float -> spec_float -> spec_float := SFdiv 53 1024.

(** [std::min(a, b)]. *)
Definition fmin (a b : spec_float) : spec_float := if SFltb b a then b else a.

(** [ConsumeRateToken] up to the refusal: [None] when no token is left. *)
Definition take_token (now : Z) (r : Rate) : Rate * bool :=
  let elapsed := fdiv (double_of (now - rateUpdated r)) (double_of 1000000000) in
  let tokens := fmin (rateCapacity r)
                  (fadd (rateTokens r) (fmul elapsed (rateRefillPerSecond r))) in
  if SFltb tokens (double_of 1)
  then (mkRate now tokens (rateCapacity r) (rateRefillPerSecond r), false)
  else (mkRate now (fsub tokens (double_of 1)) (rateCapacity r) (rateRefillPerSecond r), true).

(** The rate of a controller. *)
Definition controller_rate (limit : RateLimit.ControllerRateLimit) (r : Rate) : Rate :=
  let capacity := double_of (RateLimit.burstFrames limit) in
  mkRate (rateUpdated r) capacity capacity (double_of (RateLimit.framesPerSecond limit)).

(** ** Accepting a peer *)

(** [SO_PEERCRED] and [SO_PEERGROUPS] of the accepted socket; [None] when the call failed. *)
Record Credentials := mkCredentials {
  cred_pid : Z;
  cred_uid : Z;
  cred_gid : Z;
  cred_groups : option (list Z)
}.

(** The defaults of the members, with the peer filled in. *)
Definition new_client (id now : Z) (credentials : Credentials) : ClientConnection :=
  mkClient true
    (mkPeer id (to_u32 (cred_pid credentials)) (cred_uid credentials) (cred_gid credentials)
       (sort_unique (cred_gid credentials :: take 256 (default [] (cred_groups credentials)))))
    (mkSession false Observer false 100 (replicate (Z.to_nat kMaximumBuses) 0))
    (mkOutgoing [] 0 0 false 0 0) FrameDecoder.init
    (mkRate now (double_of 500) (double_of 500) (double_of 1000)) now.

(** [ControllerAuthorized]. [std::binary_search] finds an element of the sorted
    [controllerGids]. *)
Definition ControllerAuthorized (configuration : DaemonConfig) (p : Peer) : bool :=
  bool_decide (client_uid p ∈ config_controllerUids configuration) ||
  existsb (fun group => bool_decide (group ∈ config_controllerGids configuration)) (peerGroups p).

(** ** The queue invariant *)

(** The bytes that are queued and not yet sent. *)
Definition pending (q : Outgoing) : bytes := unsent (outgoing q) (outgoingOffset q).

Record queue_ok (q : Outgoing) : Prop := {
  queue_cursor : cursor_ok (outgoing q) (outgoingOffset q);
  queue_bytes : outgoingBytes q = zlen (pending q);
  queue_limit : outgoingBytes q <= kMaximumClientOutputBytes
}.

(** An open connection has a consistent queue, a closed one an empty queue. *)
Definition connection_ok (c : ClientConnection) : Prop :=
  if descriptor c then queue_ok (queue c)
  else outgoing (queue c) = [] /\ outgoingBytes (queue c) = 0.

(** The frames fit their announced size. *)
Definition batch_ok (frames : list bytes) (totalBytes : Z) : Prop :=
  Forall (fun f => f <> []) frames /\ totalBytes = zlen (concat frames).

(** [q'] has the frames of [q]. *)
Definition same_frames (q q' : Outgoing) : Prop :=
  outgoing q' = outgoing q /\ outgoingOffset q' = outgoingOffset q /\
  outgoingBytes q' = outgoingBytes q.

Lemma same_frames_ok q q' : same_frames q q' -> queue_ok q -> queue_ok q'.
Proof. intros (E1 & E2 & E3) []. unfold pending in *. split; unfold pending; rewrite ?E1, ?E2, ?E3; done. Qed.

Lemma same_frames_connection f c :
  (forall q, same_frames q (f q)) -> connection_ok c -> connection_ok (on_queue f c).
Proof.
  intros Hf. unfold connection_ok. cbn. destruct (Hf (queue c)) as (E1 & _ & E3).
  destruct (descriptor c); [by apply same_frames_ok|]. by rewrite E1, E3.
Qed.

Lemma close_after_write_ok c : connection_ok c -> connection_ok (close_after_write c).
Proof. by apply same_frames_connection. Qed.

Lemma close_connection_ok c : connection_ok (close_connection c).
Proof. done. Qed.

Lemma push_frames_ok frames total q :
  queue_ok q -> batch_ok frames total -> no_room q total = false ->
  queue_ok (push_frames frames total q) /\
  pending (push_frames frames total q) = pending q ++ concat frames.
Proof.
  intros [Hc Hb Hl] [Hf ->] Hroom. unfold no_room in Hroom.
  assert (pending (push_frames frames (zlen (concat frames)) q) = pending q ++ concat frames) as Hp
    by by apply unsent_app.
  split; [split|done]; rewrite ?Hp; cbn [push_frames outgoing outgoingOffset outgoingBytes].
  - by apply cursor_app.
  - rewrite zlen_app. lia.
  - lia.
Qed.

Lemma drop_frame_ok now c :
  connection_ok c -> connection_ok (fst (drop_frame now c)) /\
  same_frames (queue c) (queue (fst (drop_frame now c))).
Proof. intros H. split; [by apply same_frames_connection|done]. Qed.

(** What an offer of [added] does: it is queued behind what was pending, or nothing of the
    queue changes. *)
Definition offered (c c' : ClientConnection) (v : verdict) (added : bytes) : Prop :=
  connection_ok c' /\ descriptor c' = descriptor c /\ peer c' = peer c /\
  session c' = session c /\ (v <> Queued -> pending (queue c') = pending (queue c)) /\
  (v = Queued -> descriptor c = true /\ pending (queue c') = pending (queue c) ++ added).

Lemma drop_offered now c added :
  connection_ok c -> offered c (fst (drop_frame now c)) (snd (drop_frame now c)) added.
Proof.
  intros H. destruct (drop_frame_ok now c H) as [? _]. split_and!; try done.
  unfold drop_frame. cbn. by destruct (too_many_drops _ _).
Qed.

Lemma offer_all_offered now frames total c :
  connection_ok c -> batch_ok frames total ->
  offered c (fst (offer_all now frames total c)) (snd (offer_all now frames total c))
    (concat frames).
Proof.
  intros Hc Hb. unfold offer_all. destruct (negb (descriptor c) || _) eqn:E; [by apply drop_offered|].
  apply orb_false_iff in E as [Hd Hr]. apply negb_false_iff in Hd.
  unfold connection_ok in Hc. rewrite Hd in Hc.
  destruct (push_frames_ok frames total (queue c) Hc Hb Hr). split_and!; try done.
  unfold connection_ok. cbn. by rewrite Hd.
Qed.

Lemma is_nil_false f : is_nil f = false -> f <> [].
Proof. by destruct f. Qed.

Lemma offer_offered now frame required c :
  connection_ok c ->
  offered c (fst (offer now frame required c)) (snd (offer now frame required c)) frame.
Proof.
  intros Hc. unfold offer. destruct (negb (descriptor c) || _ || _) eqn:E.
  { destruct required; [by split_and!|by apply drop_offered]. }
  apply orb_false_iff in E as [[Hd Hn]%orb_false_iff Hr]. apply negb_false_iff in Hd.
  set (forgiven := negb required && _ && _).
  set (c1 := if forgiven then _ else c).
  assert (connection_ok c1 /\ same_frames (queue c) (queue c1) /\ descriptor c1 = descriptor c /\
          peer c1 = peer c /\ session c1 = session c) as (Hc1 & (E1 & E2 & E3) & Ed & Ep & Es).
  { unfold c1. destruct forgiven; [|done]. split; [by apply same_frames_connection|done]. }
  unfold connection_ok in Hc1. rewrite Ed, Hd in Hc1.
  destruct (push_frames_ok [frame] (zlen frame) (queue c1) Hc1) as [Hok Hp].
  - split; [|cbn; by rewrite app_nil_r]. constructor; [by apply is_nil_false|done].
  - unfold no_room in *. by rewrite E3.
  - cbn [concat] in Hp. rewrite app_nil_r in Hp.
    split_and!; cbn [fst snd on_queue queue descriptor peer session]; try done.
    + unfold connection_ok. cbn. by rewrite Ed, Hd.
    + intros _. split; [done|]. rewrite Hp. unfold pending. by rewrite E1, E2.
Qed.

(** The byte counter is what is pending. *)
Lemma pending_bytes q :
  queue_ok q -> outgoingBytes q = zlen (pending q) /\ outgoingBytes q <= 2097152.
Proof. by intros [_ ? ?]. Qed.

(** ** Sending in order *)

Fixpoint send_contract (answers : list send_answer) (c : ClientConnection) : Prop :=
  match outgoing (queue c), answers with
  | _ :: _, SendIntr :: answers => send_contract answers c
  | _ :: _, SendCount n :: answers =>
      send_count_ok n (outgoing (queue c)) (outgoingOffset (queue c)) /\ (n <> 0 -> send_contract answers (on_queue (advance n) c))
  | _, _ => True
  end.

Lemma advance_ok n q :
  queue_ok q -> outgoing q <> [] -> send_count_ok n (outgoing q) (outgoingOffset q) -> n <> 0 ->
  queue_ok (advance n q) /\
  pending q = sent_bytes n (outgoing q) (outgoingOffset q) ++ pending (advance n q).
Proof.
  intros [Hc Hb Hl] He Hn Hz. destruct (cursor_sent n _ _ Hc He Hn Hz) as [Hc' Hp].
  split; [|done]. assert (zlen (sent_bytes n (outgoing q) (outgoingOffset q)) = n) as Hs
    by by apply sent_bytes_length.
  unfold pending in *. rewrite Hp, zlen_app in Hb.
  split; cbn [advance outgoing outgoingOffset outgoingBytes]; [done| |]; unfold pending;
    cbn [advance outgoing outgoingOffset]; pose proof (zlen_nonneg (unsent
      (sent_frames n (outgoing q) (outgoingOffset q)) (sent_offset n (outgoing q) (outgoingOffset q))));
    unfold send_count_ok in Hn; lia.
Qed.

Lemma flush_loop_ok answers c sent0 :
  descriptor c = true -> queue_ok (queue c) -> send_contract answers c ->
  match flush_loop answers c sent0 with
  | (c', _, finished, sent) =>
      descriptor c' = true /\ peer c' = peer c /\ session c' = session c /\
      closeAfterWrite (queue c') = closeAfterWrite (queue c) /\
      queue_ok (queue c') /\ (finished = true -> outgoing (queue c') = []) /\
      exists more, sent = sent0 ++ more /\ pending (queue c) = more ++ pending (queue c')
  end.
Proof.
  revert c sent0. induction answers as [|a answers IH]; intros c sent0 Hd Hq Hs; cbn [flush_loop].
  { destruct (outgoing (queue c)) eqn:E; split_and!; try done; exists []; by rewrite app_nil_r. }
  destruct (outgoing (queue c)) as [|f fs] eqn:E.
  { split_and!; try done. exists []. by rewrite app_nil_r. }
  destruct a as [n| | |].
  - cbn [send_contract] in Hs. rewrite E in Hs. destruct Hs as [Hn Hs].
    destruct (Z.eqb_spec n 0) as [|Hz].
    { split_and!; try done. exists []. by rewrite app_nil_r. }
    rewrite <- E in Hn. destruct (advance_ok n (queue c) Hq) as [Hq' Hp]; [by rewrite E|done|done|].
    specialize (IH (on_queue (advance n) c)
      (sent0 ++ sent_bytes n (outgoing (queue c)) (outgoingOffset (queue c))) Hd Hq' (Hs Hz)).
    rewrite E in IH, Hp. destruct (flush_loop _ _ _) as [[[c' cl] fin] sent].
    destruct IH as (? & ? & ? & Hc & ? & ? & more & -> & Hm). split_and!; try done.
    exists (sent_bytes n (f :: fs) (outgoingOffset (queue c)) ++ more).
    cbn in Hm. by rewrite Hp, Hm, !app_assoc.
  - split_and!; try done. exists []. by rewrite app_nil_r.
  - apply IH; [done..|]. cbn [send_contract] in Hs. by rewrite E in Hs.
  - split_and!; try done. exists []. by rewrite app_nil_r.
Qed.

Lemma flush_ok answers c :
  connection_ok c -> send_contract answers c ->
  match flush answers c with
  | (c', _, sent) =>
      connection_ok c' /\ descriptor c' = descriptor c /\ peer c' = peer c /\
      session c' = session c /\ (descriptor c = true -> pending (queue c) = sent ++ pending (queue c'))
  end.
Proof.
  intros Hc Hs. unfold flush. destruct (descriptor c) eqn:Hd; cbn [negb]; [|done].
  unfold connection_ok in Hc. rewrite Hd in Hc.
  pose proof (flush_loop_ok answers c [] Hd Hc Hs) as H.
  destruct (flush_loop answers c []) as [[[c' cl] fin] sent].
  destruct H as (Hd' & Hp & Hses & _ & Hq & _ & more & -> & Hm).
  assert (connection_ok c') by (unfold connection_ok; by rewrite Hd').
  destruct cl, fin; split_and!; try done; congruence.
Qed.

(** ** Properties *)

(** A connection's bytes arrive whole and in order: whatever the socket accepts, what
    FlushClient hands to it is a prefix of the queued bytes, the rest stays queued, and the
    byte counter stays exact. *)
Theorem FlushClient_in_order answers c :
  connection_ok c -> descriptor c = true -> send_contract answers c ->
  match flush answers c with
  | (c', _, sent) =>
      pending (queue c) = sent ++ pending (queue c') /\ connection_ok c'
  end.
Proof.
  intros Hc Hd Hs. pose proof (flush_ok answers c Hc Hs) as H.
  destruct (flush answers c) as [[c' closing] sent]. destruct H as (? & _ & _ & _ & H). auto.
Qed.

Definition sample_connection : ClientConnection :=
  on_queue (push_frames [[1; 2; 3]; [4; 5]] 5) (new_client 1 0 (mkCredentials 42 0 0 None)).

Lemma FlushClient_in_order_witness :
  flush [SendCount 2; SendIntr; SendCount 1; SendCount 1] sample_connection
    = (fst (fst (flush [SendCount 2; SendIntr; SendCount 1; SendCount 1] sample_connection)),
       false, [1; 2; 3; 4]) /\
  match flush [SendCount 2; SendIntr; SendCount 1; SendCount 1] sample_connection with
  | (c', _, sent) =>
      pending (queue sample_connection) = sent ++ pending (queue c') /\ connection_ok c'
  end.
Proof.
  split; [reflexivity|].
  apply (FlushClient_in_order [SendCount 2; SendIntr; SendCount 1; SendCount 1] sample_connection).
  - unfold connection_ok. cbn. by split; [split; [repeat constructor| |]| |].
  - reflexivity.
  - cbn. unfold send_count_ok. cbn. by split_and!; intros.
Defined.
