(* ===== verification/Daemon.v ===== *)
(** The control plane of the daemon (class [Daemon] of [main.cpp]): the clients and their
    requests, the safety gate, the adapters, and the buses with their threads.

    An operation of the main thread is a function on the state [daemon]; a client is named
    by its index in [clients_]. [now] is the reading of the steady clock, in nanoseconds, and
    stands for every reading during one operation; [micros] is [MonotonicMicros()]. What the
    kernel answers ([recv], [send], [accept4], the adapter scan) is an argument. A bus is the
    state of [Cycle], with the members the main thread alone uses beside it. The event log
    and [std::bad_alloc] are left out. *)

From S2P Require Import Prelude Protocol Frame SafetyGate SpscQueue Realtime Config Adapter.
From S2P Require Import IoMap BusIo Cycle Sockets Connection.

Definition kCapabilities : Z :=
  Z.lor (Z.lor (Z.lor CapabilityOutputs CapabilityInputs) CapabilityAdapterIdentity)
    CapabilityDistributedClock.

(** ** State *)

Record AdapterRuntime := mkAdapter {
  resolution : AdapterResolution;
  runtimeUnlocked : bool;
  workerStarted : bool;
  boundInterface : bytes;
  boundIdPath : bytes;
  observedFaultSequence : Z
}.

(** The timing members of a bus, which its thread publishes. *)
Record Timing := mkTiming {
  cycleOverruns : Z;
  currentJitterUs : Z;
  maximumJitterUs : Z;
  schedulingMode : SchedulingMode
}.

Record port := mkPort {
  thread : bus;
  inputPublicationPeriodUs : Z;
  resetCounterSequence : Z;
  timing : Timing
}.

Definition on_thread f p := mkPort (f (thread p)) (inputPublicationPeriodUs p)
  (resetCounterSequence p) (timing p).

Record InputPublicationAccumulator := mkAccumulator {
  acc_epoch : Z;
  acc_cycleSequence : Z;
  expectedChunks : Z;
  nextChunk : Z;
  totalBytes : Z;
  frames : list bytes
}.

(** [InputPublicationAccumulator::Reset]. *)
Definition empty_accumulator : InputPublicationAccumulator := mkAccumulator 0 0 0 0 0 [].

(** History: an output command that was accepted, from whom, and the gate at that moment. *)
Record grant := mkGrant {
  grant_bus : nat;
  grant_peer : Peer;
  grant_command : OutputCommand;
  grant_gate : Gate.t
}.

(** [granted] and [wrapped] are history: the accepted commands, and whether a 64-bit counter
    (the epoch or the client ids) has ever wrapped around. [globalFaulted] is [globalFaultedEpoch_], of which every bus
    holds a reference: the copies in the buses' [Shared] follow it. *)
Record daemon := mkDaemon {
  gate : Gate.t;
  globalFaulted : Z;
  ports : list port;
  adapters : list AdapterRuntime;
  clients : list ClientConnection;
  publications : list InputPublicationAccumulator;
  nextClientId : Z;
  forceAdapterScan : bool;
  nextObserverRescanAllowed : Z;
  granted : list grant;
  wrapped : bool
}.

Definition with_gate g d := mkDaemon g (globalFaulted d) (ports d) (adapters d) (clients d)
  (publications d) (nextClientId d) (forceAdapterScan d) (nextObserverRescanAllowed d) (granted d)
  (wrapped d || (Gate.epoch g <? Gate.epoch (gate d))).
Definition with_ports v d := mkDaemon (gate d) (globalFaulted d) v (adapters d) (clients d)
  (publications d) (nextClientId d) (forceAdapterScan d) (nextObserverRescanAllowed d) (granted d)
  (wrapped d).
Definition with_globalFaulted v d := mkDaemon (gate d) v (ports d) (adapters d) (clients d)
  (publications d) (nextClientId d) (forceAdapterScan d) (nextObserverRescanAllowed d) (granted d)
  (wrapped d).
Definition with_adapters v d := mkDaemon (gate d) (globalFaulted d) (ports d) v (clients d)
  (publications d) (nextClientId d) (forceAdapterScan d) (nextObserverRescanAllowed d) (granted d)
  (wrapped d).
Definition with_clients v d := mkDaemon (gate d) (globalFaulted d) (ports d) (adapters d) v
  (publications d) (nextClientId d) (forceAdapterScan d) (nextObserverRescanAllowed d) (granted d)
  (wrapped d).
Definition with_publications v d := mkDaemon (gate d) (globalFaulted d) (ports d) (adapters d)
  (clients d) v (nextClientId d) (forceAdapterScan d) (nextObserverRescanAllowed d) (granted d)
  (wrapped d).
Definition with_nextClientId v d := mkDaemon (gate d) (globalFaulted d) (ports d) (adapters d)
  (clients d) (publications d) v (forceAdapterScan d) (nextObserverRescanAllowed d) (granted d)
  (wrapped d || (v <? nextClientId d)).
Definition with_scan v d := mkDaemon (gate d) (globalFaulted d) (ports d) (adapters d)
  (clients d) (publications d) (nextClientId d) v (nextObserverRescanAllowed d) (granted d)
  (wrapped d).
Definition with_rescan v d := mkDaemon (gate d) (globalFaulted d) (ports d) (adapters d)
  (clients d) (publications d) (nextClientId d) (forceAdapterScan d) v (granted d) (wrapped d).
Definition with_grant v d := mkDaemon (gate d) (globalFaulted d) (ports d) (adapters d)
  (clients d) (publications d) (nextClientId d) (forceAdapterScan d) (nextObserverRescanAllowed d)
  (granted d ++ [v]) (wrapped d).

(** [clients_[i] = c] and [clients_[i].f()]. *)
Definition put_client (i : nat) (c : ClientConnection) (d : daemon) : daemon :=
  with_clients (<[i := c]> (clients d)) d.
Definition on_client (i : nat) (f : ClientConnection -> ClientConnection) (d : daemon) : daemon :=
  with_clients (alter f i (clients d)) d.

(** ** The main thread's operations on a bus *)

(** [EthercatBus::SafetyBarrierComplete]. *)
Definition SafetyBarrierComplete (epoch : Z) (b : bus) : bool :=
  if negb (bool_decide (busState (published b) = Operational)) then true
  else safetyEpochApplied (shared b) =? epoch.

(** [EthercatBus::QueueOutput]. *)
Definition QueueOutput (command : OutputCommand) (b : bus) : bus * bool :=
  match TryPush kMaximumOutputCommands (outputCommands b) command with
  | (q, true) => (with_accepted command (with_commands q b), true)
  | (q, false) => (with_commands q b, false)
  end.

(** [EthercatBus::ValidateOutput]. *)
Definition validate_output (b : bus) (subDevice offset : Z) (image : bytes) : AckStatus :=
  ValidateOutput (busState (published b)) (subDeviceCount (published b)) (topology (published b))
    subDevice offset image.

(** [EthercatBus::SetLinkUp]. *)
Definition SetLinkUp (up : bool) (b : bus) : bus :=
  with_shared (set_linkUp up)
    (if negb up then with_shared (set_outputsPermitted false) b else b).

(** [EthercatBus::SetInputPublicationPeriod], in milliseconds. *)
Definition SetInputPublicationPeriod (period : Z) (p : port) : port :=
  mkPort (thread p) (if period <=? 0 then 0 else to_u64 (period * 1000))
    (resetCounterSequence p) (timing p).

(** [EthercatBus::ResetCounters]. *)
Definition ResetCounters (p : port) : port :=
  mkPort (thread p) (inputPublicationPeriodUs p) (to_u64 (resetCounterSequence p + 1)) (timing p).

(** ** Safety and demand *)

Definition ApplySafetyToBuses (d : daemon) : daemon :=
  with_ports
    (map (on_thread (set_safety (Gate.epoch (gate d)) (Gate.outputsEnabled (gate d)))) (ports d)) d.

Definition fastest_period (cs : list ClientConnection) : Z :=
  fold_left
    (fun fastest c =>
       if negb (greeted c) || negb (subscribeInputs (session c)) || negb (descriptor c)
       then fastest
       else if (fastest =? 0) || (inputPeriodMs (session c) <? fastest)
       then inputPeriodMs (session c) else fastest) cs 0.

Definition UpdateInputPublicationDemand (d : daemon) : daemon :=
  with_ports (map (SetInputPublicationPeriod (fastest_period (clients d))) (ports d)) d.

Definition FindClient (id : Z) (d : daemon) : option nat :=
  fst <$> list_find (fun c => client_of c = id /\ descriptor c = true) (clients d).

(** ** Queueing and closing

    [CloseClient] broadcasts when the controller goes, the broadcast queues frames, and
    queueing can close a client: the recursion is on a depth. [CloseClient] runs at depth 1,
    which is enough because the controller is gone by then ([CloseClient_unfold]). *)

Section Queueing.
Context (close : nat -> daemon -> daemon) (now : Z).

Definition queue_frame (i : nat) (frame : bytes) (required : bool) (d : daemon) : daemon * bool :=
  match clients d !! i with
  | None => (d, false)
  | Some client =>
      let '(client, v) := offer now frame required client in
      let d := put_client i client d in
      match v with
      | Queued => (d, true)
      | Dropped => (d, false)
      | Close => (close i d, false)
      end
  end.

(** [for (client : clients_) if (helloReceived && descriptor >= 0) QueueFrame(client, ...)]. *)
Definition broadcast_to (frame : bytes) (d : daemon) (i : nat) : daemon :=
  match clients d !! i with
  | Some client => if reachable_client client then fst (queue_frame i frame false d) else d
  | None => d
  end.

Definition broadcast (frame : bytes) (d : daemon) : daemon :=
  fold_left (broadcast_to frame) (seq 0 (length (clients d))) d.

Definition disabled_frame (reason : DisableReason) (busIndex : Z) (d : daemon) : bytes :=
  EncodeFrame OutputsDisabled 0
    (EncodeOutputsDisabledPayload (mkOutputsDisabled reason busIndex (Gate.epoch (gate d)))).

Definition broadcast_disabled (reason : DisableReason) (busIndex : Z) (d : daemon) : daemon :=
  broadcast (disabled_frame reason busIndex d) d.

(** The body of [CloseClient]. *)
Definition close_body (i : nat) (d : daemon) : daemon :=
  match clients d !! i with
  | None => d
  | Some client =>
      if negb (descriptor client) then d
      else
        let controller := bool_decide (Gate.controllerId (gate d) = Some (client_of client)) in
        let d := put_client i (close_connection client) d in
        let d := UpdateInputPublicationDemand d in
        if controller then
          let '(result, g) := Gate.Disconnect (gate d) (client_of client) in
          let d := with_gate g d in
          if Gate.epochChanged result
          then broadcast_disabled Disconnect 0xffff (ApplySafetyToBuses d)
          else d
        else d
  end.
End Queueing.

Fixpoint close_client (depth : nat) (now : Z) (i : nat) (d : daemon) : daemon :=
  close_body match depth with O => fun _ d => d | S depth => close_client depth now end now i d.

Definition CloseClient (now : Z) : nat -> daemon -> daemon := close_client 1 now.

Definition QueueFrame (now : Z) : nat -> bytes -> bool -> daemon -> daemon * bool :=
  queue_frame (CloseClient now) now.

Definition BroadcastOutputsDisabled (now : Z) : DisableReason -> Z -> daemon -> daemon :=
  broadcast_disabled (CloseClient now) now.

Definition QueueAck (now : Z) (i : nat) (type : MessageType) (requestId : Z) (status : AckStatus)
    (detail : Z) (required : bool) (d : daemon) : daemon * bool :=
  QueueFrame now i (EncodeFrame type requestId (EncodeAckPayload status detail)) required d.

Definition QueueFramesAtomically (now : Z) (i : nat) (batch : list bytes) (total : Z) (d : daemon)
    : daemon * bool :=
  match clients d !! i with
  | None => (d, false)
  | Some client =>
      let '(client, v) := offer_all now batch total client in
      let d := put_client i client d in
      match v with
      | Queued => (d, true)
      | Dropped => (d, false)
      | Close => (CloseClient now i d, false)
      end
  end.

Definition FlushClient (now : Z) (answers : list send_answer) (i : nat) (d : daemon) : daemon :=
  match clients d !! i with
  | None => d
  | Some client =>
      let '(client, closing, _) := flush answers client in
      let d := put_client i client d in
      if closing then CloseClient now i d else d
  end.

Definition RemoveClosedClients (d : daemon) : daemon :=
  with_clients (List.filter descriptor (clients d)) d.

(** ** Revocations *)

(** The client that held control, if it is still there, is closed after its pending writes. *)
Definition retire (controller : option Z) (d : daemon) : daemon :=
  match controller ≫= fun id => FindClient id d with
  | Some i => on_client i close_after_write d
  | None => d
  end.

Definition AdvanceEpoch (now : Z) (reason : DisableReason) (busIndex : Z) (d : daemon) : daemon :=
  let controller := Gate.controllerId (gate d) in
  let d := with_gate (snd (Gate.Invalidate (gate d))) d in
  let d := ApplySafetyToBuses d in
  retire controller (BroadcastOutputsDisabled now reason busIndex d).

Definition HandleSafetyTimeouts (now : Z) (d : daemon) : daemon :=
  let controller := Gate.controllerId (gate d) in
  let '(result, g) := Gate.ExpireOutputCommands (gate d) now in
  let d := with_gate g d in
  if Gate.epochChanged result then
    retire controller
      (BroadcastOutputsDisabled now OutputCommandTimeout 0xffff (ApplySafetyToBuses d))
  else
    let controller := Gate.controllerId (gate d) in
    let '(result, g) := Gate.Expire (gate d) now in
    let d := with_gate g d in
    if negb (Gate.epochChanged result) then d
    else retire controller
           (BroadcastOutputsDisabled now HeartbeatTimeout 0xffff (ApplySafetyToBuses d)).

(** One iteration of [HandleBusFaults]. *)
Definition handle_bus_fault (now : Z) (d : daemon) (index : nat) : daemon :=
  match ports d !! index, adapters d !! index with
  | Some p, Some runtime =>
      let sequence := faultSequence (shared (thread p)) in
      if sequence =? observedFaultSequence runtime then d
      else
        let runtime := mkAdapter (resolution runtime) (runtimeUnlocked runtime)
                         (workerStarted runtime) (boundInterface runtime) (boundIdPath runtime)
                         sequence in
        AdvanceEpoch now (faultReason (shared (thread p))) (to_u16 (Z.of_nat index))
          (with_adapters (<[index := runtime]> (adapters d)) d)
  | _, _ => d
  end.

Definition HandleBusFaults (now : Z) (d : daemon) : daemon :=
  fold_left (handle_bus_fault now) (seq 0 (length (ports d))) d.

(** ** Readiness *)

(** The adapter is resolved to an interface that its lock accepts. *)
Definition adapter_bound (r : AdapterResolution) : bool :=
  Adapter.has_value (resolution_identity r) &&
  (bool_decide (resolution_state r = Unlocked) || bool_decide (resolution_state r = Matched) ||
   bool_decide (resolution_state r = RuntimeUnlocked)).

Definition identity_link (r : AdapterResolution) : bool :=
  match resolution_identity r with Some identity => Adapter.linkUp identity | None => false end.

(** [EthercatBus::distributedClockHealthy]. *)
Definition distributedClockHealthy (mapping : InterfaceConfig) (b : bus) : bool :=
  negb (if_distributedClock mapping) || distributedClockSynchronized (published b).

Definition bus_operational (epoch : Z) (mapping : InterfaceConfig) (adapter : AdapterRuntime)
    (p : port) : bool :=
  adapter_bound (resolution adapter) && identity_link (resolution adapter) &&
  bool_decide (busState (published (thread p)) = Operational) &&
  SafetyBarrierComplete epoch (thread p) && distributedClockHealthy mapping (thread p).

(** The loop of [AllBusesOperational]. *)
Fixpoint all_operational (epoch : Z) (mappings : list InterfaceConfig)
    (runtimes : list AdapterRuntime) (ps : list port) (anyVerified : bool) : bool :=
  match mappings, runtimes, ps with
  | mapping :: mappings, adapter :: runtimes, p :: ps =>
      if negb (bus_operational epoch mapping adapter p) then false
      else all_operational epoch mappings runtimes ps
             (anyVerified || outputTopologyVerified (topology (published (thread p))))
  | _, _, _ => anyVerified
  end.

Definition OutputCapabilityAvailable (d : daemon) : bool :=
  existsb (fun p => outputTopologyVerified (topology (published (thread p)))) (ports d).

Section Handlers.
Context (configuration : DaemonConfig).

Definition AllBusesOperational (d : daemon) : bool :=
  if match ports d with [] => true | _ => false end then false
  else if globalFaulted d =? Gate.epoch (gate d) then false
  else all_operational (Gate.epoch (gate d)) (config_interfaces configuration) (adapters d)
         (ports d) false.

(** ** Requests

    [now] and [micros] are the clocks at the time the frame is handled; the Boolean is what
    the handler returns: whether the client's further frames are to be read. *)

Section Requests.
Context (now micros : Z).

(** An acknowledgement, [QueueAck(client, Ack or Error, requestId, status, 0, true)]. *)
Definition reply (i : nat) (frame : Frame) (status : AckStatus) (d : daemon) : daemon * bool :=
  QueueAck now i Ack (frame_requestId frame) status 0 true d.
Definition reject (i : nat) (frame : Frame) (d : daemon) : daemon * bool :=
  QueueAck now i Protocol.Error (frame_requestId frame) Malformed 0 true d.

(** The SubDevices that are expected to have outputs. *)
Definition output_targets : Z :=
  fold_left
    (fun n mapping =>
       n + zlen (List.filter (fun s => negb (default 0 (expected_outputBytes s) =? 0))
                   (if_expectedSubDevices mapping)))
    (config_interfaces configuration) 0.

Definition HandleHello (i : nat) (client : ClientConnection) (frame : Frame) (d : daemon)
    : daemon * bool :=
  match DecodeHelloPayload (frame_payload frame) with
  | None => (CloseClient now i d, false)
  | Some hello =>
      let '(d, grantedRole) :=
        if bool_decide (hello_role hello = Controller) &&
           ControllerAuthorized configuration (peer client) then
          let '(acquisition, g) :=
            Gate.Acquire (gate d) (client_of client) (client_pid (peer client)) now in
          let d := with_gate g d in
          if bool_decide (Gate.status acquisition = Ok) then
            let limit := RateLimit.CalculateControllerRateLimit output_targets
                           (config_outputCommandTimeout configuration) in
            let d := on_client i (fun c => set_rate (controller_rate limit (rate c)) c) d in
            (ApplySafetyToBuses d, Controller)
          else (d, Observer)
        else (d, Observer) in
      let d := on_client i
                 (on_session (fun s => mkSession true grantedRole (hello_subscribeInputs hello)
                                         (hello_inputPeriodMs hello) (nextPublication s))) d in
      let d := UpdateInputPublicationDemand d in
      let acknowledgement :=
        mkHelloAck grantedRole (Gate.outputsEnabled (gate d))
          (to_u16 (config_heartbeatTimeout configuration)) (Gate.epoch (gate d))
          (client_pid (peer client))
          (if OutputCapabilityAvailable d then kCapabilities
           else Z.land kCapabilities (Z.lnot CapabilityOutputs)) in
      QueueFrame now i
        (EncodeFrame HelloAck (frame_requestId frame) (EncodeHelloAckPayload acknowledgement))
        true d
  end.

Definition HandleHeartbeat (i : nat) (client : ClientConnection) (frame : Frame) (d : daemon)
    : daemon * bool :=
  match DecodeEpochPayload (frame_payload frame) with
  | None => reject i frame d
  | Some epoch =>
      let '(result, g) := Gate.Heartbeat (gate d) (client_of client) epoch now in
      reply i frame (Gate.status result) (with_gate g d)
  end.

Definition HandleOutputEnable (i : nat) (client : ClientConnection) (frame : Frame) (d : daemon)
    : daemon * bool :=
  match DecodeOutputEnablePayload (frame_payload frame) with
  | None => reject i frame d
  | Some request =>
      let '(result, g) :=
        Gate.SetOutputEnabled (gate d) (client_of client) (enable_epoch request)
          (enable_enabled request) (AllBusesOperational d) now in
      let d := ApplySafetyToBuses (with_gate g d) in
      let '(d, queued) := reply i frame (Gate.status result) d in
      if bool_decide (Gate.status result = Ok) && negb (enable_enabled request)
      then (on_client i close_after_write (BroadcastOutputsDisabled now Requested 0xffff d), queued)
      else (d, queued)
  end.

Definition HandleOutputWrite (i : nat) (client : ClientConnection) (frame : Frame) (d : daemon)
    : daemon * bool :=
  match DecodeOutputWritePayload (frame_payload frame) with
  | None => reject i frame d
  | Some request =>
      let authorization := Gate.AuthorizeWrite (gate d) (client_of client) (write_epoch request) in
      if negb (bool_decide (Gate.status authorization = Ok))
      then reply i frame (Gate.status authorization) d
      else
        match ports d !! Z.to_nat (write_busIndex request) with
        | None => reply i frame BadTarget d
        | Some p =>
            let bounds := validate_output (thread p) (write_subDeviceIndex request)
                            (write_offset request) (write_data request) in
            if negb (bool_decide (bounds = Ok)) then reply i frame bounds d
            else if micros =? 0 then reply i frame InternalError d
            else
              let command := mkCommand (write_epoch request) (write_subDeviceIndex request)
                               (write_offset request) micros (write_data request) in
              let '(b, queued) := QueueOutput command (thread p) in
              let d := with_ports (<[Z.to_nat (write_busIndex request) :=
                                       on_thread (fun _ => b) p]> (ports d)) d in
              if queued then
                let d := with_grant (mkGrant (Z.to_nat (write_busIndex request))
                                       (peer client) command (gate d)) d in
                let '(refreshed, g) :=
                  Gate.RecordOutputWrite (gate d) (client_of client) (write_epoch request) now in
                let d := with_gate g d in
                if negb (bool_decide (Gate.status refreshed = Ok))
                then reply i frame (Gate.status refreshed) d
                else reply i frame Ok d
              else reply i frame QueueFull d
        end
  end.

Definition HandleClearCounters (i : nat) (frame : Frame) (d : daemon) : daemon * bool :=
  if negb (bool_decide (frame_payload frame = [])) then reject i frame d
  else reply i frame Ok (with_ports (map ResetCounters (ports d)) d).

Definition HandleRelease (i : nat) (client : ClientConnection) (frame : Frame) (d : daemon)
    : daemon * bool :=
  match DecodeEpochPayload (frame_payload frame) with
  | None => reject i frame d
  | Some epoch =>
      let '(result, g) := Gate.Release (gate d) (client_of client) epoch in
      let '(d, queued) := reply i frame (Gate.status result) (with_gate g d) in
      if Gate.epochChanged result then
        let d := ApplySafetyToBuses d in
        (on_client i close_after_write (BroadcastOutputsDisabled now Requested 0xffff d), queued)
      else (d, queued)
  end.

Definition HandleSubscribeInputs (i : nat) (frame : Frame) (d : daemon) : daemon * bool :=
  match DecodeSubscribeInputsPayload (frame_payload frame) with
  | None => reject i frame d
  | Some subscription =>
      let d := on_client i
                 (on_session (fun s => mkSession (helloReceived s) (role s)
                                         (subscribe_enabled subscription)
                                         (subscribe_periodMs subscription) (nextPublication s))) d in
      reply i frame Ok (UpdateInputPublicationDemand d)
  end.

Definition HandleAdapterUnlock (i : nat) (client : ClientConnection) (frame : Frame) (d : daemon)
    : daemon * bool :=
  match DecodeAdapterUnlockPayload (frame_payload frame) with
  | None => reject i frame d
  | Some request =>
      let authorization :=
        Gate.AuthorizeController (gate d) (client_of client) (unlock_epoch request) in
      if negb (bool_decide (Gate.status authorization = Ok))
      then reply i frame (Gate.status authorization) d
      else
        match adapters d !! Z.to_nat (unlock_busIndex request) with
        | None => reply i frame BadTarget d
        | Some runtime =>
            let runtime := mkAdapter (resolution runtime) true (workerStarted runtime)
                             (boundInterface runtime) (boundIdPath runtime)
                             (observedFaultSequence runtime) in
            let d := with_adapters (<[Z.to_nat (unlock_busIndex request) := runtime]> (adapters d))
                       d in
            let '(d, queued) := reply i frame Ok d in
            let d := AdvanceEpoch now AdapterMismatch (unlock_busIndex request) d in
            (with_scan true d, queued)
        end
  end.

Definition HandleAdapterRescan (i : nat) (frame : Frame) (d : daemon) : daemon * bool :=
  if negb (bool_decide (frame_payload frame = [])) then reject i frame d
  else
    let d := if nextObserverRescanAllowed d <=? now
             then with_rescan (now + 250000000) (with_scan true d) else d in
    reply i frame Ok d.

Definition HandleFrame (i : nat) (frame : Frame) (d : daemon) : daemon * bool :=
  match clients d !! i with
  | None => (d, false)
  | Some client =>
      let hello := bool_decide (frame_type frame = Hello) in
      if ((frame_requestId frame =? 0) && negb hello) ||
         (MessageType_code AdapterRescan <? MessageType_code (frame_type frame))
      then (CloseClient now i d, false)
      else if negb (greeted client) && negb hello then (CloseClient now i d, false)
      else if greeted client && hello then (CloseClient now i d, false)
      else
        match frame_type frame with
        | Hello => HandleHello i client frame d
        | Heartbeat => HandleHeartbeat i client frame d
        | OutputEnable => HandleOutputEnable i client frame d
        | OutputWrite => HandleOutputWrite i client frame d
        | ClearCounters => HandleClearCounters i frame d
        | ReleaseControl => HandleRelease i client frame d
        | SubscribeInputs => HandleSubscribeInputs i frame d
        | AdapterUnlock => HandleAdapterUnlock i client frame d
        | AdapterRescan => HandleAdapterRescan i frame d
        | _ => (CloseClient now i d, false)
        end
  end.

Definition ConsumeRateToken (i : nat) (d : daemon) : daemon * bool :=
  match clients d !! i with
  | None => (d, false)
  | Some client =>
      let '(r, enough) := take_token now (rate client) in
      let d := put_client i (set_rate r client) d in
      if enough then (d, true)
      else
        let d := on_client i close_after_write d in
        (fst (QueueAck now i Protocol.Error 0 QueueFull 0 true d), false)
  end.

(** The frames of one batch: false once a frame ends the reading. *)
Fixpoint handle_frames (i : nat) (batch : list Frame) (d : daemon) : daemon * bool :=
  match batch with
  | [] => (d, true)
  | frame :: batch =>
      match ConsumeRateToken i d with
      | (d, false) => (d, false)
      | (d, true) =>
          match HandleFrame i frame d with
          | (d, false) => (d, false)
          | (d, true) => handle_frames i batch d
          end
      end
  end.
End Requests.

(** ** Reading and accepting *)

(** [ReadClient]: one call of [recv] per answer. On a closed descriptor [recv] fails with
    EBADF whatever else it would answer. *)
Fixpoint ReadClient (now micros : Z) (answers : list recv_answer) (totalRead : Z) (i : nat)
    (d : daemon) : daemon :=
  match clients d !! i with
  | None => d
  | Some client =>
      if negb (descriptor client) then CloseClient now i d
      else
        match answers with
        | [] | RecvAgain :: _ => d
        | RecvClosed :: _ | RecvError :: _ => CloseClient now i d
        | RecvIntr :: answers => ReadClient now micros answers totalRead i d
        | RecvBytes data :: answers =>
            let totalRead := totalRead + zlen data in
            let yieldAfterBatch := 64 * 1024 <=? totalRead in
            let '(dec, batch, valid) := FrameDecoder.Feed (decoder client) data in
            let d := put_client i (set_decoder dec client) d in
            if negb valid then CloseClient now i d
            else
              match handle_frames now micros i batch d with
              | (d, false) => d
              | (d, true) =>
                  if yieldAfterBatch then d else ReadClient now micros answers totalRead i d
              end
        end
  end.

(** The answers of [accept4]; [None] when the credentials cannot be read. A failing
    [accept4] ends the process. *)
Inductive accept_answer := Accepted (credentials : option Credentials) | AcceptAgain | AcceptIntr.

(** [nextClientId_++], skipping 0: the id and the next counter. *)
Definition fresh_id (next : Z) : Z * Z :=
  let id := next in
  let next := to_u64 (next + 1) in
  if id =? 0 then (next, to_u64 (next + 1)) else (id, next).

Fixpoint AcceptClients (now : Z) (answers : list accept_answer) (d : daemon) : daemon :=
  match answers with
  | [] | AcceptAgain :: _ => d
  | AcceptIntr :: answers => AcceptClients now answers d
  | Accepted credentials :: answers =>
      if kMaximumClients <=? zlen (clients d) then AcceptClients now answers d
      else
        match credentials with
        | None => AcceptClients now answers d
        | Some credentials =>
            if cred_pid credentials <=? 0 then AcceptClients now answers d
            else
              let clientsForUid :=
                zlen (List.filter
                        (fun c => descriptor c && (client_uid (peer c) =? cred_uid credentials))
                        (clients d)) in
              if 8 <=? clientsForUid then AcceptClients now answers d
              else
                let '(id, next) := fresh_id (nextClientId d) in
                let d := with_clients (clients d ++ [new_client id now credentials])
                           (with_nextClientId next d) in
                AcceptClients now answers d
        end
  end.

(** What [poll] reports of one client, and what its calls will answer. *)
Record client_events := mkEvents {
  ev_hangup : bool;
  ev_readable : bool;
  ev_writable : bool;
  ev_recv : list recv_answer;
  ev_send : list send_answer
}.

(** One iteration of the loop of [PollClients]. *)
Definition hello_timeout (now : Z) (i : nat) (d : daemon) : daemon :=
  match clients d !! i with
  | Some client =>
      if negb (greeted client) && (1000000000 <? now - acceptedAt client)
      then CloseClient now i d else d
  | None => d
  end.

Definition is_open (i : nat) (d : daemon) : bool :=
  match clients d !! i with Some client => descriptor client | None => false end.

Definition poll_client (now micros : Z) (d : daemon) (polled : nat * client_events) : daemon :=
  let '(i, ev) := polled in
  if ev_hangup ev then CloseClient now i d
  else
    let d := if ev_readable ev then ReadClient now micros (ev_recv ev) 0 i d else d in
    let d := if is_open i d && ev_writable ev then FlushClient now (ev_send ev) i d else d in
    hello_timeout now i d.

(** [PollClients] after [poll] has returned: [accepts] when the listening socket is
    readable, [evs] for the clients in order. *)
Definition PollClients (now micros : Z) (accepts : option (list accept_answer))
    (evs : list client_events) (d : daemon) : daemon :=
  let polledClientCount := length (clients d) in
  let d := match accepts with Some answers => AcceptClients now answers d | None => d end in
  fold_left (poll_client now micros) (zip (seq 0 polledClientCount) evs) d.

(** ** Adapters and bus threads *)

Section Threads.

(** [EC_MAXSLAVE], a constant of the SOEM build. *)
Context (EC_MAXSLAVE : Z).

(** One action of the thread of bus [index]. *)
Definition bus_action (index : nat) (mapping : InterfaceConfig) (io : Io) (b : bus) : bus :=
  worker mapping (config_outputCommandTimeout configuration) (config_cyclePeriod configuration)
    (to_u16 (Z.of_nat index)) EC_MAXSLAVE io b.

(** Every bus shares [globalFaultedEpoch_]: a store by one is seen by all. *)
Definition put_thread (index : nat) (b : bus) (d : daemon) : daemon :=
  let e := globalFaultedEpoch (shared b) in
  with_globalFaulted e
    (with_ports
       (map (on_thread (with_shared (set_globalFaultedEpoch e)))
          (alter (on_thread (fun _ => b)) index (ports d))) d).

(** [EthercatBus::Stop]: [ios] are the answers to the thread's actions until it is joined.
    A thread that is not running stays [AtStopped]. *)
Definition Stop (index : nat) (mapping : InterfaceConfig) (ios : list Io) (b : bus) : bus :=
  fold_left (fun b io => bus_action index mapping io b) ios
    (with_shared (fun h => set_running false (set_outputsPermitted false h)) b).

(** The stores of [EthercatBus::Start] after its [Stop]; the thread starts with fresh
    locals. *)
Definition launch (up : bool) (epoch : Z) (b : bus) : bus :=
  let b := with_shared
             (fun h => set_running true (set_outputsPermitted false (set_safetyEpochApplied 0
                         (set_safetyEpoch epoch (set_linkUp up h))))) b in
  goto AtStart (with_private (fun p => set_attempted false (set_observed 0 p)) b).

Definition Start (index : nat) (mapping : InterfaceConfig) (ios : list Io) (up : bool) (epoch : Z)
    (b : bus) : bus :=
  launch up epoch (Stop index mapping ios b).

Record PlannedBinding := mkPlanned {
  planned_resolution : AdapterResolution;
  ready : bool;
  bindingChanged : bool;
  linkLost : bool;
  planned_interface : bytes;
  planned_idPath : bytes;
  planned_link : bool
}.

Definition plan (identities : list AdapterIdentity) (mapping : InterfaceConfig)
    (runtime : AdapterRuntime) : PlannedBinding :=
  let next := ResolveAdapter identities (if_physicalInterface mapping) (if_lock mapping)
                (runtimeUnlocked runtime) in
  let nextInterface :=
    match resolution_identity next with Some i => interfaceName i | None => [] end in
  let nextIdPath := match resolution_identity next with Some i => idPath i | None => [] end in
  let nextLink := identity_link next in
  let priorLink := identity_link (resolution runtime) in
  let changed :=
    negb (bool_decide (nextInterface = boundInterface runtime)) ||
    negb (bool_decide (nextIdPath = boundIdPath runtime)) ||
    negb (bool_decide (resolution_state next = resolution_state (resolution runtime))) ||
    negb (bool_decide (resolution_reason next = resolution_reason (resolution runtime))) in
  mkPlanned next (adapter_bound next) changed (priorLink && negb nextLink) nextInterface nextIdPath
    nextLink.

(** The change that costs the controller its lease, if any: the last one found. *)
Definition safety_change (initial : bool) (plans : list PlannedBinding)
    : option (DisableReason * Z) :=
  fold_left
    (fun found '(index, next) =>
       if negb initial && (bindingChanged next || linkLost next)
       then Some (if linkLost next then LinkLoss else AdapterMismatch, to_u16 (Z.of_nat index))
       else found)
    (zip (seq 0 (length plans)) plans) None.

(** One iteration of the second loop of [ScanAdapters]. *)
Definition rebind (joins : nat -> list Io) (d : daemon)
    (entry : nat * (InterfaceConfig * PlannedBinding)) : daemon :=
  let '(index, (mapping, next)) := entry in
  match ports d !! index, adapters d !! index with
  | Some p, Some runtime =>
      let '(b, started) :=
        if negb (ready next) then
          if workerStarted runtime then (Stop index mapping (joins index) (thread p), false)
          else (thread p, false)
        else if negb (workerStarted runtime) || bindingChanged next then
          let b := if workerStarted runtime then Stop index mapping (joins index) (thread p)
                   else thread p in
          (Start index mapping (joins index) (planned_link next) (Gate.epoch (gate d)) b, true)
        else (SetLinkUp (planned_link next) (thread p), workerStarted runtime) in
      let runtime := mkAdapter (planned_resolution next) (runtimeUnlocked runtime) started
                       (planned_interface next) (planned_idPath next)
                       (observedFaultSequence runtime) in
      with_adapters (<[index := runtime]> (adapters d)) (put_thread index b d)
  | _, _ => d
  end.

Definition ScanAdapters (now : Z) (initial : bool) (identities : list AdapterIdentity)
    (joins : nat -> list Io) (d : daemon) : daemon :=
  let mappings := config_interfaces configuration in
  let planned := zip_with (plan identities) mappings (adapters d) in
  let d := match safety_change initial planned with
           | Some (reason, busIndex) => AdvanceEpoch now reason busIndex d
           | None => d
           end in
  fold_left (rebind joins) (zip (seq 0 (length planned)) (zip mappings planned)) d.
End Threads.
End Handlers.
