(* ===== verification/Telemetry.v ===== *)
(** What the daemon publishes to its clients: the aggregate status, the bus information and
    the input snapshots ([Status], [BroadcastStatus], [BroadcastBusInformation] and
    [DrainInputs] of [main.cpp]). *)

From S2P Require Import Prelude Protocol Frame SafetyGate SpscQueue Realtime Config Adapter.
From S2P Require Import IoMap BusIo Cycle Sockets Connection Daemon.

(** ** The status *)

(** [EthercatBus::Snapshot]. *)
Record BusSnapshot := mkSnapshot {
  snapshot_state : BusState;
  snapshot_reinitializing : bool;
  snapshot_subDeviceCount : Z;
  snapshot_faults : Z;
  snapshot_lostFrames : Z;
  snapshot_cycleOverruns : Z;
  snapshot_currentJitterUs : Z;
  snapshot_maximumJitterUs : Z;
  snapshot_schedulingMode : SchedulingMode;
  snapshot_realtimeErrorBits : Z
}.

Definition Snapshot (p : port) : BusSnapshot :=
  let b := thread p in
  mkSnapshot (busState (published b)) (reinitializing (published b))
    (subDeviceCount (published b))
    (to_u16 (Z.min U16_MAX (faults (published b) + staleOutputFaults (out (private b)))))
    (lostFrames (published b)) (cycleOverruns (timing p)) (currentJitterUs (timing p))
    (maximumJitterUs (timing p)) (schedulingMode (timing p)) (realtimeErrorBits (published b)).

(** The locals of [Status]. *)
Record Tally := mkTally {
  allOperational : bool;
  anyFault : bool;
  anyInitializing : bool;
  allRealtimeApplied : bool;
  timingDegraded : bool;
  fifo : bool;
  activeAdapters : Z;
  subDevices : Z;
  activeFaults : Z;
  tally_lostFrames : Z;
  tally_cycleOverruns : Z;
  tally_maximumJitterUs : Z;
  tally_currentJitterUs : Z;
  tally_realtimeErrorBits : Z
}.

Definition adapter_fault (r : AdapterResolution) : bool :=
  bool_decide (resolution_state r = Mismatch) || bool_decide (resolution_state r = Missing) ||
  negb (Adapter.has_value (resolution_identity r)) || negb (identity_link r).

(** [a > max - b ? max : a + b]. *)
Definition saturating_add (a b : Z) : Z := if U64_MAX - b <? a then U64_MAX else a + b.

(** One iteration of the loop of [Status]. *)
Definition tally_bus (cyclePeriod : Z) (t : Tally) (entry : port * AdapterRuntime) : Tally :=
  let '(p, adapter) := entry in
  let s := Snapshot p in
  let fault := adapter_fault (resolution adapter) in
  let isFifo := bool_decide (snapshot_schedulingMode s = Fifo) in
  let busFaultCount :=
    if bool_decide (snapshot_state s = Fault) then Z.max 1 (snapshot_faults s)
    else snapshot_faults s in
  mkTally
    (allOperational t && bool_decide (snapshot_state s = Operational))
    (anyFault t || bool_decide (snapshot_state s = Fault) || fault)
    (anyInitializing t || snapshot_reinitializing s ||
     bool_decide (snapshot_state s = Initializing))
    (allRealtimeApplied t && negb (negb isFifo || negb (snapshot_realtimeErrorBits s =? 0)))
    (timingDegraded t || negb (snapshot_cycleOverruns s =? 0) ||
     (to_u32 cyclePeriod <? snapshot_currentJitterUs s))
    (fifo t && isFifo)
    (Z.min U16_MAX
       (activeAdapters t + bit (Adapter.has_value (resolution_identity (resolution adapter)))))
    (Z.min U16_MAX (to_u32 (subDevices t + snapshot_subDeviceCount s)))
    (Z.min U16_MAX (to_u32 (activeFaults t + busFaultCount + bit fault)))
    (saturating_add (tally_lostFrames t) (snapshot_lostFrames s))
    (saturating_add (tally_cycleOverruns t) (snapshot_cycleOverruns s))
    (Z.max (tally_maximumJitterUs t) (snapshot_maximumJitterUs s))
    (Z.max (tally_currentJitterUs t) (snapshot_currentJitterUs s))
    (Z.lor (tally_realtimeErrorBits t) (snapshot_realtimeErrorBits s)).

Definition flag (b : bool) (f flags : Z) : Z := if b then Z.lor flags f else flags.

Section Telemetry.
Context (configuration : DaemonConfig) (preemptRtAvailable : bool).

Definition Status (micros : Z) (d : daemon) : StatusPayload :=
  let some := negb (is_empty (ports d)) in
  let t := fold_left (tally_bus (config_cyclePeriod configuration)) (zip (ports d) (adapters d))
             (mkTally some false false some false some 0 0 0 0 0 0 0 0) in
  let realtime := config_realtime configuration in
  let flags :=
    flag (anyInitializing t) StatusReinitializing
      (flag (timingDegraded t) StatusTimingDegraded
        (flag (requestFifo realtime || requestMemoryLock realtime ||
               Adapter.has_value (cpuAffinity realtime)) StatusRealtimeRequested
          (flag (allRealtimeApplied t) StatusRealtimeApplied
            (flag preemptRtAvailable StatusPreemptRtAvailable
              (flag (Gate.hasController (gate d)) StatusControllerConnected
                (flag (Gate.outputsEnabled (gate d)) StatusOutputsEnabled
                  (flag (allOperational t) StatusOperational 0))))))) in
  let aggregate :=
    if anyFault t then Fault
    else if anyInitializing t then Initializing
    else if negb (allOperational t) && some then WaitingForLink
    else if some then Operational else Starting in
  mkStatus (BusState_code aggregate) flags (activeAdapters t) (subDevices t) (activeFaults t)
    (tally_maximumJitterUs t) (tally_currentJitterUs t) (tally_lostFrames t)
    (tally_cycleOverruns t) (Gate.epoch (gate d)) (Gate.controllerPid (gate d))
    (to_u16 (zlen (ports d))) (if fifo t then Fifo else Other) (tally_realtimeErrorBits t) micros.

Definition BroadcastStatus (now micros : Z) (d : daemon) : daemon :=
  broadcast (CloseClient now) now
    (EncodeFrame Protocol.Status 0 (EncodeStatusPayload (Status micros d))) d.

(** ** The bus information *)

Definition bus_information (index : nat) (mapping : InterfaceConfig) (adapter : AdapterRuntime)
    (p : port) (epoch : Z) : BusInfoPayload :=
  let r := resolution adapter in
  let text (f : AdapterIdentity -> option bytes) : bytes :=
    match resolution_identity r with Some i => default [] (f i) | None => [] end in
  mkBusInfo (to_u16 (Z.of_nat index))
    (if bool_decide (resolution_state r = Mismatch) then Fault
     else match resolution_identity r with
          | None => WaitingForLink
          | Some _ => snapshot_state (Snapshot p)
          end)
    (identity_link r) (resolution_state r) (resolution_reason r)
    (snapshot_subDeviceCount (Snapshot p)) (if_logicalName mapping)
    (match resolution_identity r with
     | Some i => interfaceName i
     | None => if_physicalInterface mapping
     end)
    (text (fun i => Some (idPath i))) (text permanentMac) (text usbSerial) (text usbVendorId)
    (text usbProductId) epoch.

(** One iteration of the loop of [BroadcastBusInformation]. *)
Definition broadcast_bus (now : Z) (d : daemon) (entry : nat * InterfaceConfig) : daemon :=
  let '(index, mapping) := entry in
  match ports d !! index, adapters d !! index with
  | Some p, Some adapter =>
      let payload :=
        EncodeBusInfoPayload (bus_information index mapping adapter p (Gate.epoch (gate d))) in
      if is_empty payload then d
      else broadcast (CloseClient now) now (EncodeFrame BusInfo 0 payload) d
  | _, _ => d
  end.

Definition BroadcastBusInformation (now : Z) (d : daemon) : daemon :=
  let mappings := config_interfaces configuration in
  fold_left (broadcast_bus now) (zip (seq 0 (length (ports d))) mappings) d.
End Telemetry.

(** ** Input snapshots *)

(** The chunk joins the accumulator ([Some], with whether the snapshot is complete) or the
    accumulator is reset. *)
Definition accumulate (chunk : InputChunk) (acc : InputPublicationAccumulator)
    : InputPublicationAccumulator * bool :=
  let h := chunk_header chunk in
  if (snapshotChunkCount chunk =? 0) || (128 <? snapshotChunkCount chunk) ||
     (snapshotChunkCount chunk <=? snapshotChunkIndex chunk)
  then (empty_accumulator, false)
  else
    let acc :=
      if snapshotChunkIndex chunk =? 0
      then mkAccumulator (input_epoch h) (input_cycleSequence h) (snapshotChunkCount chunk) 0 0 []
      else acc in
    if negb (acc_epoch acc =? input_epoch h) ||
       negb (acc_cycleSequence acc =? input_cycleSequence h) ||
       negb (expectedChunks acc =? snapshotChunkCount chunk) ||
       negb (nextChunk acc =? snapshotChunkIndex chunk)
    then (empty_accumulator, false)
    else
      let payload := EncodePdoInputPayload
                       (mkPdoInput (input_busIndex h) (input_subDeviceIndex h) (input_offset h)
                          (input_totalSize h) (input_epoch h) (input_cycleSequence h)
                          (chunk_data chunk)) in
      if is_empty payload then (empty_accumulator, false)
      else
        let frame := EncodeFrame PdoInput 0 payload in
        if is_empty frame ||
           (kMaximumClientOutputBytes - Z.min (totalBytes acc) kMaximumClientOutputBytes
              <? zlen frame)
        then (empty_accumulator, false)
        else
          let acc := mkAccumulator (acc_epoch acc) (acc_cycleSequence acc) (expectedChunks acc)
                       (to_u16 (nextChunk acc + 1)) (totalBytes acc + zlen frame)
                       (frames acc ++ [frame]) in
          (acc, nextChunk acc =? expectedChunks acc).

(** One client of the loop over [clients_]. *)
Definition deliver (now : Z) (busIndex : nat) (acc : InputPublicationAccumulator) (d : daemon)
    (i : nat) : daemon :=
  match clients d !! i with
  | None => d
  | Some client =>
      if negb (subscriber client) then d
      else if now <? default 0 (nextPublication (session client) !! busIndex) then d
      else
        let next := now + inputPeriodMs (session client) * 1000000 in
        let d := on_client i
                   (on_session (fun s => mkSession (helloReceived s) (role s) (subscribeInputs s)
                                           (inputPeriodMs s)
                                           (<[busIndex := next]> (nextPublication s)))) d in
        if acc_epoch acc =? Gate.epoch (gate d)
        then fst (QueueFramesAtomically now i (frames acc) (totalBytes acc) d) else d
  end.

Definition put_accumulator (busIndex : nat) (acc : InputPublicationAccumulator) (d : daemon)
    : daemon :=
  with_publications (<[busIndex := acc]> (publications d)) d.

(** The body of the loop of [DrainInputs] over one bus's chunks. *)
Definition drain_chunk (now : Z) (busIndex : nat) (hasSubscriber : bool) (chunk : InputChunk)
    (d : daemon) : daemon :=
  if negb hasSubscriber then put_accumulator busIndex empty_accumulator d
  else
    match accumulate chunk (default empty_accumulator (publications d !! busIndex)) with
    | (acc, false) => put_accumulator busIndex acc d
    | (acc, true) =>
        put_accumulator busIndex empty_accumulator
          (fold_left (deliver now busIndex acc) (seq 0 (length (clients d)))
             (put_accumulator busIndex acc d))
    end.

(** [while (PopInput(&chunk))]: the ring holds fewer than [kMaximumInputChunks] chunks. *)
Fixpoint drain_loop (fuel : nat) (now : Z) (busIndex : nat) (hasSubscriber : bool) (d : daemon)
    : daemon :=
  match fuel, ports d !! busIndex with
  | S fuel, Some p =>
      match TryPop kMaximumInputChunks (inputChunks (thread p)) with
      | (_, None) => d
      | (q, Some chunk) =>
          let d := with_ports (<[busIndex := on_thread (with_chunks q) p]> (ports d)) d in
          drain_loop fuel now busIndex hasSubscriber (drain_chunk now busIndex hasSubscriber chunk d)
      end
  | _, _ => d
  end.

Definition drain_bus (now : Z) (d : daemon) (busIndex : nat) : daemon :=
  drain_loop kMaximumInputChunks now busIndex (existsb subscriber (clients d)) d.

Definition DrainInputs (now : Z) (d : daemon) : daemon :=
  fold_left (drain_bus now) (seq 0 (length (ports d))) d.
