(* ===== verification/Control.v ===== *)
(** The control plane as a state machine: the events of the daemon (the operations of the
    main loop [Daemon::Run] and the actions of the bus threads, in any order), and the
    invariants of the reachable states.

    [Invariant] is the interface between a predicate on the state and the operations: a
    predicate that survives a few primitive changes survives every broadcast, every closing
    of a client and every request handler. It is instantiated with the invariant of the whole
    daemon, and with the weaker one that holds between a revocation and the moment the buses
    are told. *)

From stdpp Require Import list_numbers.
From S2P Require Import Prelude Protocol Frame SafetyGate SpscQueue Realtime Config Adapter.
From S2P Require Import IoMap BusIo Cycle Threads Sockets Connection Daemon Telemetry.

(** ** Small changes *)

(** The queue and the decoder of a connection are consistent. *)
Definition client_ok (c : ClientConnection) : Prop := connection_ok c /\ decoder_inv (decoder c).

(** [c'] is [c] with another queue, rate, decoder or subscription; a greeted client keeps
    its role. *)
Record quiet (c c' : ClientConnection) : Prop := {
  quiet_connection : client_ok c -> client_ok c';
  quiet_descriptor : descriptor c' = descriptor c;
  quiet_peer : peer c' = peer c;
  quiet_greeted : greeted c' = greeted c;
  quiet_role : role (session c') = role (session c)
}.

(** The bus thread and its safety state are untouched; chunks may have been popped. *)
Definition same_thread (p p' : port) : Prop := exists q, thread p' = with_chunks q (thread p).

(** The gate keeps its epoch, its controller and its permission. *)
Record refreshed (g g' : Gate.t) : Prop := {
  refreshed_inv : gate_inv g -> gate_inv g';
  refreshed_epoch : Gate.epoch g' = Gate.epoch g;
  refreshed_controller : Gate.controllerId g' = Gate.controllerId g;
  refreshed_enabled : Gate.outputsEnabled g' = Gate.outputsEnabled g
}.

Definition accumulator_ok (acc : InputPublicationAccumulator) : Prop :=
  batch_ok (frames acc) (totalBytes acc).

(** The gate is invalidated and the buses are told. *)
Definition revoke (d : daemon) : daemon :=
  ApplySafetyToBuses (with_gate (snd (Gate.DropControllerAndAdvanceEpoch (gate d))) d).

(** What a predicate on the state must survive. *)
Class Invariant (P : daemon -> Prop) := {
  inv_client i c c' d :
    clients d !! i = Some c -> quiet c c' -> P d -> P (put_client i c' d);
  inv_closed i c d :
    clients d !! i = Some c -> Gate.controllerId (gate d) <> Some (client_of c) ->
    P d -> P (put_client i (close_connection c) d);
  inv_closed_controller i c d :
    clients d !! i = Some c -> Gate.controllerId (gate d) = Some (client_of c) ->
    P d -> P (revoke (UpdateInputPublicationDemand (put_client i (close_connection c) d)));
  inv_ports ps d : Forall2 same_thread (ports d) ps -> P d -> P (with_ports ps d);
  inv_adapters v d : length v = length (adapters d) -> P d -> P (with_adapters v d);
  inv_scan v d : P d -> P (with_scan v d);
  inv_rescan v d : P d -> P (with_rescan v d);
  inv_accumulator i acc d :
    (accumulator_ok (default empty_accumulator (publications d !! i)) -> accumulator_ok acc) ->
    P d -> P (put_accumulator i acc d);
  inv_batch i d : P d -> accumulator_ok (default empty_accumulator (publications d !! i));
  inv_revoke d : P d -> P (revoke d);
  inv_refresh g d : refreshed (gate d) g -> P d -> P (with_gate g d)
}.

Lemma fold_keeps {A B} (P : A -> Prop) (f : A -> B -> A) l a :
  (forall a b, P a -> P (f a b)) -> P a -> P (fold_left f l a).
Proof. intros Hf. revert a. induction l as [|b l IH]; intros a Ha; cbn; auto. Qed.

Lemma put_client_id i c d : clients d !! i = Some c -> put_client i c d = d.
Proof. intros H. unfold put_client. rewrite list_insert_id by done. by destruct d. Qed.

Lemma on_client_put i c f d : clients d !! i = Some c -> on_client i f d = put_client i (f c) d.
Proof.
  intros H. unfold on_client, put_client. f_equal. apply list_eq. intros j.
  destruct (decide (i = j)) as [<-|Hne].
  - rewrite list_lookup_alter_eq, list_lookup_insert_eq by (by eapply lookup_lt_Some). by rewrite H.
  - by rewrite list_lookup_alter_ne, list_lookup_insert_ne.
Qed.

Lemma on_client_none i f d : clients d !! i = None -> on_client i f d = d.
Proof.
  intros H. unfold on_client. destruct d. cbn in *. unfold with_clients. cbn. f_equal.
  apply list_eq. intros j. destruct (decide (i = j)) as [<-|Hne].
  - by rewrite list_lookup_alter_eq, H.
  - by rewrite list_lookup_alter_ne.
Qed.

Lemma quiet_refl c : quiet c c.
Proof. by split. Qed.

Lemma quiet_queue f c :
  (forall q, same_frames q (f q)) -> quiet c (on_queue f c).
Proof. intros H. split; try done. intros [Hc Hd]. split; [by apply same_frames_connection|done]. Qed.

Lemma quiet_offer now frame required c : quiet c (fst (offer now frame required c)).
Proof.
  unfold offer. destruct (negb (descriptor c) || _ || _) eqn:E.
  { destruct required; [apply quiet_refl|by apply quiet_queue]. }
  split; try (by destruct (negb required && _ && _)).
  intros [Hc Hd]. pose proof (offer_offered now frame required c Hc) as (H & _).
  unfold offer in H. rewrite E in H. split; [done|]. by destruct (negb required && _ && _).
Qed.

Lemma quiet_offer_all now batch total c :
  batch_ok batch total -> quiet c (fst (offer_all now batch total c)).
Proof.
  intros Hb. split.
  1: { intros [Hc Hd]. destruct (offer_all_offered now batch total c Hc Hb) as [? _].
       split; [done|]. unfold offer_all. by destruct (_ || _). }
  all: unfold offer_all; by destruct (_ || _).
Qed.

Lemma same_thread_map f ps :
  (forall p, thread (f p) = thread p) -> Forall2 same_thread ps (map f ps).
Proof.
  intros H. induction ps as [|p ps IH]; constructor; [|done].
  exists (inputChunks (thread p)). rewrite H. by destruct (thread p).
Qed.

(** ** Closing and queueing *)

Section Generic.
Context (P : daemon -> Prop) `{!Invariant P}.

Lemma demand_keeps d : P d -> P (UpdateInputPublicationDemand d).
Proof using Type*. apply inv_ports, same_thread_map. done. Qed.

Lemma on_client_keeps i f d :
  (forall c, clients d !! i = Some c -> quiet c (f c)) -> P d -> P (on_client i f d).
Proof using Type*.
  intros Hf Hd. destruct (clients d !! i) as [c|] eqn:E.
  - rewrite (on_client_put i c) by done. by eapply inv_client; [|by apply Hf|].
  - by rewrite on_client_none.
Qed.

Lemma close_after_write_keeps i d : P d -> P (on_client i close_after_write d).
Proof using Type*. apply on_client_keeps. intros c _. by apply quiet_queue. Qed.

Section Closing.
Context (close : nat -> daemon -> daemon) (Hclose : forall i d, P d -> P (close i d)) (now : Z).

Lemma queue_frame_keeps i frame required d :
  P d -> P (fst (queue_frame close now i frame required d)).
Proof using Type*.
  intros Hd. unfold queue_frame. destruct (clients d !! i) as [c|] eqn:E; [|done].
  pose proof (quiet_offer now frame required c) as Hq.
  destruct (offer now frame required c) as [c' v]. cbn in Hq.
  assert (P (put_client i c' d)) by by eapply inv_client.
  destruct v; cbn; auto.
Qed.

Lemma broadcast_keeps frame d : P d -> P (broadcast close now frame d).
Proof using Type*.
  apply fold_keeps. intros d' i Hd'. unfold broadcast_to. destruct (clients d' !! i); [|done].
  destruct (reachable_client _); [|done]. by apply queue_frame_keeps.
Qed.
End Closing.

Lemma Disconnect_controller g c :
  Gate.controllerId g = Some c -> Gate.Disconnect g c = Gate.DropControllerAndAdvanceEpoch g.
Proof using Type.
  unfold Gate.controllerId, Gate.Disconnect. destruct (Gate.controller g) as [k|]; [|done].
  cbn. intros [= <-]. by rewrite Z.eqb_refl.
Qed.

Lemma close_body_keeps close now i d :
  (forall i d, P d -> P (close i d)) -> P d -> P (close_body close now i d).
Proof using Type*.
  intros Hclose Hd. unfold close_body. destruct (clients d !! i) as [c|] eqn:E; [|done].
  destruct (descriptor c); [cbn [negb]|done].
  case_bool_decide as Hc; [|by apply demand_keeps, inv_closed].
  cbn [UpdateInputPublicationDemand put_client gate with_ports with_clients].
  rewrite (Disconnect_controller _ _ Hc). apply broadcast_keeps; [done|].
  exact (inv_closed_controller i c d E Hc Hd).
Qed.

Lemma close_client_keeps depth now i d : P d -> P (close_client depth now i d).
Proof using Type*.
  revert i d. induction depth as [|depth IH]; intros i d Hd; apply close_body_keeps; auto.
Qed.

Lemma CloseClient_keeps now i d : P d -> P (CloseClient now i d).
Proof using Type*. apply close_client_keeps. Qed.

Lemma QueueFrame_keeps now i frame required d : P d -> P (fst (QueueFrame now i frame required d)).
Proof using Type*. apply queue_frame_keeps. intros j d'. apply CloseClient_keeps. Qed.

Lemma QueueAck_keeps now i type requestId status detail required d :
  P d -> P (fst (QueueAck now i type requestId status detail required d)).
Proof using Type*. apply QueueFrame_keeps. Qed.

Lemma reply_keeps now i frame status d : P d -> P (fst (reply now i frame status d)).
Proof using Type*. apply QueueAck_keeps. Qed.

Lemma reject_keeps now i frame d : P d -> P (fst (reject now i frame d)).
Proof using Type*. apply QueueAck_keeps. Qed.

Lemma broadcast_close_keeps now frame d : P d -> P (broadcast (CloseClient now) now frame d).
Proof using Type*. apply broadcast_keeps. intros j d'. apply CloseClient_keeps. Qed.

Lemma disabled_keeps now reason busIndex d :
  P d -> P (BroadcastOutputsDisabled now reason busIndex d).
Proof using Type*. apply broadcast_close_keeps. Qed.

Lemma QueueFramesAtomically_keeps now i batch total d :
  batch_ok batch total -> P d -> P (fst (QueueFramesAtomically now i batch total d)).
Proof using Type*.
  intros Hb Hd. unfold QueueFramesAtomically. destruct (clients d !! i) as [c|] eqn:E; [|done].
  pose proof (quiet_offer_all now batch total c Hb) as Hq.
  destruct (offer_all now batch total c) as [c' v]. cbn in Hq.
  assert (P (put_client i c' d)) by by eapply inv_client.
  destruct v; [done|done|by apply CloseClient_keeps].
Qed.

(** ** Revocations *)

Lemma retire_keeps controller d : P d -> P (retire controller d).
Proof using Type*.
  unfold retire. destruct (_ ≫= _); [|done]. apply close_after_write_keeps.
Qed.

Lemma AdvanceEpoch_keeps now reason busIndex d : P d -> P (AdvanceEpoch now reason busIndex d).
Proof using Type*. intros Hd. by apply retire_keeps, disabled_keeps, inv_revoke. Qed.

(** A call of the gate that either changes nothing or revokes. *)
Lemma expired_cases (r : Gate.Result) (g g' : Gate.t) :
  (r, g') = (Gate.result_ok, g) \/ (r, g') = Gate.DropControllerAndAdvanceEpoch g ->
  (Gate.epochChanged r = false /\ g' = g) \/
  (Gate.epochChanged r = true /\ g' = snd (Gate.DropControllerAndAdvanceEpoch g)).
Proof using Type. intros [[= -> ->]|[= -> ->]]; auto. Qed.

Lemma with_gate_same d : with_gate (gate d) d = d.
Proof using Type. unfold with_gate. rewrite Z.ltb_irrefl, orb_false_r. by destruct d. Qed.

Lemma HandleSafetyTimeouts_keeps now d : P d -> P (HandleSafetyTimeouts now d).
Proof using Type*.
  intros Hd. unfold HandleSafetyTimeouts.
  destruct (Gate.ExpireOutputCommands (gate d) now) as [r g] eqn:E1.
  destruct (expired_cases r (gate d) g) as [[-> ->]|[-> ->]].
  { rewrite <- E1. unfold Gate.ExpireOutputCommands. destruct (Gate.controller _); [|by left].
    destruct (_ || _); auto. }
  - rewrite with_gate_same. destruct (Gate.Expire (gate d) now) as [r' g'] eqn:E2.
    destruct (expired_cases r' (gate d) g') as [[-> ->]|[-> ->]].
    { rewrite <- E2. unfold Gate.Expire. destruct (Gate.controller _); [|by left].
      destruct (_ <=? _); auto. }
    + cbn [negb]. by rewrite with_gate_same.
    + by apply retire_keeps, disabled_keeps, inv_revoke.
  - by apply retire_keeps, disabled_keeps, inv_revoke.
Qed.

Lemma HandleBusFaults_keeps now d : P d -> P (HandleBusFaults now d).
Proof using Type*.
  apply fold_keeps. intros d' i Hd'. unfold handle_bus_fault.
  destruct (ports d' !! i) as [p|]; [|done]. destruct (adapters d' !! i) as [a|]; [|done].
  destruct (_ =? _); [done|]. apply AdvanceEpoch_keeps, inv_adapters; [|done]. apply length_insert.
Qed.

(** ** Telemetry *)

Lemma BroadcastStatus_keeps configuration preempt now micros d :
  P d -> P (BroadcastStatus configuration preempt now micros d).
Proof using Type*. apply broadcast_close_keeps. Qed.

Lemma BroadcastBusInformation_keeps configuration now d :
  P d -> P (BroadcastBusInformation configuration now d).
Proof using Type*.
  apply fold_keeps. intros d' [i m] Hd'. unfold broadcast_bus.
  destruct (ports d' !! i) as [p|]; [|done]. destruct (adapters d' !! i) as [a|]; [|done].
  destruct (is_empty _); [done|]. by apply broadcast_close_keeps.
Qed.

Lemma is_empty_false (l : bytes) : is_empty l = false -> l <> [].
Proof using Type. by destruct l. Qed.

Lemma accumulate_ok chunk acc :
  accumulator_ok acc -> accumulator_ok (fst (accumulate chunk acc)).
Proof using Type.
  intros Ha. assert (accumulator_ok empty_accumulator) as He by (split; [constructor|done]).
  unfold accumulate. destruct (_ || _ || _); [done|].
  set (acc1 := if snapshotChunkIndex chunk =? 0 then _ else acc).
  assert (accumulator_ok acc1) as [Hf Ht] by (unfold acc1; by destruct (_ =? _)).
  clearbody acc1. destruct (_ || _ || _ || _); [done|]. cbn zeta.
  set (payload := EncodePdoInputPayload _). clearbody payload.
  destruct (is_empty payload); [done|].
  destruct (is_empty (EncodeFrame PdoInput 0 payload)) eqn:E; [done|].
  destruct (false || _); [done|]. cbn [fst]. split; cbn.
  - apply Forall_app. split; [done|]. constructor; [by apply is_empty_false|done].
  - rewrite Ht, concat_app, zlen_app. cbn. by rewrite app_nil_r.
Qed.

Lemma deliver_keeps now busIndex acc d i :
  accumulator_ok acc -> P d -> P (deliver now busIndex acc d i).
Proof using Type*.
  intros Ha Hd. unfold deliver. destruct (clients d !! i) as [c|] eqn:E; [|done].
  destruct (negb (subscriber c)); [done|]. destruct (now <? _); [done|]. cbn zeta.
  set (d' := on_client i _ d). assert (P d') by (by apply on_client_keeps).
  destruct (_ =? _); [|done]. by apply QueueFramesAtomically_keeps.
Qed.

Lemma drain_chunk_keeps now busIndex has chunk d : P d -> P (drain_chunk now busIndex has chunk d).
Proof using Type*.
  intros Hd. assert (accumulator_ok empty_accumulator) as He by (split; [constructor|done]).
  unfold drain_chunk. destruct (negb has); [by apply inv_accumulator|].
  pose proof (accumulate_ok chunk _ (inv_batch busIndex d Hd)) as Ha.
  destruct (accumulate _ _) as [acc [|]]; cbn in Ha; [|by apply inv_accumulator].
  apply inv_accumulator; [done|]. apply fold_keeps; [|by apply inv_accumulator].
  intros d' i. by apply deliver_keeps.
Qed.

Lemma same_thread_insert ps i p p' :
  ps !! i = Some p -> same_thread p p' -> Forall2 same_thread ps (<[i := p']> ps).
Proof using Type.
  intros Hi Hp. apply Forall2_same_length_lookup. rewrite length_insert. split; [done|].
  intros j x y Hx Hy. destruct (decide (i = j)) as [<-|Hne].
  - rewrite list_lookup_insert_eq in Hy by (by eapply lookup_lt_Some). by simplify_eq.
  - rewrite list_lookup_insert_ne in Hy by done. simplify_eq.
    exists (inputChunks (thread x)). by destruct (thread x).
Qed.

Lemma drain_loop_keeps fuel now busIndex has d : P d -> P (drain_loop fuel now busIndex has d).
Proof using Type*.
  revert d. induction fuel as [|fuel IH]; intros d Hd; [done|]. cbn [drain_loop].
  destruct (ports d !! busIndex) as [p|] eqn:E; [|done].
  destruct (TryPop _ _) as [q [chunk|]]; [|done]. apply IH, drain_chunk_keeps, inv_ports; [|done].
  eapply same_thread_insert; [done|]. by exists q.
Qed.

Lemma DrainInputs_keeps now d : P d -> P (DrainInputs now d).
Proof using Type*. apply fold_keeps. intros d' i. apply drain_loop_keeps. Qed.
End Generic.

(** ** The invariant of the daemon *)

(** Client [i] has said hello. *)
Definition greeted_at (i : nat) (d : daemon) : Prop :=
  exists c, clients d !! i = Some c /\ greeted c = true.

(** The limits of [AcceptClients]: on the clients, and on the open clients of one user. *)
Definition open_for (uid : Z) (c : ClientConnection) : bool :=
  descriptor c && (client_uid (peer c) =? uid).

Definition crowd_ok (cs : list ClientConnection) : Prop :=
  zlen cs <= kMaximumClients /\ forall uid, zlen (List.filter (open_for uid) cs) <= 8.

Lemma filter_insert_le {A} (f : A -> bool) (l : list A) i x y :
  l !! i = Some x -> (f y = true -> f x = true) ->
  zlen (List.filter f (<[i := y]> l)) <= zlen (List.filter f l).
Proof.
  revert i. induction l as [|z l IH]; intros [|i] Hi Hf; try done.
  - injection Hi as ->. cbn [list_insert insert List.filter].
    destruct (f y) eqn:Ey; [rewrite (Hf eq_refl), !zlen_cons; lia|].
    destruct (f x); rewrite ?zlen_cons; lia.
  - specialize (IH i Hi Hf). change (<[S i := y]> (z :: l)) with (z :: <[i := y]> l).
    cbn [List.filter].
    destruct (f z); rewrite ?zlen_cons; lia.
Qed.

Lemma crowd_put cs i c c' :
  cs !! i = Some c -> peer c' = peer c -> (descriptor c' = true -> descriptor c = true) ->
  crowd_ok cs -> crowd_ok (<[i := c']> cs).
Proof.
  intros Hi Hp Hd [H1 H2]. split; [unfold zlen in *; by rewrite length_insert|].
  intros uid. specialize (H2 uid). etrans; [|exact H2]. eapply filter_insert_le; [done|].
  unfold open_for. rewrite Hp. destruct (descriptor c'); [|done]. by rewrite Hd.
Qed.

(** The section is about a set [G] of clients that are known to have said hello: an
    operation never forgets that. *)
Section Control.
Context (configuration : DaemonConfig) (EC_MAXSLAVE : Z) (G : nat -> Prop).

(** Queues and publications are consistent, there is a bus and an adapter per mapping. *)
Definition plain (d : daemon) : Prop :=
  Forall client_ok (clients d) /\ Forall accumulator_ok (publications d) /\
  (forall i, G i -> greeted_at i d) /\ crowd_ok (clients d) /\
  length (ports d) = length (config_interfaces configuration) /\
  length (adapters d) = length (config_interfaces configuration).

(** The gate's controller is a connected client that was granted the role and is entitled
    to it. *)
Definition controls (d : daemon) (id : Z) : Prop :=
  exists i c, clients d !! i = Some c /\ client_of c = id /\ descriptor c = true /\
    greeted c = true /\ role (session c) = Controller /\
    ControllerAuthorized configuration (peer c) = true.

Definition controlled (d : daemon) : Prop :=
  forall id, Gate.controllerId (gate d) = Some id -> controls d id.

(** A command was accepted from an entitled client that the gate authorised, no later than
    now; if the epoch is still the same, that client still has control. *)
Record grant_ok (g : Gate.t) (x : grant) : Prop := {
  grant_authorized :
    Gate.status (Gate.AuthorizeWrite (grant_gate x) (client_id (grant_peer x))
                   (command_epoch (grant_command x))) = Ok;
  grant_entitled : ControllerAuthorized configuration (grant_peer x) = true;
  grant_past : command_epoch (grant_command x) <= Gate.epoch g;
  grant_current : command_epoch (grant_command x) = Gate.epoch g ->
    Gate.controllerId g = Some (client_id (grant_peer x))
}.

Definition thread_ok (g : Gate.t) (p : port) : Prop :=
  inv EC_MAXSLAVE (thread p) /\ main (thread p) = MainIdle /\
  epoch_of (thread p) <= Gate.epoch g.

Record sound (d : daemon) : Prop := {
  sound_gate : gate_inv (gate d);
  sound_ids : NoDup (map client_of (clients d));
  sound_fresh : 1 <= nextClientId d /\ Forall (fun c => 0 < client_of c < nextClientId d) (clients d);
  sound_threads : Forall (thread_ok (gate d)) (ports d);
  sound_accepted i p x : ports d !! i = Some p -> x ∈ accepted (thread p) ->
    exists g, g ∈ granted d /\ grant_bus g = i /\ grant_command g = x;
  sound_grants : Forall (grant_ok (gate d)) (granted d);
  sound_writers x y : x ∈ granted d -> y ∈ granted d ->
    command_epoch (grant_command x) = command_epoch (grant_command y) ->
    client_id (grant_peer x) = client_id (grant_peer y)
}.

(** The invariant between a revocation and the moment the buses are told of it. *)
Record Semi (d : daemon) : Prop := {
  semi_plain : plain d;
  semi_controlled : controlled d;
  semi_sound : wrapped d = false -> sound d
}.

(** A bus permits outputs only while the gate does, and under the gate's epoch. *)
Definition mirrored (d : daemon) : Prop :=
  Forall (fun p => outputsPermitted (shared (thread p)) = true ->
    Gate.outputsEnabled (gate d) = true /\ epoch_of (thread p) = Gate.epoch (gate d)) (ports d).

Definition Whole (d : daemon) : Prop := Semi d /\ mirrored d.

(** *** Changes of the gate *)

(** Every call of the gate keeps the epoch and the controller, or takes control that was
    free, or revokes. *)
Definition gate_next (g g' : Gate.t) : Prop :=
  gate_inv g' /\
  ((Gate.epoch g' = Gate.epoch g /\
    (Gate.controllerId g = None \/ Gate.controllerId g' = Gate.controllerId g)) \/
   Gate.epoch g' = if Gate.epoch g =? U64_MAX then 1 else Gate.epoch g + 1).

Lemma gate_next_apply g o : gate_inv g -> gate_next g (snd (apply g o)).
Proof using Type.
  intros Hg. pose proof (apply_outcome g o) as Ho. split; [by eapply gate_inv_outcome|].
  destruct Ho as [c p now r _ [Hn|Hn] _|c now k Hk <-|c now k Hk <-|c now Hk _|o r g' [= <- <-]|];
    unfold Gate.controllerId in *; cbn; rewrite ?Hn, ?Hk; auto.
Qed.

Lemma sound_with_gate g d :
  gate_next (gate d) g -> sound d -> wrapped (with_gate g d) = false -> sound (with_gate g d).
Proof using Type.
  intros [Hg Hn] Hs Hw. cbn in Hw. apply orb_false_iff in Hw as [_ Hw].
  assert (Gate.epoch (gate d) <= Gate.epoch g) as Hle by lia. destruct Hs. split; try done.
  - eapply Forall_impl; [done|]. intros p (? & ? & ?). split_and!; [done|done|]. cbn. lia.
  - eapply Forall_impl; [done|]. intros x []. split; try done; cbn; [lia|].
    intros He. destruct Hn as [[E [Hc|Hc]]|E].
    + rewrite E in He. rewrite Hc in grant_current0. by specialize (grant_current0 He).
    + rewrite Hc. apply grant_current0. congruence.
    + destruct (Z.eqb_spec (Gate.epoch (gate d)) U64_MAX); [|lia].
      destruct sound_gate0 as [? _]. lia.
Qed.

Lemma controlled_with_gate g d :
  (Gate.controllerId g = None \/ Gate.controllerId g = Gate.controllerId (gate d)) ->
  controlled d -> controlled (with_gate g d).
Proof using Type.
  intros [Hc|Hc] Hd id; cbn; rewrite Hc; [done|]. apply Hd.
Qed.

Lemma semi_with_gate g d :
  (gate_inv (gate d) -> gate_next (gate d) g) ->
  (Gate.controllerId g = None \/ Gate.controllerId g = Gate.controllerId (gate d)) ->
  Semi d -> Semi (with_gate g d).
Proof using Type.
  intros Hn Hc [Hp Ht Hs]. split; [done|by apply controlled_with_gate|].
  intros Hw. pose proof Hw as Hw'. cbn in Hw'. apply orb_false_iff in Hw' as [Hw0 _].
  specialize (Hs Hw0). apply sound_with_gate; [|done|done]. apply Hn, Hs.
Qed.

Lemma semi_drop d :
  Semi d -> Semi (with_gate (snd (Gate.DropControllerAndAdvanceEpoch (gate d))) d).
Proof using Type.
  apply semi_with_gate; [|by left]. intros Hg. by apply (gate_next_apply _ OpInvalidate).
Qed.

(** *** Changes of the buses *)

Lemma set_safety_inv epoch permitted b :
  inv EC_MAXSLAVE b -> epoch_of b <= epoch -> inv EC_MAXSLAVE (set_safety epoch permitted b).
Proof using Type. intros Hi He. eapply inv_environment; [done|by split|done|done]. Qed.

(** The threads change under the main thread's hands, or not at all. *)
Definition thread_change (d : daemon) (p p' : port) : Prop :=
  (thread_ok (gate d) p -> thread_ok (gate d) p') /\ accepted (thread p') = accepted (thread p).

Lemma sound_with_ports ps d :
  Forall2 (thread_change d) (ports d) ps -> sound d -> sound (with_ports ps d).
Proof using Type.
  intros Hps Hs. destruct Hs. split; try done.
  - clear -Hps sound_threads0. cbn.
    induction Hps as [|p p' l l' [Hp _] _ IH]; [done|].
    apply Forall_cons in sound_threads0 as [H1 H2]. constructor; auto.
  - intros i p' x Hi Hx. cbn in Hi.
    destruct (Forall2_lookup_r _ _ _ _ _ Hps Hi) as (p & Hp & _ & Ha). rewrite Ha in Hx. eauto.
Qed.

Lemma plain_with_ports ps d :
  length ps = length (ports d) -> plain d -> plain (with_ports ps d).
Proof using Type.
  intros Hl (Hp1 & Hp2 & Hp3 & Hp4 & Hp5 & Hp6). split_and!; try done; try apply Hp4. cbn. congruence.
Qed.

Lemma semi_with_ports ps d :
  length ps = length (ports d) ->
  (wrapped d = false -> sound d -> Forall2 (thread_change d) (ports d) ps) ->
  Semi d -> Semi (with_ports ps d).
Proof using Type.
  intros Hl H [Hp Hc Hs]. split; [by apply plain_with_ports|done|].
  intros Hw. cbn in Hw. by apply sound_with_ports; auto.
Qed.

Lemma apply_changes d :
  sound d -> Forall2 (thread_change d) (ports d) (ports (ApplySafetyToBuses d)).
Proof using Type.
  intros Hs. apply Forall2_fmap_r, Forall_Forall2_diag.
  eapply Forall_impl; [apply Hs|]. intros p (Hi & Hm & He). split; [|done]. intros _.
  split_and!; [by apply set_safety_inv|done|done].
Qed.

Lemma semi_apply d : Semi d -> Semi (ApplySafetyToBuses d).
Proof using Type. apply semi_with_ports; [apply length_map|]. intros _. apply apply_changes. Qed.

Lemma apply_mirrored d : mirrored (ApplySafetyToBuses d).
Proof using Type.
  unfold mirrored. cbn. apply Forall_fmap, Forall_true. intros p. cbn.
  intros [H _]%andb_true_iff. done.
Qed.

Lemma same_thread_change d p p' : same_thread p p' -> thread_change d p p'.
Proof using Type.
  intros [q Hq]. split; [|by rewrite Hq]. unfold thread_ok. rewrite Hq. intros (Hi & Hm & He).
  split_and!; [|done|done]. eapply inv_environment; [done|by split|done|done].
Qed.

Lemma mirrored_same ps d : Forall2 same_thread (ports d) ps -> mirrored d -> mirrored (with_ports ps d).
Proof using Type.
  unfold mirrored. cbn. induction 1 as [|p p' l l' [q Hq] _ IH]; [done|].
  intros [H1 H2]%Forall_cons. constructor; [by rewrite Hq|by apply IH].
Qed.

(** *** Changes of the clients *)

Lemma lookup_put i j c d : clients (put_client i c d) !! j =
  if decide (i = j) then (if decide (i < length (clients d))%nat then Some c else None)
  else clients d !! j.
Proof using Type.
  cbn. destruct (decide (i = j)) as [<-|]; [|by apply list_lookup_insert_ne].
  destruct (decide _); [by apply list_lookup_insert_eq|].
  apply lookup_ge_None. rewrite length_insert. lia.
Qed.

Lemma plain_put i c c' d :
  clients d !! i = Some c -> (client_ok c -> client_ok c') ->
  (greeted c = true -> greeted c' = true) -> peer c' = peer c ->
  (descriptor c' = true -> descriptor c = true) -> plain d -> plain (put_client i c' d).
Proof using Type.
  intros Hi Hc Hg Hp Hd (Hcl & Ha & Hk & Hn & Hlen). split; [|split; [done|split; [|split; [|done]]]].
  - apply Forall_insert; [done|]. apply Hc. by eapply Forall_lookup_1 in Hcl.
  - intros j Hj. destruct (Hk j Hj) as (x & Hx & Hgx). unfold greeted_at.
    rewrite lookup_put. destruct (decide (i = j)) as [<-|]; [|eauto].
    rewrite decide_True by (by eapply lookup_lt_Some). exists c'. split; [done|].
    apply Hg. congruence.
  - by eapply crowd_put.
Qed.

Lemma sound_put i c c' d :
  clients d !! i = Some c -> client_of c' = client_of c -> sound d -> sound (put_client i c' d).
Proof using Type.
  intros Hi Hc Hs. assert (map client_of (<[i := c']> (clients d)) = map client_of (clients d)) as E.
  { rewrite <- !list_fmap_alt || idtac. change (client_of <$> <[i := c']> (clients d) = client_of <$> clients d).
    rewrite list_fmap_insert, Hc. apply list_insert_id. by rewrite list_lookup_fmap, Hi. }
  destruct Hs as [? Hids [? Hf] ? ? ? ?]. split; try done; cbn.
  - by rewrite E.
  - split; [done|]. apply Forall_insert; [done|]. rewrite Hc. by eapply Forall_lookup_1 in Hf.
Qed.

Lemma controls_put i c c' d id :
  clients d !! i = Some c ->
  (descriptor c = true -> greeted c = true -> client_of c = id ->
   descriptor c' = true /\ greeted c' = true /\ role (session c') = role (session c) /\ peer c' = peer c) ->
  controls d id -> controls (put_client i c' d) id.
Proof using Type.
  intros Hi Hc (j & x & Hj & Hid & Ho & Hg & Hr & Ha).
  destruct (decide (i = j)) as [<-|Hne].
  - assert (x = c) as -> by congruence. destruct (Hc Ho Hg Hid) as (? & ? & Er & Ep).
    exists i, c'. rewrite lookup_put, !decide_True by (done || by eapply lookup_lt_Some).
    unfold client_of. rewrite Ep, Er. by split_and!.
  - exists j, x. rewrite lookup_put, decide_False by done. by split_and!.
Qed.

Lemma quiet_semi i c c' d :
  clients d !! i = Some c -> quiet c c' -> Semi d -> Semi (put_client i c' d).
Proof using Type.
  intros Hi [Hq Hd Hp Hg Hr] [H1 H2 H3]. split.
  - eapply plain_put; [done|done|by rewrite Hg|done|by rewrite Hd|done].
  - intros id Hid. eapply controls_put; [done| |by apply H2].
    intros. by rewrite Hd, Hg.
  - intros Hw. eapply sound_put; [done| |by apply H3]. unfold client_of. by rewrite Hp.
Qed.

Lemma semi_accumulator i acc d :
  (accumulator_ok (default empty_accumulator (publications d !! i)) -> accumulator_ok acc) ->
  Semi d -> Semi (put_accumulator i acc d).
Proof using Type.
  intros Ha [(Hc & Hp & Hk & Hn & Hlen) H2 H3]. split; [|done|by intros Hw; destruct (H3 Hw)].
  split; [done|split; [|done]]. cbn. destruct (publications d !! i) as [a|] eqn:E.
  - apply Forall_insert; [done|]. apply Ha. by eapply Forall_lookup_1 in Hp.
  - by rewrite list_insert_ge by by apply lookup_ge_None.
Qed.

Lemma semi_closed i c d :
  clients d !! i = Some c -> Gate.controllerId (gate d) <> Some (client_of c) ->
  Semi d -> Semi (put_client i (close_connection c) d).
Proof using Type.
  intros Hi Hne [H1 H2 H3]. split.
  - eapply plain_put; [done| |done|done|done|done]. by intros [_ ?].
  - intros id Hid. eapply controls_put; [done| |by apply H2]. intros _ _ He. cbn in Hid. congruence.
  - intros Hw. by eapply sound_put; [| |by apply H3].
Qed.

(** The controller's connection is closed and its lease dropped. *)
Lemma semi_closed_controller i c d :
  clients d !! i = Some c -> Semi d ->
  Semi (revoke (UpdateInputPublicationDemand (put_client i (close_connection c) d))).
Proof using Type.
  intros Hi [H1 H2 H3]. unfold revoke. apply semi_apply. set (d1 := UpdateInputPublicationDemand _).
  split; [|done|].
  - apply (plain_with_ports (ports d1) (put_client i (close_connection c) d)); [apply length_map|].
    apply (plain_put i c); try done. by intros [_ ?].
  - intros Hw. pose proof Hw as Hw'. cbn in Hw'. apply orb_false_iff in Hw' as [Hw0 _].
    assert (sound d1) as Hs.
    { apply sound_with_ports; [|by eapply sound_put; [| |by apply H3]].
      eapply Forall2_impl; [apply same_thread_map; done|]. intros. by apply same_thread_change. }
    apply sound_with_gate; [|done|done]. apply (gate_next_apply _ OpInvalidate), Hs.
Qed.

#[export] Instance semi_invariant : Invariant Semi.
Proof using Type.
  split.
  - apply quiet_semi.
  - apply semi_closed.
  - intros i c d Hi _. by apply semi_closed_controller.
  - intros ps d Hps. apply semi_with_ports; [symmetry; by eapply Forall2_length|].
    intros _ _. eapply Forall2_impl; [done|]. intros. by apply same_thread_change.
  - intros v d Hv [(Hp1 & Hp2 & Hp3 & Hp4 & Hp5 & Hp6) H2 H3].
    split; [|done|intros Hw; by destruct (H3 Hw)].
    split_and!; try done; try apply Hp4. cbn. congruence.
  - intros v d [H1 H2 H3]. split; [done|done|]. intros Hw. by destruct (H3 Hw).
  - intros v d [H1 H2 H3]. split; [done|done|]. intros Hw. by destruct (H3 Hw).
  - apply semi_accumulator.
  - intros i d [(_ & Hp & _) _ _]. destruct (publications d !! i) eqn:E; cbn.
    + by eapply Forall_lookup_1 in Hp.
    + split; [constructor|done].
  - intros d Hd. by apply semi_apply, semi_drop.
  - intros g d [Hi He Hc Hn]. apply semi_with_gate; [|by right]. intros Hg. split; [auto|]. auto.
Qed.

#[export] Instance whole_invariant : Invariant Whole.
Proof using Type.
  split.
  - intros i c c' d Hi Hq [H1 H2]. split; [by eapply inv_client|done].
  - intros i c d Hi Hne [H1 H2]. split; [by apply inv_closed|done].
  - intros i c d Hi Hc [H1 H2]. split; [by apply inv_closed_controller|apply apply_mirrored].
  - intros ps d Hps [H1 H2]. split; [by apply inv_ports|by apply mirrored_same].
  - intros v d Hv [H1 H2]. split; [by apply inv_adapters|done].
  - intros v d [H1 H2]. split; [by apply inv_scan|done].
  - intros v d [H1 H2]. split; [by apply inv_rescan|done].
  - intros i acc d Ha [H1 H2]. split; [by apply inv_accumulator|done].
  - intros i d [H1 _]. by apply inv_batch.
  - intros d [H1 _]. split; [by apply inv_revoke|apply apply_mirrored].
  - intros g d Hg [H1 H2]. split; [by apply inv_refresh|]. destruct Hg.
    unfold mirrored. cbn. by rewrite refreshed_enabled0, refreshed_epoch0.
Qed.
End Control.
