(* ===== verification/Requests.v ===== *)
(** The request handlers of the daemon keep its invariant ([Control.Whole]), for every
    well-formed frame of every client, whatever the state of the buses. *)

From S2P Require Import Prelude Protocol Codec Payloads Frame SafetyGate SpscQueue Realtime Config.
From S2P Require Import Adapter IoMap BusIo Cycle Threads Sockets Connection Daemon Telemetry Control.

(** ** Calls of the gate *)

Lemma refreshed_refl g : refreshed g g.
Proof. by split. Qed.

Lemma touch_id c now : Gate.id <$> Gate.touch c now = Gate.id <$> c.
Proof. by destruct c. Qed.

Lemma touched g e now last :
  e = Gate.outputsEnabled g ->
  refreshed g (Gate.mk (Gate.epoch g) (Gate.heartbeatTimeout g) (Gate.outputCommandTimeout g) last
                 (Gate.touch (Gate.controller g) now) e).
Proof.
  intros ->. split; cbn; [|done| |done].
  - intros (He & Hen & Hid). split; [done|split]; cbn.
    + intros H. destruct (Hen H) as [k ->]. by eexists.
    + destruct (Gate.controller g) as [k|]; cbn; [|done]. intros k' [= <-]. cbn. by apply Hid.
  - unfold Gate.controllerId. cbn. apply touch_id.
Qed.

Lemma Heartbeat_refreshed g c e now : refreshed g (snd (Gate.Heartbeat g c e now)).
Proof. unfold Gate.Heartbeat. destruct (negb _); [apply refreshed_refl|by apply touched]. Qed.

Lemma RecordOutputWrite_refreshed g c e now : refreshed g (snd (Gate.RecordOutputWrite g c e now)).
Proof.
  unfold Gate.RecordOutputWrite. destruct (Gate.is_ok _); [|apply refreshed_refl].
  split; [|done..]. by intros (? & ? & ?).
Qed.

Lemma SetOutputEnabled_controller g c e b h now :
  let g' := snd (Gate.SetOutputEnabled g c e b h now) in
  Gate.controllerId g' = None \/ Gate.controllerId g' = Gate.controllerId g.
Proof.
  cbn zeta. unfold Gate.SetOutputEnabled. destruct (negb (Gate.is_ok _)); [by right|].
  destruct (b && negb h); [by right|]. destruct b; [|by left]. right. apply touch_id.
Qed.

Lemma Release_cases g c e :
  (Gate.epochChanged (fst (Gate.Release g c e)) = false /\ snd (Gate.Release g c e) = g) \/
  (Gate.epochChanged (fst (Gate.Release g c e)) = true /\
   snd (Gate.Release g c e) = snd (Gate.DropControllerAndAdvanceEpoch g)).
Proof.
  unfold Gate.Release.
  destruct (Authorize_cases g c e) as [(-> & _)|[[-> _]|(-> & _)]]; [by right|by left|by left].
Qed.

Section Requests.
Context (configuration : DaemonConfig) (EC_MAXSLAVE : Z) (G : nat -> Prop).

Abbreviation Semi := (Semi configuration EC_MAXSLAVE G).
Abbreviation Whole := (Whole configuration EC_MAXSLAVE G).

Context (now micros : Z).

Lemma whole_apply d : Semi d -> Whole (ApplySafetyToBuses d).
Proof using Type. intros H. split; [by apply semi_apply|apply apply_mirrored]. Qed.

Lemma HandleHeartbeat_keeps i c frame d :
  Whole d -> Whole (fst (HandleHeartbeat now i c frame d)).
Proof using Type.
  intros Hd. unfold HandleHeartbeat. destruct (DecodeEpochPayload _) as [e|]; [|by apply (reject_keeps Whole)].
  pose proof (Heartbeat_refreshed (gate d) (client_of c) e now) as Hr.
  destruct (Gate.Heartbeat _ _ _ _) as [r g]. apply (reply_keeps Whole). by apply inv_refresh.
Qed.

Lemma HandleOutputEnable_keeps i c frame d :
  Whole d -> Whole (fst (HandleOutputEnable configuration now i c frame d)).
Proof using Type.
  intros Hd. unfold HandleOutputEnable.
  destruct (DecodeOutputEnablePayload _) as [request|]; [|by apply (reject_keeps Whole)].
  set (healthy := AllBusesOperational configuration d). clearbody healthy.
  assert (Semi (with_gate (snd (Gate.SetOutputEnabled (gate d) (client_of c) (enable_epoch request)
            (enable_enabled request) healthy now)) d)) as Hs.
  { apply semi_with_gate; [|apply SetOutputEnabled_controller|by destruct Hd].
    intros Hg. by apply (gate_next_apply _ (OpSetOutputEnabled _ _ _ _ _)). }
  destruct (Gate.SetOutputEnabled _ _ _ _ _ _) as [r g]. apply whole_apply in Hs.
  pose proof (reply_keeps Whole now i frame (Gate.status r) _ Hs) as Hq.
  cbn [snd] in Hs, Hq. destruct (reply now i frame (Gate.status r) _) as [d' q]. cbn in Hq.
  destruct (_ && _); [|done]. apply (close_after_write_keeps Whole). by apply (disabled_keeps Whole).
Qed.

Lemma HandleRelease_keeps i c frame d : Whole d -> Whole (fst (HandleRelease now i c frame d)).
Proof using Type.
  intros Hd. unfold HandleRelease.
  destruct (DecodeEpochPayload _) as [e|]; [|by apply (reject_keeps Whole)].
  destruct (Release_cases (gate d) (client_of c) e) as [[Hc Hg]|[Hc Hg]];
    destruct (Gate.Release _ _ _) as [r g]; cbn in Hc, Hg; subst g; rewrite Hc.
  - rewrite with_gate_same. pose proof (reply_keeps Whole now i frame (Gate.status r) d Hd) as Hq.
    by destruct (reply _ _ _ _ _) as [d' q].
  - destruct Hd as [Hs _]. apply semi_drop in Hs.
    pose proof (reply_keeps Semi now i frame (Gate.status r) _ Hs) as Hq.
    destruct (reply _ _ _ _ _) as [d' q]. cbn in Hq.
    apply (close_after_write_keeps Whole). apply (disabled_keeps Whole). by apply whole_apply.
Qed.

Lemma HandleClearCounters_keeps i frame d :
  Whole d -> Whole (fst (HandleClearCounters now i frame d)).
Proof using Type.
  intros Hd. unfold HandleClearCounters. destruct (negb _); [by apply (reject_keeps Whole)|].
  apply (reply_keeps Whole). apply inv_ports; [|done]. by apply same_thread_map.
Qed.

Lemma quiet_session f c :
  helloReceived (f (session c)) = helloReceived (session c) ->
  role (f (session c)) = role (session c) -> quiet c (on_session f c).
Proof using Type. by split. Qed.

Lemma HandleSubscribeInputs_keeps i frame d :
  Whole d -> Whole (fst (HandleSubscribeInputs now i frame d)).
Proof using Type.
  intros Hd. unfold HandleSubscribeInputs.
  destruct (DecodeSubscribeInputsPayload _) as [s|]; [|by apply (reject_keeps Whole)].
  apply (reply_keeps Whole). apply (demand_keeps Whole).
  apply (on_client_keeps Whole); [|done]. intros c _. by apply quiet_session.
Qed.

Lemma HandleAdapterUnlock_keeps i c frame d :
  Whole d -> Whole (fst (HandleAdapterUnlock now i c frame d)).
Proof using Type.
  intros Hd. unfold HandleAdapterUnlock.
  destruct (DecodeAdapterUnlockPayload _) as [u|]; [|by apply (reject_keeps Whole)].
  destruct (negb _); [by apply (reply_keeps Whole)|].
  destruct (adapters d !! _) as [a|]; [|by apply (reply_keeps Whole)]. cbn zeta.
  set (d1 := with_adapters _ d).
  assert (Whole d1) as H1 by (apply inv_adapters; [apply length_insert|done]).
  pose proof (reply_keeps Whole now i frame Ok d1 H1) as Hq.
  destruct (reply _ _ _ _ d1) as [d' q]. cbn in Hq. apply inv_scan. by apply (AdvanceEpoch_keeps Whole).
Qed.

Lemma HandleAdapterRescan_keeps i frame d :
  Whole d -> Whole (fst (HandleAdapterRescan now i frame d)).
Proof using Type.
  intros Hd. unfold HandleAdapterRescan. destruct (negb _); [by apply (reject_keeps Whole)|].
  apply (reply_keeps Whole). destruct (_ <=? _); [|done]. by apply inv_rescan, inv_scan.
Qed.

(** *** Hello *)

(** The session of a client that says hello. *)
Definition greet (r : ClientRole) (hello : HelloPayload) (s : Session) : Session :=
  mkSession true r (hello_subscribeInputs hello) (hello_inputPeriodMs hello) (nextPublication s).

Lemma whole_greet i c r hello d :
  clients d !! i = Some c -> greeted c = false -> Whole d ->
  Whole (on_client i (on_session (greet r hello)) d).
Proof using Type.
  intros Hi Hg [[H1 H2 H3] Hm]. rewrite (on_client_put i c) by done. split; [|done]. split.
  - by eapply plain_put.
  - intros id Hid. eapply controls_put; [done| |by apply H2]. by rewrite Hg.
  - intros Hw. by eapply sound_put; [| |by apply H3].
Qed.

Lemma Acquire_cases g c pid :
  (Gate.status (fst (Gate.Acquire g c pid now)) <> Ok /\ snd (Gate.Acquire g c pid now) = g) \/
  (Gate.status (fst (Gate.Acquire g c pid now)) = Ok /\
   Gate.controllerId (snd (Gate.Acquire g c pid now)) = Some c).
Proof using Type.
  unfold Gate.Acquire. destruct (c =? 0); [by left|]. destruct (match Gate.controller g with Some _ => _ | None => _ end);
    [by left|by right].
Qed.

(** The gate grants control to client [i], its rate is raised, the buses are told, and the
    client is marked as greeted: the invariant holds again. *)
Lemma whole_acquired i c limit hello g d :
  clients d !! i = Some c -> descriptor c = true -> greeted c = false ->
  ControllerAuthorized configuration (peer c) = true ->
  (gate_inv (gate d) -> gate_next (gate d) g) -> Gate.controllerId g = Some (client_of c) ->
  Whole d ->
  Whole (on_client i (on_session (greet Controller hello))
           (ApplySafetyToBuses (on_client i (fun c => set_rate (controller_rate limit (rate c)) c)
                                  (with_gate g d)))).
Proof using Type.
  intros Hi Ho Hg Ha Hn Hc [[H1 H2 H3] _].
  rewrite (on_client_put i c _ (with_gate g d)) by done.
  set (c1 := set_rate _ c). set (d1 := put_client i c1 (with_gate g d)).
  assert (clients (ApplySafetyToBuses d1) !! i = Some c1) as Hi1.
  { cbn. rewrite list_lookup_insert_eq; [done|]. by eapply lookup_lt_Some. }
  rewrite (on_client_put i c1) by done. set (c2 := on_session _ c1).
  split; [split|apply (apply_mirrored d1)].
  - apply (plain_put _ _ i c1); try done. apply plain_with_ports; [apply length_map|].
    by apply (plain_put _ _ i c).
  - intros id Hid. cbn in Hid. rewrite Hc in Hid. injection Hid as <-. exists i, c2. split_and!; try done.
    cbn. rewrite list_lookup_insert_eq; [done|]. rewrite length_insert. by eapply lookup_lt_Some.
  - intros Hw. pose proof Hw as Hw'. cbn in Hw'. apply orb_false_iff in Hw' as [Hw0 _].
    specialize (H3 Hw0). apply (sound_put _ _ i c1); [done|done|].
    assert (sound configuration EC_MAXSLAVE d1) as Hs.
    { apply (sound_put _ _ i c); [done|done|]. apply sound_with_gate; [|done|done].
      apply Hn, H3. }
    apply sound_with_ports; [|done]. by apply (apply_changes configuration).
Qed.

Lemma HandleHello_keeps i c frame d :
  clients d !! i = Some c -> descriptor c = true -> greeted c = false -> Whole d ->
  Whole (fst (HandleHello configuration now i c frame d)).
Proof using Type.
  intros Hi Ho Hg Hd. unfold HandleHello.
  destruct (DecodeHelloPayload _) as [hello|]; [|by apply (CloseClient_keeps Whole)].
  set (step := if bool_decide _ && _ then _ else (d, Observer)).
  assert (Whole (on_client i (on_session (greet (snd step) hello)) (fst step))) as H.
  { unfold step. destruct (bool_decide _ && _) eqn:E; [|by eapply whole_greet].
    apply andb_true_iff in E as [_ Ha].
    pose proof (Acquire_cases (gate d) (client_of c) (client_pid (peer c))) as Hc.
    assert (gate_inv (gate d) ->
      gate_next (gate d) (snd (Gate.Acquire (gate d) (client_of c) (client_pid (peer c)) now))) as Hn
      by (intros H; by apply (gate_next_apply _ (OpAcquire _ _ _))).
    destruct (Gate.Acquire _ _ _ _) as [r g]. cbn in Hc, Hn. case_bool_decide as Hok; cbn [fst snd].
    - destruct Hc as [[? _]|[_ Hc]]; [done|]. by apply (whole_acquired i c).
    - destruct Hc as [[_ ->]|[? _]]; [|done]. rewrite with_gate_same. by eapply whole_greet. }
  destruct step as [d1 r]. cbn [fst snd] in H.
  apply (QueueFrame_keeps Whole), (demand_keeps Whole). exact H.
Qed.

(** *** OutputWrite *)

(** Ids are unique, so the client with the controller's id is the entitled one. *)
Lemma controller_entitled i c d :
  sound configuration EC_MAXSLAVE d -> controlled configuration d -> clients d !! i = Some c ->
  Gate.controllerId (gate d) = Some (client_of c) ->
  ControllerAuthorized configuration (peer c) = true.
Proof using Type.
  intros Hs Ht Hi Hc. destruct (Ht _ Hc) as (j & x & Hj & Hid & _ & _ & _ & Ha).
  assert (j = i) as ->; [|congruence].
  eapply (NoDup_lookup (map client_of (clients d)));
    [apply Hs|by rewrite list_lookup_fmap, Hj|by rewrite list_lookup_fmap, Hi; cbn; rewrite Hid].
Qed.

(** A command of the controller is queued and recorded. *)
Lemma semi_grant i c k p q command d :
  clients d !! i = Some c -> ports d !! k = Some p -> command_typed command ->
  TryPush kMaximumOutputCommands (outputCommands (thread p)) command = (q, true) ->
  Gate.status (Gate.AuthorizeWrite (gate d) (client_of c) (command_epoch command)) = Ok ->
  Semi d ->
  Semi (with_grant (mkGrant k (peer c) command (gate d))
          (with_ports (<[k := on_thread (fun _ => with_accepted command
                                                    (with_commands q (thread p))) p]> (ports d)) d)).
Proof using Type.
  intros Hi Hk Ht Hq Ha [H1 H2 H3].
  split; [apply (plain_with_ports configuration G _ d); [apply length_insert|done]|done|]. intros Hw. specialize (H3 Hw).
  pose proof Ha as (He & Hc & _)%AuthorizeWrite_Ok.
  pose proof (controller_entitled i c d H3 H2 Hi Hc) as Hent.
  assert (forall x, x ∈ granted d -> command_epoch (grant_command x) = command_epoch command ->
            client_id (grant_peer x) = client_of c) as Hsame.
  { intros x Hx Hex. pose proof (sound_grants _ _ _ H3) as Hg. rewrite Forall_forall in Hg.
    pose proof (grant_current _ _ _ (Hg x Hx)). rewrite He in Hex. by specialize (H Hex); simplify_eq. }
  destruct H3 as [Hgate Hids Hfresh Hthreads Hacc Hgrants Hwriters]. split; try done; cbn.
  - apply Forall_insert; [done|]. rewrite Forall_lookup in Hthreads.
    destruct (Hthreads k p Hk) as (Hinv & Hm & Hep). split_and!; [|done|done].
    by apply queued_inv.
  - intros j p' x Hj Hx. destruct (decide (k = j)) as [<-|Hne].
    + rewrite list_lookup_insert_eq in Hj by (by eapply lookup_lt_Some). injection Hj as <-.
      cbn in Hx. apply elem_of_app in Hx as [Hx|Hx%list_elem_of_singleton].
      * destruct (Hacc k p x Hk Hx) as (g & Hg & ?). exists g. split; [|done].
        apply elem_of_app. by left.
      * subst x. exists (mkGrant k (peer c) command (gate d)). split; [|done]. apply elem_of_app. right. by apply list_elem_of_singleton.
    + rewrite list_lookup_insert_ne in Hj by done.
      destruct (Hacc j p' x Hj Hx) as (g & Hg & ?). exists g. split; [|done].
      apply elem_of_app. by left.
  - apply Forall_app. split; [done|]. constructor; [|done]. split; cbn; try done. lia.
  - intros x y Hx Hy E. apply elem_of_app in Hx as [Hx|Hx%list_elem_of_singleton];
      apply elem_of_app in Hy as [Hy|Hy%list_elem_of_singleton]; subst; cbn in *; auto.
    symmetry. auto.
Qed.

Lemma whole_grant i c k p q command d :
  clients d !! i = Some c -> ports d !! k = Some p -> command_typed command ->
  TryPush kMaximumOutputCommands (outputCommands (thread p)) command = (q, true) ->
  Gate.status (Gate.AuthorizeWrite (gate d) (client_of c) (command_epoch command)) = Ok ->
  Whole d ->
  Whole (with_grant (mkGrant k (peer c) command (gate d))
          (with_ports (<[k := on_thread (fun _ => with_accepted command
                                                    (with_commands q (thread p))) p]> (ports d)) d)).
Proof using Type.
  intros Hi Hk Ht Hq Ha [Hs Hm]. split; [by eapply semi_grant|].
  unfold mirrored. cbn. apply Forall_insert; [done|]. exact (Forall_lookup_1 _ _ _ _ Hm Hk).
Qed.

Lemma HandleOutputWrite_keeps i c frame d :
  clients d !! i = Some c -> frame_wf frame -> Whole d ->
  Whole (fst (HandleOutputWrite now micros i c frame d)).
Proof using Type.
  intros Hi Hf Hd. unfold HandleOutputWrite.
  destruct (DecodeOutputWritePayload _) as [w|] eqn:Ew; [|by apply (reject_keeps Whole)].
  assert (write_wf w) as (_ & _ & Hsub & _ & Hdata).
  { destruct Hf as (_ & Hb & _). by destruct (write_encode_decode _ w Hb Ew) as (_ & _ & ?). }
  case_bool_decide as Hauth; cbn [negb]; [|by apply (reply_keeps Whole)].
  destruct (ports d !! _) as [p|] eqn:Ep; [|by apply (reply_keeps Whole)].
  destruct (negb _); [by apply (reply_keeps Whole)|].
  destruct (micros =? 0); [by apply (reply_keeps Whole)|].
  set (command := mkCommand _ _ _ _ _). unfold QueueOutput.
  destruct (TryPush _ _ command) as [q [|]] eqn:Eq; cbn zeta.
  - set (d1 := with_grant _ _).
    assert (Whole d1) as H1.
    { apply (whole_grant i c (Z.to_nat (write_busIndex w)) p q command d); try done.
      split; [done|]. cbn. unfold in_u16 in Hsub. lia. }
    pose proof (RecordOutputWrite_refreshed (gate d1) (client_of c) (write_epoch w) now) as Hr.
    change (gate d1) with (gate d) in *.
    destruct (Gate.RecordOutputWrite _ _ _ _) as [r g]. cbn in Hr.
    assert (Whole (with_gate g d1)) by by apply inv_refresh.
    destruct (negb _); by apply (reply_keeps Whole).
  - assert (q = outputCommands (thread p)) as ->.
    { unfold TryPush in Eq. destruct (_ =? _)%nat; by simplify_eq. }
    apply (reply_keeps Whole), inv_ports; [|done]. eapply same_thread_insert; [done|].
    exists (inputChunks (thread p)). by destruct (thread p).
Qed.

(** ** Frames and sockets *)

Lemma HandleFrame_keeps i c frame d :
  clients d !! i = Some c -> (greeted c = true \/ descriptor c = true) -> frame_wf frame ->
  Whole d -> Whole (fst (HandleFrame configuration now micros i frame d)).
Proof using Type.
  intros Hi Ho Hf Hd. unfold HandleFrame. rewrite Hi. cbn zeta.
  destruct (_ || _); [by apply (CloseClient_keeps Whole)|].
  destruct (negb _ && _); [by apply (CloseClient_keeps Whole)|].
  destruct (greeted c && _) eqn:Eg; [by apply (CloseClient_keeps Whole)|].
  destruct (frame_type frame) eqn:Et; try (by apply (CloseClient_keeps Whole)).
  - rewrite bool_decide_true, andb_true_r in Eg by done. rewrite Eg in Ho.
    destruct Ho as [?|Ho]; [done|]. by apply HandleHello_keeps.
  - by apply HandleHeartbeat_keeps.
  - by apply HandleOutputEnable_keeps.
  - by apply HandleOutputWrite_keeps.
  - by apply HandleClearCounters_keeps.
  - by apply HandleRelease_keeps.
  - by apply HandleSubscribeInputs_keeps.
  - by apply HandleAdapterUnlock_keeps.
  - by apply HandleAdapterRescan_keeps.
Qed.

Lemma ConsumeRateToken_keeps i d : Whole d -> Whole (fst (ConsumeRateToken now i d)).
Proof using Type.
  intros Hd. unfold ConsumeRateToken. destruct (clients d !! i) as [c|] eqn:E; [|done].
  destruct (take_token now (rate c)) as [r ok].
  assert (Whole (put_client i (set_rate r c) d)) by (eapply inv_client; [done|by split|done]).
  destruct ok; [done|]. by apply (QueueAck_keeps Whole), (close_after_write_keeps Whole).
Qed.

Lemma flush_keeps_decoder answers c : decoder (fst (fst (flush answers c))) = decoder c.
Proof using Type.
  assert (forall c sent, decoder (fst (fst (fst (flush_loop answers c sent)))) = decoder c) as H.
  { induction answers as [|a answers IH]; intros c0 sent; cbn [flush_loop];
      destruct (outgoing (queue c0)); try done.
    destruct a as [n| | |]; try done. destruct (n =? 0); [done|]. by rewrite IH. }
  unfold flush. destruct (negb _); [done|]. specialize (H c []).
  by destruct (flush_loop answers c []) as [[[c' [|]] [|]] sent].
Qed.

(** What [send] answers for client [i] respects its contract. *)
Definition sends_ok (answers : list send_answer) (i : nat) (d : daemon) : Prop :=
  forall c, clients d !! i = Some c -> send_contract answers c.

Lemma flush_quiet answers i c d :
  sends_ok answers i d -> Whole d -> clients d !! i = Some c -> quiet c (fst (fst (flush answers c))).
Proof using Type.
  intros Hs [[(Hc & _) _ _] _] E. eapply Forall_lookup_1 in Hc as [Hc Hdec]; [|done].
  pose proof (flush_ok answers c Hc (Hs c E)) as H. pose proof (flush_keeps_decoder answers c) as Hk.
  destruct (flush answers c) as [[c' closing] sent]. cbn in Hk |- *.
  destruct H as (H1 & H2 & H3 & H4 & _). split; unfold greeted; rewrite ?H4; try done.
  intros _. split; [done|]. by rewrite Hk.
Qed.

Lemma FlushClient_keeps answers i d :
  sends_ok answers i d -> Whole d -> Whole (FlushClient now answers i d).
Proof using Type.
  intros Hs Hd. unfold FlushClient. destruct (clients d !! i) as [c|] eqn:E; [|done].
  pose proof (flush_quiet answers i c d Hs Hd E) as Hq.
  destruct (flush answers c) as [[c' closing] sent]. cbn in Hq.
  assert (Whole (put_client i c' d)) by by eapply inv_client.
  destruct closing; [by apply (CloseClient_keeps Whole)|done].
Qed.

Lemma hello_timeout_keeps i d : Whole d -> Whole (hello_timeout now i d).
Proof using Type.
  intros Hd. unfold hello_timeout. destruct (clients d !! i); [|done].
  destruct (_ && _); [by apply (CloseClient_keeps Whole)|done].
Qed.
End Requests.

(** ** What is known of the greeted clients *)

Lemma whole_greeted configuration EC_MAXSLAVE (G G' : nat -> Prop) d :
  (forall i, G' i -> G i \/ greeted_at i d) ->
  Whole configuration EC_MAXSLAVE G d -> Whole configuration EC_MAXSLAVE G' d.
Proof.
  intros H [[(H1 & H2 & H3 & H4) ? ?] ?]. split; [|done]. split; [|done|done].
  split; [done|split; [done|split; [|done]]]. intros i Hi. destruct (H i Hi); auto.
Qed.

Section Reading.
Context (configuration : DaemonConfig) (EC_MAXSLAVE : Z) (G : nat -> Prop).
Context (now micros : Z).

Abbreviation Whole := (Whole configuration EC_MAXSLAVE).

(** A client that has said hello stays so. *)
Lemma greeted_kept i d d' :
  (forall G, Whole G d -> Whole G d') -> Whole G d -> greeted_at i d -> greeted_at i d'.
Proof using Type.
  intros H Hd Hg. destruct (H (fun j => j = i)) as [[(_ & _ & Hk & _) _ _] _]; [|by apply Hk].
  eapply whole_greeted; [|exact Hd]. intros j ->. by right.
Qed.

(** The client may be served: it is open, or it has said hello (and its frames lead
    nowhere). *)
Definition servable (i : nat) (d : daemon) : Prop :=
  forall c, clients d !! i = Some c -> greeted c = true \/ descriptor c = true.

Lemma token_servable i d d' :
  ConsumeRateToken now i d = (d', true) -> servable i d -> servable i d'.
Proof using Type.
  unfold ConsumeRateToken, servable. destruct (clients d !! i) as [c|] eqn:E; [|done].
  destruct (take_token now (rate c)) as [r [|]]; [|done]. intros [= <-] Hs c'. cbn.
  rewrite list_lookup_insert_eq by (by eapply lookup_lt_Some). intros [= <-]. by apply (Hs c).
Qed.

(** A frame that lets the reading go on leaves the client greeted. *)
Lemma HandleFrame_servable i frame d d' :
  HandleFrame configuration now micros i frame d = (d', true) -> frame_wf frame ->
  servable i d -> Whole G d -> servable i d'.
Proof using Type.
  intros H Hf Hs Hd. destruct (clients d !! i) as [c|] eqn:E.
  2: { unfold HandleFrame in H. by rewrite E in H. }
  assert (greeted_at i d') as (c' & Hc' & Hg').
  2: { intros x Hx. left. congruence. }
  destruct (greeted c) eqn:Hg.
  - eapply (greeted_kept i d); [|done|by exists c]. intros G' Hd'.
    pose proof (HandleFrame_keeps configuration EC_MAXSLAVE G' now micros i c frame d E (Hs c E) Hf Hd').
    by rewrite H in H0.
  - unfold HandleFrame in H. rewrite E, Hg in H. cbn zeta in H. destruct (_ || _) in H; [done|].
    case_bool_decide as Ht; cbn in H; [|done]. rewrite Ht in H. unfold HandleHello in H.
    destruct (DecodeHelloPayload _) as [hello|]; [|done].
    set (step := if bool_decide _ && _ then _ else (d, Observer)) in H.
    assert (exists x, clients (fst step) !! i = Some x) as [x Hx].
    { unfold step. destruct (bool_decide _ && _); [|by exists c].
      destruct (Gate.Acquire _ _ _ _) as [r g]. case_bool_decide; [|by exists c].
      cbn. rewrite list_lookup_alter_eq, E. by eexists. }
    destruct step as [d1 r]. cbn in Hx. unfold QueueFrame, queue_frame in H.
    cbn [clients UpdateInputPublicationDemand with_ports on_client with_clients] in H.
    rewrite list_lookup_alter_eq, Hx in H. cbn [fmap option_fmap option_map] in H.
    set (x' := on_session _ x) in H. match goal with H : context [offer now ?f ?r ?c] |- _ =>
      pose proof (quiet_greeted _ _ (quiet_offer now f r c)) as Hq; destruct (offer now f r c) as [y v] end.
    destruct v; [|done|done]. injection H as <-. exists y. split; [|exact Hq].
    cbn. apply list_lookup_insert_eq. rewrite length_alter. by eapply lookup_lt_Some.
Qed.

Lemma handle_frames_keeps i batch d :
  Forall frame_wf batch -> servable i d -> Whole G d ->
  let '(d', more) := handle_frames configuration now micros i batch d in
  Whole G d' /\ (more = true -> servable i d').
Proof using Type.
  intros Hb. revert d. induction Hb as [|frame batch Hf Hb IH]; intros d Hs Hd; cbn [handle_frames]; [done|].
  pose proof (ConsumeRateToken_keeps configuration EC_MAXSLAVE G now i d Hd) as H1.
  destruct (ConsumeRateToken now i d) as [d1 [|]] eqn:E1; [|done]. cbn in H1.
  pose proof (token_servable _ _ _ E1 Hs) as Hs1.
  destruct (clients d1 !! i) as [c|] eqn:Ec.
  2: { unfold HandleFrame. by rewrite Ec. }
  pose proof (HandleFrame_keeps configuration EC_MAXSLAVE G now micros i c frame d1 Ec (Hs1 c Ec) Hf H1) as H2.
  destruct (HandleFrame _ _ _ _ _ _) as [d2 [|]] eqn:E2; [|done]. cbn in H2.
  apply IH; [|done]. by eapply HandleFrame_servable.
Qed.

Lemma ReadClient_keeps answers total i d :
  Forall recv_ok answers -> Whole G d ->
  Whole G (ReadClient configuration now micros answers total i d).
Proof using Type.
  intros Ha. revert total d. induction Ha as [|a answers Ha _ IH]; intros total d Hd; cbn [ReadClient];
    destruct (clients d !! i) as [c|] eqn:E; try done;
    destruct (descriptor c) eqn:Ho; cbn [negb]; try (by apply (CloseClient_keeps (Whole G)));
    try done.
  destruct a; try done; try (by apply (CloseClient_keeps (Whole G))); [|by apply IH].
  pose proof Hd as [[(Hc & _) _ _] _]. eapply Forall_lookup_1 in Hc as [Hc Hdec]; [|done].
  destruct (FrameDecoder.Feed (decoder c) data) as [[dec batch] valid] eqn:Ef.
  pose proof (Feed_inv _ _ _ _ _ Hdec Ha Ef) as Hdec'.
  assert (Whole G (put_client i (set_decoder dec c) d)) as H1.
  { eapply inv_client; [done| |done]. split; try done. }
  destruct valid; cbn [negb]; [|by apply (CloseClient_keeps (Whole G))].
  assert (Forall frame_wf batch) as Hb.
  { destruct Hdec as (Hb & Hl & Hinc). destruct (FrameDecoder.error (decoder c)) eqn:He.
    - by rewrite (Feed_error_fixed _ _ _ He) in Ef.
    - apply Feed_true in Ef; try done. destruct_and!. done. }
  assert (servable i (put_client i (set_decoder dec c) d)) as Hs.
  { intros x. cbn. rewrite list_lookup_insert_eq by (by eapply lookup_lt_Some).
    intros [= <-]. by right. }
  pose proof (handle_frames_keeps i batch _ Hb Hs H1) as H2.
  destruct (handle_frames _ _ _ _ _ _) as [d2 [|]]; destruct H2 as [H2 _]; [|done].
  destruct (_ <=? _); [done|]. by apply IH.
Qed.
End Reading.
