(* ===== verification/System.v ===== *)
(** The whole daemon as a state machine: the constructor, the events of the main loop
    [Daemon::Run] and of the bus threads, the loop's body, and the properties of every state
    that can be reached. The composition with the bus threads is here too: what reaches the
    wire was accepted from the controller of that epoch. *)

From stdpp Require Import list_numbers.
From S2P Require Import Prelude Protocol Codec Payloads Frame SafetyGate SpscQueue DcSync Realtime Config.
From S2P Require Import Adapter Pdo IoMap BusIo Cycle Threads Sockets Connection Daemon Telemetry Control Requests.

(** ** Construction *)

Section System.
Context (configuration : DaemonConfig) (EC_MAXSLAVE : Z) (preemptRtAvailable : bool).

(** [AbsoluteIoMapAllocationSize()]. *)
Definition AbsoluteIoMapAllocationSize : Z :=
  let maximumBytesPerDirection := (U16_MAX + 7) / 8 in
  (EC_MAXSLAVE + 1) * 2 * maximumBytesPerDirection + 64 * 1024.

(** An [EthercatBus] as constructed, its thread not started. *)
Definition new_bus : bus :=
  let slots := Z.to_nat EC_MAXSLAVE in
  mkBus (mkShared 1 false 0 0 0 ProcessDataFault 0 false false)
    (mkPublished Starting false 0 (mkTopology (replicate slots 0) (replicate slots 0) false)
       0 0 0 false 0)
    (mkPrivate no_context false false
       (mkOutputs (replicate (Z.to_nat AbsoluteIoMapAllocationSize) 0) false (replicate slots 0)
          (replicate slots false) 0)
       0 0 false (Dc.create (config_cyclePeriod configuration * 1000)) false 0 0 0 0)
    (empty_ring kMaximumOutputCommands) (empty_ring kMaximumInputChunks) AtStopped MainIdle [] [].

Definition new_adapter : AdapterRuntime := mkAdapter missing false false [] [] 0.

(** The constructor of [Daemon], with the random epoch. *)
Definition new_daemon (initialEpoch : Z) : daemon :=
  let n := length (config_interfaces configuration) in
  mkDaemon (Gate.create initialEpoch (config_heartbeatTimeout configuration)
              (config_outputCommandTimeout configuration))
    0 (replicate n (mkPort new_bus 0 0 (mkTiming 0 0 0 Other))) (replicate n new_adapter) []
    (replicate (Z.to_nat kMaximumBuses) empty_accumulator) 1 false 0 [] false.

(** ** Events *)

Inductive event :=
| EvScan (initial : bool) (identities : list AdapterIdentity) (joins : nat -> list Io)
| EvBusFaults
| EvTimeouts
| EvDrain
| EvStatus
| EvBusInformation
| EvAdvance (reason : DisableReason)               (* a changed configuration, the shutdown *)
| EvAccept (answers : list accept_answer)
| EvPoll (i : nat) (ev : client_events)
| EvRemoveClosed
| EvThread (index : nat) (io : Io)                 (* an action of a bus thread *)
| EvTiming (index : nat) (t : Timing).             (* its timing measurements *)

Definition handle (now micros : Z) (e : event) (d : daemon) : daemon :=
  match e with
  | EvScan initial identities joins =>
      let d := ScanAdapters configuration EC_MAXSLAVE now initial identities joins d in
      if initial then d else with_scan false d
  | EvBusFaults => HandleBusFaults now d
  | EvTimeouts => HandleSafetyTimeouts now d
  | EvDrain => DrainInputs now d
  | EvStatus => BroadcastStatus configuration preemptRtAvailable now micros d
  | EvBusInformation => BroadcastBusInformation configuration now d
  | EvAdvance reason => AdvanceEpoch now reason 0xffff d
  | EvAccept answers => AcceptClients now answers d
  | EvPoll i ev => poll_client configuration now micros d (i, ev)
  | EvRemoveClosed => RemoveClosedClients d
  | EvThread index io =>
      match ports d !! index, config_interfaces configuration !! index with
      | Some p, Some mapping =>
          put_thread index (bus_action configuration EC_MAXSLAVE index mapping io (thread p)) d
      | _, _ => d
      end
  | EvTiming index t =>
      with_ports (alter (fun p => mkPort (thread p) (inputPublicationPeriodUs p)
                                    (resetCounterSequence p) t) index (ports d)) d
  end.

(** What the kernel and the network guarantee of their answers; [joins] are the answers
    during a [join], which are enough for it ([join_returns]). *)
Definition event_ok (now micros : Z) (e : event) (d : daemon) : Prop :=
  match e with
  | EvScan _ _ joins => forall i, Forall io_ok (joins i) /\ (join_fuel <= length (joins i))%nat
  | EvPoll i ev =>
      Forall recv_ok (ev_recv ev) /\
      sends_ok (ev_send ev) i
        (if ev_readable ev then ReadClient configuration now micros (ev_recv ev) 0 i d else d)
  | EvThread index io => io_ok io
  | _ => True
  end.

(** The states the daemon can reach, its main thread and its bus threads interleaved in any
    way. *)
Inductive reached : daemon -> Prop :=
| reached_new epoch : in_u64 epoch -> reached (new_daemon epoch)
| reached_next now micros e d :
    reached d -> event_ok now micros e d -> reached (handle now micros e d).

(** ** The main loop *)

Record Timers := mkTimers { nextStatus : Z; nextAdapterScan : Z; nextConfigurationCheck : Z }.

(** What one iteration of the loop of [Run] meets: the clock at its start, the adapters
    found, the threads joined, whether the configuration file has changed, and what [poll]
    reports. *)
Record Iteration := mkIteration {
  it_now : Z;
  it_identities : list AdapterIdentity;
  it_joins : nat -> list Io;
  it_changed : bool;
  it_accepts : option (list accept_answer);
  it_events : list client_events
}.

(** The body of the loop: the state, the timers, and whether the loop is left. [now] and
    [micros] are the clocks of the handlers. *)
Definition iterate (now micros : Z) (it : Iteration) (t : Timers) (d : daemon)
    : daemon * Timers * bool :=
  let scan := (nextAdapterScan t <=? it_now it) || forceAdapterScan d in
  let d := if scan then with_scan false
                          (ScanAdapters configuration EC_MAXSLAVE now false (it_identities it)
                             (it_joins it) d) else d in
  let d := HandleBusFaults now d in
  let d := HandleSafetyTimeouts (it_now it) d in
  let d := DrainInputs (it_now it) d in
  let status := nextStatus t <=? it_now it in
  let d := if status then BroadcastBusInformation configuration now
                            (BroadcastStatus configuration preemptRtAvailable now micros d)
           else d in
  let check := nextConfigurationCheck t <=? it_now it in
  let t := mkTimers (if status then it_now it + 100000000 else nextStatus t)
             (if scan then it_now it + 250000000 else nextAdapterScan t)
             (if check then it_now it + 500000000 else nextConfigurationCheck t) in
  if check && it_changed it then (AdvanceEpoch now Reinitialize 0xffff d, t, true)
  else
    (RemoveClosedClients
       (PollClients configuration now micros (it_accepts it) (it_events it) d), t, false).

(** ** The events keep the invariant *)

Abbreviation nobody := (fun _ : nat => False).
Abbreviation Whole := (Whole configuration EC_MAXSLAVE nobody).

(** *** Clients come and go *)

Lemma new_client_ok id now credentials : client_ok (new_client id now credentials).
Proof using Type.
  split; [|apply reachable_inv; constructor].
  unfold connection_ok. cbn. split; cbn; try done; try lia.
Qed.

Lemma fresh_id_counter n : 1 <= n -> fresh_id n = (n, to_u64 (n + 1)).
Proof using Type. intros H. unfold fresh_id. by destruct (Z.eqb_spec n 0); [lia|]. Qed.

Lemma crowd_accept cs c :
  zlen cs < kMaximumClients -> zlen (List.filter (open_for (client_uid (peer c))) cs) < 8 ->
  crowd_ok cs -> crowd_ok (cs ++ [c]).
Proof using Type.
  intros H1 H2 [_ H3]. split; [rewrite zlen_app; change (zlen [c]) with 1; lia|].
  intros uid. specialize (H3 uid). rewrite List.filter_app, zlen_app. cbn [List.filter].
  unfold open_for at 2. destruct (Z.eqb_spec (client_uid (peer c)) uid) as [<-|].
  - destruct (descriptor c && true); [change (zlen [c]) with 1|change (zlen []) with 0]; lia.
  - rewrite andb_false_r. change (zlen []) with 0. lia.
Qed.

Lemma accept_one now credentials d :
  zlen (clients d) < kMaximumClients ->
  zlen (List.filter (open_for (cred_uid credentials)) (clients d)) < 8 ->
  Whole d ->
  Whole (with_clients (clients d ++ [new_client (fst (fresh_id (nextClientId d))) now credentials])
           (with_nextClientId (snd (fresh_id (nextClientId d))) d)).
Proof using Type.
  intros Hroom Huid [[(Hc & Ha & _ & Hn & Hlen) Ht Hs] Hm]. split; [|done]. split.
  - split; [|split; [done|split; [done|split; [by apply crowd_accept|done]]]].
    apply Forall_app. split; [done|]. constructor; [apply new_client_ok|done].
  - intros id Hid. destruct (Ht id Hid) as (i & c & Hi & ?). exists i, c. split; [|done].
    cbn. by apply lookup_app_l_Some.
  - intros Hw. cbn [wrapped with_clients with_nextClientId] in Hw.
    apply orb_false_iff in Hw as [Hw0 Hw].
    destruct (Hs Hw0) as [H1 H2 [H3 H4] H5 H6 H7 H8]. rewrite fresh_id_counter in * by done.
    cbn [fst snd] in *.
    assert (to_u64 (nextClientId d + 1) = nextClientId d + 1) as E by (unfold to_u64 in *; dlia).
    split; try done; cbn.
    + rewrite map_app. apply NoDup_app. split_and!; [done| |apply NoDup_singleton].
      intros x Hx Hx'%list_elem_of_singleton. cbn in Hx'. unfold client_of in Hx'. cbn in Hx'. subst x.
      apply list_elem_of_fmap in Hx as (c & Hx & Hc'). rewrite Forall_forall in H4.
      specialize (H4 c Hc'). lia.
    + rewrite E. split; [lia|]. apply Forall_app. split.
      * eapply Forall_impl; [done|]. intros c ?. cbn in *. lia.
      * constructor; [|done]. unfold client_of. cbn. lia.
Qed.

Lemma AcceptClients_keeps now answers d : Whole d -> Whole (AcceptClients now answers d).
Proof using Type.
  revert d. induction answers as [|[credentials| |] answers IH]; intros d Hd; cbn [AcceptClients];
    try done; [|by apply IH].
  destruct (Z.leb_spec kMaximumClients (zlen (clients d))); [by apply IH|].
  destruct credentials as [c|]; [|by apply IH].
  destruct (cred_pid c <=? 0); [by apply IH|].
  match goal with |- context [8 <=? ?n] => destruct (Z.leb_spec 8 n) end; [by apply IH|].
  assert (zlen (List.filter (open_for (cred_uid c)) (clients d)) < 8) as Huid by done.
  pose proof (accept_one now c d ltac:(lia) Huid Hd) as Ha. destruct (fresh_id (nextClientId d)) as [id next].
  apply IH. exact Ha.
Qed.

Lemma elem_of_kept {A} (f : A -> bool) (l : list A) x :
  x ∈ List.filter f l <-> x ∈ l /\ f x = true.
Proof using Type. rewrite !list_elem_of_In. apply filter_In. Qed.

Lemma kept_NoDup {A B} (f : A -> bool) (g : A -> B) (l : list A) :
  NoDup (map g l) -> NoDup (map g (List.filter f l)).
Proof using Type.
  induction l as [|x l IH]; cbn; [done|]. intros [Hx Hl]%NoDup_cons. destruct (f x); [|auto].
  cbn. constructor; [|auto]. intros (y & E & [Hy _]%elem_of_kept)%list_elem_of_fmap.
  apply Hx. rewrite E. by apply list_elem_of_fmap_2.
Qed.

Lemma crowd_kept cs : crowd_ok cs -> crowd_ok (List.filter descriptor cs).
Proof using Type.
  intros [H1 H2].
  assert (forall f : ClientConnection -> bool,
    zlen (List.filter f (List.filter descriptor cs)) <= zlen (List.filter f cs)) as H.
  { intros f. clear. induction cs as [|c cs IH]; cbn; [done|]. destruct (descriptor c); cbn;
      destruct (f c); rewrite ?zlen_cons; lia. }
  split.
  - specialize (H (fun _ => true)).
    assert (forall l : list ClientConnection, List.filter (fun _ => true) l = l) as E
      by (clear; induction l as [|c l IH]; cbn; congruence).
    rewrite !E in H. lia.
  - intros uid. specialize (H (open_for uid)). specialize (H2 uid). lia.
Qed.

Lemma RemoveClosedClients_keeps d : Whole d -> Whole (RemoveClosedClients d).
Proof using Type.
  intros [[(Hc & Ha & _ & Hn & Hlen) Ht Hs] Hm]. split; [|done].
  assert (forall P : ClientConnection -> Prop, Forall P (clients d) ->
            Forall P (List.filter descriptor (clients d))) as HF.
  { intros P HP. rewrite Forall_forall in *. intros x [Hx _]%elem_of_kept. auto. }
  split.
  - split; [by apply HF|split; [done|split; [done|split; [by apply crowd_kept|done]]]].
  - intros id Hid. destruct (Ht id Hid) as (i & c & Hi & Hid' & Ho & Hrest).
    assert (c ∈ List.filter descriptor (clients d)) as Hin.
    { apply elem_of_kept. split; [|done]. by eapply list_elem_of_lookup_2. }
    apply list_elem_of_lookup_1 in Hin as [j Hj]. by exists j, c.
  - intros Hw. destruct (Hs Hw) as [H1 H2 [H3 H4] H5 H6 H7 H8]. split; try done; cbn.
    + by apply kept_NoDup.
    + split; [done|]. by apply HF.
Qed.

(** *** Bus threads *)

(** A bus permits outputs only as the gate does. *)
Definition permitted_by (g : Gate.t) (b : bus) : Prop :=
  outputsPermitted (shared b) = true ->
  Gate.outputsEnabled g = true /\ epoch_of b = Gate.epoch g.

(** The thread of a port may be replaced by [b]. *)
Record successor (g : Gate.t) (p : port) (b : bus) : Prop := {
  successor_ok : gate_inv g -> thread_ok EC_MAXSLAVE g p ->
    inv EC_MAXSLAVE b /\ main b = MainIdle /\ epoch_of b <= Gate.epoch g;
  successor_accepted : accepted b = accepted (thread p);
  successor_permitted : permitted_by g (thread p) -> permitted_by g b
}.

Lemma share_inv e b : inv EC_MAXSLAVE b -> inv EC_MAXSLAVE (with_shared (set_globalFaultedEpoch e) b).
Proof using Type. intros Hi. eapply inv_environment; [done|by split|done|done]. Qed.

(** The buses after the thread of one has acted: all see its stores to the shared epoch. *)
Lemma put_thread_lookup index b d i q' :
  ports (put_thread index b d) !! i = Some q' ->
  exists q, ports d !! i = Some q /\
    thread q' = with_shared (set_globalFaultedEpoch (globalFaultedEpoch (shared b)))
                  (if decide (i = index) then b else thread q).
Proof using Type.
  intros Hq. cbn in Hq. change (map ?f ?l) with (f <$> l) in Hq. rewrite list_lookup_fmap in Hq.
  destruct (decide (i = index)) as [->|Hne].
  - rewrite list_lookup_alter_eq in Hq. destruct (ports d !! index) as [q|]; [|done].
    injection Hq as <-. by exists q.
  - rewrite list_lookup_alter_ne in Hq by done. destruct (ports d !! i) as [q|]; [|done].
    injection Hq as <-. by exists q.
Qed.

Lemma put_thread_keeps index p b d :
  ports d !! index = Some p -> successor (gate d) p b -> Whole d -> Whole (put_thread index b d).
Proof using Type.
  intros Hp [Hok Hacc Hper] [Hs Hm]. set (e := globalFaultedEpoch (shared b)).
  assert (forall i q', ports (put_thread index b d) !! i = Some q' ->
            exists q, ports d !! i = Some q /\
              ((i = index /\ thread q' = with_shared (set_globalFaultedEpoch e) b /\ q = p) \/
               (i <> index /\ thread q' = with_shared (set_globalFaultedEpoch e) (thread q)))) as Hlook.
  { intros i q' (q & Hq & Ht)%put_thread_lookup. exists q. split; [done|].
    destruct (decide (i = index)) as [->|]; [left; by simplify_eq|by right]. }
  assert (forall q, q ∈ ports (put_thread index b d) ->
            exists i, ports (put_thread index b d) !! i = Some q) as Hin.
  { intros q Hq. by apply list_elem_of_lookup_1 in Hq. }
  split.
  - destruct Hs as [(Q1 & Q2 & Q3 & Q4 & Q5 & Q6) H2 H3]. split; [|done|].
    { split_and!; try done; try apply Q4. cbn. by rewrite length_map, length_alter. }
    intros Hw. specialize (H3 Hw). pose proof (sound_threads _ _ _ H3) as Hth. rewrite Forall_lookup in Hth.
    destruct H3 as [S1 S2 S3 S4 S5 S6 S7]. split; try done.
    + apply Forall_forall. intros q' Hq. destruct (Hin q' Hq) as [i Hi].
      destruct (Hlook i q' Hi) as (q & Hq0 & [(-> & Ht & ->)|(_ & Ht)]);
        unfold thread_ok; rewrite Ht.
      * destruct (Hok S1 (Hth _ _ Hp)) as (? & ? & ?). split_and!; [by apply share_inv|done|done].
      * destruct (Hth _ _ Hq0) as (? & ? & ?). split_and!; [by apply share_inv|done|done].
    + intros i q' x Hi Hx. destruct (Hlook i q' Hi) as (q & Hq0 & [(-> & Ht & ->)|(_ & Ht)]);
        rewrite Ht in Hx; cbn in Hx; [rewrite Hacc in Hx|]; by eapply S5.
  - apply Forall_forall. intros q' Hq. destruct (Hin q' Hq) as [i Hi].
    unfold mirrored in Hm. rewrite Forall_lookup in Hm.
    destruct (Hlook i q' Hi) as (q & Hq0 & [(-> & -> & ->)|(_ & ->)]).
    + apply Hper. exact (Hm _ _ Hq0).
    + exact (Hm _ _ Hq0).
Qed.

Lemma successor_action index mapping io p g :
  io_ok io -> successor g p (bus_action configuration EC_MAXSLAVE index mapping io (thread p)).
Proof using Type.
  intros Hio. unfold bus_action.
  set (b := worker _ _ _ _ _ _ _).
  assert (obeys (popped (thread p)) b) as [E1 E2 _ E3 _ E4] by apply worker_obeys.
  assert (epoch_of (popped (thread p)) = epoch_of (thread p) /\
          shared (popped (thread p)) = shared (thread p) /\
          accepted (popped (thread p)) = accepted (thread p) /\
          main (popped (thread p)) = main (thread p)) as (F1 & F2 & F3 & F4)
    by (unfold popped; by destruct (worker_pc (thread p))).
  split.
  - intros _ (Hi & Hm & He). split_and!; [by apply worker_inv|congruence|congruence].
  - congruence.
  - intros H Hper. rewrite E1, F1. apply H. rewrite <- F2. auto.
Qed.

Lemma successor_stop index mapping ios p g :
  Forall io_ok ios -> successor g p (Stop configuration EC_MAXSLAVE index mapping ios (thread p)).
Proof using Type.
  intros Hio. unfold Stop, bus_action. set (b := with_shared _ _).
  destruct (worker_fold_obeys mapping (config_outputCommandTimeout configuration)
    (config_cyclePeriod configuration) (to_u16 (Z.of_nat index)) EC_MAXSLAVE ios b)
    as (E1 & E2 & E3 & E4).
  split.
  - intros _ (Hi & Hm & He). split_and!; [|by rewrite E4|by rewrite E1].
    apply worker_fold_inv; [|done]. eapply inv_environment; [done|by split|done|done].
  - by rewrite E3.
  - intros _ Hper. apply E2 in Hper. done.
Qed.

Lemma launch_inv up epoch b :
  inv EC_MAXSLAVE b -> worker_pc b = AtStopped -> 0 <= epoch -> inv EC_MAXSLAVE (launch up epoch b).
Proof using Type.
  intros [] Hp He. rewrite Hp in *. split; try done. by left.
Qed.

Lemma successor_start index mapping ios up p g b :
  Forall io_ok ios -> (join_fuel <= length ios)%nat -> successor g p b ->
  successor g p (Start configuration EC_MAXSLAVE index mapping ios up (Gate.epoch g) b).
Proof using Type.
  intros Hio Hn [H1 H2 H3].
  destruct (successor_stop index mapping ios (mkPort b 0 0 (mkTiming 0 0 0 Other)) g Hio) as [S1 S2 S3].
  cbn in S1, S2, S3. split.
  - intros Hg Hok. destruct (S1 Hg (H1 Hg Hok)) as (Hi & Hm & He). split_and!; [|done|done].
    apply launch_inv; [done| |destruct Hg; lia]. apply join_returns; [|done|done].
    eapply inv_environment; [by apply H1|by split|done|done].
  - cbn. by rewrite S2.
  - intros _ Hper. done.
Qed.

Lemma successor_same g p : successor g p (thread p).
Proof using Type. by split. Qed.

Lemma successor_link up g p : successor g p (SetLinkUp up (thread p)).
Proof using Type.
  unfold SetLinkUp. destruct up; cbn; (split; [|done|done]); intros _ (Hi & Hm & He);
    (split_and!; [|done|done]); (eapply inv_environment; [done|by split|done|done]).
Qed.

Lemma rebind_keeps joins d entry :
  (forall i, Forall io_ok (joins i) /\ (join_fuel <= length (joins i))%nat) ->
  Whole d -> Whole (rebind configuration EC_MAXSLAVE joins d entry).
Proof using Type.
  intros Hj Hd. destruct entry as [index [mapping next]]. unfold rebind.
  destruct (ports d !! index) as [p|] eqn:Ep; [|done].
  destruct (adapters d !! index) as [runtime|]; [|done].
  destruct (Hj index) as [Hio Hn].
  set (choice := if negb (ready next) then _ else _).
  assert (successor (gate d) p (fst choice)) as Hc.
  { unfold choice. destruct (negb (ready next)).
    - destruct (workerStarted runtime); [by apply successor_stop|apply successor_same].
    - destruct (negb (workerStarted runtime) || bindingChanged next); [|apply successor_link].
      apply successor_start; [done|done|]. destruct (workerStarted runtime);
        [by apply successor_stop|apply successor_same]. }
  destruct choice as [b started]. cbn in Hc. apply inv_adapters; [apply length_insert|].
  by eapply put_thread_keeps.
Qed.

Lemma ScanAdapters_keeps now initial identities joins d :
  (forall i, Forall io_ok (joins i) /\ (join_fuel <= length (joins i))%nat) ->
  Whole d -> Whole (ScanAdapters configuration EC_MAXSLAVE now initial identities joins d).
Proof using Type.
  intros Hj Hd. unfold ScanAdapters. cbn zeta. apply fold_keeps.
  { intros d' entry. by apply rebind_keeps. }
  destruct (safety_change _ _) as [[reason index]|]; [|done]. by apply (AdvanceEpoch_keeps Whole).
Qed.

Lemma poll_client_keeps now micros i ev d :
  event_ok now micros (EvPoll i ev) d -> Whole d ->
  Whole (poll_client configuration now micros d (i, ev)).
Proof using Type.
  intros [Hr Hs] Hd. unfold poll_client. destruct (ev_hangup ev); [by apply (CloseClient_keeps Whole)|].
  cbn zeta. apply hello_timeout_keeps.
  set (d1 := if ev_readable ev then _ else d) in *.
  assert (Whole d1) by (unfold d1; destruct (ev_readable ev); [by apply ReadClient_keeps|done]).
  destruct (_ && _); [|done]. by apply FlushClient_keeps.
Qed.

Lemma handle_keeps now micros e d :
  event_ok now micros e d -> Whole d -> Whole (handle now micros e d).
Proof using Type.
  intros He Hd. destruct e; cbn [handle].
  - apply (ScanAdapters_keeps now initial identities joins) in Hd; [|done].
    destruct initial; [done|by apply inv_scan].
  - by apply (HandleBusFaults_keeps Whole).
  - by apply (HandleSafetyTimeouts_keeps Whole).
  - by apply (DrainInputs_keeps Whole).
  - by apply (BroadcastStatus_keeps Whole).
  - by apply (BroadcastBusInformation_keeps Whole).
  - by apply (AdvanceEpoch_keeps Whole).
  - by apply AcceptClients_keeps.
  - by apply poll_client_keeps.
  - by apply RemoveClosedClients_keeps.
  - destruct (ports d !! index) as [p|] eqn:E; [|done].
    destruct (config_interfaces configuration !! index) as [m|]; [|done].
    eapply put_thread_keeps; [done|by apply successor_action|done].
  - apply inv_ports; [|done]. apply Forall2_same_length_lookup. rewrite length_alter. split; [done|].
    intros j x y Hx Hy. exists (inputChunks (thread x)). destruct (decide (index = j)) as [<-|Hne].
    + rewrite list_lookup_alter_eq, Hx in Hy. injection Hy as <-. by destruct (thread x).
    + rewrite list_lookup_alter_ne in Hy by done. simplify_eq. by destruct (thread x).
Qed.

Lemma new_bus_inv : 0 <= EC_MAXSLAVE -> inv EC_MAXSLAVE new_bus.
Proof using Type.
  intros H. split; try done.
  - exists []. split; [|constructor]. apply represents_empty. vm_compute. lia.
  - split; cbn; unfold zlen; rewrite length_replicate; lia.
  - split; cbn; unfold zlen; rewrite length_replicate; lia.
  - by left.
Qed.

Lemma new_daemon_whole epoch : 0 <= EC_MAXSLAVE -> in_u64 epoch -> Whole (new_daemon epoch).
Proof using Type.
  intros HE He. assert (gate_inv (gate (new_daemon epoch))) as Hg by by apply gate_inv_create.
  split.
  - split.
    + split; [constructor|split; [|split; [done|split; [done|]]]].
      * apply Forall_replicate. split; [constructor|done].
      * cbn. by rewrite !length_replicate.
    + done.
    + intros _. split; try done.
      * constructor.
      * apply Forall_replicate. split_and!; [by apply new_bus_inv|done|]. destruct Hg. cbn in *. lia.
      * intros i p x Hi Hx. apply lookup_replicate in Hi as [-> _]. by apply elem_of_nil in Hx.
      * intros x y Hx. by apply elem_of_nil in Hx.
  - apply Forall_replicate. done.
Qed.

Lemma reached_whole d : 0 <= EC_MAXSLAVE -> reached d -> Whole d.
Proof using Type.
  intros HE. induction 1 as [epoch He|now micros e d _ IH He].
  - by apply new_daemon_whole.
  - by apply handle_keeps.
Qed.

(** ** The main loop is a sequence of events *)

(** What one iteration may assume of its environment. *)
Fixpoint polls_ok (now micros : Z) (polled : list (nat * client_events)) (d : daemon) : Prop :=
  match polled with
  | [] => True
  | (i, ev) :: polled =>
      event_ok now micros (EvPoll i ev) d /\
      polls_ok now micros polled (handle now micros (EvPoll i ev) d)
  end.

Lemma polls_reached now micros polled d :
  reached d -> polls_ok now micros polled d ->
  reached (fold_left (poll_client configuration now micros) polled d).
Proof using Type.
  revert d. induction polled as [|[i ev] polled IH]; intros d Hd Hok; [done|].
  destruct Hok as [H1 H2]. cbn [fold_left]. apply IH; [|exact H2].
  by apply (reached_next now micros (EvPoll i ev)).
Qed.

(** The state before the clients are polled. *)
Definition before_poll (now micros : Z) (it : Iteration) (t : Timers) (d : daemon) : daemon :=
  let scan := (nextAdapterScan t <=? it_now it) || forceAdapterScan d in
  let d := if scan then handle now micros (EvScan false (it_identities it) (it_joins it)) d else d in
  let d := handle (it_now it) micros EvDrain
             (handle (it_now it) micros EvTimeouts (handle now micros EvBusFaults d)) in
  if nextStatus t <=? it_now it
  then handle now micros EvBusInformation (handle now micros EvStatus d) else d.

Definition iteration_ok (now micros : Z) (it : Iteration) (t : Timers) (d : daemon) : Prop :=
  (forall i, Forall io_ok (it_joins it i) /\ (join_fuel <= length (it_joins it i))%nat) /\
  let d := before_poll now micros it t d in
  polls_ok now micros (zip (seq 0 (length (clients d))) (it_events it))
    (match it_accepts it with Some answers => handle now micros (EvAccept answers) d | None => d end).

Lemma before_poll_reached now micros it t d :
  (forall i, Forall io_ok (it_joins it i) /\ (join_fuel <= length (it_joins it i))%nat) ->
  reached d -> reached (before_poll now micros it t d).
Proof using Type.
  intros Hj Hd. unfold before_poll. cbn zeta.
  set (d1 := if _ || _ then _ else d).
  assert (reached d1) as H1 by (unfold d1; destruct (_ || _); [by apply reached_next|done]).
  set (d2 := handle (it_now it) micros EvDrain _).
  assert (reached d2) as H2 by (do 3 (apply reached_next; [|done]); done).
  destruct (nextStatus t <=? it_now it); [do 2 (apply reached_next; [|done])|]; done.
Qed.

Lemma iterate_reached now micros it t d :
  reached d -> iteration_ok now micros it t d ->
  reached (fst (fst (iterate now micros it t d))).
Proof using Type.
  intros Hd [Hj Hp]. pose proof (before_poll_reached now micros it t d Hj Hd) as Hb.
  cbn zeta in Hp. set (d1 := before_poll now micros it t d) in *.
  assert (fst (fst (iterate now micros it t d)) =
    if (nextConfigurationCheck t <=? it_now it) && it_changed it
    then handle now micros (EvAdvance Reinitialize) d1
    else handle now micros EvRemoveClosed
           (PollClients configuration now micros (it_accepts it) (it_events it) d1)) as ->.
  { unfold iterate, d1, before_poll. cbn zeta. cbn [handle].
    destruct (_ || _), (nextStatus t <=? _), (_ && it_changed it); done. }
  destruct (_ && _); [by apply reached_next|]. apply reached_next; [|done].
  unfold PollClients. cbn zeta. destruct (it_accepts it) as [answers|].
  - apply polls_reached; [|done]. by apply (reached_next now micros (EvAccept answers)).
  - by apply polls_reached.
Qed.
End System.
