(* ===== verification/Guarantees.v ===== *)
(** What the daemon guarantees in every state it can reach: the end-to-end properties of the
    control plane together with the bus threads, with a run of a sample daemon that
    exercises them. *)

From stdpp Require Import list_numbers.
From S2P Require Import Prelude Protocol Codec Payloads Frame SafetyGate SpscQueue DcSync Realtime Config.
From S2P Require Import Adapter Pdo IoMap BusIo Cycle Threads Sockets Connection Daemon Telemetry Control Requests System.

(** ** The recursion of CloseClient *)

Section Recursion.
Context (now : Z).

Lemma close_without_controller close close' i d :
  Gate.controllerId (gate d) = None ->
  close_body close now i d = close_body close' now i d /\ gate (close_body close now i d) = gate d.
Proof using Type.
  intros Hc. unfold close_body. destruct (clients d !! i); [|done].
  destruct (negb _); [done|]. by rewrite Hc.
Qed.

(** Two ways to close a client that agree, and leave the gate alone, while nobody is in
    control. *)
Lemma broadcast_without_controller (close close' : nat -> daemon -> daemon) frame todo d :
  (forall i d, Gate.controllerId (gate d) = None ->
     close i d = close' i d /\ gate (close i d) = gate d) ->
  Gate.controllerId (gate d) = None ->
  fold_left (broadcast_to close now frame) todo d = fold_left (broadcast_to close' now frame) todo d.
Proof using Type.
  intros H. revert d. induction todo as [|i todo IH]; intros d Hd; [done|]. cbn [fold_left].
  assert (broadcast_to close now frame d i = broadcast_to close' now frame d i /\
          gate (broadcast_to close now frame d i) = gate d) as [<- Hg].
  { unfold broadcast_to, queue_frame. destruct (clients d !! i) as [c|]; [|done].
    destruct (reachable_client c); [|done]. destruct (offer now frame false c) as [c' v].
    destruct v; cbn; try done. destruct (H i (put_client i c' d) Hd) as [E1 E2]. by split. }
  apply IH. by rewrite Hg.
Qed.
End Recursion.

(** The mutual recursion of CloseClient, BroadcastOutputsDisabled and QueueFrame ends:
    CloseClient satisfies the equation of its source, in which a failing broadcast closes
    further clients by calling CloseClient again. *)
Theorem CloseClient_unfold now i d :
  CloseClient now i d = close_body (CloseClient now) now i d.
Proof.
  change (close_body (close_client 0 now) now i d = close_body (CloseClient now) now i d).
  unfold close_body. destruct (clients d !! i) as [c|]; [|done]. destruct (negb _); [done|].
  case_bool_decide as Hc; [|done]. cbn [UpdateInputPublicationDemand put_client gate with_ports with_clients].
  rewrite (Disconnect_controller _ _ Hc).
  apply broadcast_without_controller; [|done]. intros j d' Hd'.
  exact (close_without_controller now (fun _ d => d) (close_client 0 now) j d' Hd').
Qed.

Section Guarantees.
Context (configuration : DaemonConfig) (EC_MAXSLAVE : Z) (preemptRtAvailable : bool).
Context (HMax : 0 <= EC_MAXSLAVE).

Abbreviation reached := (reached configuration EC_MAXSLAVE preemptRtAvailable).
Abbreviation Whole := (Whole configuration EC_MAXSLAVE (fun _ => False)).

(** ** Revocations *)

(** A property of the gate that a revocation establishes and a refresh keeps. *)
Class Lasting (phi : Gate.t -> Prop) := {
  lasting_drop g : phi (snd (Gate.DropControllerAndAdvanceEpoch g));
  lasting_refresh g g' : refreshed g g' -> phi g -> phi g'
}.

#[export] Instance lasting_invariant phi :
  Lasting phi -> Invariant (fun d => Whole d /\ phi (gate d)).
Proof using Type.
  intros Hphi. split.
  - intros i c c' d Hi Hq (H1 & H2). split; [by eapply inv_client|done].
  - intros i c d Hi Hne (H1 & H2). split; [by apply inv_closed|done].
  - intros i c d Hi Hc (H1 & H2). split; [by apply inv_closed_controller|apply lasting_drop].
  - intros ps d Hps (H1 & H2). split; [by apply inv_ports|done].
  - intros v d Hv (H1 & H2). split; [by apply inv_adapters|done].
  - intros v d (H1 & H2). split; [by apply inv_scan|done].
  - intros v d (H1 & H2). split; [by apply inv_rescan|done].
  - intros i acc d Ha (H1 & H2). split; [by apply inv_accumulator|done].
  - intros i d (H1 & _). by apply inv_batch.
  - intros d (H1 & _). split; [by apply inv_revoke|apply lasting_drop].
  - intros g d Hg (H1 & H2). split; [by apply inv_refresh|]. by apply (lasting_refresh (gate d)).
Qed.

(** Nobody is in control and the gate forbids outputs. *)
Definition vacant (g : Gate.t) : Prop :=
  Gate.controllerId g = None /\ Gate.outputsEnabled g = false.

#[export] Instance vacant_lasting : Lasting vacant.
Proof using Type. split; [done|]. intros g g' [_ _ E1 E2] [H1 H2]. split; congruence. Qed.

(** The gate forbids outputs. *)
Definition disabled (g : Gate.t) : Prop := Gate.outputsEnabled g = false.

#[export] Instance disabled_lasting : Lasting disabled.
Proof using Type. split; [done|]. intros g g' [_ _ E1 E2] H. unfold disabled. congruence. Qed.

Definition Silent (d : daemon) : Prop := Whole d /\ vacant (gate d).

#[export] Instance silent_invariant : Invariant Silent := lasting_invariant vacant _.

Definition Off (d : daemon) : Prop := Whole d /\ disabled (gate d).

#[export] Instance off_invariant : Invariant Off := lasting_invariant disabled _.

Lemma revoke_silent d : Whole d -> Silent (revoke d).
Proof using Type. intros H. split; [by apply inv_revoke|done]. Qed.

Lemma AdvanceEpoch_silent now reason busIndex d :
  Whole d -> Silent (AdvanceEpoch now reason busIndex d).
Proof using Type.
  intros H. by apply (retire_keeps Silent), (disabled_keeps Silent), revoke_silent.
Qed.

Lemma faults_silent now d index p runtime :
  ports d !! index = Some p -> adapters d !! index = Some runtime ->
  faultSequence (shared (thread p)) <> observedFaultSequence runtime ->
  Whole d -> Silent (handle_bus_fault now d index).
Proof using Type.
  intros Hp Ha Hne Hd. unfold handle_bus_fault. rewrite Hp, Ha.
  destruct (Z.eqb_spec (faultSequence (shared (thread p))) (observedFaultSequence runtime)); [done|].
  apply AdvanceEpoch_silent, inv_adapters; [apply length_insert|done].
Qed.

Lemma fault_step_silent now d i : Silent d -> Silent (handle_bus_fault now d i).
Proof using Type.
  intros Hd. unfold handle_bus_fault. destruct (ports d !! i); [|done].
  destruct (adapters d !! i); [|done]. destruct (_ =? _); [done|].
  apply (AdvanceEpoch_keeps Silent), inv_adapters; [apply length_insert|done].
Qed.

(** A bus reports a fault the main thread has not seen. *)
Definition new_fault (d : daemon) (index : nat) : Prop :=
  exists p runtime, ports d !! index = Some p /\ adapters d !! index = Some runtime /\
    faultSequence (shared (thread p)) <> observedFaultSequence runtime.

Definition seen (d : daemon) (index : nat) : bool :=
  match ports d !! index, adapters d !! index with
  | Some p, Some runtime => faultSequence (shared (thread p)) =? observedFaultSequence runtime
  | _, _ => true
  end.

Lemma seen_step now d i : seen d i = true -> handle_bus_fault now d i = d.
Proof using Type.
  unfold seen, handle_bus_fault. destruct (ports d !! i); [|done].
  destruct (adapters d !! i); [|done]. by intros ->.
Qed.

Lemma faults_fold_silent now todo d index :
  new_fault d index -> index ∈ todo -> Whole d -> Silent (fold_left (handle_bus_fault now) todo d).
Proof using Type.
  revert d. induction todo as [|i todo IH]; intros d Hf Hin Hd; [by apply elem_of_nil in Hin|].
  cbn [fold_left]. destruct (seen d i) eqn:Hs.
  - rewrite seen_step by done. apply IH; [done| |done].
    apply elem_of_cons in Hin as [->|]; [|done]. destruct Hf as (p & a & Hp & Ha & Hne).
    unfold seen in Hs. rewrite Hp, Ha in Hs. lia.
  - assert (Silent (handle_bus_fault now d i)) as H.
    { unfold seen in Hs. destruct (ports d !! i) as [p|] eqn:Ep; [|done].
      destruct (adapters d !! i) as [a|] eqn:Ea; [|done]. eapply faults_silent; try done. lia. }
    apply fold_keeps; [|done]. intros d' j. apply fault_step_silent.
Qed.

(** The gate's watchdogs: the controller's last sign of life or, with outputs enabled, its
    last output command is too old. *)
Definition watchdog_expired (now : Z) (g : Gate.t) : Prop :=
  exists k, Gate.controller g = Some k /\
    (Gate.ms (Gate.heartbeatTimeout g) < now - Gate.lastHeartbeat k \/
     Gate.outputsEnabled g = true /\ Gate.ms (Gate.outputCommandTimeout g) < now - Gate.lastOutputCommand g).

Lemma timeouts_silent now d :
  watchdog_expired now (gate d) -> Whole d -> Silent (HandleSafetyTimeouts now d).
Proof using Type.
  intros (k & Hk & Hexp) Hd. unfold HandleSafetyTimeouts.
  assert (Silent (revoke d)) as Hr by by apply revoke_silent.
  unfold Gate.ExpireOutputCommands. rewrite Hk.
  destruct (negb (Gate.outputsEnabled (gate d)) || _) eqn:E.
  - cbn [fst snd Gate.epochChanged Gate.result_ok]. rewrite with_gate_same.
    unfold Gate.Expire. rewrite Hk. destruct (Z.leb_spec (now - Gate.lastHeartbeat k) (Gate.ms (Gate.heartbeatTimeout (gate d)))).
    + destruct Hexp as [|[Hon Hold]]; [lia|]. rewrite Hon in E. cbn in E. lia.
    + by apply (retire_keeps Silent), (disabled_keeps Silent).
  - by apply (retire_keeps Silent), (disabled_keeps Silent).
Qed.

(** A scan finds an adapter replaced, unlocked, or without its link. *)
Definition adapter_changed (identities : list AdapterIdentity) (d : daemon) : Prop :=
  exists next, next ∈ zip_with (plan identities) (config_interfaces configuration) (adapters d) /\
    bindingChanged next || linkLost next = true.

Lemma safety_change_some plans next :
  next ∈ plans -> bindingChanged next || linkLost next = true ->
  exists x, safety_change false plans = Some x.
Proof using Type.
  intros Hin Hch. unfold safety_change.
  assert (forall (l : list (nat * PlannedBinding)) acc,
    (is_Some acc \/ exists i, (i, next) ∈ l) ->
    is_Some (fold_left (fun found '(index, next) =>
       if negb false && (bindingChanged next || linkLost next)
       then Some (if linkLost next then LinkLoss else AdapterMismatch, to_u16 (Z.of_nat index))
       else found) l acc)) as H.
  { intros l. induction l as [|[j n] l IH]; intros acc Hacc; cbn [fold_left].
    - destruct Hacc as [|[i Hi]]; [done|by apply elem_of_nil in Hi].
    - apply IH. destruct Hacc as [Ha|[i Hi]].
      + left. by destruct (negb false && _).
      + apply elem_of_cons in Hi as [[= <- <-]|Hi]; [|right; by exists i].
        left. by rewrite Hch. }
  apply list_elem_of_lookup_1 in Hin as [j Hj].
  destruct (H (zip (seq 0 (length plans)) plans) None) as [x Hx]; [|by exists x].
  right. exists j. apply list_elem_of_lookup. exists j. rewrite lookup_zip_with, Hj, lookup_seq_lt; [done|].
  by eapply lookup_lt_Some.
Qed.

Lemma rebind_silent joins d entry :
  (forall i, Forall io_ok (joins i) /\ (join_fuel <= length (joins i))%nat) ->
  Silent d -> Silent (rebind configuration EC_MAXSLAVE joins d entry).
Proof using Type.
  intros Hj (H1 & H2). split; [by apply rebind_keeps|].
  destruct entry as [index [mapping next]]. unfold rebind.
  destruct (ports d !! index); [|done]. destruct (adapters d !! index); [|done].
  destruct (if negb (ready next) then _ else _). done.
Qed.

(** What makes an event a reason to revoke control. *)
Definition revoking (now : Z) (e : event) (d : daemon) : Prop :=
  match e with
  | EvScan false identities _ => adapter_changed identities d
  | EvBusFaults => exists index, new_fault d index
  | EvTimeouts => watchdog_expired now (gate d)
  | EvAdvance _ => True
  | _ => False
  end.

Lemma revoking_silent now micros e d :
  event_ok configuration now micros e d -> revoking now e d -> Whole d ->
  Silent (handle configuration EC_MAXSLAVE preemptRtAvailable now micros e d).
Proof using Type.
  intros He Hr Hd. destruct e; cbn [handle revoking] in *; try done.
  - destruct initial; [done|]. destruct Hr as (next & Hin & Hch). apply inv_scan.
    unfold ScanAdapters. cbn zeta. destruct (safety_change_some _ _ Hin Hch) as [[reason index] ->].
    apply fold_keeps; [|by apply AdvanceEpoch_silent]. intros d' entry. by apply rebind_silent.
  - destruct Hr as [index Hf]. apply (faults_fold_silent _ _ _ index); [done| |done].
    destruct Hf as (p & _ & Hp & _). apply elem_of_seq. apply lookup_lt_Some in Hp. lia.
  - by apply timeouts_silent.
  - by apply AdvanceEpoch_silent.
Qed.

(** ** Enabling outputs *)

Lemma enable_healthy g c e b h now :
  Gate.outputsEnabled g = false ->
  Gate.outputsEnabled (snd (Gate.SetOutputEnabled g c e b h now)) = true ->
  h = true /\ Gate.controllerId g = Some c.
Proof using Type.
  intros Hoff. unfold Gate.SetOutputEnabled, Gate.controllerId.
  destruct (Authorize_cases g c e) as [(-> & -> & k & Hk & Hid)|[[-> _]|(-> & _)]].
  - change (Gate.is_ok Gate.result_ok) with true. cbn [negb].
    destruct b, h; cbn; rewrite ?Hoff; try done. rewrite Hk. cbn. by subst.
  - change (Gate.is_ok _) with false. cbn. by rewrite Hoff.
  - change (Gate.is_ok _) with false. cbn. by rewrite Hoff.
Qed.

Lemma all_operational_lookup epoch mappings runtimes ps any j m a p :
  all_operational epoch mappings runtimes ps any = true ->
  mappings !! j = Some m -> runtimes !! j = Some a -> ps !! j = Some p ->
  bus_operational epoch m a p = true.
Proof using Type.
  revert runtimes ps any j.
  induction mappings as [|m' mappings IH]; intros [|a' runtimes] [|p' ps] any [|j] H Hm Ha Hp; try done;
    cbn [all_operational] in H; destruct (bus_operational epoch m' a' p') eqn:E; cbn [negb] in H; try done.
  - by simplify_eq/=.
  - by eapply IH.
Qed.

(** The end of [HandleOutputEnable] does not enable outputs. *)
Lemma enable_finish now i frame st (closing : bool) d :
  Whole d -> disabled (gate d) ->
  disabled (gate (fst (let '(d, queued) := reply now i frame st d in
    if closing
    then (on_client i close_after_write (BroadcastOutputsDisabled now Requested 0xffff d), queued)
    else (d, queued)))).
Proof using Type.
  intros Hd Hoff. pose proof (reply_keeps Off now i frame st d (conj Hd Hoff)) as H.
  destruct (reply now i frame st d) as [d' q]. destruct closing; [|by destruct H].
  by apply (disabled_keeps Off now Requested 0xffff) in H as [_ H].
Qed.

(** [AllBusesOperational] vouches for every bus. *)
Lemma operational_barrier d j p :
  Whole d -> wrapped d = false -> AllBusesOperational configuration d = true ->
  ports d !! j = Some p ->
  busState (published (thread p)) = Operational /\
  exists f, f ∈ sent (thread p) /\ frame_epoch f = Gate.epoch (gate d) /\
    all_zero (frame_context f) (frame_map f) /\ frame_confirmed f = true.
Proof using Type.
  intros [[(_ & _ & _ & _ & Hl1 & Hl2) _ Hsound] _] Hw Hh Hp. specialize (Hsound Hw).
  unfold AllBusesOperational in Hh. destruct (match ports d with [] => true | _ => false end); [done|].
  destruct (_ =? _) in Hh; [done|].
  destruct (lookup_lt_is_Some_2 (config_interfaces configuration) j) as [m Hm];
    [apply lookup_lt_Some in Hp; lia|].
  destruct (lookup_lt_is_Some_2 (adapters d) j) as [a Ha]; [apply lookup_lt_Some in Hp; lia|].
  pose proof (all_operational_lookup _ _ _ _ _ _ _ _ _ Hh Hm Ha Hp) as Hop.
  unfold bus_operational in Hop. rewrite !andb_true_iff in Hop.
  destruct Hop as [[[_ Hstate%bool_decide_eq_true] Hb] _]. split; [done|].
  unfold SafetyBarrierComplete in Hb. rewrite bool_decide_true in Hb by done. cbn [negb] in Hb.
  pose proof (sound_threads _ _ _ Hsound) as Hth. rewrite Forall_lookup in Hth.
  destruct (Hth j p Hp) as (Hi & _ & _). destruct (sound_gate _ _ _ Hsound) as [He _].
  destruct (inv_applied _ _ Hi) as [Hz|(f & Hf & E & Hzero & Hconf)]; [lia|].
  exists f. split_and!; try done. lia.
Qed.

(** Enabling outputs has the epoch barrier behind it on every bus. *)
Lemma enable_barrier now i c frame d :
  Whole d -> wrapped d = false -> Gate.outputsEnabled (gate d) = false ->
  Gate.outputsEnabled (gate (fst (HandleOutputEnable configuration now i c frame d))) = true ->
  Gate.controllerId (gate d) = Some (client_of c) /\ AllBusesOperational configuration d = true.
Proof using Type.
  intros Hd Hw Hoff Hon. unfold HandleOutputEnable in Hon.
  destruct (DecodeOutputEnablePayload _) as [request|].
  2: { destruct (reject_keeps Off now i frame d (conj Hd Hoff)) as [_ H]. unfold disabled in H. congruence. }
  set (healthy := AllBusesOperational configuration d) in *.
  pose proof (enable_healthy (gate d) (client_of c) (enable_epoch request) (enable_enabled request)
                healthy now Hoff) as Hen.
  assert (Whole (ApplySafetyToBuses (with_gate (snd (Gate.SetOutputEnabled (gate d) (client_of c)
            (enable_epoch request) (enable_enabled request) healthy now)) d))) as Hs.
  { apply whole_apply, semi_with_gate; [|apply SetOutputEnabled_controller|by destruct Hd].
    intros Hg. by apply (gate_next_apply _ (OpSetOutputEnabled _ _ _ _ _)). }
  destruct (Gate.SetOutputEnabled _ _ _ _ _ _) as [r g]. cbn [snd] in *.
  destruct (Gate.outputsEnabled g) eqn:Eg; [by destruct (Hen eq_refl)|].
  pose proof (enable_finish now i frame (Gate.status r)
    (bool_decide (Gate.status r = Ok) && negb (enable_enabled request)) _ Hs Eg) as H.
  unfold disabled in H. rewrite Hon in H. done.
Qed.
End Guarantees.

(** ** Clients without control *)

(** [d'] has the gate, the accepted commands and the adapters of [d], and its buses were at
    most told again what the gate says. *)
Record same_safety (d d' : daemon) : Prop := {
  same_gate : gate d' = gate d;
  same_granted : granted d' = granted d;
  same_adapters : adapters d' = adapters d;
  same_threads : Forall2 (fun p p' => thread p' = thread p \/
    thread p' = set_safety (Gate.epoch (gate d)) (Gate.outputsEnabled (gate d)) (thread p))
    (ports d) (ports d')
}.

Lemma set_safety_twice e b t : set_safety e b (set_safety e b t) = set_safety e b t.
Proof. by destruct t as [[] ? ? ? ? ? ? ? ?]. Qed.

Lemma same_safety_refl d : same_safety d d.
Proof. split; try done. apply Forall_Forall2_diag, Forall_true. auto. Qed.

Lemma same_safety_trans d d1 d2 : same_safety d d1 -> same_safety d1 d2 -> same_safety d d2.
Proof.
  intros [A1 A2 A3 A4] [B1 B2 B3 B4]. split; try congruence. rewrite A1 in B4.
  apply Forall2_same_length_lookup. split.
  - by rewrite (Forall2_length _ _ _ A4), (Forall2_length _ _ _ B4).
  - intros j p p2 Hp Hp2. destruct (Forall2_lookup_l _ _ _ _ _ A4 Hp) as (p1 & Hp1 & E1).
    pose proof (Forall2_lookup_lr _ _ _ _ _ _ B4 Hp1 Hp2) as E2. cbn in E1, E2.
    destruct E1 as [E1|E1], E2 as [E2|E2]; rewrite E2, ?E1; rewrite ?set_safety_twice; auto.
Qed.

Section Observer.
Context (now micros : Z) (i : nat).

Lemma same_ports ps d :
  Forall2 (fun p p' => thread p' = thread p) (ports d) ps -> same_safety d (with_ports ps d).
Proof using Type. intros H. split; try done. eapply Forall2_impl; [done|]. auto. Qed.

Lemma demand_same d : same_safety d (UpdateInputPublicationDemand d).
Proof using Type.
  apply same_ports. apply Forall2_fmap_r, Forall_Forall2_diag, Forall_true. done.
Qed.

Lemma close_observer c d :
  clients d !! i = Some c -> Gate.controllerId (gate d) <> Some (client_of c) ->
  same_safety d (CloseClient now i d).
Proof using Type.
  intros Hi Hne. change (CloseClient now i d) with (close_body (close_client 0 now) now i d).
  unfold close_body. rewrite Hi. destruct (negb _); [apply same_safety_refl|].
  rewrite bool_decide_false by done.
  destruct (demand_same (put_client i (close_connection c) d)) as [? ? ? ?]. by split.
Qed.

(** Queueing to a client without control. *)
Lemma queue_observer c frame required d :
  clients d !! i = Some c -> Gate.controllerId (gate d) <> Some (client_of c) ->
  same_safety d (fst (QueueFrame now i frame required d)).
Proof using Type.
  intros Hi Hne. unfold QueueFrame, queue_frame. rewrite Hi.
  pose proof (quiet_peer _ _ (quiet_offer now frame required c)) as Hp.
  destruct (offer now frame required c) as [c' v]. cbn in Hp.
  assert (same_safety d (put_client i c' d)) as H1.
  { split; try done. apply Forall_Forall2_diag, Forall_true. auto. }
  destruct v; cbn [fst]; try done. eapply same_safety_trans; [done|]. apply (close_observer c').
  - cbn. rewrite list_lookup_insert_eq; [done|]. by eapply lookup_lt_Some.
  - cbn. unfold client_of in *. by rewrite Hp.
Qed.

Lemma reply_observer c frame status d :
  clients d !! i = Some c -> Gate.controllerId (gate d) <> Some (client_of c) ->
  same_safety d (fst (reply now i frame status d)).
Proof using Type. apply queue_observer. Qed.

Lemma reject_observer c frame d :
  clients d !! i = Some c -> Gate.controllerId (gate d) <> Some (client_of c) ->
  same_safety d (fst (reject now i frame d)).
Proof using Type. apply queue_observer. Qed.

Lemma Authorize_observer g c e :
  Gate.controllerId g <> Some c -> Gate.status (Gate.Authorize g c e) <> Ok.
Proof using Type.
  intros Hne. destruct (Authorize_cases g c e) as [(_ & _ & k & Hk & <-)|[[-> _]|(-> & _)]]; try done.
  unfold Gate.controllerId in Hne. by rewrite Hk in Hne.
Qed.

Lemma not_ok_is_ok r : Gate.status r <> Ok -> Gate.is_ok r = false.
Proof using Type. intros H. unfold Gate.is_ok. by rewrite bool_decide_false. Qed.

Lemma demand_after_client f d :
  same_safety d (UpdateInputPublicationDemand (on_client i f d)).
Proof using Type.
  destruct (demand_same (on_client i f d)) as [? ? ? ?]. by split.
Qed.

Lemma hello_observer configuration c frame k d :
  clients d !! i = Some c -> Gate.controllerId (gate d) = Some k -> k <> client_of c ->
  same_safety d (fst (HandleHello configuration now i c frame d)).
Proof using Type.
  intros Hi Hk Hne. assert (Gate.controllerId (gate d) <> Some (client_of c)) as Hc by congruence.
  unfold HandleHello. destruct (DecodeHelloPayload _) as [hello|]; [|by apply (close_observer c)].
  set (step := if bool_decide _ && _ then _ else (d, Observer)).
  assert (step = (d, Observer)) as ->.
  { unfold step. destruct (bool_decide _ && _); [|done]. unfold Gate.Acquire, Gate.controllerId in *.
    destruct (client_of c =? 0); [cbn; by rewrite with_gate_same|].
    destruct (Gate.controller (gate d)) as [k'|]; [|done]. cbn in Hk. simplify_eq/=.
    destruct (Z.eqb_spec (Gate.id k') (client_of c)); [done|]. cbn [negb]. cbn. by rewrite with_gate_same. }
  eapply same_safety_trans; [|eapply queue_observer].
  - apply demand_after_client.
  - cbn. by rewrite list_lookup_alter_eq, Hi.
  - done.
Qed.

Lemma enable_observer configuration c frame d :
  clients d !! i = Some c -> Gate.controllerId (gate d) <> Some (client_of c) ->
  same_safety d (fst (HandleOutputEnable configuration now i c frame d)).
Proof using Type.
  intros Hi Hc. unfold HandleOutputEnable.
  destruct (DecodeOutputEnablePayload _) as [u|]; [|by apply (reject_observer c)].
  unfold Gate.SetOutputEnabled.
  rewrite not_ok_is_ok by by apply Authorize_observer. cbn [negb].
  rewrite bool_decide_false by by apply Authorize_observer. cbn [andb]. rewrite with_gate_same.
  assert (same_safety d (ApplySafetyToBuses d)) as Ha.
  { split; try done. apply Forall2_fmap_r, Forall_Forall2_diag, Forall_true. by right. }
  match goal with |- context [reply now i frame ?st ?x] =>
    pose proof (reply_observer c frame st x Hi Hc) as H; destruct (reply now i frame st x) as [d' q] end.
  by eapply same_safety_trans.
Qed.

Lemma observer_frame configuration c frame k d :
  clients d !! i = Some c -> Gate.controllerId (gate d) = Some k -> k <> client_of c ->
  same_safety d (fst (HandleFrame configuration now micros i frame d)).
Proof using Type.
  intros Hi Hk Hne. assert (Gate.controllerId (gate d) <> Some (client_of c)) as Hc by congruence.
  pose proof (close_observer c d Hi Hc) as Hclose.
  pose proof (fun e => Authorize_observer (gate d) (client_of c) e Hc) as Hauth.
  unfold HandleFrame. rewrite Hi. cbn zeta. destruct (_ || _); [done|]. destruct (negb _ && _); [done|].
  destruct (greeted c && _); [done|]. destruct (frame_type frame); try done.
  - by eapply hello_observer.
  - unfold HandleHeartbeat. destruct (DecodeEpochPayload _) as [e|]; [|by apply (reject_observer c)].
    unfold Gate.Heartbeat. rewrite not_ok_is_ok by done. cbn [negb]. rewrite with_gate_same.
    by apply (reply_observer c).
  - by eapply enable_observer.
  - unfold HandleOutputWrite. destruct (DecodeOutputWritePayload _) as [w|]; [|by apply (reject_observer c)].
    rewrite bool_decide_false; [by apply (reply_observer c)|]. intros (_ & H & _)%AuthorizeWrite_Ok. done.
  - unfold HandleClearCounters. destruct (negb _); [by apply (reject_observer c)|].
    eapply same_safety_trans; [|by apply (reply_observer c)]. apply same_ports.
    apply Forall2_fmap_r, Forall_Forall2_diag, Forall_true. done.
  - unfold HandleRelease. destruct (DecodeEpochPayload _) as [e|]; [|by apply (reject_observer c)].
    unfold Gate.Release. rewrite not_ok_is_ok by done. cbn [negb]. rewrite with_gate_same.
    pose proof (reply_observer c frame (Gate.status (Gate.Authorize (gate d) (client_of c) e)) d Hi Hc) as H.
    destruct (reply _ _ _ _ _) as [d' q].
    destruct (Authorize_cases (gate d) (client_of c) e) as [(E & _)|[[E _]|(E & _)]]; rewrite E in *; try done.
  - unfold HandleSubscribeInputs.
    destruct (DecodeSubscribeInputsPayload _) as [u|]; [|by apply (reject_observer c)].
    eapply same_safety_trans; [|eapply reply_observer].
    + apply demand_after_client.
    + cbn. by rewrite list_lookup_alter_eq, Hi.
    + done.
  - unfold HandleAdapterUnlock.
    destruct (DecodeAdapterUnlockPayload _) as [u|]; [|by apply (reject_observer c)].
    rewrite bool_decide_false by apply Hauth. by apply (reply_observer c).
  - unfold HandleAdapterRescan. destruct (negb _); [by apply (reject_observer c)|].
    eapply same_safety_trans; [|by apply (reply_observer c); destruct (_ <=? _)].
    destruct (_ <=? _); [|apply same_safety_refl]. split; try done.
    apply Forall_Forall2_diag, Forall_true. auto.
Qed.
End Observer.

(** ** A sample run

    One bus with one SubDevice; a root client takes control, enables outputs and writes. *)

Definition sample_daemon_config : DaemonConfig :=
  mkConfig [sample_configuration] false 5000 250 100 [] 10 0 (mkRealtimeConfig false false 0 None)
    [0] [] [].

Definition sample_identity : AdapterIdentity :=
  mkIdentity (str "eth1") [] None None None None true true.

(** A client sends one frame. *)
Definition says (i : nat) (type : MessageType) (request : Z) (payload : bytes) : event :=
  EvPoll i (mkEvents false true false [RecvBytes (EncodeFrame type request payload)] []).

Definition sample_joins (_ : nat) : list Io := replicate join_fuel sample_io.

Definition sample_login : list event :=
  [EvScan true [sample_identity] sample_joins; EvAccept [Accepted (Some (mkCredentials 42 0 0 None))]] ++
  replicate 16 (EvThread 0 sample_io) ++
  [says 0 Hello 1 (EncodeHelloPayload (mkHello Controller false 100 0))].

Definition sample_enable_payload : bytes := EncodeOutputEnablePayload (mkOutputEnable 5 true).

Definition sample_write : list event :=
  [says 0 OutputEnable 2 sample_enable_payload;
   says 0 OutputWrite 3 (EncodeOutputWritePayload (mkOutputWrite 5 0 1 0 [1; 1]));
   says 0 OutputWrite 4 (EncodeOutputWritePayload (mkOutputWrite 5 0 1 0 [7; 9]))] ++
  replicate 14 (EvThread 0 sample_io).

Definition run_events (l : list event) (d : daemon) : daemon :=
  fold_left (fun d e => handle sample_daemon_config 3 false 1000000 900 e d) l d.

Definition sample_new : daemon := new_daemon sample_daemon_config 3 5.
Definition sample_ready : daemon := run_events sample_login sample_new.
Definition sample_running : daemon := run_events sample_write sample_ready.

(** Events whose answers are fine in any state. *)
Definition plain_event (e : event) : Prop :=
  match e with
  | EvScan _ _ joins => joins = sample_joins
  | EvPoll _ ev => Forall recv_ok (ev_recv ev) /\ ev_send ev = []
  | EvThread _ io => io = sample_io
  | _ => True
  end.

Lemma plain_event_ok e d : plain_event e -> event_ok sample_daemon_config 1000000 900 e d.
Proof.
  destruct e; cbn; try done.
  - intros -> i. unfold sample_joins. split; [apply Forall_replicate, sample_io_ok|].
    by rewrite length_replicate.
  - intros [Hr ->]. split; [done|]. intros c _. cbn. by destruct (outgoing (queue c)).
  - intros ->. apply sample_io_ok.
Qed.

Abbreviation sample_reached := (reached sample_daemon_config 3 false).

Lemma run_events_reached l d : Forall plain_event l -> sample_reached d -> sample_reached (run_events l d).
Proof.
  intros Hl. revert d. induction Hl as [|e l He _ IH]; intros d Hd; [done|]. cbn.
  apply IH, reached_next; [done|]. by apply plain_event_ok.
Qed.

Lemma says_plain i type request payload :
  bytes_ok (EncodeFrame type request payload) -> plain_event (says i type request payload).
Proof. intros H. split; [|done]. by repeat constructor. Qed.

Lemma sample_ready_reached : sample_reached sample_ready.
Proof.
  apply run_events_reached; [|by apply reached_new].
  apply Forall_app. split; [by repeat constructor|]. apply Forall_app. split.
  - by apply Forall_replicate.
  - constructor; [|done]. apply says_plain. by repeat constructor.
Qed.

Lemma sample_running_reached : sample_reached sample_running.
Proof.
  apply run_events_reached; [|apply sample_ready_reached].
  apply Forall_app. split; [|by apply Forall_replicate].
  repeat constructor; by vm_compute.
Qed.

Lemma default_Some {A} (o : option A) (x : A) : Adapter.has_value o = true -> o = Some (default x o).
Proof. by destruct o. Qed.

(** The bus of the sample and the frame that carries the command. *)
Definition sample_port : port :=
  default (mkPort sample_start 0 0 (mkTiming 0 0 0 Other)) (ports sample_running !! O).
Definition sample_frame : Cycle.frame :=
  default (mkFrame 0 no_context [] false) (last (sent (thread sample_port))).

Lemma sample_port_found : ports sample_running !! O = Some sample_port.
Proof. apply default_Some. by vm_compute. Qed.

Lemma sample_frame_sent : sample_frame ∈ sent (thread sample_port).
Proof. apply last_Some_elem_of, default_Some. by vm_compute. Qed.

(** ** Properties *)

(** C1: end to end: whatever the clients, the adapters and the bus threads do, each process
    image that the daemon hands to the network shows, for each SubDevice, zeros or the data of
    an OutputWrite request that the daemon accepted for that bus and SubDevice, under the
    epoch of the frame, from a client that the configuration entitles to control and that held
    control with outputs enabled at that moment. (Until a 64-bit counter wraps around.) *)
Theorem wire_authorised configuration EC_MAXSLAVE preempt d i p f a :
  0 <= EC_MAXSLAVE -> reached configuration EC_MAXSLAVE preempt d -> wrapped d = false ->
  ports d !! i = Some p -> f ∈ sent (thread p) -> a ∈ indices (frame_context f) ->
  shows (frame_map f) (slave (frame_context f) a) [] \/
  exists x, x ∈ granted d /\ grant_bus x = i /\ subDeviceIndex (grant_command x) = a /\
    command_epoch (grant_command x) = frame_epoch f /\
    shows (frame_map f) (slave (frame_context f) a) (command_data (grant_command x)) /\
    ControllerAuthorized configuration (grant_peer x) = true /\
    Gate.status (Gate.AuthorizeWrite (grant_gate x) (client_id (grant_peer x)) (frame_epoch f)) = Ok.
Proof.
  intros HE Hr Hw Hp Hf Ha. apply reached_whole in Hr as [[_ _ Hs] _]; [|done]. specialize (Hs Hw).
  pose proof (sound_threads _ _ _ Hs) as Ht. rewrite Forall_lookup in Ht.
  destruct (Ht i p Hp) as (Hi & _ & _). pose proof (inv_sent _ _ Hi) as Hsent.
  rewrite Forall_forall in Hsent. destruct (Hsent f Hf a Ha) as [|(x & [Hx He] & Hsub & Hshow)]; [by left|right].
  destruct (sound_accepted _ _ _ Hs i p x Hp Hx) as (g & Hg & Hb & <-). exists g.
  pose proof (sound_grants _ _ _ Hs) as Hgr. rewrite Forall_forall in Hgr. destruct (Hgr g Hg).
  split_and!; try done. by rewrite <- He.
Qed.

Lemma wire_authorised_witness :
  shows (frame_map sample_frame) (slave (frame_context sample_frame) 1) [] \/
  exists x, x ∈ granted sample_running /\ grant_bus x = 0%nat /\ subDeviceIndex (grant_command x) = 1 /\
    command_epoch (grant_command x) = frame_epoch sample_frame /\
    shows (frame_map sample_frame) (slave (frame_context sample_frame) 1)
      (command_data (grant_command x)) /\
    ControllerAuthorized sample_daemon_config (grant_peer x) = true /\
    Gate.status (Gate.AuthorizeWrite (grant_gate x) (client_id (grant_peer x))
                   (frame_epoch sample_frame)) = Ok.
Proof.
  apply (wire_authorised sample_daemon_config 3 false sample_running 0 sample_port sample_frame 1).
  - lia.
  - apply sample_running_reached.
  - by vm_compute.
  - apply sample_port_found.
  - apply sample_frame_sent.
  - apply elem_of_indices. by vm_compute.
Defined.

(** C5: one client per epoch: all output commands that the daemon accepts under one epoch, on
    whatever buses, come from the same client. *)
Theorem one_client_per_epoch configuration EC_MAXSLAVE preempt d x y :
  0 <= EC_MAXSLAVE -> reached configuration EC_MAXSLAVE preempt d -> wrapped d = false ->
  x ∈ granted d -> y ∈ granted d ->
  command_epoch (grant_command x) = command_epoch (grant_command y) ->
  client_id (grant_peer x) = client_id (grant_peer y).
Proof.
  intros HE Hr Hw Hx Hy. apply reached_whole in Hr as [[_ _ Hs] _]; [|done].
  by apply (sound_writers _ _ _ (Hs Hw)).
Qed.

Definition no_grant : grant := mkGrant 0 (mkPeer 0 0 0 0 []) inhabitant (Gate.create 0 0 0).
Definition sample_grant : grant := default no_grant (head (granted sample_running)).
Definition sample_grant' : grant := default no_grant (last (granted sample_running)).

Lemma one_client_per_epoch_witness :
  command_data (grant_command sample_grant) <> command_data (grant_command sample_grant') /\
  client_id (grant_peer sample_grant) = client_id (grant_peer sample_grant').
Proof.
  split; [by vm_compute|].
  apply (one_client_per_epoch sample_daemon_config 3 false sample_running).
  - lia.
  - apply sample_running_reached.
  - by vm_compute.
  - apply head_Some_elem_of, default_Some. by vm_compute.
  - apply last_Some_elem_of, default_Some. by vm_compute.
  - by vm_compute.
Defined.

(** C7: a bus permits outputs only while the gate does: then the gate's epoch is the bus's,
    and the controller is a connected client that has said hello, was granted the role, and is
    entitled to it by its user or its groups. *)
Theorem outputs_need_controller configuration EC_MAXSLAVE preempt d p :
  0 <= EC_MAXSLAVE -> reached configuration EC_MAXSLAVE preempt d -> wrapped d = false ->
  p ∈ ports d -> outputsPermitted (shared (thread p)) = true ->
  Gate.outputsEnabled (gate d) = true /\ epoch_of (thread p) = Gate.epoch (gate d) /\
  exists i c, clients d !! i = Some c /\ Gate.controllerId (gate d) = Some (client_of c) /\
    descriptor c = true /\ greeted c = true /\ role (session c) = Controller /\
    ControllerAuthorized configuration (peer c) = true.
Proof.
  intros HE Hr Hw Hp Hper. apply reached_whole in Hr as [[_ Hc Hs] Hm]; [|done].
  unfold mirrored in Hm. rewrite Forall_forall in Hm. destruct (Hm p Hp Hper) as [Hon He].
  split; [done|]. split; [done|]. destruct (sound_gate _ _ _ (Hs Hw)) as (_ & Hk & _).
  destruct (Hk Hon) as [k Hctl]. destruct (Hc (Gate.id k)) as (i & c & Hi & Hid & H).
  { unfold Gate.controllerId. by rewrite Hctl. }
  exists i, c. split; [done|]. split; [|done]. unfold Gate.controllerId. rewrite Hctl. cbn. by rewrite Hid.
Qed.

Lemma outputs_need_controller_witness :
  Gate.outputsEnabled (gate sample_running) = true /\
  epoch_of (thread sample_port) = Gate.epoch (gate sample_running) /\
  exists i c, clients sample_running !! i = Some c /\
    Gate.controllerId (gate sample_running) = Some (client_of c) /\
    descriptor c = true /\ greeted c = true /\ role (session c) = Controller /\
    ControllerAuthorized sample_daemon_config (peer c) = true.
Proof.
  apply (outputs_need_controller sample_daemon_config 3 false sample_running sample_port);
    [lia|apply sample_running_reached|by vm_compute| |by vm_compute].
  eapply list_elem_of_lookup_2, sample_port_found.
Defined.

(** C6: whatever takes control away silences the outputs: when a bus has reported a new
    fault, a watchdog has expired, a scan finds an adapter replaced or its link lost, the
    configuration has changed or the daemon shuts down, then after that step of the main loop
    nobody is in control and no bus permits outputs. *)
Theorem revocation_silences configuration EC_MAXSLAVE preempt now micros e d :
  0 <= EC_MAXSLAVE -> reached configuration EC_MAXSLAVE preempt d ->
  event_ok configuration now micros e d -> revoking configuration now e d ->
  let d' := handle configuration EC_MAXSLAVE preempt now micros e d in
  Gate.controllerId (gate d') = None /\ Gate.outputsEnabled (gate d') = false /\
  forall p, p ∈ ports d' -> outputsPermitted (shared (thread p)) = false.
Proof.
  intros HE Hr He Hrev. apply reached_whole in Hr; [|done]. cbn zeta.
  destruct (revoking_silent configuration EC_MAXSLAVE preempt now micros e d He Hrev Hr)
    as [[_ Hm] [H1 H2]].
  split_and!; [done|done|]. intros p Hp. apply not_true_is_false. intros Hper.
  unfold mirrored in Hm. rewrite Forall_forall in Hm. destruct (Hm p Hp Hper). congruence.
Qed.

Lemma revocation_silences_witness :
  let d' := handle sample_daemon_config 3 false 400000000 900 EvTimeouts sample_running in
  Gate.controllerId (gate d') = None /\ Gate.outputsEnabled (gate d') = false /\
  forall p, p ∈ ports d' -> outputsPermitted (shared (thread p)) = false.
Proof.
  apply (revocation_silences sample_daemon_config 3 false 400000000 900 EvTimeouts sample_running);
    [lia|apply sample_running_reached|exact I|].
  exists (Gate.mkController 1 42 1000000). split; [by vm_compute|]. left. by vm_compute.
Defined.

(** C8: outputs are enabled only behind the epoch barrier: if handling an OutputEnable request
    turns outputs on, then the sender holds control, every bus is operational, and every bus
    has sent, under the current epoch, a frame with all outputs zero that the working counter
    confirmed. *)
Theorem enabled_behind_barrier configuration EC_MAXSLAVE preempt now i c frame d :
  0 <= EC_MAXSLAVE -> reached configuration EC_MAXSLAVE preempt d -> wrapped d = false ->
  Gate.outputsEnabled (gate d) = false ->
  Gate.outputsEnabled (gate (fst (HandleOutputEnable configuration now i c frame d))) = true ->
  Gate.controllerId (gate d) = Some (client_of c) /\
  forall j p, ports d !! j = Some p ->
    busState (published (thread p)) = Operational /\
    exists f, f ∈ sent (thread p) /\ frame_epoch f = Gate.epoch (gate d) /\
      all_zero (frame_context f) (frame_map f) /\ frame_confirmed f = true.
Proof.
  intros HE Hr Hw Hoff Hon. apply reached_whole in Hr; [|done].
  destruct (enable_barrier configuration EC_MAXSLAVE now i c frame d Hr Hw Hoff Hon) as [Hc Hop].
  split; [done|]. intros j p Hp. by apply (operational_barrier configuration EC_MAXSLAVE d j).
Qed.

Definition sample_client : ClientConnection :=
  default (new_client 0 0 (mkCredentials 0 0 0 None)) (clients sample_ready !! O).

Lemma enabled_behind_barrier_witness :
  Gate.controllerId (gate sample_ready) = Some (client_of sample_client) /\
  forall j p, ports sample_ready !! j = Some p ->
    busState (published (thread p)) = Operational /\
    exists f, f ∈ sent (thread p) /\ frame_epoch f = Gate.epoch (gate sample_ready) /\
      all_zero (frame_context f) (frame_map f) /\ frame_confirmed f = true.
Proof.
  apply (enabled_behind_barrier sample_daemon_config 3 false 1000000 0 sample_client
           (Frame.mkFrame OutputEnable 2 sample_enable_payload) sample_ready);
    [lia|apply sample_ready_reached|by vm_compute..].
Defined.

(** C16: a client without control changes nothing that matters: while another client holds
    control, any frame it sends leaves the gate, the accepted commands and the adapters'
    state as they are, and the buses are at most told again what the gate says. *)
Theorem observers_harmless configuration now micros i c frame k d :
  clients d !! i = Some c -> Gate.controllerId (gate d) = Some k -> k <> client_of c ->
  same_safety d (fst (HandleFrame configuration now micros i frame d)).
Proof. apply observer_frame. Qed.

(** A second client that asks for control and tries to write. *)
Definition sample_crowd : daemon :=
  run_events [EvAccept [Accepted (Some (mkCredentials 43 0 0 None))];
              says 1 Hello 1 (EncodeHelloPayload (mkHello Controller false 100 0))] sample_running.

Lemma observers_harmless_witness :
  same_safety sample_crowd
    (fst (HandleFrame sample_daemon_config 1000000 900 1
            (Frame.mkFrame OutputWrite 4 (EncodeOutputWritePayload (mkOutputWrite 5 0 1 0 [1; 1])))
            sample_crowd)).
Proof.
  apply (observers_harmless sample_daemon_config 1000000 900 1
           (default sample_client (clients sample_crowd !! 1%nat)) _ 1 sample_crowd).
  - apply default_Some. by vm_compute.
  - by vm_compute.
  - by vm_compute.
Defined.

(** C17: resources are bounded: there are at most 16 clients and at most 8 open connections per
    user; the byte counter of a connection is exactly what is queued and not yet sent, and
    never exceeds 2 MiB. *)
Theorem clients_bounded configuration EC_MAXSLAVE preempt d :
  0 <= EC_MAXSLAVE -> reached configuration EC_MAXSLAVE preempt d ->
  zlen (clients d) <= 16 /\
  (forall uid, zlen (List.filter (open_for uid) (clients d)) <= 8) /\
  forall c, c ∈ clients d ->
    outgoingBytes (queue c) = (if descriptor c then zlen (pending (queue c)) else 0) /\
    outgoingBytes (queue c) <= 2097152.
Proof.
  intros HE Hr. apply reached_whole in Hr as [[(Hc & _ & _ & [H1 H2] & _) _ _] _]; [|done].
  split; [done|]. split; [done|]. intros c Hin. rewrite Forall_forall in Hc.
  destruct (Hc c Hin) as [Hok _]. unfold connection_ok in Hok. destruct (descriptor c).
  - by apply pending_bytes.
  - destruct Hok as [_ ->]. done.
Qed.

Lemma clients_bounded_witness :
  zlen (clients sample_running) <= 16 /\
  (forall uid, zlen (List.filter (open_for uid) (clients sample_running)) <= 8) /\
  forall c, c ∈ clients sample_running ->
    outgoingBytes (queue c) = (if descriptor c then zlen (pending (queue c)) else 0) /\
    outgoingBytes (queue c) <= 2097152.
Proof.
  apply (clients_bounded sample_daemon_config 3 false sample_running); [lia|apply sample_running_reached].
Defined.

(** EthercatBus::Stop returns: once running_ is cleared, the bus thread, wherever it is in
    its cycle and whatever the network answers, ends within 536 of its actions (its longest
    path and a full command queue). *)
Theorem Stop_joins configuration EC_MAXSLAVE preempt d index mapping p ios :
  0 <= EC_MAXSLAVE -> reached configuration EC_MAXSLAVE preempt d -> wrapped d = false ->
  ports d !! index = Some p -> (536 <= length ios)%nat ->
  worker_pc (Stop configuration EC_MAXSLAVE index mapping ios (thread p)) = AtStopped.
Proof.
  intros HE Hr Hw Hp Hn. apply reached_whole in Hr as [[_ _ Hs] _]; [|done].
  pose proof (sound_threads _ _ _ (Hs Hw)) as Ht. rewrite Forall_lookup in Ht.
  destruct (Ht index p Hp) as (Hi & _ & _). apply join_returns; [|done|exact Hn].
  eapply inv_environment; [done|by split|done|done].
Qed.

Lemma Stop_joins_witness :
  worker_pc (Stop sample_daemon_config 3 0 sample_configuration (replicate 536 sample_io)
               (thread sample_port)) = AtStopped.
Proof.
  apply (Stop_joins sample_daemon_config 3 false sample_running);
    [lia|apply sample_running_reached|by vm_compute|apply sample_port_found|].
  rewrite length_replicate. lia.
Defined.

(** The main loop stays within the reachable states: one iteration of Daemon::Run (the
    scan, the faults, the watchdogs, the inputs, the status, the configuration check, the
    clients), from a reachable state and with answers the kernel can give, ends in a
    reachable state. All guarantees hold after every iteration. *)
Theorem Run_stays_reachable configuration EC_MAXSLAVE preempt now micros it t d :
  reached configuration EC_MAXSLAVE preempt d ->
  iteration_ok configuration EC_MAXSLAVE preempt now micros it t d ->
  reached configuration EC_MAXSLAVE preempt
    (fst (fst (iterate configuration EC_MAXSLAVE preempt now micros it t d))).
Proof. apply iterate_reached. Qed.

Definition sample_iteration : Iteration :=
  mkIteration 2000000 [sample_identity] sample_joins false None
    [mkEvents false true false
       [RecvBytes (EncodeFrame Heartbeat 9 (EncodeEpochPayload 5))] []].

Lemma Run_stays_reachable_witness :
  sample_reached
    (fst (fst (iterate sample_daemon_config 3 false 2000000 900 sample_iteration (mkTimers 0 0 0)
                 sample_running))).
Proof.
  apply (Run_stays_reachable sample_daemon_config 3 false 2000000 900 sample_iteration
           (mkTimers 0 0 0) sample_running); [apply sample_running_reached|].
  split.
  - intros i. apply (plain_event_ok (EvScan true [] sample_joins) sample_running eq_refl).
  - cbn zeta. match goal with |- context [length (clients ?x)] => generalize x; intros d end.
    cbn [it_accepts it_events sample_iteration].
    destruct (length (clients d)); [exact I|]. cbn [seq zip zip_with polls_ok]. split.
    + split; [repeat constructor; by vm_compute|]. intros c _. cbn. by destruct (outgoing (queue c)).
    + by destruct n.
Defined.
