(* ===== verification/Delivery.v ===== *)
(** What a cycle of a bus thread delivers, the counterpart of the safety properties: with
    outputs permitted under the observed epoch and no fault latched, one undisturbed pass
    through the loop of [RunCyclic] sends one frame that carries, for each SubDevice, the last
    acceptable command of the queue; a write that the control plane has acknowledged is on the
    wire after the next such pass; and a new epoch is acknowledged by the pass that first sees
    it if its frame is confirmed, and never if it is not. *)

From stdpp Require Import list_numbers.
From S2P Require Import Prelude Protocol Codec Payloads Frame SafetyGate SpscQueue DcSync Config Pdo IoMap BusIo.
From S2P Require Import Cycle Threads Sockets Connection Daemon Telemetry Control Requests System Guarantees.

Lemma two_commands : (2 <= kMaximumOutputCommands)%nat.
Proof. vm_compute. lia. Qed.

(** ** One pass through the loop *)

Section Delivery.
Context (configuration : InterfaceConfig) (outputCommandTimeout cyclePeriod busIndex : Z).
Context (EC_MAXSLAVE : Z).

Abbreviation act := (worker configuration outputCommandTimeout cyclePeriod busIndex EC_MAXSLAVE).

(** The actions of the bus thread with the answers [ios], undisturbed. *)
Definition undisturbed (ios : list Io) (s : bus) : bus := fold_left (fun s io => act io s) ios s.

(** The thread is at the head of its loop and will not leave it. *)
Record looping (s : bus) : Prop := {
  looping_pc : worker_pc s = AtLoop;
  looping_running : running (shared s) = true;
  looping_link : linkUp (shared s) = true;
  looping_operational : busState (published s) = Operational
}.

(** It has observed the epoch, outputs are permitted and no bus has faulted in it. *)
Record delivering (s : bus) : Prop := {
  delivering_looping : looping s;
  delivering_permitted : outputsPermitted (shared s) = true;
  delivering_epoch : observed s = epoch_of s;
  delivering_fault : globalFaultedEpoch (shared s) <> epoch_of s
}.

(** What a pass leaves alone until its frame has been confirmed. *)
Definition rest (s : bus) : BusState * Z * bool * Dc.t :=
  (busState (published s), expectedWorkingCounter (private s), dcConfigured (private s),
   dcController (private s)).

(** The pass that began in [s0] is at [p], with the outputs [o] and the queue [q]. *)
Record stage (s0 : bus) (p : pc) (o : OutputState) (q : @Ring OutputCommand) (s : bus) : Prop := {
  stage_pc : worker_pc s = p;
  stage_out : out (private s) = o;
  stage_commands : outputCommands s = q;
  stage_shared : shared s = shared s0;
  stage_sent : sent s = sent s0;
  stage_context : context (private s) = context (private s0);
  stage_open : contextOpen (private s) = contextOpen (private s0);
  stage_observed : observed s = observed s0;
  stage_rest : rest s = rest s0
}.

#[local] Arguments TryPop : simpl never.
#[local] Arguments open_outputs : simpl never.
#[local] Arguments apply_command : simpl never.
#[local] Arguments EnforcePerSubDeviceFreshness : simpl never.

(** One action inside the pass. *)
Ltac action Hs :=
  let Hpc := fresh in
  pose proof (stage_pc _ _ _ _ _ Hs) as Hpc; unfold worker; rewrite Hpc; clear Hpc;
  destruct Hs.

(** The thread wakes; the counters may have been reset. *)
Lemma wakes io io' s :
  looping s -> io_clock io' = true ->
  exists p, act io' (act io s) = goto AtEpoch (with_published p s) /\
    busState (p (published s)) = busState (published s).
Proof using Type.
  intros [Hpc Hr Hl Hb] Hc.
  assert (act io s = goto AtWake s) as -> by (unfold worker; by rewrite Hpc, Hr, Hl, Hb).
  unfold worker. cbn [worker_pc goto]. rewrite Hc. cbn [negb]. destruct (io_reset io').
  - by exists (set_lostFrames 0).
  - exists (fun p => p). by destruct s.
Qed.

(** Up to the load of the permission. *)
Lemma stage_begin ios s :
  delivering s -> length ios = 4%nat -> Forall (fun io => io_clock io = true) ios ->
  stage s (AtApplyPermitted (epoch_of s)) (out (private s)) (outputCommands s) (undisturbed ios s).
Proof using Type.
  intros [Hl _ He _] Hn Hc. destruct ios as [|io1 [|io2 [|io3 [|io4 [|]]]]]; try done.
  rewrite !Forall_cons in Hc. destruct Hc as (_ & Hc & _).
  unfold undisturbed. cbn [fold_left]. destruct (wakes io1 io2 s Hl Hc) as (p & -> & Ep).
  assert (act io3 (goto AtEpoch (with_published p s)) = goto AtApplyEpoch (with_published p s)) as ->.
  { unfold worker. cbn [worker_pc goto].
    change (observed (goto AtEpoch (with_published p s))) with (observed s).
    change (epoch_of (goto AtEpoch (with_published p s))) with (epoch_of s).
    by rewrite He, Z.eqb_refl. }
  split; try done. unfold rest. cbn. by rewrite Ep.
Qed.

(** The permission is seen; at its rising edge the outputs are opened. *)
Definition opened_outputs (s0 : bus) (now : Z) : OutputState :=
  let o := out (private s0) in
  if outputsWerePermitted o then o
  else open_outputs (contextOpen (private s0)) (context (private s0)) now o.

Lemma stage_open_outputs io s0 s q :
  delivering s0 -> stage s0 (AtApplyPermitted (epoch_of s0)) (out (private s0)) q s ->
  stage s0 (AtDrain (epoch_of s0) true (io_micros io)) (opened_outputs s0 (io_micros io)) q (act io s).
Proof using Type.
  intros Hd Hs. pose proof (delivering_permitted _ Hd) as Hp. action Hs.
  rewrite stage_shared0, stage_out0, Hp. unfold opened_outputs.
  destruct (outputsWerePermitted (out (private s0))); cbn [negb andb]; split; try done.
  cbn. by rewrite stage_open0, stage_context0, stage_out0.
Qed.

(** The queue is drained. *)
Lemma stage_drain ios s0 s e now o q l :
  represents kMaximumOutputCommands q l -> length ios = S (length l) ->
  stage s0 (AtDrain e true now) o q s ->
  exists q', represents kMaximumOutputCommands q' [] /\
    stage s0 AtFreshness
      (fold_left (fun o x => apply_command (context (private s0)) outputCommandTimeout e true now x o) l o)
      q' (undisturbed ios s).
Proof using Type.
  pose proof two_commands as H2.
  revert ios s o q. induction l as [|x l IH]; intros [|io ios] s o q Hq Hn Hs; try done;
    unfold undisturbed; cbn [fold_left]; pose proof (pop_represents _ H2 _ _ Hq) as Hpop.
  - destruct ios; [|done]. cbn [fold_left]. exists q. split; [done|]. action Hs.
    rewrite stage_commands0, Hpop. by split.
  - destruct Hpop as (q' & Hpop & Hq'). apply (IH ios _ _ q'); [done|by injection Hn|].
    pose proof (stage_pc _ _ _ _ _ Hs) as Hpc. action Hs.
    rewrite stage_commands0, Hpop. split; try done. cbn. by rewrite stage_context0, stage_out0.
Qed.

(** The freshness check and the checks before the frame, none of which withdraws. *)
Lemma stage_checks io ios s0 s o q :
  delivering s0 -> stage s0 AtFreshness o q s -> length ios = 4%nat ->
  stage s0 (AtSend false)
    (EnforcePerSubDeviceFreshness (context (private s0)) outputCommandTimeout true (io_micros io) o)
    q (undisturbed (io :: ios) s).
Proof using Type.
  intros [_ Hp He Hf] Hs Hn. destruct ios as [|io1 [|io2 [|io3 [|io4 [|]]]]]; try done.
  unfold undisturbed. cbn [fold_left]. set (o' := EnforcePerSubDeviceFreshness _ _ _ _ _).
  assert (stage s0 (AtPermitted false) o' q (act io s)) as H1.
  { action Hs. split; try done. cbn. by rewrite stage_context0, stage_shared0, stage_out0, Hp. }
  clearbody o'. clear Hs. revert H1. generalize (act io s). clear s. intros s Hs.
  assert (stage s0 (AtRecheckEpoch false) o' q (act io1 s)) as H1.
  { action Hs. rewrite stage_shared0, Hp. by split. }
  clear Hs. revert H1. generalize (act io1 s). clear s. intros s Hs.
  assert (stage s0 (AtRecheckPermitted false) o' q (act io2 s)) as H1.
  { action Hs. unfold epoch_of in *. rewrite stage_observed0, stage_shared0, He, Z.eqb_refl. by split. }
  clear Hs. revert H1. generalize (act io2 s). clear s. intros s Hs.
  assert (stage s0 (AtRecheckGlobal false) o' q (act io3 s)) as H1.
  { action Hs. rewrite stage_shared0, Hp. by split. }
  clear Hs. revert H1. generalize (act io3 s). clear s. intros s Hs. action Hs.
  rewrite stage_observed0, stage_shared0, He.
  destruct (Z.eqb_spec (globalFaultedEpoch (shared s0)) (epoch_of s0)); [done|]. by split.
Qed.

(** The frame leaves. *)
Lemma stage_send io s0 s o q :
  stage s0 (AtSend false) o q s ->
  let w := if 0 <? io_sent io then io_workingCounter io else -1 in
  let s' := act io s in
  sent s' = sent s0 ++ [mkFrame (observed s0) (context (private s0)) (ioMap o)
                          ((0 <? io_sent io) && confirmed s0 w)] /\
  worker_pc s' = AtAcknowledge false (io_sent io) w /\ shared s' = shared s0 /\
  observed s' = observed s0 /\ outputCommands s' = q /\ rest s' = rest s0.
Proof using Type.
  intros Hs w s'. unfold s', w. action Hs. unfold observed, confirmed in *.
  assert (expectedWorkingCounter (private s) = expectedWorkingCounter (private s0)) as <-
    by (unfold rest in stage_rest0; congruence).
  rewrite <- stage_sent0, <- stage_observed0, <- stage_context0, <- stage_out0, <- stage_rest0.
  by destruct (0 <? io_sent io).
Qed.

Lemma undisturbed_app ios ios' s : undisturbed (ios ++ ios') s = undisturbed ios' (undisturbed ios s).
Proof using Type. apply fold_left_app. Qed.

(** What SubDevice [a] shows in the frame of a pass that opens its outputs at [now] and checks
    their freshness at [now'], with the commands [l] in the queue: the last acceptable command,
    else what it showed before; zeros if that is too old, or if the pass opened the outputs. *)
Definition delivered (s : bus) (l : list OutputCommand) (now now' : Z) (m : bytes) (a : Z) : Prop :=
  let c := context (private s) in
  match last (filter (applicable c outputCommandTimeout (epoch_of s) now (map_of s) a) l) with
  | Some x =>
      if too_old now' (acceptedMonotonicUs x) (timeout_us outputCommandTimeout)
      then shows m (slave c a) [] else shows m (slave c a) (command_data x)
  | None =>
      if negb (outputsWerePermitted (out (private s))) ||
         expired c outputCommandTimeout now' (out (private s)) a
      then shows m (slave c a) []
      else forall image, shows (map_of s) (slave c a) image -> shows m (slave c a) image
  end.

Lemma shows_no_bits m d image : Obits d = 0 -> shows m d image.
Proof using Type. intros H i Hi. by rewrite owns_no_bits in Hi. Qed.

Lemma opened_outputs_ok s now :
  inv EC_MAXSLAVE s -> opened (worker_pc s) = true ->
  let o := opened_outputs s now in
  outputs_ok (context (private s)) o /\ zlen (ioMap o) = zlen (map_of s) /\
  (outputsWerePermitted (out (private s)) = false -> all_zero (context (private s)) (ioMap o)).
Proof using Type.
  intros Hi Hop. destruct (inv_open_facts _ s Hi Hop) as (Ho & Hl & Hok). unfold opened_outputs.
  destruct (outputsWerePermitted _); [done|]. rewrite Ho.
  by destruct (open_outputs_ok _ _ now Hl Hok) as (? & ? & ?).
Qed.

Lemma applied_delivered s l now now' a :
  inv EC_MAXSLAVE s -> opened (worker_pc s) = true -> Forall command_typed l ->
  a ∈ indices (context (private s)) ->
  let c := context (private s) in
  let o := fold_left (fun o x => apply_command c outputCommandTimeout (epoch_of s) true now x o) l
             (opened_outputs s now) in
  delivered s l now now' (ioMap (EnforcePerSubDeviceFreshness c outputCommandTimeout true now' o)) a.
Proof using Type.
  intros Hi Hop Hty Ha c o. destruct (inv_open_facts _ s Hi Hop) as (_ & Hl & Hok).
  destruct (opened_outputs_ok s now Hi Hop) as (Ho1 & Hz1 & Hzero).
  destruct (apply_batch c Hl outputCommandTimeout (epoch_of s) now _ l Ho1 Hty) as (Ho2 & _ & _ & Hb).
  fold o in Ho2, Hb. specialize (Hb a Ha).
  destruct (enforce_spec c Hl outputCommandTimeout now' o Ho2) as (_ & _ & _ & _ & _ & He).
  specialize (He a Ha). set (o' := EnforcePerSubDeviceFreshness _ _ _ _ o) in *. unfold delivered. fold c.
  destruct (Z.eq_dec (Obits (slave c a)) 0) as [H0|H0].
  { repeat case_match; intros; by apply shows_no_bits. }
  replace (filter (applicable c outputCommandTimeout (epoch_of s) now (map_of s) a) l)
    with (filter (applicable c outputCommandTimeout (epoch_of s) now (ioMap (opened_outputs s now)) a) l).
  2: { apply list_filter_iff. intros x. unfold applicable. pose proof (layout_typed c Hl a Ha) as Ht.
       split; intros (? & ? & ? & ?); split_and!; try done; (eapply write_slave_size; [done| |done]; congruence). }
  unfold expired in He. replace (Obits (slave c a) =? 0) with false in He by (symmetry; lia).
  cbn [negb andb] in He. destruct (last _) as [x|].
  - destruct Hb as [Hs Hlast]. rewrite Hlast in He. cbn [default from_option id] in He.
    destruct (too_old _ _ _); [apply He|by apply He].
  - destruct Hb as [Hs Hlast]. rewrite Hlast in He. unfold opened_outputs in *.
    destruct (outputsWerePermitted (out (private s))) eqn:Ew; cbn [negb orb].
    + unfold expired. replace (Obits (slave c a) =? 0) with false by (symmetry; lia). cbn [negb andb].
      destruct (too_old _ _ _); [apply He|]. intros image Hm. apply He, Hs. exact Hm.
    + destruct (too_old _ _ _); [apply He|]. apply He, Hs. by apply Hzero.
Qed.

(** A pass from the head of the loop to the frame. *)
Lemma pass_to_send ios s l apply fresh :
  inv EC_MAXSLAVE s -> delivering s -> represents kMaximumOutputCommands (outputCommands s) l ->
  Forall command_typed l -> Forall (fun io => io_clock io = true) ios ->
  length ios = (11 + length l)%nat -> ios !! 4%nat = Some apply -> ios !! (6 + length l)%nat = Some fresh ->
  exists o q, stage s (AtSend false) o q (undisturbed ios s) /\ represents kMaximumOutputCommands q [] /\
    forall a, a ∈ indices (context (private s)) ->
      delivered s l (io_micros apply) (io_micros fresh) (ioMap o) a.
Proof using Type.
  intros Hi Hd Hq Hty Hc Hn H4 H6.
  assert (opened (worker_pc s) = true) as Hop by (by destruct Hd as [[-> _ _ _] _ _ _]).
  pose proof (take_drop_middle _ _ _ H4) as E. set (mid := drop 5 ios) in *.
  assert (length mid = (6 + length l)%nat) as Hr by (unfold mid; rewrite length_drop; lia).
  assert (mid !! (1 + length l)%nat = Some fresh) as H6' by (unfold mid; rewrite lookup_drop; exact H6).
  pose proof (take_drop_middle _ _ _ H6') as E'. set (checks := drop (S (1 + length l)) mid) in *.
  assert (length checks = 4%nat) as Hck by (unfold checks; rewrite length_drop; lia).
  assert (ios = take 4 ios ++ [apply] ++ take (1 + length l) mid ++ (fresh :: checks)) as ->.
  { rewrite <- E at 1. f_equal. cbn [app]. f_equal. by rewrite <- E' at 1. }
  rewrite !undisturbed_app.
  assert (length (take 4 ios) = 4%nat) as Ht by (rewrite length_take; lia).
  pose proof (stage_begin (take 4 ios) s Hd Ht ltac:(by apply Forall_take)) as S1.
  apply (stage_open_outputs apply) in S1; [|done].
  assert (length (take (1 + length l) mid) = S (length l)) as Hdr by (rewrite length_take; lia).
  destruct (stage_drain _ _ _ _ _ _ _ l Hq Hdr S1) as (q' & Hq' & S2).
  apply (stage_checks fresh checks) in S2; [|done|done].
  eexists _, q'. split; [exact S2|]. split; [done|]. intros a Ha. by apply applied_delivered.
Qed.

(** The frame of the pass. *)
Lemma pass_delivers ios s l apply fresh :
  inv EC_MAXSLAVE s -> delivering s -> represents kMaximumOutputCommands (outputCommands s) l ->
  Forall command_typed l -> Forall (fun io => io_clock io = true) ios ->
  length ios = (12 + length l)%nat -> ios !! 4%nat = Some apply -> ios !! (6 + length l)%nat = Some fresh ->
  exists f, sent (undisturbed ios s) = sent s ++ [f] /\ frame_epoch f = epoch_of s /\
    frame_context f = context (private s) /\
    forall a, a ∈ indices (context (private s)) ->
      delivered s l (io_micros apply) (io_micros fresh) (frame_map f) a.
Proof using Type.
  intros Hi Hd Hq Hty Hc Hn H4 H6.
  assert (is_Some (ios !! (11 + length l)%nat)) as [send Hs] by (apply lookup_lt_is_Some; lia).
  assert (ios = take (11 + length l) ios ++ [send]) as E.
  { rewrite <- (take_drop_middle _ _ _ Hs) at 1. by rewrite (drop_ge ios) by lia. }
  assert (forall i x, (i < 11 + length l)%nat -> ios !! i = Some x -> take (11 + length l) ios !! i = Some x)
    as Hlook by (intros i x Hlt <-; by apply lookup_take_lt).
  destruct (pass_to_send (take (11 + length l) ios) s l apply fresh) as (o & q & S & _ & Hdel); try done.
  { by apply Forall_take. } { rewrite length_take. lia. } { apply Hlook; [lia|done]. } { apply Hlook; [lia|done]. }
  rewrite E, undisturbed_app. destruct (stage_send send _ _ _ _ S) as [Hf _].
  eexists. split; [exact Hf|]. split; [apply Hd|]. by split.
Qed.

End Delivery.

(** ** The end of a pass *)

Section Ending.
Context (configuration : InterfaceConfig) (outputCommandTimeout cyclePeriod busIndex : Z).
Context (EC_MAXSLAVE : Z).

Abbreviation act := (worker configuration outputCommandTimeout cyclePeriod busIndex EC_MAXSLAVE).
Abbreviation undisturbed := (undisturbed configuration outputCommandTimeout cyclePeriod busIndex EC_MAXSLAVE).

(** The answers of a pass whose frame is action [k]: the clock works, the frame comes back with
    the expected working counter, and the clock controller reports no fault. *)
Definition smooth (s : bus) (k : nat) (ios : list Io) : Prop :=
  length ios = (k + 5)%nat /\ Forall (fun io => io_clock io = true) ios /\
  (forall io, ios !! k = Some io -> 0 < io_sent io /\ confirmed s (io_workingCounter io) = true) /\
  (forall io, ios !! (k + 3)%nat = Some io -> dcConfigured (private s) = true ->
     Dc.fault (fst (Dc.Update (dcController (private s)) (io_DCtime io))) = false).

(** The pass is over for the safety protocol: [s] is [s0] with the atomics [h]. *)
Record ending (s0 : bus) (h : Shared) (p : pc) (s : bus) : Prop := {
  ending_pc : worker_pc s = p;
  ending_shared : shared s = h;
  ending_observed : observed s = observed s0;
  ending_sent : sent s = sent s0;
  ending_commands : outputCommands s = outputCommands s0;
  ending_state : busState (published s) = busState (published s0);
  ending_expected : expectedWorkingCounter (private s) = expectedWorkingCounter (private s0)
}.

#[local] Arguments Dc.Update : simpl never.
#[local] Arguments PublishInputs : simpl never.

Lemma ending_acknowledge io s barrier n w :
  worker_pc s = AtAcknowledge barrier n w -> 0 < n -> confirmed s w = true ->
  ending s (if barrier && (epoch_of s =? observed s)
            then set_safetyEpochApplied (observed s) (shared s) else shared s) (AtCount w) (act io s) /\
  dcConfigured (private (act io s)) = dcConfigured (private s) /\
  dcController (private (act io s)) = dcController (private s).
Proof using Type.
  intros Hpc Hn Hc. unfold worker. rewrite Hpc, Hc. apply Z.ltb_lt in Hn. rewrite Hn, !andb_true_r.
  by destruct (barrier && _).
Qed.

Lemma ending_count io s0 h s w :
  ending s0 h (AtCount w) s -> confirmed s0 w = true ->
  ending s0 h (AtClock w) (act io s) /\
  dcConfigured (private (act io s)) = dcConfigured (private s) /\
  dcController (private (act io s)) = dcController (private s).
Proof using Type.
  intros [] Hc. unfold worker. rewrite ending_pc0. cbn zeta.
  unfold confirmed in *. cbn [with_published private]. rewrite ending_expected0, Hc. cbn [negb].
  by split; [split|].
Qed.

Lemma ending_clock io s0 h s w :
  ending s0 h (AtClock w) s ->
  (dcConfigured (private s) = true -> Dc.fault (fst (Dc.Update (dcController (private s)) (io_DCtime io))) = false) ->
  ending s0 h (AtPublish w) (act io s).
Proof using Type.
  intros [] Hdc. unfold worker. rewrite ending_pc0.
  destruct (confirmed s w && dcConfigured (private s)) eqn:E; [|by split].
  apply andb_true_iff in E as [_ E]. specialize (Hdc E).
  destruct (Dc.Update _ _) as [adjustment dc]. cbn [fst] in Hdc. rewrite Hdc. by split.
Qed.

Lemma ending_publish io s0 h s w :
  ending s0 h (AtPublish w) s -> io_clock io = true -> ending s0 h AtLoop (act io s).
Proof using Type.
  intros [] Hc. unfold worker. rewrite ending_pc0, Hc. cbn [negb]. cbn zeta.
  unfold publish. repeat case_match; by split.
Qed.

(** From the frame to the head of the loop. *)
Lemma pass_ends ios s barrier n w :
  worker_pc s = AtAcknowledge barrier n w -> 0 < n -> confirmed s w = true ->
  length ios = 4%nat -> Forall (fun io => io_clock io = true) ios ->
  (forall io, ios !! 2%nat = Some io -> dcConfigured (private s) = true ->
     Dc.fault (fst (Dc.Update (dcController (private s)) (io_DCtime io))) = false) ->
  ending s (if barrier && (epoch_of s =? observed s)
            then set_safetyEpochApplied (observed s) (shared s) else shared s) AtLoop (undisturbed ios s).
Proof using Type.
  intros Hpc Hn Hc Hl Hio Hdc. destruct ios as [|io1 [|io2 [|io3 [|io4 [|]]]]]; try done.
  specialize (Hdc io3 eq_refl). rewrite !Forall_cons in Hio. destruct Hio as (_ & _ & _ & H4 & _).
  unfold Delivery.undisturbed. cbn [fold_left]. set (h := if barrier && _ then _ else _).
  destruct (ending_acknowledge io1 s barrier n w Hpc Hn Hc) as (E1 & D1 & D1'). fold h in E1.
  destruct (ending_count io2 s h _ w E1 Hc) as (E2 & D2 & D2'). clearbody h.
  eapply ending_publish; [eapply ending_clock; [exact E2|]|exact H4].
  rewrite D2, D2', D1, D1'. exact Hdc.
Qed.

(** The answers up to the frame, to the frame and after it. *)
Lemma smooth_split s k ios :
  smooth s k ios ->
  exists io tail, ios = take k ios ++ io :: tail /\ ios !! k = Some io /\ length tail = 4%nat /\
    Forall (fun io => io_clock io = true) tail /\ 0 < io_sent io /\
    confirmed s (io_workingCounter io) = true /\
    (forall io', tail !! 2%nat = Some io' -> dcConfigured (private s) = true ->
       Dc.fault (fst (Dc.Update (dcController (private s)) (io_DCtime io'))) = false).
Proof using Type.
  intros (Hn & Hc & Hs & Hd).
  assert (is_Some (ios !! k)) as [io Hio] by (apply lookup_lt_is_Some; lia).
  exists io, (drop (S k) ios). destruct (Hs io Hio).
  split_and!; try done.
  - by rewrite take_drop_middle.
  - rewrite length_drop. lia.
  - by apply Forall_drop.
  - intros io'. rewrite lookup_drop. replace (S k + 2)%nat with (k + 3)%nat by lia. apply Hd.
Qed.

Lemma undisturbed_cons io ios s : undisturbed (io :: ios) s = undisturbed ios (act io s).
Proof using Type. done. Qed.

(** A smooth pass sends its frame, empties the queue and is ready for the next. *)
Lemma smooth_pass_delivers ios s l apply fresh :
  inv EC_MAXSLAVE s -> delivering s -> represents kMaximumOutputCommands (outputCommands s) l ->
  Forall command_typed l -> smooth s (11 + length l) ios ->
  ios !! 4%nat = Some apply -> ios !! (6 + length l)%nat = Some fresh ->
  let s' := undisturbed ios s in
  delivering s' /\ epoch_of s' = epoch_of s /\
  represents kMaximumOutputCommands (outputCommands s') [] /\
  exists f, sent s' = sent s ++ [f] /\ frame_epoch f = epoch_of s /\
    frame_context f = context (private s) /\ frame_confirmed f = true /\
    forall a, a ∈ indices (context (private s)) ->
      delivered outputCommandTimeout s l (io_micros apply) (io_micros fresh) (frame_map f) a.
Proof using Type.
  intros Hi Hdv Hq Hty Hsm H4 H6. set (k := (11 + length l)%nat) in *.
  destruct (smooth_split s k ios Hsm) as (io & tail & E & Hio & Ht & Htc & Hs & Hcf & Hdc).
  assert (forall i x, (i < k)%nat -> ios !! i = Some x -> take k ios !! i = Some x)
    as Hlook by (intros i x Hlt <-; by apply lookup_take_lt).
  destruct (pass_to_send configuration outputCommandTimeout cyclePeriod busIndex EC_MAXSLAVE
              (take k ios) s l apply fresh) as (o & q & S & Hem & Hdel); try done.
  { apply Forall_take, Hsm. } { rewrite length_take. destruct Hsm. lia. }
  { apply Hlook; [lia|done]. } { apply Hlook; [lia|done]. }
  destruct (stage_send configuration outputCommandTimeout cyclePeriod busIndex EC_MAXSLAVE io _ _ _ _ S)
    as (Hf & Hpc & Hsh & Hob & Hco & Hre).
  rewrite E, undisturbed_app, undisturbed_cons. set (t := act io _) in *. clearbody t.
  apply Z.ltb_lt in Hs as Hs'. rewrite Hs', Hcf in *. cbn [andb] in Hf.
  unfold rest in Hre. injection Hre as Hst Hex Hcf' Hdc'.
  destruct (pass_ends tail t false (io_sent io) (io_workingCounter io) Hpc Hs) as [P1 P2 P3 P4 PC P5 P6];
    [unfold confirmed in *; congruence|done|done|intros io'; rewrite Hcf', Hdc'; apply Hdc|].
  cbn [andb] in P2. destruct Hdv as [[L1 L2 L3 L4] D2 D3 D4].
  assert (epoch_of (undisturbed tail t) = epoch_of s) as He by (unfold epoch_of; congruence).
  split_and!; [|exact He|by rewrite PC, Hco|].
  - split; [split|..]; rewrite ?P2, ?Hsh, ?He; congruence.
  - eexists. split; [rewrite P4; exact Hf|]. by split_and!.
Qed.

End Ending.

(** ** The barrier of a new epoch

    Here the main thread and the other buses go on while the bus thread acts: they may do
    anything that leaves the epoch as it is and the bus running with its link up. *)

Section Barrier.
Context (configuration : InterfaceConfig) (outputCommandTimeout cyclePeriod busIndex : Z).
Context (EC_MAXSLAVE : Z).

Abbreviation act := (worker configuration outputCommandTimeout cyclePeriod busIndex EC_MAXSLAVE).
Abbreviation step := (step configuration outputCommandTimeout cyclePeriod busIndex EC_MAXSLAVE).

(** A step of another thread. *)
Record disturbs (s s' : bus) : Prop := {
  disturbs_step : step s s';
  disturbs_pc : worker_pc s' = worker_pc s;
  disturbs_private : private s' = private s;
  disturbs_published : published s' = published s;
  disturbs_applied : safetyEpochApplied (shared s') = safetyEpochApplied (shared s);
  disturbs_epoch : epoch_of s' = epoch_of s;
  disturbs_running : running (shared s') = true;
  disturbs_link : linkUp (shared s') = true
}.

(** The actions of the bus thread with the answers [ios], with such steps between them. *)
Inductive interleaved : list Io -> bus -> bus -> Prop :=
| interleaved_end s : interleaved [] s s
| interleaved_act io ios s s' : interleaved ios (act io s) s' -> interleaved (io :: ios) s s'
| interleaved_other ios s s1 s' : disturbs s s1 -> interleaved ios s1 s' -> interleaved ios s s'.

(** Where the pass that began in [s0] is: before the thread has seen the epoch, with outputs
    withdrawn, with the epoch acknowledged, and after the clock controller. *)
Inductive phase := Unseen | Withdrawn | Acknowledged | Adjusted.

Definition phase_holds (s0 : bus) (x : phase) (s : bus) : Prop :=
  match x with
  | Unseen => observed s <> epoch_of s0 /\ rest s = rest s0
  | Withdrawn => observed s = epoch_of s0 /\ rest s = rest s0
  | Acknowledged =>
      observed s = epoch_of s0 /\ rest s = rest s0 /\ safetyEpochApplied (shared s) = epoch_of s0
  | Adjusted => observed s = epoch_of s0 /\ safetyEpochApplied (shared s) = epoch_of s0
  end.

Record in_barrier (s0 : bus) (x : phase) (p : pc) (s : bus) : Prop := {
  barrier_pc : worker_pc s = p;
  barrier_epoch : epoch_of s = epoch_of s0;
  barrier_running : running (shared s) = true;
  barrier_link : linkUp (shared s) = true;
  barrier_state : busState (published s) = Operational;
  barrier_phase : phase_holds s0 x s
}.

(** The pass, with what each action needs of its answer. *)
Inductive passes (s0 : bus) (io : Io) : phase -> pc -> phase -> pc -> Prop :=
| pass_loop : passes s0 io Unseen AtLoop Unseen AtWake
| pass_wake : io_clock io = true -> passes s0 io Unseen AtWake Unseen AtEpoch
| pass_epoch : passes s0 io Unseen AtEpoch Withdrawn (AtPermitted true)
| pass_permitted : passes s0 io Withdrawn (AtPermitted true) Withdrawn (AtRecheckEpoch true)
| pass_recheck : passes s0 io Withdrawn (AtRecheckEpoch true) Withdrawn (AtRecheckPermitted true)
| pass_repermitted :
    passes s0 io Withdrawn (AtRecheckPermitted true) Withdrawn (AtRecheckGlobal true)
| pass_global : passes s0 io Withdrawn (AtRecheckGlobal true) Withdrawn (AtSend true)
| pass_send : 0 < io_sent io ->
    passes s0 io Withdrawn (AtSend true)
      Withdrawn (AtAcknowledge true (io_sent io) (io_workingCounter io))
| pass_acknowledge n w : 0 < n -> confirmed s0 w = true ->
    passes s0 io Withdrawn (AtAcknowledge true n w) Acknowledged (AtCount w)
| pass_count w : confirmed s0 w = true -> passes s0 io Acknowledged (AtCount w) Acknowledged (AtClock w)
| pass_clock w :
    (dcConfigured (private s0) = true ->
     Dc.fault (fst (Dc.Update (dcController (private s0)) (io_DCtime io))) = false) ->
    passes s0 io Acknowledged (AtClock w) Adjusted (AtPublish w)
| pass_publish w : io_clock io = true -> passes s0 io Adjusted (AtPublish w) Adjusted AtLoop.

#[local] Arguments Dc.Update : simpl never.
#[local] Arguments PublishInputs : simpl never.
#[local] Arguments ZeroOutputs : simpl never.

Lemma rest_confirmed s s0 w : rest s = rest s0 -> confirmed s w = confirmed s0 w.
Proof using Type. unfold rest, confirmed. congruence. Qed.

(** The goals are the fields of [in_barrier]; the last one is about the phase. *)
Ltac barrier := split; try done; cbn [phase_holds] in *; split_and?; done.

Lemma passes_act s0 io x p y q s :
  passes s0 io x p y q -> in_barrier s0 x p s -> in_barrier s0 y q (act io s).
Proof using Type.
  intros Hp [Hpc He Hr Hl Hb Hph]. destruct Hp as [|Hc| | | | | |Hn|n w Hn Hw|w Hw|w Hd|w Hc];
    unfold worker; rewrite Hpc; cbn [phase_holds] in Hph.
  - rewrite Hr, Hl, Hb. by barrier.
  - rewrite Hc. cbn [negb]. destruct (io_reset io); by barrier.
  - destruct (Z.eqb_spec (epoch_of s) (observed s)); [destruct Hph; congruence|]. cbn [negb].
    split; try done. destruct Hph as [_ Hre]. by split.
  - by barrier.
  - destruct Hph as [Ho Hre]. rewrite He, Ho, Z.eqb_refl. by barrier.
  - destruct (negb _); by barrier.
  - destruct (_ =? _); by barrier.
  - apply Z.ltb_lt in Hn. rewrite Hn. by barrier.
  - destruct Hph as [Ho Hre]. rewrite (rest_confirmed _ _ _ Hre), Hw, He, Ho, Z.eqb_refl.
    apply Z.ltb_lt in Hn. rewrite Hn. by barrier.
  - destruct Hph as (Ho & Hre & Ha). cbn zeta.
    change (confirmed (with_published _ s) w) with (confirmed s w).
    rewrite (rest_confirmed _ _ _ Hre), Hw. by barrier.
  - destruct Hph as (Ho & Hre & Ha). unfold rest in Hre. injection Hre as _ _ E1 E2.
    rewrite <- E1, <- E2 in Hd. destruct (confirmed s w && dcConfigured (private s)) eqn:E; [|by barrier].
    apply andb_true_iff in E as [_ E]. specialize (Hd E).
    destruct (Dc.Update _ _) as [adjustment dc]. cbn [fst] in Hd. rewrite Hd. by barrier.
  - rewrite Hc. cbn [negb]. cbn zeta. unfold publish. repeat case_match; by barrier.
Qed.

Lemma disturbs_barrier s0 x p s s' : disturbs s s' -> in_barrier s0 x p s -> in_barrier s0 x p s'.
Proof using Type.
  intros [_ D1 D2 D3 D4 D5 D6 D7] [Hpc He Hr Hl Hb Hph]. split; try congruence.
  assert (observed s' = observed s) as Eo by (unfold observed; by rewrite D2).
  assert (rest s' = rest s) as Er by (unfold rest; by rewrite D2, D3).
  destruct x; cbn in *; by rewrite Eo, ?Er, ?D4.
Qed.

(** A sequence of actions of the pass, one per answer. *)
Inductive passage (s0 : bus) : list Io -> phase -> pc -> phase -> pc -> Prop :=
| passage_end x p : passage s0 [] x p x p
| passage_next io ios x p y q z r :
    passes s0 io x p y q -> passage s0 ios y q z r -> passage s0 (io :: ios) x p z r.

Lemma passage_interleaved s0 ios x p y q s s' :
  interleaved ios s s' -> passage s0 ios x p y q -> in_barrier s0 x p s -> in_barrier s0 y q s'.
Proof using Type.
  intros Hi. revert x p. induction Hi as [s|io ios s s' Hi IH|ios s s1 s' Hd Hi IH]; intros x p Hp Hb.
  - by inversion Hp; subst.
  - inversion Hp; subst. eapply IH; [done|]. by eapply passes_act.
  - eapply IH; [done|]. by eapply disturbs_barrier.
Qed.

(** A smooth pass under a new epoch goes all the way. *)
Lemma smooth_passage s ios : smooth s 7 ios -> passage s ios Unseen AtLoop Adjusted AtLoop.
Proof using Type.
  intros (Hn & Hc & Hs & Hd).
  destruct ios as [|i0 [|i1 [|i2 [|i3 [|i4 [|i5 [|i6 [|i7 [|i8 [|i9 [|i10 [|i11 [|]]]]]]]]]]]]]; try done.
  destruct (Hs i7 eq_refl) as [Hs1 Hs2]. specialize (Hd i10 eq_refl).
  rewrite !Forall_cons in Hc. destruct Hc as (_ & H1 & _ & _ & _ & _ & _ & _ & _ & _ & _ & H11 & _).
  repeat (eapply passage_next; [by constructor|]). constructor.
Qed.

Lemma pass_acknowledges ios s s' :
  looping s -> observed s <> epoch_of s -> smooth s 7 ios -> interleaved ios s s' ->
  in_barrier s Adjusted AtLoop s'.
Proof using Type.
  intros [Hpc Hr Hl Hb] Hne Hs Hi. eapply passage_interleaved; [done|by apply smooth_passage|]. by split.
Qed.
End Barrier.

(** ** A barrier frame that is lost *)

Section Lost.
Context (configuration : InterfaceConfig) (outputCommandTimeout cyclePeriod busIndex : Z).
Context (EC_MAXSLAVE : Z).

Abbreviation act := (worker configuration outputCommandTimeout cyclePeriod busIndex EC_MAXSLAVE).
Abbreviation step := (step configuration outputCommandTimeout cyclePeriod busIndex EC_MAXSLAVE).
Abbreviation steps := (steps configuration outputCommandTimeout cyclePeriod busIndex EC_MAXSLAVE).

(** The pass may still acknowledge its epoch: its frame has not been sent, or has been
    confirmed. *)
Definition may_acknowledge (s : bus) : bool :=
  match worker_pc s with
  | AtPermitted b | AtRecheckEpoch b | AtRecheckPermitted b | AtRecheckGlobal b | AtSend b => b
  | AtAcknowledge b n w => b && (0 <? n) && confirmed s w
  | _ => false
  end.

(** The epoch has been observed but not acknowledged, and the pass that observed it has lost
    its frame or is over. *)
Record unacknowledged (s : bus) : Prop := {
  unacknowledged_observed : observed s = epoch_of s;
  unacknowledged_applied : safetyEpochApplied (shared s) <> epoch_of s;
  unacknowledged_pc : may_acknowledge s = false
}.

(** What an action leaves alone unless it is one of the barrier. *)
Record same_epochs (s s' : bus) : Prop := {
  epochs_observed : observed s' = observed s;
  epochs_applied : safetyEpochApplied (shared s') = safetyEpochApplied (shared s);
  epochs_current : epoch_of s' = epoch_of s
}.

#[export] Instance same_epochs_preorder : PreOrder same_epochs.
Proof using Type. split; [done|]. intros s1 s2 s3 [] []. split; congruence. Qed.

Lemma unacknowledged_same s s' :
  same_epochs s s' -> may_acknowledge s' = false -> unacknowledged s -> unacknowledged s'.
Proof using Type. intros [] Hp []. split; congruence. Qed.

Lemma CloseContext_epochs transmit data s : same_epochs s (CloseContext transmit data s).
Proof using Type.
  unfold CloseContext. cbn zeta. destruct (negb _); [done|]. destruct (contextOpen _); [|done]. by destruct transmit.
Qed.

Lemma exchanges_epochs l s : same_epochs s (fold_left exchange l s).
Proof using Type.
  revert s. induction l as [|d l IH]; intros s; [done|]. cbn [fold_left]. by etrans; [|apply IH].
Qed.

Lemma Initialize_epochs io s :
  same_epochs s (fst (Initialize configuration cyclePeriod EC_MAXSLAVE io s)).
Proof using Type.
  unfold Initialize, init_failed. cbn zeta.
  assert (same_epochs s (init_reset s)) as H0 
    by (destruct (CloseContext_epochs false [] s); by split).
  set (s0 := init_reset s) in *. clearbody s0.
  assert (forall s1, same_epochs s s1 -> same_epochs s (CloseContext false [] s1)) as Hclose
    by (intros s1 H1; etrans; [exact H1|apply CloseContext_epochs]).
  destruct (negb (init_opened io)); [by apply Hclose|]. set (s1 := with_private _ s0).
  assert (same_epochs s s1) as H1 by (destruct H0; by split).
  destruct (_ || _ || _); [by apply Hclose|]. destruct (_ || _ || _); [by apply Hclose|].
  destruct (ValidateTopology _ _ _ _) as [t [e|]]; [apply Hclose; destruct H1; by split|].
  set (s2 := with_private (set_expected _) _).
  assert (same_epochs s s2) as H2 by (destruct H1; by split).
  destruct (_ <=? 0); [by apply Hclose|]. destruct (_ || _); [by apply Hclose|]. destruct (_ && _); [by apply Hclose|].
  set (s3 := with_published (set_busState SafeOperational) _).
  assert (same_epochs s s3) as H3 by (unfold s3; destruct (if_distributedClock _), H2; by split).
  assert (same_epochs s (fold_left exchange (transition_inputs io) s3)) as H4
    by (etrans; [exact H3|apply exchanges_epochs]).
  destruct (negb _); [by apply Hclose|]. destruct H4. by split.
Qed.

(** Everything the bus thread does outside the barrier leaves the epochs alone. *)
Ltac branches := repeat match goal with |- context [if ?b then _ else _] => destruct b end.

Lemma publish_epochs io s : same_epochs s (publish busIndex io s).
Proof using Type. unfold publish. by destruct (PublishInputs _ _ _ _ _ _ _). Qed.

Lemma AtPublish_epochs io s w :
  worker_pc s = AtPublish w -> same_epochs s (act io s) /\ may_acknowledge (act io s) = false.
Proof using Type.
  intros Hpc. unfold worker. rewrite Hpc. cbn zeta. set (s1 := if negb (_ =? _) then _ else s).
  assert (same_epochs s s1) as H1 by (unfold s1; by destruct (negb _)).
  set (s2 := if _ && _ && _ then _ else s1).
  assert (same_epochs s s2) as [] by (unfold s2; branches; [etrans; [exact H1|apply publish_epochs]|done]).
  by destruct (negb (io_clock io)).
Qed.

(** The goal is about a state with the epochs of [s]. *)
Ltac stays s Hu := apply (unacknowledged_same s); [by split|cbn; try done|exact Hu].

(** No action of the bus thread acknowledges the epoch any more. *)
Lemma worker_unacknowledged io s : unacknowledged s -> unacknowledged (act io s).
Proof using Type.
  intros Hu. pose proof Hu as [Ho Ha Hp].
  destruct (worker_pc s) eqn:Hpc; unfold may_acknowledge in Hp; rewrite Hpc in Hp; subst;
    try (destruct (AtPublish_epochs io s _ Hpc); by apply (unacknowledged_same s));
    unfold worker; rewrite Hpc; cbn zeta; try (by stays s Hu); try (by branches; stays s Hu).
  - destruct (CloseContext_epochs true (io_received io) (with_published (set_busState Stopping) s)).
    branches; try (by stays s Hu). apply (unacknowledged_same s); [by split| |done].
    unfold may_acknowledge. cbn. by rewrite Hpc.
  - set (s1 := with_published (set_reinitializing true) _).
    destruct (Initialize_epochs (io_init io) s1) as [E1 E2 E3].
    destruct (Initialize _ _ _ _ s1) as [s2 [|]]; by stays s Hu.
  - rewrite Ho, Z.eqb_refl. by stays s Hu.
  - destruct (TryPop _ _) as [q [x|]]; [|by stays s Hu]. apply (unacknowledged_same s); [by split| |done].
    unfold may_acknowledge. cbn. by rewrite Hpc.
  - rewrite Ho, Z.eqb_refl. by stays s Hu.
  - rewrite Hp. by stays s Hu.
  - destruct (_ && _); [|by stays s Hu]. destruct (Dc.Update _ _) as [adjustment dc].
    destruct (Dc.fault adjustment); by stays s Hu.
  - destruct k; by stays s Hu.
  - destruct (CloseContext_epochs true (io_received io) s). by stays s Hu.
  - done.
Qed.

(** The bus thread never moves the epoch. *)
Lemma worker_epoch io s : epoch_of (act io s) = epoch_of s.
Proof using Type.
  destruct (worker_pc s) eqn:Hpc; try (by destruct (AtPublish_epochs io s _ Hpc) as [[_ _ ?] _]);
    unfold worker; rewrite Hpc; cbn zeta; try done; try (by branches).
  - pose proof (epochs_current _ _ (CloseContext_epochs true (io_received io) (with_published (set_busState Stopping) s))).
    by branches.
  - set (s1 := with_published (set_reinitializing true) _).
    destruct (Initialize_epochs (io_init io) s1) as [_ _ E3]. by destruct (Initialize _ _ _ _ s1) as [s2 [|]].
  - by destruct (TryPop _ _) as [q [x|]].
  - destruct (_ && _); [|done]. destruct (Dc.Update _ _) as [adjustment dc]. by destruct (Dc.fault adjustment).
  - apply CloseContext_epochs.
Qed.

Lemma step_epoch s s' : step s s' -> epoch_of s <= epoch_of s'.
Proof using Type. intros []; try done. by rewrite worker_epoch. Qed.

Lemma steps_epoch s s' : steps s s' -> epoch_of s <= epoch_of s'.
Proof using Type. induction 1 as [|s s1 s2 _ IH Hs]; [done|]. apply step_epoch in Hs. lia. Qed.

Lemma step_unacknowledged s s' :
  step s s' -> epoch_of s' = epoch_of s -> unacknowledged s -> unacknowledged s'.
Proof using Type.
  intros [] He Hu; [by apply worker_unacknowledged|..];
    (apply (unacknowledged_same s); [by split|exact (unacknowledged_pc _ Hu)|exact Hu]).
Qed.

Lemma steps_unacknowledged s s' :
  steps s s' -> epoch_of s' = epoch_of s -> unacknowledged s -> unacknowledged s'.
Proof using Type.
  induction 1 as [|s s1 s2 Hs IH Hstep]; [done|]. intros He Hu.
  apply steps_epoch in Hs as H1. apply step_epoch in Hstep as H2.
  eapply step_unacknowledged; [exact Hstep|lia|]. apply IH; [lia|done].
Qed.
End Lost.

(** ** From an acknowledged write to the wire *)

Section Wire.
Context (configuration : DaemonConfig) (EC_MAXSLAVE : Z).

Abbreviation Whole := (Whole configuration EC_MAXSLAVE (fun _ => False)).

(** The main thread has changed at most the safety atomics of the bus and popped chunks. *)
Record left_alone (p p' : port) : Prop := {
  alone_private : private (thread p') = private (thread p);
  alone_published : published (thread p') = published (thread p);
  alone_commands : outputCommands (thread p') = outputCommands (thread p)
}.

#[export] Instance left_alone_preorder : PreOrder left_alone.
Proof using Type. split; [done|]. intros p1 p2 p3 [] []. split; congruence. Qed.

(** The epoch is still [e] unless control was revoked. *)
Definition at_epoch (e : Z) (g : Gate.t) : Prop := Gate.epoch g = e \/ disabled g.

#[export] Instance lasting_epoch e : Lasting (at_epoch e).
Proof using Type.
  split; [by right|]. intros g g' [_ E1 _ E2]. unfold at_epoch, disabled. by rewrite E1, E2.
Qed.

Definition Kept (e : Z) (d : daemon) : Prop := Whole d /\ at_epoch e (gate d).

#[export] Instance kept_invariant e : Invariant (Kept e) := lasting_invariant _ _ (at_epoch e) _.

(** While the answers to a request in state [d0] are queued, moreover, no command is accepted
    or lost. *)
Definition Answering (e : Z) (d0 d : daemon) : Prop :=
  Kept e d /\ granted d = granted d0 /\ Forall2 left_alone (ports d0) (ports d) /\
  (wrapped d0 = true -> wrapped d = true).

Lemma alone_ports ps qs rs : Forall2 left_alone ps qs -> Forall2 left_alone qs rs -> Forall2 left_alone ps rs.
Proof using Type. intros H1 H2. by transitivity qs. Qed.

Lemma alone_map f ps : (forall p, left_alone p (f p)) -> Forall2 left_alone ps (map f ps).
Proof using Type. intros H. apply Forall2_fmap_r, Forall_Forall2_diag, Forall_true. exact H. Qed.

Lemma alone_same ps qs : Forall2 same_thread ps qs -> Forall2 left_alone ps qs.
Proof using Type. intros H. eapply Forall2_impl; [exact H|]. intros p q [r E]. by split; rewrite E. Qed.

Lemma alone_apply d : Forall2 left_alone (ports d) (ports (ApplySafetyToBuses d)).
Proof using Type. by apply alone_map. Qed.

#[export] Instance answering_invariant e d0 : Invariant (Answering e d0).
Proof using Type.
  assert (forall d d', Answering e d0 d -> (Kept e d -> Kept e d') -> granted d' = granted d ->
          (wrapped d = true -> wrapped d' = true) -> Forall2 left_alone (ports d) (ports d') ->
          Answering e d0 d') as Hmk.
  { intros d d' (H1 & H2 & H3 & H4) H Hg Hw Hp.
    split_and!; [by apply H|congruence|by eapply alone_ports|auto]. }
  split; intros *.
  - intros Hi Hq H. eapply Hmk; [exact H|intros H'; by eapply inv_client|done|by cbn; intros ->|reflexivity].
  - intros Hi Hq H. eapply Hmk; [exact H|intros H'; by eapply inv_closed|done|by cbn; intros ->|reflexivity].
  - intros Hi Hq H. eapply Hmk; [exact H|intros H'; by eapply inv_closed_controller|done|by cbn; intros ->|].
    eapply alone_ports; [|apply alone_apply]. by apply alone_map.
  - intros Hps H. eapply Hmk; [exact H|intros H'; by apply inv_ports|done|by cbn; intros ->|]. by apply alone_same.
  - intros Hv H. eapply Hmk; [exact H|intros H'; by apply inv_adapters|done|by cbn; intros ->|reflexivity].
  - intros H. eapply Hmk; [exact H|intros H'; by apply inv_scan|done|by cbn; intros ->|reflexivity].
  - intros H. eapply Hmk; [exact H|intros H'; by apply inv_rescan|done|by cbn; intros ->|reflexivity].
  - intros Ha H. eapply Hmk; [exact H|intros H'; by apply inv_accumulator|done|by cbn; intros ->|reflexivity].
  - intros [H _]. by apply (inv_batch i d).
  - intros H. eapply Hmk; [exact H|intros H'; by apply inv_revoke|done|by cbn; intros ->|].
    exact (alone_apply (with_gate _ d)).
  - intros Hg H. eapply Hmk; [exact H|intros H'; by apply inv_refresh|done|by cbn; intros ->|reflexivity].
Qed.

(** The write was accepted: it was valid when the main thread checked it, it is the last
    command of its bus's queue, and its epoch is current unless control was revoked. *)
Record queued_write (d d' : daemon) (w : OutputWritePayload) (micros : Z) : Prop := {
  queued_kept : Kept (write_epoch w) d';
  queued_time : micros <> 0;
  queued_wrapped : wrapped d' = false -> wrapped d = false;
  queued_port : exists p p' q,
    ports d !! Z.to_nat (write_busIndex w) = Some p /\
    ports d' !! Z.to_nat (write_busIndex w) = Some p' /\
    private (thread p') = private (thread p) /\ published (thread p') = published (thread p) /\
    validate_output (thread p) (write_subDeviceIndex w) (write_offset w) (write_data w) = Ok /\
    TryPush kMaximumOutputCommands (outputCommands (thread p))
      (mkCommand (write_epoch w) (write_subDeviceIndex w) (write_offset w) micros (write_data w))
    = (q, true) /\ outputCommands (thread p') = q
}.

Lemma HandleOutputWrite_queues now micros i c frame d w :
  Whole d -> clients d !! i = Some c -> frame_wf frame ->
  DecodeOutputWritePayload (frame_payload frame) = Some w ->
  let d' := fst (HandleOutputWrite now micros i c frame d) in
  granted d' <> granted d -> queued_write d d' w micros.
Proof using Type.
  intros Hd Hi Hf Ew d' Hne. unfold d' in *. clear d'.
  assert (forall d1, Whole d1 -> granted d1 = granted d -> forall st,
            granted (fst (reply now i frame st d1)) = granted d) as Hsame.
  { intros d1 H1 Hg st. assert (Answering (Gate.epoch (gate d1)) d1 d1) as HA.
    { split_and!; [by split; [|left]|done|reflexivity|done]. }
    destruct (reply_keeps (Answering _ _) now i frame st _ HA) as (_ & -> & _). exact Hg. }
  unfold HandleOutputWrite in *. rewrite Ew in *.
  case_bool_decide as Hauth; cbn [negb] in *; [|by rewrite Hsame in Hne].
  destruct (ports d !! _) as [p|] eqn:Ep; [|by rewrite Hsame in Hne].
  case_bool_decide as Hv; cbn [negb] in *; [|by rewrite Hsame in Hne].
  destruct (Z.eqb_spec micros 0) as [|Hm]; [by rewrite Hsame in Hne|].
  set (command := mkCommand _ _ _ _ _) in *. unfold QueueOutput in *.
  destruct (TryPush _ _ command) as [q [|]] eqn:Eq; cbn zeta in *.
  2: { exfalso. apply Hne, Hsame; [|done].
       assert (q = outputCommands (thread p)) as -> by (unfold TryPush in Eq; destruct (_ =? _)%nat; by simplify_eq).
       apply inv_ports; [|done]. eapply same_thread_insert; [done|].
       exists (inputChunks (thread p)). by destruct (thread p). }
  set (d1 := with_grant _ _) in *. clear Hne Hsame.
  assert (Whole d1) as H1.
  { apply (whole_grant configuration EC_MAXSLAVE (fun _ => False) i c (Z.to_nat (write_busIndex w)) p q command d);
      try done.
    destruct Hf as (_ & Hb & _). destruct (write_encode_decode _ w Hb Ew) as (_ & _ & _ & _ & Hsub & _ & Hdata).
    split; [done|]. cbn. unfold in_u16 in Hsub. lia. }
  pose proof (AuthorizeWrite_Ok _ _ _ Hauth) as (He & _).
  pose proof (RecordOutputWrite_refreshed (gate d1) (client_of c) (write_epoch w) now) as Hr.
  destruct (Gate.RecordOutputWrite _ _ _ _) as [r g]. cbn in Hr.
  assert (Answering (write_epoch w) d1 (with_gate g d1)) as HA.
  { split_and!; [|done|reflexivity|by cbn; intros ->]. split; [by apply inv_refresh|left]. cbn.
    rewrite (refreshed_epoch _ _ Hr), He. done. }
  assert (forall st, queued_write d (fst (reply now i frame st (with_gate g d1))) w micros) as Hst;
    [|destruct (negb _); apply Hst].
  intros st. destruct (reply_keeps (Answering _ _) now i frame st _ HA) as (HK & _ & HP & HW).
  split; [done|done| |].
  { intros Hw. destruct (wrapped d) eqn:E; [|done]. by rewrite (HW E) in Hw. }
  assert (ports d1 !! Z.to_nat (write_busIndex w)
          = Some (on_thread (fun _ => with_accepted command (with_commands q (thread p))) p)) as Hp1.
  { cbn. apply list_lookup_insert_eq. by eapply lookup_lt_Some. }
  destruct (Forall2_lookup_l _ _ _ _ _ HP Hp1) as (p' & Hp' & []). by exists p, p', q.
Qed.

(** The bus thread of index [k] acts, with the answers [ios], while the rest of the daemon
    waits. *)
Definition bus_runs (preempt : bool) (now micros : Z) (k : nat) (ios : list Io) (d : daemon) : daemon :=
  fold_left (fun d io => handle configuration EC_MAXSLAVE preempt now micros (EvThread k io) d) ios d.

Lemma bus_runs_thread preempt now micros k mapping ios d p :
  ports d !! k = Some p -> config_interfaces configuration !! k = Some mapping ->
  exists p', ports (bus_runs preempt now micros k ios d) !! k = Some p' /\
    thread p' = undisturbed mapping (config_outputCommandTimeout configuration)
                  (config_cyclePeriod configuration) (to_u16 (Z.of_nat k)) EC_MAXSLAVE ios (thread p).
Proof using Type.
  intros Hp Hm. revert d p Hp. induction ios as [|io ios IH]; intros d p Hp; [by exists p|].
  set (b := bus_action configuration EC_MAXSLAVE k mapping io (thread p)).
  assert (handle configuration EC_MAXSLAVE preempt now micros (EvThread k io) d = put_thread k b d) as E.
  { cbn [handle]. by rewrite Hp, Hm. }
  unfold bus_runs, undisturbed. cbn [fold_left]. rewrite E.
  assert (ports (put_thread k b d) !! k
          = Some (on_thread (with_shared (set_globalFaultedEpoch (globalFaultedEpoch (shared b))))
                    (on_thread (fun _ => b) p))) as Hp'.
  { cbn. change (map ?f ?l) with (f <$> l). by rewrite list_lookup_fmap, list_lookup_alter_eq, Hp. }
  destruct (IH _ _ Hp') as (p' & Hq & Ht). exists p'. split; [exact Hq|]. rewrite Ht. f_equal. cbn.
  change (worker _ _ _ _ _ io (thread p)) with b. by destruct b as [[] ? ? ? ? ? ? ? ?].
Qed.

Lemma not_too_old now last timeout :
  last <> 0 -> last <= now <= last + timeout -> too_old now last timeout = false.
Proof using Type. intros H0 H. unfold too_old. lia. Qed.

(** The queued write is in the frame of the next pass. *)
Lemma queued_delivered d d' w micros p mapping l ios apply fresh index :
  Whole d -> queued_write d d' w micros -> wrapped d' = false -> write_wf w ->
  ports d' !! Z.to_nat (write_busIndex w) = Some p -> delivering (thread p) ->
  represents kMaximumOutputCommands (outputCommands (thread p)) l ->
  Forall (fun io => io_clock io = true) ios ->
  length ios = (12 + length l)%nat -> ios !! 4%nat = Some apply -> ios !! (6 + length l)%nat = Some fresh ->
  let timeout := config_outputCommandTimeout configuration in
  micros <= io_micros apply <= micros + timeout_us timeout ->
  micros <= io_micros fresh <= micros + timeout_us timeout ->
  exists f,
    sent (undisturbed mapping timeout (config_cyclePeriod configuration) index EC_MAXSLAVE ios (thread p))
    = sent (thread p) ++ [f] /\ frame_epoch f = write_epoch w /\
    write_subDeviceIndex w ∈ indices (frame_context f) /\
    shows (frame_map f) (slave (frame_context f) (write_subDeviceIndex w)) (write_data w).
Proof using Type.
  intros [Hsemi0 _] [[[Hsemi Hmir] Hep] Hm Hw0 (p0 & p1 & q & Hp0 & Hp1 & Epr & Epu & Hv & Hpush & Hq)] Hw Hwf Hp Hd
    Hl Hc Hn H4 H6 timeout Ha Hf.
  assert (p1 = p) as -> by congruence.
  pose proof (sound_threads _ _ _ (semi_sound _ _ _ _ Hsemi Hw)) as Hth. rewrite Forall_lookup in Hth.
  destruct (Hth _ _ Hp) as (Hi & _ & _).
  assert (epoch_of (thread p) = write_epoch w) as He.
  { unfold mirrored in Hmir. rewrite Forall_lookup in Hmir.
    destruct (Hmir _ _ Hp (delivering_permitted _ Hd)) as [Hen ->].
    destruct Hep as [|Hoff]; [done|]. unfold disabled in Hoff. congruence. }
  destruct (inv_open_facts _ _ Hi) as (_ & Hlay & Hok); [by destruct Hd as [[-> _ _ _] _ _ _]|].
  pose proof (inv_agreed _ _ Hi) as Hag. rewrite (looping_pc _ (delivering_looping _ Hd)) in Hag.
  specialize (Hag eq_refl). destruct Hwf as (_ & _ & Hsub & _ & Hdata).
  unfold validate_output in Hv. rewrite <- Epu in Hv.
  destruct (agreed_write _ _ _ _ (map_of (thread p)) _ _ _ Hlay (layout_placed _ _ (outputs_layout _ _ Hok))
              Hag (proj1 Hsub) (outputs_bytes _ _ Hok) Hdata Hv)
    as (Hin & _ & _ & _ & m & Hwr & _).
  set (x := mkCommand _ _ _ _ _) in *.
  assert (exists l0, l = l0 ++ [x]) as [l0 ->].
  { pose proof (sound_threads _ _ _ (semi_sound _ _ _ _ Hsemi0 (Hw0 Hw))) as Hth0.
    rewrite Forall_lookup in Hth0. destruct (Hth0 _ _ Hp0) as (Hi0 & _ & _).
    destruct (inv_queue _ _ Hi0) as (l0 & Hl0 & _). exists l0.
    pose proof (push_represents _ two_commands _ _ x Hl0) as Hr. destruct (_ <? _)%nat; [|congruence].
    destruct Hr as (q' & Eq & Hq'). rewrite Hpush in Eq. injection Eq as <-. rewrite Hq in Hl.
    by eapply (represents_functional _ two_commands). }
  destruct (inv_queue _ _ Hi) as (l1 & Hl1 & Hty).
  assert (l1 = l0 ++ [x]) as -> by by eapply (represents_functional _ two_commands).
  destruct (pass_delivers mapping timeout (config_cyclePeriod configuration) index EC_MAXSLAVE
              ios (thread p) (l0 ++ [x]) apply fresh) as (f & Hs & Hfe & Hfc & Hdel); try done.
  { eapply Forall_impl; [exact Hty|]. by intros y [_ ?]. }
  exists f. split_and!; [done|congruence|congruence|]. rewrite Hfc. specialize (Hdel _ Hin).
  unfold delivered in Hdel. rewrite filter_app, (filter_cons_True _ x []), filter_nil, last_snoc in Hdel.
  - cbn [acceptedMonotonicUs command_data x] in Hdel. by rewrite not_too_old in Hdel.
  - split_and!; [by rewrite He|done|by apply not_too_old|by eexists].
Qed.
End Wire.

(** ** Properties *)

(** C10: progress: let the bus thread be at the head of the loop of RunCyclic, running, with the
    link up and the bus operational, outputs permitted, the current epoch observed and no fault
    latched for it, and let no other thread act during the pass, every read of the clock
    succeed, the frame come back with the expected working counter and the distributed clock
    controller, if configured, report no fault. Then the pass takes sixteen actions besides one
    per queued command; it empties the queue and sends exactly one frame, in which each
    SubDevice shows the last command of the queue that is of the current epoch, addressed to
    it, fresh at the clock sample of the drain (and not newer than it) and well sized, else
    what it showed before, and zeros in place of anything older than the command timeout or if
    outputs were only opened by this pass; and the thread is then in such a state again. *)
Theorem cycle_delivers configuration timeout period index EC_MAXSLAVE s l ios apply fresh :
  Cycle.reached configuration timeout period index EC_MAXSLAVE s -> delivering s ->
  represents kMaximumOutputCommands (outputCommands s) l -> smooth s (11 + length l) ios ->
  ios !! 4%nat = Some apply -> ios !! (6 + length l)%nat = Some fresh ->
  let s' := undisturbed configuration timeout period index EC_MAXSLAVE ios s in
  delivering s' /\ epoch_of s' = epoch_of s /\
  represents kMaximumOutputCommands (outputCommands s') [] /\
  exists f, sent s' = sent s ++ [f] /\ frame_epoch f = epoch_of s /\
    frame_context f = context (private s) /\ frame_confirmed f = true /\
    forall a, a ∈ indices (context (private s)) ->
      delivered timeout s l (io_micros apply) (io_micros fresh) (frame_map f) a.
Proof.
  intros Hr Hd Hl Hs H4 H6. apply reached_inv in Hr.
  apply smooth_pass_delivers; try done.
  destruct (inv_queue _ _ Hr) as (l' & Hl' & Hty).
  assert (l' = l) as -> by by eapply (represents_functional _ two_commands).
  eapply Forall_impl; [exact Hty|]. by intros y [_ ?].
Qed.

(** C9: the epoch barrier completes: let the bus thread be at the head of its loop, running, with
    the link up and the bus operational, and not have seen the current epoch yet. If in the
    pass that follows every read of the clock succeeds, the frame comes back with the expected
    working counter and the distributed clock controller, if configured, reports no fault, then
    this pass, of twelve actions, acknowledges the epoch, whatever the main thread and the other
    buses do meanwhile short of moving the epoch again, stopping the bus or reporting its link
    down: the bus's part of the condition for enabling outputs holds, and the thread is at the
    head of its loop with the epoch observed. (A barrier frame that is lost is not repeated:
    [lost_barrier_sticks].) *)
Theorem barrier_completes configuration timeout period index EC_MAXSLAVE s s' ios :
  looping s -> observed s <> epoch_of s -> smooth s 7 ios ->
  interleaved configuration timeout period index EC_MAXSLAVE ios s s' ->
  looping s' /\ SafetyBarrierComplete (epoch_of s) s' = true /\
  observed s' = epoch_of s /\ epoch_of s' = epoch_of s.
Proof.
  intros Hl Hne Hs Hi. eapply pass_acknowledges in Hi as [P1 P2 P3 P4 P5 [P6 P7]]; try done.
  split_and!; [by split|unfold SafetyBarrierComplete|done|done].
  rewrite bool_decide_true by done. cbn [negb]. by apply Z.eqb_eq.
Qed.

(** C11: a barrier frame that is lost is not repeated: when the frame of the pass in which the bus
    thread first saw the epoch was not sent or did not come back with the expected working
    counter, the epoch is never acknowledged, whatever the threads do and the hardware
    answers afterwards, the re-initialisation of the bus included, until the epoch moves again
    (or the thread is started anew). All that time the bus keeps outputs from being enabled:
    while it is operational its barrier counts as incomplete, and it is never operational in
    the sense of AllBusesOperational. *)
Theorem lost_barrier_sticks configuration timeout period index EC_MAXSLAVE s s' n w :
  worker_pc s = AtAcknowledge true n w -> (0 <? n) && confirmed s w = false ->
  observed s = epoch_of s -> safetyEpochApplied (shared s) <> epoch_of s ->
  steps configuration timeout period index EC_MAXSLAVE s s' -> epoch_of s' = epoch_of s ->
  safetyEpochApplied (shared s') <> epoch_of s /\
  (busState (published s') = Operational -> SafetyBarrierComplete (epoch_of s) s' = false) /\
  forall mapping adapter p, thread p = s' -> bus_operational (epoch_of s) mapping adapter p = false.
Proof.
  intros Hpc Hw Ho Ha Hs He.
  destruct (steps_unacknowledged _ _ _ _ _ s s' Hs He) as [_ Ha' _].
  { split; [done|done|]. unfold may_acknowledge. by rewrite Hpc. }
  rewrite He in Ha'. apply Z.eqb_neq in Ha' as Hb.
  assert (busState (published s') = Operational -> SafetyBarrierComplete (epoch_of s) s' = false) as Hinc
    by (intros E; unfold SafetyBarrierComplete; by rewrite bool_decide_true).
  split_and!; [done|done|]. intros mapping adapter p <-. unfold bus_operational.
  case_bool_decide as E; [rewrite (Hinc E)|]; by rewrite ?andb_false_r.
Qed.

(** C2: an acknowledged write reaches the wire: let the daemon, in a run in which the epoch never
    wrapped around, accept an OutputWrite at time [micros] while the thread of the bus it names
    is at the head of its loop, running, with the link up and the bus operational, outputs
    permitted, the current epoch observed and no fault latched for it. If no other thread acts
    during the next pass of that thread, every read of the clock succeeds, and the clock
    samples of the drain and of the freshness check are not before [micros] and not later than
    the command timeout after it, then this pass sends a frame of the write's epoch in which
    the SubDevice it names shows exactly the data of the write. (Whether the frame is confirmed
    does not matter; without the condition on the clock sample it is false:
    [drain_race_loses_command].) *)
Theorem write_reaches_wire configuration EC_MAXSLAVE preempt now micros i c frame w d mapping p l ios
    apply fresh :
  let d' := fst (HandleOutputWrite now micros i c frame d) in
  let k := Z.to_nat (write_busIndex w) in
  let timeout := timeout_us (config_outputCommandTimeout configuration) in
  0 <= EC_MAXSLAVE -> System.reached configuration EC_MAXSLAVE preempt d ->
  clients d !! i = Some c -> frame_wf frame ->
  DecodeOutputWritePayload (frame_payload frame) = Some w ->
  granted d' <> granted d -> wrapped d' = false ->
  ports d' !! k = Some p -> config_interfaces configuration !! k = Some mapping ->
  delivering (thread p) ->
  represents kMaximumOutputCommands (outputCommands (thread p)) l ->
  Forall (fun io => io_clock io = true) ios -> length ios = (12 + length l)%nat ->
  ios !! 4%nat = Some apply -> ios !! (6 + length l)%nat = Some fresh ->
  micros <= io_micros apply <= micros + timeout -> micros <= io_micros fresh <= micros + timeout ->
  exists p' f, ports (bus_runs configuration EC_MAXSLAVE preempt now micros k ios d') !! k = Some p' /\
    sent (thread p') = sent (thread p) ++ [f] /\ frame_epoch f = write_epoch w /\
    write_subDeviceIndex w ∈ indices (frame_context f) /\
    shows (frame_map f) (slave (frame_context f) (write_subDeviceIndex w)) (write_data w).
Proof.
  intros d' k timeout HE Hr Hc Hf Hw Hg Hwr Hp Hm Hd Hl Hio Hn H4 H6 Ha Hfr.
  apply reached_whole in Hr; [|done].
  assert (queued_write configuration EC_MAXSLAVE d d' w micros) as Hq by by apply HandleOutputWrite_queues.
  assert (write_wf w) as Hwf.
  { destruct Hf as (_ & Hb & _). by destruct (write_encode_decode _ w Hb Hw) as (_ & _ & ?). }
  clearbody d'.
  destruct (bus_runs_thread configuration EC_MAXSLAVE preempt now micros k mapping ios d' p Hp Hm)
    as (p' & Hp' & Ht).
  destruct (queued_delivered configuration EC_MAXSLAVE d d' w micros p mapping l ios apply fresh
              (to_u16 (Z.of_nat k)) Hr Hq Hwr Hwf Hp Hd Hl Hio Hn H4 H6 Ha Hfr) as (f & Hs & Hrest).
  exists p', f. split; [done|]. split; [by rewrite Ht|done].
Qed.

(** *** The sample bus *)

Lemma sample_smooth s k n :
  n = (k + 5)%nat -> confirmed s 3 = true -> dcConfigured (private s) = false ->
  smooth s k (replicate n sample_io).
Proof.
  intros -> Hc Hd. split_and!.
  - apply length_replicate.
  - by apply Forall_replicate.
  - by intros io [-> _]%lookup_replicate.
  - intros io _ H. congruence.
Qed.

Lemma sample_one : 1 <= 1 <= slavecount sample_context.
Proof. by vm_compute. Qed.

Definition sample_commands : list OutputCommand := [mkCommand 5 1 0 900 [7; 9]].

Lemma sample_queued_represents :
  represents kMaximumOutputCommands (outputCommands sample_queued) sample_commands.
Proof.
  destruct (push_represents _ two_commands _ _ (mkCommand 5 1 0 900 [7; 9])
              (represents_empty _ two_commands)) as (q & E & Hq).
  assert (outputCommands sample_queued = q) as ->; [|done].
  transitivity (fst (TryPush kMaximumOutputCommands (empty_ring kMaximumOutputCommands)
                       (mkCommand 5 1 0 900 [7; 9]))); [by vm_compute|]. by rewrite E.
Qed.

Lemma cycle_delivers_witness :
  exists f, sent (undisturbed sample_configuration 100 5000 0 3 (replicate 17 sample_io) sample_queued)
    = sent sample_queued ++ [f] /\ frame_confirmed f = true /\
    shows (frame_map f) (slave sample_context 1) [7; 9].
Proof.
  assert (context (private sample_queued) = sample_context) as Ec by (by vm_compute).
  assert (last (filter (applicable sample_context 100 (epoch_of sample_queued) (io_micros sample_io)
                          (map_of sample_queued) 1) sample_commands)
          = Some (mkCommand 5 1 0 900 [7; 9])) as El by (by vm_compute).
  destruct (cycle_delivers sample_configuration 100 5000 0 3 sample_queued sample_commands
              (replicate 17 sample_io) sample_io sample_io) as (_ & _ & _ & f & H1 & _ & H3 & H4 & H5).
  - exists sample_start. split; [apply sample_started|apply sample_queued_steps].
  - split; [split|..]; by vm_compute.
  - apply sample_queued_represents.
  - apply sample_smooth; by vm_compute.
  - done.
  - done.
  - exists f. split_and!; [exact H1|exact H4|].
    clear H1 H3 H4. rewrite Ec in H5. specialize (H5 1 (proj2 (elem_of_indices sample_context 1) sample_one)).
    unfold delivered in H5. rewrite Ec, El in H5. exact H5.
Defined.

(** The epoch moves to 6 while the bus is cycling. *)
Definition sample_moved : bus := set_safety 6 false sample_barrier.

Lemma run_worker_first n s : run_worker n (sample_worker sample_io s) = run_worker (S n) s.
Proof. induction n as [|n IH]; [done|]. cbn [run_worker] in *. by rewrite IH. Qed.

Lemma interleaved_run n ios s s' :
  interleaved sample_configuration 100 5000 0 3 ios (run_worker n s) s' ->
  interleaved sample_configuration 100 5000 0 3 (replicate n sample_io ++ ios) s s'.
Proof.
  revert s. induction n as [|n IH]; intros s H; [done|]. cbn [replicate app].
  apply interleaved_act, IH. by rewrite <- run_worker_first in H.
Qed.

Lemma barrier_completes_witness :
  exists s', interleaved sample_configuration 100 5000 0 3 (replicate 12 sample_io) sample_moved s' /\
    SafetyBarrierComplete 6 s' = true.
Proof.
  set (s1 := run_worker 5 sample_moved). set (s2 := with_shared (set_globalFaultedEpoch 3) s1).
  exists (run_worker 7 s2).
  assert (interleaved sample_configuration 100 5000 0 3 (replicate 12 sample_io) sample_moved (run_worker 7 s2))
    as Hi.
  { change (replicate 12 sample_io) with (replicate 5 sample_io ++ replicate 7 sample_io ++ []).
    apply interleaved_run, (interleaved_other _ _ _ _ _ _ _ s2); [|apply interleaved_run, interleaved_end].
    split; try (by vm_compute). apply step_other_fault. }
  split; [exact Hi|].
  apply (barrier_completes sample_configuration 100 5000 0 3 sample_moved (run_worker 7 s2)
           (replicate 12 sample_io)).
  - split; by vm_compute.
  - by vm_compute.
  - apply sample_smooth; by vm_compute.
  - exact Hi.
Defined.

(** The frame of the barrier is lost; the next two passes are confirmed. *)
Definition sample_loss : Io :=
  mkIo true (io_micros sample_io) 1 0 [] 0 false 0 0 (io_init sample_io).

Definition sample_lost : bus := sample_worker sample_loss (run_worker 7 sample_moved).

Lemma lost_barrier_sticks_witness :
  observed sample_lost = 6 /\ SafetyBarrierComplete 6 (run_worker 40 sample_lost) = false /\
  last (sent (run_worker 40 sample_lost)) = Some (mkFrame 6 sample_context [0; 0; 0x55] true).
Proof.
  split; [by vm_compute|]. split; [|by vm_compute].
  assert (epoch_of sample_lost = 6) as E6 by (by vm_compute).
  assert (busState (published (run_worker 40 sample_lost)) = Operational) as Hop by (by vm_compute).
  assert (epoch_of (run_worker 40 sample_lost) = epoch_of sample_lost) as Ee by (by vm_compute).
  assert (steps sample_configuration 100 5000 0 3 sample_lost (run_worker 40 sample_lost)) as Hst
    by (apply run_worker_steps, steps_refl).
  set (s' := run_worker 40 sample_lost) in *. clearbody s'.
  destruct (lost_barrier_sticks sample_configuration 100 5000 0 3 sample_lost s' 1 0) as (_ & H & _).
  - by vm_compute.
  - by vm_compute.
  - by vm_compute.
  - by vm_compute.
  - exact Hst.
  - exact Ee.
  - rewrite E6 in H. exact (H Hop).
Defined.

(** *** The sample daemon, with outputs enabled *)

Definition sample_enabled : daemon := run_events [says 0 OutputEnable 2 sample_enable_payload] sample_ready.

Lemma sample_enabled_reached : sample_reached sample_enabled.
Proof.
  apply run_events_reached; [|apply sample_ready_reached]. repeat constructor; by vm_compute.
Qed.

Definition sample_writer : ClientConnection := default sample_client (clients sample_enabled !! O).
Definition sample_request : OutputWritePayload := mkOutputWrite 5 0 1 0 [7; 9].
Definition sample_message : Frame.Frame :=
  Frame.mkFrame OutputWrite 3 (EncodeOutputWritePayload sample_request).
Abbreviation sample_written :=
  (fst (HandleOutputWrite 1000000 900 0 sample_writer sample_message sample_enabled)).
Definition sample_written_port : port :=
  default sample_port (ports sample_written !! Z.to_nat (write_busIndex sample_request)).

Lemma sample_written_found :
  ports sample_written !! Z.to_nat (write_busIndex sample_request) = Some sample_written_port.
Proof. apply default_Some. by vm_compute. Qed.

Lemma sample_written_queue :
  represents kMaximumOutputCommands (outputCommands (thread sample_written_port)) sample_commands.
Proof.
  assert (outputCommands (thread sample_written_port) = outputCommands sample_queued) as ->
    by (by vm_compute).
  apply sample_queued_represents.
Qed.

Lemma sample_written_delivering : delivering (thread sample_written_port).
Proof. split; [split|..]; by vm_compute. Qed.

Lemma write_reaches_wire_witness :
  exists p' f, ports (bus_runs sample_daemon_config 3 false 1000000 900 0 (replicate 13 sample_io)
                        sample_written) !! 0%nat = Some p' /\
    sent (thread p') = sent (thread sample_written_port) ++ [f] /\ frame_epoch f = 5 /\
    1 ∈ indices (frame_context f) /\
    shows (frame_map f) (slave (frame_context f) 1) [7; 9].
Proof.
  apply (write_reaches_wire sample_daemon_config 3 false 1000000 900 0 sample_writer sample_message
           sample_request sample_enabled sample_configuration sample_written_port sample_commands
           (replicate 13 sample_io) sample_io sample_io).
  - lia.
  - apply sample_enabled_reached.
  - apply default_Some. by vm_compute.
  - split_and!; [by vm_compute|repeat constructor; by vm_compute|by vm_compute].
  - by vm_compute.
  - by vm_compute.
  - by vm_compute.
  - apply sample_written_found.
  - done.
  - apply sample_written_delivering.
  - apply sample_written_queue.
  - by apply Forall_replicate.
  - done.
  - done.
  - done.
  - by vm_compute.
  - by vm_compute.
Defined.

(** ** A command that arrives during the drain *)

(** The bus thread has sampled the clock (1000) for its drain; the main thread then accepts a
    command at 1001. *)
Definition sample_race_command : OutputCommand := mkCommand 5 1 0 1001 [7; 9].

Definition sample_race : bus :=
  let s := run_worker 5 (set_safety 5 true sample_barrier) in
  with_accepted sample_race_command
    (with_commands (fst (TryPush kMaximumOutputCommands (outputCommands s) sample_race_command)) s).

Lemma sample_race_steps : sample_steps_to sample_start (run_worker 8 sample_race).
Proof.
  apply run_worker_steps. unfold sample_race. cbn zeta. eapply steps_next.
  - apply (run_worker_steps 5 sample_start (set_safety 5 true sample_barrier)), set_safety_steps;
      [by vm_compute|by vm_compute|apply sample_barrier_steps].
  - apply (step_queue _ _ _ _ _ (run_worker 5 (set_safety 5 true sample_barrier)));
      [by vm_compute|split; [repeat constructor; by vm_compute|by vm_compute]|by vm_compute].
Qed.

(** A command that is accepted while the bus thread drains its queue is lost: there is a run,
    with outputs permitted under an unchanged epoch, in which the thread pops a valid command
    and sends a frame without it, because the command is newer than the thread's sample of the
    clock; nothing is left in the queue. *)
Theorem drain_race_loses_command :
  exists s x f,
    Cycle.reached sample_configuration 100 5000 0 3 s /\ x ∈ accepted s /\
    command_epoch x = epoch_of s /\ outputsPermitted (shared s) = true /\
    snd (TryPop kMaximumOutputCommands (outputCommands s)) = None /\
    last (sent s) = Some f /\ frame_epoch f = epoch_of s /\
    shows (frame_map f) (slave (frame_context f) (subDeviceIndex x)) [] /\ command_data x <> [].
Proof.
  exists (run_worker 8 sample_race), sample_race_command, (mkFrame 5 sample_context [0; 0; 0x55] true).
  split_and!; try (by vm_compute).
  - exists sample_start. split; [apply sample_started|apply sample_race_steps].
  - replace (accepted (run_worker 8 sample_race)) with [sample_race_command] by (by vm_compute).
    by apply list_elem_of_singleton.
  - intros i Hi H0. change (slave (frame_context _) (subDeviceIndex _)) with (slave sample_context 1) in *.
    change (frame_map _) with [0; 0; 0x55]. change (owns (slave sample_context 1) i) with ((0 <=? i) && (i <? 16)) in Hi.
    assert (0 <= i < 16) as Hb by lia. clear Hi H0.
    assert (forallb (fun k => Bool.eqb (tb [0; 0; 0x55] (Z.of_nat k)) (tb [] (Z.of_nat k - 0))) (seq 0 16) = true)
      as Hall by (by vm_compute).
    rewrite forallb_forall in Hall. specialize (Hall (Z.to_nat i)).
    rewrite Z2Nat.id in Hall by lia. apply Bool.eqb_prop, Hall, in_seq. lia.
Qed.
