(* ===== verification/Lifecycle.v ===== *)
(** The life of a daemon: [OpenSocket], [Run] from its first line to its last, the flush and
    the shutdown at its end, and [~Daemon], which shuts down after an exception too.

    The file at the socket path and the lock beside it belong to the machine, not to one
    process: they are the [Endpoint] that several daemons share. The other results of system
    calls are arguments. *)

From S2P Require Import Prelude Protocol SafetyGate SpscQueue Realtime Config Adapter Paths IoMap BusIo Cycle Threads.
From S2P Require Import Sockets Connection Daemon Telemetry Control Requests System Guarantees.

(** ** The endpoint *)

(** What is at the socket path; a socket is that of the process that bound it. *)
Inductive node := Absent | SocketNode (owner : Z) | OtherNode.

(** [lock_holder]: the process that holds the [flock] of ec-systemcore.lock. *)
Record Endpoint := mkEndpoint { node_at : node; lock_holder : option Z }.

(** The results of the calls of [OpenSocket]; [lstat_works] is false when [lstat] fails with
    an error other than ENOENT. *)
Record OpenIo := mkOpenIo {
  directories_created : bool;
  parent_status : option file_kind;
  lock_opened : bool;
  flock_works : bool;
  lstat_works : bool;
  stale_unlinked : bool;
  socket_created : bool;
  bound : bool;
  mode_changed : bool;
  listening : bool
}.

Inductive OpenError :=
| InvalidPath | CannotCreateDirectory | ParentNotDirectory | AnotherDaemon | NotASocket
| CannotRemoveStale | CannotInspect | CannotCreateSocket | CannotBind.

(** ** The process *)

(** The state of [Daemon] with the members that only its life uses; a descriptor is whether
    it is open. *)
Record process := mkProcess {
  state : daemon;
  listenDescriptor_ : bool;
  lockDescriptor_ : bool;
  shutdown_ : bool;
  exitCode_ : Z
}.

Definition with_state d p :=
  mkProcess d (listenDescriptor_ p) (lockDescriptor_ p) (shutdown_ p) (exitCode_ p).
Definition with_listen v p := mkProcess (state p) v (lockDescriptor_ p) (shutdown_ p) (exitCode_ p).
Definition with_lock v p := mkProcess (state p) (listenDescriptor_ p) v (shutdown_ p) (exitCode_ p).
Definition with_exit v p := mkProcess (state p) (listenDescriptor_ p) (lockDescriptor_ p) (shutdown_ p) v.

Section Lifecycle.
Context (configuration : DaemonConfig) (EC_MAXSLAVE : Z) (preemptRtAvailable : bool).

(** The process, and the socket path it was given. *)
Context (pid : Z) (socketPath : bytes).

(** The constructor. *)
Definition new_process (initialEpoch : Z) : process :=
  mkProcess (new_daemon configuration EC_MAXSLAVE initialEpoch) false false false 0.

Abbreviation handle := (handle configuration EC_MAXSLAVE preemptRtAvailable).
Abbreviation iterate := (iterate configuration EC_MAXSLAVE preemptRtAvailable).

(** Actions of the bus threads. *)
Definition run_threads (actions : list (nat * Io)) (d : daemon) : daemon :=
  fold_left (fun d a => handle 0 0 (EvThread (fst a) (snd a)) d) actions d.

(** *** Opening the socket *)

Definition set_node v ep := mkEndpoint v (lock_holder ep).
Definition set_holder v ep := mkEndpoint (node_at ep) v.

(** [socket], [bind], [chmod] and [listen], on a free path. *)
Definition bind_socket (io : OpenIo) (p : process) (ep : Endpoint)
    : process * Endpoint * option OpenError :=
  if negb (socket_created io) then (p, ep, Some CannotCreateSocket)
  else
    let p := with_listen true p in
    if negb (bound io) then (p, ep, Some CannotBind)
    else
      let ep := set_node (SocketNode pid) ep in
      if negb (mode_changed io) || negb (listening io) then (p, ep, Some CannotBind)
      else (p, ep, None).

(** [sizeof(sockaddr_un::sun_path)] is 108. *)
Definition OpenSocket (io : OpenIo) (p : process) (ep : Endpoint)
    : process * Endpoint * option OpenError :=
  if negb match socketPath with c :: _ => c =? 47 | [] => false end || (108 <=? zlen socketPath)
  then (p, ep, Some InvalidPath)
  else if negb (directories_created io) then (p, ep, Some CannotCreateDirectory)
  else
    match parent_status io with
    | Some Directory =>
        if negb (lock_opened io) then (p, ep, Some AnotherDaemon)
        else
          let p := with_lock true p in
          if negb (flock_works io) || match lock_holder ep with Some _ => true | None => false end
          then (p, ep, Some AnotherDaemon)
          else
            let ep := set_holder (Some pid) ep in
            if negb (lstat_works io) then (p, ep, Some CannotInspect)
            else
              match node_at ep with
              | OtherNode => (p, ep, Some NotASocket)
              | SocketNode _ =>
                  if negb (stale_unlinked io) then (p, ep, Some CannotRemoveStale)
                  else bind_socket io p (set_node Absent ep)
              | Absent => bind_socket io p ep
              end
    | _ => (p, ep, Some ParentNotDirectory)
    end.

(** *** Shutting down *)

(** [bus->Stop()] for one bus; [others] is what the bus threads do before it. *)
Definition stop_bus (others : nat -> list (nat * Io)) (joins : nat -> list Io) (d : daemon)
    (entry : nat * InterfaceConfig) : daemon :=
  let '(index, mapping) := entry in
  let d := run_threads (others index) d in
  match ports d !! index with
  | Some p => put_thread index (Stop configuration EC_MAXSLAVE index mapping (joins index) (thread p)) d
  | None => d
  end.

(** The buses in [Shutdown]: outputs are withdrawn on all before the first one is joined. *)
Definition stop_buses (others : nat -> list (nat * Io)) (joins : nat -> list Io) (d : daemon) : daemon :=
  let d := with_ports (map (on_thread (set_safety (Gate.epoch (gate d)) false)) (ports d)) d in
  fold_left (stop_bus others joins)
    (zip (seq 0 (length (config_interfaces configuration))) (config_interfaces configuration)) d.

(** The end of [Shutdown]: [found] and [unlinked] are whether [lstat] and [unlink] succeed. *)
Definition leave_endpoint (found unlinked lock : bool) (ep : Endpoint) : Endpoint :=
  let ep :=
    if negb (bool_decide (socketPath = [])) && found then
      match node_at ep with
      | SocketNode _ => if unlinked then set_node Absent ep else ep
      | _ => ep
      end
    else ep in
  if lock && bool_decide (lock_holder ep = Some pid) then set_holder None ep else ep.

Record ShutdownIo := mkShutdownIo {
  shutdown_others : nat -> list (nat * Io);
  shutdown_joins : nat -> list Io;
  shutdown_found : bool;
  shutdown_unlinked : bool
}.

Definition Shutdown (io : ShutdownIo) (p : process) (ep : Endpoint) : process * Endpoint :=
  if shutdown_ p then (p, ep)
  else
    let d := stop_buses (shutdown_others io) (shutdown_joins io) (state p) in
    (mkProcess (with_clients [] d) false false true (exitCode_ p),
     leave_endpoint (shutdown_found io) (shutdown_unlinked io) (lockDescriptor_ p) ep).

(** *** Flushing *)

Definition flush_client (now : Z) (answers : nat -> list send_answer) (acc : daemon * bool) (i : nat)
    : daemon * bool :=
  let '(d, pending) := acc in
  match clients d !! i with
  | Some client =>
      if descriptor client && negb (bool_decide (outgoing (queue client) = []))
      then (FlushClient now (answers i) i d, true) else (d, pending)
  | None => (d, pending)
  end.

(** [FlushClientsFor]: one entry for each time the clock is found before the deadline. *)
Fixpoint FlushClientsFor (rounds : list (Z * (nat -> list send_answer))) (d : daemon) : daemon :=
  match rounds with
  | [] => d
  | (now, answers) :: rounds =>
      let '(d, pending) := fold_left (flush_client now answers) (seq 0 (length (clients d))) (d, false) in
      if negb pending then d else FlushClientsFor rounds d
  end.

(** *** Run *)

(** One turn of the loop: what the bus threads do before it, its clocks, and its inputs. *)
Record Turn := mkTurn {
  turn_threads : list (nat * Io);
  turn_now : Z;
  turn_micros : Z;
  turn_iteration : Iteration
}.

(** [while (gRunning != 0)]: the turns end when a signal has come. *)
Fixpoint run_loop (turns : list Turn) (t : Timers) (p : process) : process :=
  match turns with
  | [] => p
  | turn :: turns =>
      let d := run_threads (turn_threads turn) (state p) in
      let '(d, t, changed) := iterate (turn_now turn) (turn_micros turn) (turn_iteration turn) t d in
      if changed then with_exit 75 (with_state d p) else run_loop turns t (with_state d p)
  end.

Record RunIo := mkRunIo {
  run_open : OpenIo;
  run_now : Z;
  run_identities : list AdapterIdentity;
  run_joins : nat -> list Io;
  run_turns : list Turn;
  run_last_threads : list (nat * Io);
  run_end : Z;
  run_rounds : list (Z * (nat -> list send_answer));
  run_shutdown : ShutdownIo
}.

(** The loop of [Run] with what precedes it, once the socket is open. *)
Definition serve (io : RunIo) (p : process) : process :=
  let d := ScanAdapters configuration EC_MAXSLAVE (run_now io) true (run_identities io) (run_joins io)
             (state p) in
  run_loop (run_turns io) (mkTimers (run_now io) (run_now io) (run_now io + 500000000)) (with_state d p).

(** What follows the loop, up to [Shutdown]. *)
Definition retire_all (io : RunIo) (d : daemon) : daemon :=
  FlushClientsFor (run_rounds io)
    (AdvanceEpoch (run_end io) Protocol.Shutdown 0xffff (run_threads (run_last_threads io) d)).

(** The exit code, or the exception. *)
Definition Run (io : RunIo) (p : process) (ep : Endpoint) : process * Endpoint * (Z + OpenError) :=
  match OpenSocket (run_open io) p ep with
  | (p, ep, Some e) => (p, ep, inr e)
  | (p, ep, None) =>
      let p := serve io p in
      let p := with_state (retire_all io (state p)) p in
      let '(p, ep) := Shutdown (run_shutdown io) p ep in
      (p, ep, inl (exitCode_ p))
  end.

(** [Run] and the destructor, which the exception or the return reaches next. *)
Definition life (io : RunIo) (p : process) (ep : Endpoint) : process * Endpoint * (Z + OpenError) :=
  let '(p, ep, result) := Run io p ep in
  let '(p, ep) := Shutdown (run_shutdown io) p ep in
  (p, ep, result).

(** ** Stopping the buses *)

Abbreviation nobody := (fun _ : nat => False).
Abbreviation Whole := (Whole configuration EC_MAXSLAVE nobody).
Abbreviation Silent := (Silent configuration EC_MAXSLAVE).

Definition actions_ok (actions : list (nat * Io)) : Prop := Forall (fun a => io_ok (snd a)) actions.

(** [Q] holds of every bus. *)
Definition buses (Q : nat -> bus -> Prop) (d : daemon) : Prop :=
  forall i p, ports d !! i = Some p -> Q i (thread p).

(** No bus permits outputs, and the first [k] are stopped. *)
Definition halted (k : nat) (i : nat) (b : bus) : Prop :=
  outputsPermitted (shared b) = false /\ ((i < k)%nat -> worker_pc b = AtStopped).

Lemma put_thread_halted k k' index b d :
  buses (halted k) d -> halted k' index b -> (k <= k' <= S k)%nat -> (k = k' \/ index = k) ->
  buses (halted k') (put_thread index b d).
Proof using Type.
  intros Hd Hb Hk Hi i q' (q & Hq & Ht)%put_thread_lookup. rewrite Ht.
  destruct (Hd i q Hq) as [H1 H2]. destruct (decide (i = index)) as [->|Hne]; [exact Hb|].
  split; [exact H1|]. intros Hl. apply H2. lia.
Qed.

Lemma action_halted index mapping io k i b :
  halted k i b -> halted k i (bus_action configuration EC_MAXSLAVE index mapping io b).
Proof using Type.
  intros [H1 H2]. unfold bus_action. split.
  - set (w := worker _ _ _ _ _ _ _). assert (obeys (popped b) w) as Ho by apply worker_obeys.
    destruct (outputsPermitted (shared w)) eqn:E; [|done]. apply (obeys_permitted _ _ Ho) in E.
    revert E. unfold popped. destruct (worker_pc b); cbn; congruence.
  - intros Hl. unfold worker. rewrite (H2 Hl). by apply H2.
Qed.

Lemma run_threads_keeps actions k d :
  actions_ok actions -> Whole d /\ buses (halted k) d ->
  Whole (run_threads actions d) /\ buses (halted k) (run_threads actions d).
Proof using Type.
  intros Ha. unfold run_threads. revert d. induction Ha as [|[index io] actions Hio _ IH]; intros d [Hd Hh]; [done|].
  cbn [fold_left]. apply IH. split; [by apply handle_keeps|].
  cbn [handle fst snd]. destruct (ports d !! index) as [p|] eqn:Ep; [|done].
  destruct (config_interfaces configuration !! index) as [m|]; [|done].
  eapply (put_thread_halted k); [done| |lia|by left]. by apply action_halted, Hh.
Qed.

Lemma wrapped_threads actions d : wrapped (run_threads actions d) = wrapped d.
Proof using Type.
  unfold run_threads. revert d. induction actions as [|[index io] actions IH]; intros d; [done|].
  cbn [fold_left]. rewrite IH. cbn [handle fst snd].
  destruct (ports d !! index); [|done]. by destruct (config_interfaces configuration !! index).
Qed.

Lemma withdraw_halted d :
  Whole d ->
  let d' := with_ports (map (on_thread (set_safety (Gate.epoch (gate d)) false)) (ports d)) d in
  Whole d' /\ buses (halted 0) d'.
Proof using Type.
  intros [Hs _]. split; [split|].
  - apply semi_with_ports; [apply length_map| |done]. intros _ Hd.
    apply Forall2_fmap_r, Forall_Forall2_diag. eapply Forall_impl; [apply Hd|].
    intros p (Hi & Hm & He). split; [|done]. intros _. split_and!; [by apply set_safety_inv|done|done].
  - unfold mirrored. cbn. apply Forall_fmap, Forall_true. by intros p.
  - intros i q Hq. cbn in Hq. apply list_lookup_fmap_Some in Hq as (p & -> & _). split; [done|lia].
Qed.

Definition joins_ok (joins : nat -> list Io) : Prop :=
  forall i, Forall io_ok (joins i) /\ (join_fuel <= length (joins i))%nat.

(** Joining bus [k]. *)
Lemma stop_bus_halted others joins k mapping d :
  (forall i, actions_ok (others i)) -> joins_ok joins -> wrapped d = false ->
  Whole d /\ buses (halted k) d ->
  let d' := stop_bus others joins d (k, mapping) in
  (Whole d' /\ buses (halted (S k)) d') /\ wrapped d' = false.
Proof using Type.
  intros Ho Hj Hw Hd. unfold stop_bus. rewrite <- (wrapped_threads (others k)) in Hw.
  destruct (run_threads_keeps (others k) k d (Ho k) Hd) as [Hd1 Hh]. clear Hd.
  set (d1 := run_threads (others k) d) in *. clearbody d1. destruct (Hj k) as [Hio Hn].
  destruct (ports d1 !! k) as [p|] eqn:Ep.
  - split; [|done]. split; [eapply put_thread_keeps; [done|by apply successor_stop|done]|].
    eapply (put_thread_halted k); [done| |lia|by right]. split.
    + unfold Stop, bus_action. set (b := with_shared _ _).
      destruct (worker_fold_obeys mapping (config_outputCommandTimeout configuration)
        (config_cyclePeriod configuration) (to_u16 (Z.of_nat k)) EC_MAXSLAVE (joins k) b) as (_ & E & _).
      destruct (outputsPermitted _); [by specialize (E eq_refl)|done].
    + intros _. destruct Hd1 as [[_ _ Hs] _]. pose proof (sound_threads _ _ _ (Hs Hw)) as Ht.
      rewrite Forall_lookup in Ht. destruct (Ht k p Ep) as (Hi & _ & _).
      apply join_returns; [|done|done]. eapply inv_environment; [done|by split|done|done].
  - split; [|done]. split; [done|]. intros i q Hq. destruct (Hh i q Hq) as [H1 H2]. split; [done|].
    intros Hl. apply H2. assert (i <> k) by congruence. lia.
Qed.

Lemma stop_fold others joins mappings k d :
  (forall i, actions_ok (others i)) -> joins_ok joins -> wrapped d = false ->
  Whole d /\ buses (halted k) d ->
  let d' := fold_left (stop_bus others joins) (zip (seq k (length mappings)) mappings) d in
  (Whole d' /\ buses (halted (k + length mappings)) d') /\ wrapped d' = false.
Proof using Type.
  intros Ho Hj. revert k d. induction mappings as [|m mappings IH]; intros k d Hw Hd.
  - cbn. by rewrite Nat.add_0_r.
  - cbn [length seq zip zip_with fold_left].
    destruct (stop_bus_halted others joins k m d Ho Hj Hw Hd) as [Hd' Hw'].
    rewrite <- plus_n_Sm. apply (IH (S k)); done.
Qed.

(** A bus at rest: its thread has ended, it permits nothing, and the last frame it sent has
    all outputs at zero. *)
Definition at_rest (b : bus) : Prop :=
  worker_pc b = AtStopped /\ outputsPermitted (shared b) = false /\ last_zero (sent b).

Lemma stop_buses_rest others joins d :
  (forall i, actions_ok (others i)) -> joins_ok joins -> wrapped d = false -> Whole d ->
  let d' := stop_buses others joins d in
  Whole d' /\ buses (fun _ => at_rest) d' /\ wrapped d' = false.
Proof using Type.
  intros Ho Hj Hw Hd. unfold stop_buses.
  destruct (stop_fold others joins (config_interfaces configuration) 0 (with_ports _ d) Ho Hj Hw
    (withdraw_halted d Hd))
    as [[H1 H2] H3]. cbn zeta in *. set (d' := fold_left _ _ _) in *. clearbody d'.
  split_and!; [done| |done]. intros i p Hp. destruct (H2 i p Hp) as [E1 E2].
  pose proof H1 as [[(_ & _ & _ & _ & Hlen & _) _ Hs] _].
  assert (worker_pc (thread p) = AtStopped) as Est.
  { apply E2. rewrite <- Hlen. by apply lookup_lt_Some in Hp. }
  split_and!; [done|done|]. pose proof (sound_threads _ _ _ (Hs H3)) as Ht. rewrite Forall_lookup in Ht.
  destruct (Ht i p Hp) as (Hi & _ & _). apply (inv_parked _ _ Hi). by rewrite Est.
Qed.

(** ** The rest of the life *)

Record shutdown_ok (io : ShutdownIo) : Prop := {
  shutdown_others_ok i : actions_ok (shutdown_others io i);
  shutdown_joins_ok : joins_ok (shutdown_joins io)
}.

Lemma run_threads_same actions d :
  gate (run_threads actions d) = gate d /\ wrapped (run_threads actions d) = wrapped d.
Proof using Type.
  split; [|apply wrapped_threads]. unfold run_threads. revert d.
  induction actions as [|[j x] actions IH]; intros d; [done|]. cbn [fold_left]. rewrite IH.
  cbn [System.handle fst snd].
  destruct (ports d !! j); [|done]. by destruct (config_interfaces configuration !! j).
Qed.

Lemma stop_buses_same others joins d :
  gate (stop_buses others joins d) = gate d /\ wrapped (stop_buses others joins d) = wrapped d.
Proof using Type.
  unfold stop_buses. cbn zeta. set (d0 := with_ports _ _).
  assert (gate d0 = gate d /\ wrapped d0 = wrapped d) as [<- <-] by done. clearbody d0.
  generalize (zip (seq 0 (length (config_interfaces configuration))) (config_interfaces configuration)).
  intros l. revert d0. induction l as [|[i m] l IH]; intros d0; [done|]. cbn [fold_left].
  destruct (IH (stop_bus others joins d0 (i, m))) as [-> ->]. unfold stop_bus.
  destruct (run_threads_same (others i) d0) as [<- <-]. by destruct (ports _ !! i).
Qed.

(** [Shutdown] of a process that has not shut down yet. *)
Lemma Shutdown_rest io p ep :
  shutdown_ok io -> shutdown_ p = false -> Whole (state p) ->
  let '(p', ep') := Shutdown io p ep in
  shutdown_ p' = true /\ exitCode_ p' = exitCode_ p /\ gate (state p') = gate (state p) /\ wrapped (state p') = wrapped (state p) /\
  clients (state p') = [] /\
  (wrapped (state p) = false -> buses (fun _ => at_rest) (state p')) /\
  ep' = leave_endpoint (shutdown_found io) (shutdown_unlinked io) (lockDescriptor_ p) ep.
Proof using Type.
  intros [Ho Hj] Hsh Hd. unfold Shutdown. rewrite Hsh.
  destruct (stop_buses_same (shutdown_others io) (shutdown_joins io) (state p)). split_and!; try done.
  intros Hw. by destruct (stop_buses_rest _ _ (state p) Ho Hj Hw Hd) as (_ & Hr & _).
Qed.

Lemma FlushClient_silent now answers i d :
  sends_ok answers i d -> Silent d -> Silent (FlushClient now answers i d).
Proof using Type.
  intros Hs Hd. unfold FlushClient. destruct (clients d !! i) as [c|] eqn:E; [|done].
  pose proof (flush_quiet _ _ _ answers i c d Hs (proj1 Hd) E) as Hq.
  destruct (flush answers c) as [[c' closing] sent]. cbn in Hq.
  assert (Silent (put_client i c' d)) by by eapply (inv_client (P := Silent)).
  destruct closing; [by apply (CloseClient_keeps Silent)|done].
Qed.

(** What [send] answers during a round of flushing. *)
Fixpoint flushes_ok (now : Z) (answers : nat -> list send_answer) (todo : list nat) (acc : daemon * bool) : Prop :=
  match todo with
  | [] => True
  | i :: todo => sends_ok (answers i) i (fst acc) /\ flushes_ok now answers todo (flush_client now answers acc i)
  end.

Fixpoint rounds_ok (rounds : list (Z * (nat -> list send_answer))) (d : daemon) : Prop :=
  match rounds with
  | [] => True
  | (now, answers) :: rounds =>
      flushes_ok now answers (seq 0 (length (clients d))) (d, false) /\
      rounds_ok rounds (fst (fold_left (flush_client now answers) (seq 0 (length (clients d))) (d, false)))
  end.

Lemma flush_round_silent now answers todo acc :
  flushes_ok now answers todo acc -> Silent (fst acc) ->
  Silent (fst (fold_left (flush_client now answers) todo acc)).
Proof using Type.
  revert acc. induction todo as [|i todo IH]; intros acc Hok Hd; [done|]. destruct Hok as [H1 H2].
  cbn [fold_left]. apply IH; [done|]. destruct acc as [d pending]. cbn in *.
  destruct (clients d !! i) as [c|]; [|done]. destruct (_ && _); [|done]. by apply FlushClient_silent.
Qed.

Lemma FlushClientsFor_silent rounds d :
  rounds_ok rounds d -> Silent d -> Silent (FlushClientsFor rounds d).
Proof using Type.
  revert d. induction rounds as [|[now answers] rounds IH]; intros d Hok Hd; [done|]. destruct Hok as [H1 H2].
  cbn [FlushClientsFor]. pose proof (flush_round_silent now answers _ (d, false) H1 Hd) as H.
  destruct (fold_left _ _ _) as [d' pending]. cbn [fst] in *. destruct (negb pending); [done|]. by apply IH.
Qed.

Lemma iterate_changed now micros it t d :
  snd (iterate now micros it t d) = true -> it_changed it = true.
Proof using Type.
  unfold System.iterate. cbn zeta. destruct (_ && it_changed it) eqn:E; [|done].
  intros _. by apply andb_true_iff in E as [_ E].
Qed.

(** The answers the system gives during the turns of the loop. *)
Fixpoint turns_ok (turns : list Turn) (t : Timers) (d : daemon) : Prop :=
  match turns with
  | [] => True
  | turn :: turns =>
      actions_ok (turn_threads turn) /\
      let d := run_threads (turn_threads turn) d in
      iteration_ok configuration EC_MAXSLAVE preemptRtAvailable (turn_now turn) (turn_micros turn)
        (turn_iteration turn) t d /\
      let '(d, t, _) := iterate (turn_now turn) (turn_micros turn) (turn_iteration turn) t d in
      turns_ok turns t d
  end.

Abbreviation reached := (System.reached configuration EC_MAXSLAVE preemptRtAvailable).

Lemma run_threads_reached actions d : actions_ok actions -> reached d -> reached (run_threads actions d).
Proof using Type.
  intros Ha. unfold run_threads. revert d. induction Ha as [|a actions Hio _ IH]; intros d Hd; [done|].
  cbn [fold_left]. apply IH. by apply reached_next.
Qed.

(** The loop: the state stays reachable, and only the exit code changes besides. *)
Lemma run_loop_reached turns t p :
  turns_ok turns t (state p) -> reached (state p) -> exitCode_ p = 0 ->
  let p' := run_loop turns t p in
  reached (state p') /\ listenDescriptor_ p' = listenDescriptor_ p /\
  lockDescriptor_ p' = lockDescriptor_ p /\ shutdown_ p' = shutdown_ p /\
  (exitCode_ p' = 0 \/
   exitCode_ p' = 75 /\ Exists (fun turn => it_changed (turn_iteration turn) = true) turns).
Proof using Type.
  revert t p. induction turns as [|turn turns IH]; intros t p Hok Hr He; cbn [run_loop].
  { split_and!; try done. by left. }
  destruct Hok as (H1 & H2 & H3). pose proof (run_threads_reached _ _ H1 Hr) as Hr1. cbn zeta in *.
  set (d1 := run_threads _ _) in *. clearbody d1.
  pose proof (iterate_reached _ _ _ _ _ _ _ _ Hr1 H2) as Hr2.
  pose proof (iterate_changed (turn_now turn) (turn_micros turn) (turn_iteration turn) t d1) as Hc.
  destruct (iterate _ _ _ _ _) as [[d2 t2] changed]. cbn [fst snd] in *.
  destruct changed.
  - split_and!; try done. right. split; [done|]. left. by apply Hc.
  - destruct (IH t2 (with_state d2 p) H3 Hr2 He) as (K1 & K2 & K3 & K4 & K5). split_and!; try done.
    destruct K5 as [|[? ?]]; [by left|right]. split; [done|by right].
Qed.

Lemma run_loop_state turns t p q :
  state p = state q -> state (run_loop turns t p) = state (run_loop turns t q).
Proof using Type.
  revert t p q. induction turns as [|turn turns IH]; intros t p q E; [done|]. cbn [run_loop]. rewrite E.
  destruct (iterate _ _ _ _ _) as [[d t'] [|]]; [done|]. by apply IH.
Qed.

(** The answers the system gives during a run of a new daemon. *)
Record run_ok (io : RunIo) (initialEpoch : Z) : Prop := {
  run_joins_ok : joins_ok (run_joins io);
  run_turns_ok :
    turns_ok (run_turns io) (mkTimers (run_now io) (run_now io) (run_now io + 500000000))
      (ScanAdapters configuration EC_MAXSLAVE (run_now io) true (run_identities io) (run_joins io)
         (new_daemon configuration EC_MAXSLAVE initialEpoch));
  run_last_ok : actions_ok (run_last_threads io);
  run_rounds_ok :
    rounds_ok (run_rounds io)
      (AdvanceEpoch (run_end io) Protocol.Shutdown 0xffff
         (run_threads (run_last_threads io) (state (serve io (new_process initialEpoch)))));
  run_shutdown_ok : shutdown_ok (run_shutdown io)
}.

Lemma bind_socket_spec io p ep :
  let '(p', ep', error) := bind_socket io p ep in
  state p' = state p /\ shutdown_ p' = shutdown_ p /\ exitCode_ p' = exitCode_ p /\
  lockDescriptor_ p' = lockDescriptor_ p /\ lock_holder ep' = lock_holder ep /\
  (error = None -> node_at ep' = SocketNode pid /\ listenDescriptor_ p' = true).
Proof using Type.
  unfold bind_socket. destruct (socket_created io); [|done]. destruct (bound io); [|done].
  cbn [negb]. by destruct (_ || _).
Qed.

Lemma OpenSocket_spec io p ep :
  let '(p', ep', error) := OpenSocket io p ep in
  state p' = state p /\ shutdown_ p' = shutdown_ p /\ exitCode_ p' = exitCode_ p /\
  (lock_holder ep <> None -> error <> None /\ ep' = ep) /\
  (node_at ep = OtherNode -> error <> None /\ node_at ep' = OtherNode) /\
  (error = None -> ep' = mkEndpoint (SocketNode pid) (Some pid) /\
     listenDescriptor_ p' = true /\ lockDescriptor_ p' = true).
Proof using Type.
  unfold OpenSocket. destruct (_ || _); [done|]. destruct (negb (directories_created io)); [done|].
  destruct (parent_status io) as [[| |]|]; try done. destruct (negb (lock_opened io)); [done|].
  destruct (lock_holder ep) as [holder|] eqn:Eh; [rewrite orb_true_r; by split_and!|].
  destruct (negb (flock_works io)); [by split_and!|]. cbn [orb].
  destruct (negb (lstat_works io)); [by split_and!|]. cbn [set_holder node_at].
  assert (forall ep0, lock_holder ep0 = Some pid ->
    let '(p', ep', error) := bind_socket io (with_lock true p) ep0 in
    state p' = state p /\ shutdown_ p' = shutdown_ p /\ exitCode_ p' = exitCode_ p /\
    (error = None -> ep' = mkEndpoint (SocketNode pid) (Some pid) /\
       listenDescriptor_ p' = true /\ lockDescriptor_ p' = true)) as Hb.
  { intros ep0 E0. pose proof (bind_socket_spec io (with_lock true p) ep0) as H.
    destruct (bind_socket _ _ _) as [[p' [n h]] e]. destruct H as (H1 & H2 & H3 & H4 & H5 & H6). cbn in *.
    split_and!; try done. intros He. destruct (H6 He) as [-> ?]. split; [congruence|done]. }
  destruct (node_at ep) as [|owner|] eqn:En.
  - specialize (Hb (set_holder (Some pid) ep) eq_refl).
    destruct (bind_socket _ _ _) as [[p' ep'] e]. destruct Hb as (? & ? & ? & ?). by split_and!.
  - destruct (negb (stale_unlinked io)); [by split_and!|].
    specialize (Hb (set_node Absent (set_holder (Some pid) ep)) eq_refl).
    destruct (bind_socket _ _ _) as [[p' ep'] e]. destruct Hb as (? & ? & ? & ?). by split_and!.
  - by split_and!.
Qed.

Lemma leave_free found unlinked ep :
  lock_holder ep = Some pid -> lock_holder (leave_endpoint found unlinked true ep) = None.
Proof using Type.
  intros E. unfold leave_endpoint. set (ep1 := if _ && _ then _ else ep).
  assert (lock_holder ep1 = Some pid) as ->; [|by rewrite bool_decide_true].
  unfold ep1. destruct (_ && _); [|done]. destruct (node_at ep); [done|by destruct unlinked|done].
Qed.

(** From the first line of [Run] to [Shutdown]. *)
Lemma serve_reached io initialEpoch p :
  in_u64 initialEpoch -> run_ok io initialEpoch ->
  state p = new_daemon configuration EC_MAXSLAVE initialEpoch -> exitCode_ p = 0 ->
  let p' := serve io p in
  reached (state p') /\ lockDescriptor_ p' = lockDescriptor_ p /\ shutdown_ p' = shutdown_ p /\
  (exitCode_ p' = 0 \/ exitCode_ p' = 75 /\
     Exists (fun turn => it_changed (turn_iteration turn) = true) (run_turns io)) /\
  state p' = state (serve io (new_process initialEpoch)).
Proof using Type.
  intros He [Hj Ht _ _ _] E E0. unfold serve. cbn zeta. rewrite E. set (d := ScanAdapters _ _ _ _ _ _ _) in *.
  assert (reached d) as Hr.
  { apply (reached_next _ _ _ (run_now io) 0 (EvScan true (run_identities io) (run_joins io)));
      [by apply reached_new|exact Hj]. }
  destruct (run_loop_reached (run_turns io) _ (with_state d p) Ht Hr E0) as (H1 & _ & H2 & H3 & H4).
  split_and!; [done|done|done|done|]. by apply run_loop_state.
Qed.

Lemma retire_all_silent io initialEpoch p :
  0 <= EC_MAXSLAVE -> run_ok io initialEpoch -> reached (state p) ->
  state p = state (serve io (new_process initialEpoch)) -> Silent (retire_all io (state p)).
Proof using Type.
  intros HE [_ _ Ha Hrounds _] Hr E. unfold retire_all. apply FlushClientsFor_silent; [by rewrite E|].
  apply AdvanceEpoch_silent. apply (reached_whole _ _ _ _ HE (run_threads_reached _ _ Ha Hr)).
Qed.

(** The endpoint after the shutdown of the daemon that owns it. *)
Lemma leave_own found unlinked :
  socketPath <> [] ->
  leave_endpoint found unlinked true (mkEndpoint (SocketNode pid) (Some pid)) =
  mkEndpoint (if found && unlinked then Absent else SocketNode pid) None.
Proof using Type.
  intros Hp. unfold leave_endpoint. rewrite (bool_decide_false (socketPath = [])) by done.
  destruct found, unlinked; cbn; by rewrite bool_decide_true.
Qed.

Lemma OpenSocket_path io p ep p' ep' : OpenSocket io p ep = (p', ep', None) -> socketPath <> [].
Proof using Type. unfold OpenSocket. by intros H ->. Qed.
End Lifecycle.

(** ** Properties *)

(** C12: however the daemon ends, its buses are left at rest: in every state it can reach, and so
    also after an exception, Shutdown stops the thread of every bus; no bus permits outputs
    any more, and the last frame that was sent on it, if any, has all outputs at zero. All
    clients are gone. *)
Theorem Shutdown_leaves_rest configuration EC_MAXSLAVE preempt pid socketPath io p ep :
  0 <= EC_MAXSLAVE -> reached configuration EC_MAXSLAVE preempt (state p) ->
  wrapped (state p) = false -> shutdown_ p = false -> shutdown_ok io ->
  let p' := fst (Shutdown configuration EC_MAXSLAVE preempt pid socketPath io p ep) in
  clients (state p') = [] /\
  forall i b, ports (state p') !! i = Some b ->
    worker_pc (thread b) = AtStopped /\ outputsPermitted (shared (thread b)) = false /\
    forall f, last (sent (thread b)) = Some f -> all_zero (frame_context f) (frame_map f).
Proof.
  intros HE Hr Hw Hs Hio. apply reached_whole in Hr; [|done].
  pose proof (Shutdown_rest configuration EC_MAXSLAVE preempt pid socketPath io p ep Hio Hs Hr) as H.
  destruct (Shutdown _ _ _ _ _ _ _ _) as [p' ep']. destruct H as (_ & _ & _ & _ & Hc & Hb & _).
  split; [exact Hc|]. exact (Hb Hw).
Qed.

(** C13: a run of the daemon from beginning to end: if Run returns, its buses are at rest with
    zeros on the wire, nobody is in control and the lock is free; the socket is removed if the
    calls of lstat and unlink on it succeed; the exit code is 75, for a restart, only if the
    configuration file had changed, and 0 otherwise. This is for runs in which the epoch never
    wrapped around. *)
Theorem Run_ends_at_rest configuration EC_MAXSLAVE preempt pid socketPath io initialEpoch ep p' ep' code :
  0 <= EC_MAXSLAVE -> in_u64 initialEpoch -> run_ok configuration EC_MAXSLAVE preempt io initialEpoch ->
  Run configuration EC_MAXSLAVE preempt pid socketPath io
    (new_process configuration EC_MAXSLAVE initialEpoch) ep = (p', ep', inl code) ->
  wrapped (state p') = false ->
  (forall i b, ports (state p') !! i = Some b -> at_rest (thread b)) /\ clients (state p') = [] /\
  Gate.controllerId (gate (state p')) = None /\ Gate.outputsEnabled (gate (state p')) = false /\
  lock_holder ep = None /\ lock_holder ep' = None /\
  (shutdown_found (run_shutdown io) && shutdown_unlinked (run_shutdown io) = true -> node_at ep' = Absent) /\
  (code = 0 \/ code = 75 /\ Exists (fun turn => it_changed (turn_iteration turn) = true) (run_turns io)).
Proof.
  intros HE He Hok Hrun Hw. unfold Run in Hrun.
  pose proof (OpenSocket_spec pid socketPath (run_open io) (new_process configuration EC_MAXSLAVE initialEpoch) ep) as Hopen.
  destruct (OpenSocket _ _ _ _ _) as [[p1 ep1] [e|]] eqn:Eopen; [done|].
  apply OpenSocket_path in Eopen. destruct Hopen as (E1 & E2 & E3 & Hheld & _ & Hown).
  destruct (Hown eq_refl) as (-> & _ & Elock). clear Hown.
  destruct (serve_reached configuration EC_MAXSLAVE preempt io initialEpoch p1 He Hok E1 E3)
    as (Hr & L1 & L2 & Hcode & Estate). set (p2 := serve _ _ _ _ _) in *. clearbody p2.
  pose proof (retire_all_silent configuration EC_MAXSLAVE preempt io initialEpoch p2 HE Hok Hr Estate) as [Hwhole Hvac].
  cbv zeta in Hrun. set (p3 := with_state _ p2) in *.
  pose proof (Shutdown_rest configuration EC_MAXSLAVE preempt pid socketPath (run_shutdown io) p3
    (mkEndpoint (SocketNode pid) (Some pid)) (run_shutdown_ok _ _ _ _ _ Hok)
    (eq_trans L2 E2) Hwhole) as H.
  destruct (Shutdown _ _ _ _ _ _ p3 _) as [p4 ep4].
  assert (p4 = p' /\ ep4 = ep' /\ exitCode_ p4 = code) as (-> & -> & <-) by (by simplify_eq).
  destruct H as (_ & Hc & Hg & Hw4 & Hcl & Hb & ->). destruct Hvac as [V1 V2].
  change (lockDescriptor_ p3) with (lockDescriptor_ p2). rewrite L1, Elock, leave_own by done.
  rewrite Hg. split_and!; try done.
  - apply Hb. by rewrite <- Hw4.
  - destruct (lock_holder ep) as [h|] eqn:Eh; [|done]. by destruct Hheld as [Hbad _].
  - cbn. by intros ->.
  - by rewrite Hc.
Qed.

(** C18: the lock keeps daemons apart when they start: OpenSocket takes the endpoint only if
    nobody holds the lock, and then owns both the lock and the listening socket; while
    another daemon holds the lock it fails and changes nothing; and it never replaces
    something that is not a socket. It does not touch the buses. *)
Theorem OpenSocket_exclusive pid socketPath io p ep :
  let '(p', ep', error) := OpenSocket pid socketPath io p ep in
  state p' = state p /\
  (lock_holder ep <> None -> error <> None /\ ep' = ep) /\
  (node_at ep = OtherNode -> error <> None /\ node_at ep' = OtherNode) /\
  (error = None -> lock_holder ep = None /\ ep' = mkEndpoint (SocketNode pid) (Some pid) /\
     listenDescriptor_ p' = true /\ lockDescriptor_ p' = true).
Proof.
  pose proof (OpenSocket_spec pid socketPath io p ep) as H. destruct (OpenSocket _ _ _ _ _) as [[p' ep'] e].
  destruct H as (H1 & _ & _ & H2 & H3 & H4). split_and!; try done. intros He. split; [|by apply H4].
  destruct (lock_holder ep) as [h|]; [|done]. by destruct H2 as [Hbad _].
Qed.

(** *** A second daemon *)

(** C19: the lock does not protect the socket from the destructor: a second daemon that is started
    while [owner] runs is refused, yet its destructor removes the socket of [owner], which
    keeps the lock and runs on where no new client can find it. *)
Theorem second_daemon_unlinks configuration EC_MAXSLAVE preempt pid socketPath io p owner :
  shutdown_ p = false -> owner <> pid ->
  match socketPath with c :: _ => c = 47 | [] => False end -> zlen socketPath < 108 ->
  directories_created (run_open io) = true -> parent_status (run_open io) = Some Directory ->
  lock_opened (run_open io) = true ->
  shutdown_found (run_shutdown io) = true -> shutdown_unlinked (run_shutdown io) = true ->
  let '(_, ep', result) :=
    life configuration EC_MAXSLAVE preempt pid socketPath io p (mkEndpoint (SocketNode owner) (Some owner)) in
  result = inr AnotherDaemon /\ ep' = mkEndpoint Absent (Some owner).
Proof.
  intros Hs Hne Hpath Hlen H1 H2 H3 H4 H5. unfold life, Run.
  assert (OpenSocket pid socketPath (run_open io) p (mkEndpoint (SocketNode owner) (Some owner)) =
    (with_lock true p, mkEndpoint (SocketNode owner) (Some owner), Some AnotherDaemon)) as ->.
  { unfold OpenSocket. rewrite H1, H2, H3, (proj2 (Z.leb_gt _ _) Hlen).
    destruct socketPath as [|c path]; [done|]. subst c. by rewrite orb_true_r. }
  unfold Shutdown. cbn [with_lock shutdown_]. rewrite Hs, H4, H5. split; [done|].
  cbn [with_lock lockDescriptor_]. unfold leave_endpoint.
  rewrite (bool_decide_false (socketPath = [])) by (by destruct socketPath).
  cbn. by rewrite bool_decide_false by congruence.
Qed.

(** ** Samples *)

Definition sample_path : bytes := str "/run/ec-systemcore/ec.sock".
Definition sample_open : OpenIo := mkOpenIo true (Some Directory) true true true true true true true true.
Definition sample_shutdown : ShutdownIo := mkShutdownIo (fun _ => []) sample_joins true true.

Lemma sample_shutdown_ok : shutdown_ok sample_shutdown.
Proof. split; [constructor|]. intros i. apply (plain_event_ok (EvScan true [] sample_joins) sample_new eq_refl). Qed.

(** The daemon while it drives outputs. *)
Definition sample_driving : process := mkProcess sample_running true true false 0.

Definition sample_stopped : process :=
  fst (Shutdown sample_daemon_config 3 false 1 sample_path sample_shutdown sample_driving
         (mkEndpoint (SocketNode 1) (Some 1))).

(** Outputs are on the wire before, and zeros after. *)
Lemma Shutdown_leaves_rest_witness :
  existsb (fun b => negb (b =? 0)) (frame_map sample_frame) = true /\
  clients (state sample_stopped) = [] /\
  forall i b, ports (state sample_stopped) !! i = Some b -> worker_pc (thread b) = AtStopped.
Proof.
  split; [by vm_compute|].
  destruct (Shutdown_leaves_rest sample_daemon_config 3 false 1 sample_path sample_shutdown sample_driving
    (mkEndpoint (SocketNode 1) (Some 1)) ltac:(lia) sample_running_reached ltac:(by vm_compute) eq_refl
    sample_shutdown_ok) as [H1 H2].
  split; [exact H1|]. intros i b Hb. exact (proj1 (H2 i b Hb)).
Defined.

(** Process 2 is started while process 1 runs. *)
Lemma second_daemon_unlinks_witness :
  let '(_, ep', result) :=
    life sample_daemon_config 3 false 2 sample_path
      (mkRunIo sample_open 0 [] sample_joins [] [] 0 [] sample_shutdown)
      (new_process sample_daemon_config 3 7) (mkEndpoint (SocketNode 1) (Some 1)) in
  result = inr AnotherDaemon /\ ep' = mkEndpoint Absent (Some 1).
Proof.
  apply (second_daemon_unlinks sample_daemon_config 3 false 2 sample_path
    (mkRunIo sample_open 0 [] sample_joins [] [] 0 [] sample_shutdown)
    (new_process sample_daemon_config 3 7) 1); try reflexivity; lia.
Defined.

(** A run of two turns: a client connects, then the configuration file has changed. *)
Definition sample_turn (now : Z) (changed : bool) (accepts : option (list accept_answer)) : Turn :=
  mkTurn (replicate 15 (0%nat, sample_io)) now 900
    (mkIteration now [sample_identity] sample_joins changed accepts []).

Definition sample_run : RunIo :=
  mkRunIo sample_open 1000000 [sample_identity] sample_joins
    [sample_turn 2000000 true (Some [Accepted (Some (mkCredentials 42 0 0 None))]);
     sample_turn 600000000 true None]
    [(0%nat, sample_io)] 600000000 [(600000001, fun _ => [])] sample_shutdown.

Definition sample_life : process * Endpoint * (Z + OpenError) :=
  Run sample_daemon_config 3 false 1 sample_path sample_run (new_process sample_daemon_config 3 5)
    (mkEndpoint (SocketNode 9) None).

Lemma sample_actions_ok n : actions_ok (replicate n (0%nat, sample_io)).
Proof. apply Forall_replicate, sample_io_ok. Qed.

Lemma sample_turns_ok turns t d :
  Forall (fun turn => actions_ok (turn_threads turn) /\ it_events (turn_iteration turn) = [] /\
            it_joins (turn_iteration turn) = sample_joins) turns ->
  turns_ok sample_daemon_config 3 false turns t d.
Proof.
  intros H. revert t d. induction H as [|turn turns (H1 & H2 & H3) _ IH]; intros t d; [done|].
  cbn [turns_ok]. split; [done|]. cbn zeta. split.
  - split.
    + rewrite H3. intros i. apply (plain_event_ok (EvScan true [] sample_joins) sample_new eq_refl).
    + cbn zeta. rewrite H2. match goal with |- context [zip ?l []] => destruct l end; exact I.
  - destruct (iterate _ _ _ _ _ _ _ _) as [[d' t'] changed]. apply IH.
Qed.

Lemma sample_flushes_ok now todo acc : flushes_ok now (fun _ => []) todo acc.
Proof.
  revert acc. induction todo as [|i todo IH]; intros acc; [done|]. split; [|apply IH].
  intros c _. cbn. by destruct (outgoing (queue c)).
Qed.

Lemma sample_run_ok : run_ok sample_daemon_config 3 false sample_run 5.
Proof.
  split.
  - intros i. apply (plain_event_ok (EvScan true [] sample_joins) sample_new eq_refl).
  - apply sample_turns_ok. do 2 (apply Forall_cons_2; [split_and!; [apply (sample_actions_ok 15)|done|done]|]).
    by apply Forall_nil.
  - apply (sample_actions_ok 1).
  - cbn [run_rounds sample_run rounds_ok]. split; [apply sample_flushes_ok|exact I].
  - apply sample_shutdown_ok.
Qed.

Lemma Run_ends_at_rest_witness :
  snd sample_life = inl 75 /\ node_at (snd (fst sample_life)) = Absent /\
  clients (state (fst (fst sample_life))) = [].
Proof.
  assert (forall p' ep',
    Run sample_daemon_config 3 false 1 sample_path sample_run (new_process sample_daemon_config 3 5)
      (mkEndpoint (SocketNode 9) None) = (p', ep', inl 75) ->
    wrapped (state p') = false -> node_at ep' = Absent /\ clients (state p') = []) as H.
  { intros p' ep' Erun Hw.
    destruct (Run_ends_at_rest sample_daemon_config 3 false 1 sample_path sample_run 5
      (mkEndpoint (SocketNode 9) None) p' ep' 75 ltac:(lia) ltac:(by vm_compute) sample_run_ok Erun Hw)
      as (_ & H1 & _ & _ & _ & _ & H2 & _).
    split; [by apply H2|exact H1]. }
  assert (snd sample_life = inl 75) as E by by vm_compute. split; [exact E|].
  apply H; [|by vm_compute]. change (sample_life = (fst (fst sample_life), snd (fst sample_life), inl 75)).
  by rewrite <- E, <- !surjective_pairing.
Defined.
