(* ===== verification/Main.v ===== *)
(** The command line of the daemon ([RunMain] and [main] of [main.cpp]) and what it reads from
    the system before it starts. The environment, the files and the argument vector are
    arguments; strings of the system have no NUL, as [argv] and [getenv] guarantee. *)

From S2P Require Import Prelude Protocol SafetyGate Config Adapter Paths Scanner Realtime.
From S2P Require Import Cycle Threads Daemon System Guarantees Lifecycle.

Definition kDefaultConfigPath : bytes := str "/etc/ec-systemcore/ec-systemcore.json".
Definition kDefaultSocketPath : bytes := str "/run/ec-systemcore/ec-systemcore.sock".

(** ** What the system says *)

(** [MonotonicMicros]: [clock] is what [clock_gettime] stores, if it succeeds. *)
Definition MonotonicMicros (clock : option (Z * Z)) : Z :=
  match clock with
  | None => 0
  | Some (tv_sec, tv_nsec) =>
      if (tv_sec <? 0) || (tv_nsec <? 0) then 0
      else to_u64 (to_u64 tv_sec * 1000000 + to_u64 (Z.quot tv_nsec 1000))
  end.

(** [InitialEpoch]: [random] is what [getrandom] fills in completely, if it does; otherwise
    the boot time, the process and an address are mixed. *)
Definition InitialEpoch (random : option Z) (tv_sec tv_nsec pid address : Z) : Z :=
  let randomValue :=
    match random with
    | Some value => value
    | None =>
        Z.lxor (Z.lxor (Z.lxor (to_u64 (Z.shiftl (to_u64 tv_sec) 32)) (to_u64 tv_nsec))
                  (to_u64 (Z.shiftl (to_u64 pid) 16))) address
    end in
  if randomValue =? 0 then 1 else randomValue.

(** [text.find(pattern) != npos]. *)
Fixpoint contains (pattern text : bytes) : bool :=
  starts_with pattern text || match text with [] => false | _ :: text => contains pattern text end.

Definition DetectPreemptRt (realtime version : file_data) : bool :=
  match ReadBoundedFile realtime 32 with
  | inl text => bool_decide (TrimAscii text = str "1")
  | inr _ => false
  end ||
  match ReadBoundedFile version 4096 with
  | inl text => contains (str "PREEMPT_RT") text || contains (str "PREEMPT RT") text
  | inr _ => false
  end.

(** [ConfigurationChanged]. *)
Definition ConfigurationChanged (file : file_data) (initialConfigurationText : bytes) : bool :=
  match ReadBoundedFile file kMaximumConfigurationBytes with
  | inl text => negb (bool_decide (text = initialConfigurationText))
  | inr _ => true
  end.

(** ** The command line *)

Inductive MainError :=
| UnsafePath (name : bytes)
| ConfigOption
| PositionalPath
| UnknownArgument (argument : bytes)
| ExclusiveModes
| Unreadable (e : ReadError)
| BadConfiguration (e : ConfigError).

Section RunMain.
Context (EC_MAXSLAVE : Z) (getenv : bytes -> option bytes) (files : bytes -> file_data) (fs : Filesystem).

Definition EnvironmentPath (name fallback : bytes) : bytes + MainError :=
  let selected := match getenv name with None | Some [] => fallback | Some value => value end in
  if negb (IsSafeAbsolutePath selected) then inr (UnsafePath name) else inl selected.

(** [LoadConfig]: the configuration and its text. *)
Definition LoadConfig (path : bytes) : DaemonConfig * bytes + MainError :=
  match ReadBoundedFile (files path) kMaximumConfigurationBytes with
  | inr e => inr (Unreadable e)
  | inl text =>
      match LoadConfigText EC_MAXSLAVE text with
      | Config.Error e => inr (BadConfiguration e)
      | Fine config => inl (config, text)
      end
  end.

Record Options := mkOptions {
  configurationPath : bytes;
  validateOnly : bool;
  resolveOnly : bool
}.

Inductive parsed := Continue (o : Options) | Version | Invalid (e : MainError).

(** The loop over the arguments after the program's name. *)
Fixpoint parse_arguments (argc : Z) (arguments : list bytes) (o : Options) : parsed :=
  match arguments with
  | [] => Continue o
  | argument :: rest =>
      if bool_decide (argument = str "--config") then
        match rest with
        | [] => Invalid ConfigOption
        | path :: rest =>
            if negb (IsSafeAbsolutePath path) then Invalid ConfigOption
            else parse_arguments argc rest (mkOptions path (validateOnly o) (resolveOnly o))
        end
      else if bool_decide (argument = str "--validate-config")
      then parse_arguments argc rest (mkOptions (configurationPath o) true (resolveOnly o))
      else if bool_decide (argument = str "--resolve-adapters")
      then parse_arguments argc rest (mkOptions (configurationPath o) (validateOnly o) true)
      else if bool_decide (argument = str "--version") then Version
      else if match argument with [] => false | c :: _ => negb (c =? 45) end && (argc =? 2) then
        if negb (IsSafeAbsolutePath argument) then Invalid PositionalPath
        else parse_arguments argc rest (mkOptions argument (validateOnly o) (resolveOnly o))
      else Invalid (UnknownArgument argument)
  end.

(** What [RunMain] does; a started daemon goes on with [Daemon::Run]. *)
Inductive outcome :=
| PrintedVersion
| Validated (buses : Z)
| Resolved (report : list AdapterResolution) (allResolved : bool)
| StartDaemon (configuration : DaemonConfig) (path text socketPath sysfsRoot udevDataRoot : bytes).

(** The test of --resolve-adapters for one mapping. *)
Definition resolved (resolution : AdapterResolution) : bool :=
  negb (negb (Adapter.has_value (resolution_identity resolution)) ||
        (negb (bool_decide (resolution_state resolution = Unlocked)) &&
         negb (bool_decide (resolution_state resolution = Matched)))).

Definition scan_identities (sysfsRoot udevDataRoot : bytes) : list AdapterIdentity :=
  fst (Scan fs (components sysfsRoot) (components udevDataRoot)).

Definition resolve_report (configuration : DaemonConfig) (identities : list AdapterIdentity)
    : list AdapterResolution :=
  map (fun mapping => ResolveAdapter identities (if_physicalInterface mapping) (if_lock mapping) false)
    (config_interfaces configuration).

(** [RunMain] once the options are known. *)
Definition run_options (o : Options) : outcome + MainError :=
  if validateOnly o && resolveOnly o then inr ExclusiveModes
  else
    match LoadConfig (configurationPath o) with
    | inr e => inr e
    | inl (configuration, text) =>
        if validateOnly o then inl (Validated (zlen (config_interfaces configuration)))
        else
          match EnvironmentPath (str "EC_SYSTEMCORE_SYSFS_ROOT") (str "/sys") with
          | inr e => inr e
          | inl sysfsRoot =>
              match EnvironmentPath (str "EC_SYSTEMCORE_UDEV_DATA_ROOT") (str "/run/udev/data") with
              | inr e => inr e
              | inl udevDataRoot =>
                  if resolveOnly o then
                    let report := resolve_report configuration (scan_identities sysfsRoot udevDataRoot) in
                    inl (Resolved report (forallb resolved report))
                  else
                    match EnvironmentPath (str "EC_SYSTEMCORE_SOCKET") kDefaultSocketPath with
                    | inr e => inr e
                    | inl socketPath =>
                        inl (StartDaemon configuration (configurationPath o) text socketPath sysfsRoot
                               udevDataRoot)
                    end
              end
          end
    end.

(** [arguments] are [argv] after the program's name. *)
Definition RunMain (arguments : list bytes) : outcome + MainError :=
  match EnvironmentPath (str "EC_SYSTEMCORE_CONFIG") kDefaultConfigPath with
  | inr e => inr e
  | inl path =>
      match parse_arguments (zlen arguments + 1) arguments (mkOptions path false false) with
      | Invalid e => inr e
      | Version => inl PrintedVersion
      | Continue o => run_options o
      end
  end.
End RunMain.

(** The status of the process: [handlers] is whether the signal handlers could be installed,
    [run] what [Daemon::Run] returns or throws. *)
Definition main_status (handlers : bool) (result : outcome + MainError) (run : Z + OpenError) : Z :=
  if negb handlers then 1
  else
    match result with
    | inr _ => 1
    | inl PrintedVersion | inl (Validated _) => 0
    | inl (Resolved _ allResolved) => if allResolved then 0 else 2
    | inl (StartDaemon _ _ _ _ _ _) => match run with inl code => code | inr _ => 1 end
    end.

(** The part of the constructor of [Daemon] that admits the controller group: [gid] is what
    [getgrnam] finds. *)
Definition admit_group (gid : option Z) (c : DaemonConfig) : DaemonConfig :=
  match gid with
  | None => c
  | Some gid =>
      mkConfig (config_interfaces c) (config_allowRestrictedInterfaces c) (config_cyclePeriod c)
        (config_heartbeatTimeout c) (config_outputCommandTimeout c) (config_logDirectory c)
        (config_logCountLimit c) (config_freeSpaceThresholdBytes c) (config_realtime c)
        (config_controllerUids c) (sort_unique (config_controllerGids c ++ [gid]))
        (config_controllerGroup c)
  end.

(** ** Lemmas *)

Lemma InitialEpoch_ok random tv_sec tv_nsec pid address :
  option_ok in_u64 random -> in_u64 address ->
  in_u64 (InitialEpoch random tv_sec tv_nsec pid address) /\
  InitialEpoch random tv_sec tv_nsec pid address <> 0.
Proof.
  intros Hr Ha. unfold InitialEpoch.
  match goal with |- context [if ?x =? 0 then _ else _] => assert (in_u64 x) as Hv end.
  { destruct random as [v|]; [exact Hr|].
    assert (forall x y, in_u64 x -> in_u64 y -> in_u64 (Z.lxor x y)) as Hx.
    { intros x y Hx Hy. unfold in_u64 in *.
      assert (0 <= Z.lxor x y) by (apply Z.lxor_nonneg; lia). split; [done|].
      destruct (Z.eq_dec (Z.lxor x y) 0); [lia|].
      assert (Z.lxor x y < 2 ^ 64); [|lia]. apply Z.log2_lt_pow2; [lia|].
      eapply Z.le_lt_trans; [apply Z.log2_lxor; lia|].
      apply Z.max_lub_lt.
      - destruct (Z.eq_dec x 0) as [->|]; [cbn; lia|]. apply Z.log2_lt_pow2; lia.
      - destruct (Z.eq_dec y 0) as [->|]; [cbn; lia|]. apply Z.log2_lt_pow2; lia. }
    assert (forall z, in_u64 (to_u64 z)) as Hu.
    { intros z. unfold in_u64, to_u64. pose proof (Z.mod_pos_bound z 18446744073709551616 ltac:(lia)). lia. }
    by repeat apply Hx. }
  match goal with |- context [if ?x =? 0 then _ else _] => destruct (Z.eqb_spec x 0) as [E|E] end; [|by split].
  split; [|done]. unfold in_u64. lia.
Qed.

Lemma append_blocks_bound maximum result blocks text :
  append_blocks maximum result blocks = Some text -> zlen result <= maximum -> zlen text <= maximum.
Proof.
  revert result. induction blocks as [|[|x b] blocks IH]; intros result; cbn [append_blocks];
    [by intros [= ->]|by intros [= ->]|].
  destruct (Z.ltb_spec (maximum - Z.min (zlen result) maximum) (zlen (x :: b))); [done|].
  intros H1 H2. apply (IH _ H1). rewrite zlen_app. lia.
Qed.

Lemma ReadBoundedFile_bound file maximum text :
  ReadBoundedFile file maximum = inl text -> 0 <= maximum -> zlen text <= maximum.
Proof.
  unfold ReadBoundedFile. destruct file as [|blocks failed]; [done|].
  destruct (append_blocks _ _ _) as [t|] eqn:E; [|done]. destruct failed; [done|]. intros [= <-] H.
  eapply append_blocks_bound; [exact E|exact H].
Qed.

Lemma EnvironmentPath_safe getenv name fallback path :
  EnvironmentPath getenv name fallback = inl path -> IsSafeAbsolutePath path = true.
Proof.
  unfold EnvironmentPath. cbn zeta. set (selected := match getenv name with None | Some [] => _ | _ => _ end).
  destruct (IsSafeAbsolutePath selected) eqn:E; [|done]. by intros [= <-].
Qed.

Lemma parse_arguments_safe argc arguments o o' :
  IsSafeAbsolutePath (configurationPath o) = true -> parse_arguments argc arguments o = Continue o' ->
  IsSafeAbsolutePath (configurationPath o') = true.
Proof.
  remember (length arguments) as n eqn:Hn. revert arguments Hn o.
  induction n as [n IH] using lt_wf_ind. intros arguments -> o Ho.
  destruct arguments as [|argument rest]; cbn [parse_arguments]; [by intros [= <-]|].
  destruct (bool_decide _).
  { destruct rest as [|path rest]; [done|]. destruct (IsSafeAbsolutePath path) eqn:E; [|done].
    cbn [negb]. apply (IH (length rest)); [cbn; lia|done|done]. }
  do 2 (destruct (bool_decide _); [apply (IH (length rest)); [cbn; lia|done|done]|]).
  destruct (bool_decide _); [done|]. destruct (_ && _); [|done].
  destruct (IsSafeAbsolutePath argument) eqn:E; [|done]. cbn [negb].
  apply (IH (length rest)); [cbn; lia|done|done].
Qed.

(** Without a runtime unlock, the two tests of an adapter agree. *)
Lemma resolved_bound identities mapping :
  let r := ResolveAdapter identities (if_physicalInterface mapping) (if_lock mapping) false in
  resolved r = adapter_bound r.
Proof.
  cbn zeta. unfold resolved, adapter_bound.
  set (r := ResolveAdapter _ _ _ _). assert (resolution_state r <> RuntimeUnlocked) as Hn.
  { unfold r, ResolveAdapter, missing, mismatch. repeat case_match; simplify_eq; done. }
  rewrite (bool_decide_false _ Hn), orb_false_r, negb_orb, negb_involutive, negb_andb, !negb_involutive. done.
Qed.

(** One bus of the first scan. *)
Lemma rebind_first configuration EC_MAXSLAVE joins d k mapping next runtime :
  is_Some (ports d !! k) -> adapters d !! k = Some runtime -> workerStarted runtime = false ->
  let d' := rebind configuration EC_MAXSLAVE joins d (k, (mapping, next)) in
  length (ports d') = length (ports d) /\
  exists a, adapters d' = <[k := a]> (adapters d) /\ workerStarted a = ready next.
Proof.
  intros [p Hp] Ha Hs. unfold rebind. rewrite Hp, Ha, Hs. cbn [negb orb].
  destruct (ready next); cbn [negb]; cbn [ports adapters with_adapters put_thread with_globalFaulted with_ports];
    (split; [by rewrite length_map, length_alter|by eexists]).
Qed.

(** The loop of the first scan starts exactly the buses that are ready. *)
Lemma rebind_fold configuration EC_MAXSLAVE joins mappings planned k d :
  length mappings = length planned -> (k + length planned <= length (ports d))%nat ->
  (forall j, (j < length planned)%nat ->
     exists a, adapters d !! (k + j)%nat = Some a /\ workerStarted a = false) ->
  let d' := fold_left (rebind configuration EC_MAXSLAVE joins)
              (zip (seq k (length planned)) (zip mappings planned)) d in
  (forall i, (i < k \/ k + length planned <= i)%nat -> adapters d' !! i = adapters d !! i) /\
  (forall j next, planned !! j = Some next ->
     exists a, adapters d' !! (k + j)%nat = Some a /\ workerStarted a = ready next).
Proof.
  revert mappings k d. induction planned as [|next planned IH]; intros mappings k d Hlen Hports Hd.
  { split; [done|]. by intros j next. }
  destruct mappings as [|mapping mappings]; [done|]. cbn [length] in *.
  destruct (Hd 0%nat ltac:(lia)) as (runtime & Hr & Hs). rewrite Nat.add_0_r in Hr.
  destruct (rebind_first configuration EC_MAXSLAVE joins d k mapping next runtime) as (El & a & Ea & Hst);
    [apply lookup_lt_is_Some; lia|done|done|].
  cbn [seq zip zip_with fold_left]. set (d1 := rebind _ _ _ _ _) in *. clearbody d1.
  assert (k < length (adapters d))%nat as Hk by (by apply lookup_lt_Some in Hr).
  destruct (IH mappings (S k) d1) as [H1 H2]; [lia|lia| |].
  { intros j Hj. destruct (Hd (S j) ltac:(lia)) as (b & Hb & ?). exists b. split; [|done].
    rewrite Ea, list_lookup_insert_ne by lia. by replace (S k + j)%nat with (k + S j)%nat by lia. }
  split.
  - intros i Hi. rewrite H1 by lia. rewrite Ea. by rewrite list_lookup_insert_ne by lia.
  - intros [|j] nx Hj.
    + injection Hj as <-. exists a. split; [|done]. rewrite Nat.add_0_r, H1 by lia. rewrite Ea.
      by apply list_lookup_insert_eq.
    + destruct (H2 j nx Hj) as (b & Hb & ?). exists b. split; [|done].
      by replace (k + S j)%nat with (S k + j)%nat by lia.
Qed.

Lemma no_first_change plans : safety_change true plans = None.
Proof.
  unfold safety_change. generalize (zip (seq 0 (length plans)) plans). intros l.
  induction l as [|[i x] l IH]; [done|]. exact IH.
Qed.

(** The first scan of a new daemon: bus [i] is started if its adapter is bound. *)
Lemma first_scan configuration EC_MAXSLAVE now identities joins epoch i mapping :
  config_interfaces configuration !! i = Some mapping ->
  exists a, adapters (ScanAdapters configuration EC_MAXSLAVE now true identities joins
                        (new_daemon configuration EC_MAXSLAVE epoch)) !! i = Some a /\
    workerStarted a =
      adapter_bound (ResolveAdapter identities (if_physicalInterface mapping) (if_lock mapping) false).
Proof.
  intros Hm. unfold ScanAdapters. cbn zeta. rewrite no_first_change.
  set (mappings := config_interfaces configuration) in *.
  set (planned := zip_with (plan identities) mappings _).
  assert (adapters (new_daemon configuration EC_MAXSLAVE epoch) = replicate (length mappings) new_adapter) as Ea
    by done.
  assert (length planned = length mappings) as El
    by (unfold planned; rewrite length_zip_with, Ea, length_replicate; lia).
  assert (i < length mappings)%nat as Hi by (by apply lookup_lt_Some in Hm).
  destruct (rebind_fold configuration EC_MAXSLAVE joins mappings planned 0
    (new_daemon configuration EC_MAXSLAVE epoch)) as [_ H]; [done| | |].
  - rewrite El. unfold new_daemon. cbn [ports]. by rewrite length_replicate.
  - intros j Hj. exists new_adapter. split; [|done]. rewrite Ea. apply lookup_replicate_2. lia.
  - destruct (H i (plan identities mapping new_adapter)) as (a & Ha & Hs).
    { unfold planned. rewrite lookup_zip_with, Hm, Ea, lookup_replicate_2 by done. done. }
    by exists a.
Qed.

Lemma admit_group_ok EC_MAXSLAVE gid c :
  option_ok in_u32 gid -> config_ok EC_MAXSLAVE c -> config_ok EC_MAXSLAVE (admit_group gid c).
Proof.
  destruct gid as [gid|]; [|done]. intros Hg []. cbn [admit_group].
  split; cbn; try done. destruct (sort_unique_spec (config_controllerGids c ++ [gid])) as [H1 H2].
  destruct ok_gids as (K1 & K2 & K3). split_and!; [done| |by intros x ?%elem_of_nil].
  apply Forall_forall. intros x [Hx|Hx%list_elem_of_singleton]%H2%elem_of_app; [|by subst].
  rewrite Forall_forall in K2. by apply K2.
Qed.

(** ** Properties *)

(** A path that stays where it points: absolute, of at most 4096 bytes, without NUL and without
    parent components. *)
Definition safe_path (path : bytes) : Prop :=
  IsSafeAbsolutePath path = true /\ Forall (fun c => c <> dotdot) (components path) /\
  zlen path <= 4096 /\ 0 ∉ path.

Lemma safe_path_intro path : IsSafeAbsolutePath path = true -> safe_path path.
Proof. intros H. destruct (IsSafeAbsolutePath_stays path H) as (? & [_ ?] & ?). by split_and!. Qed.

(** C20: the daemon is started only with what has been checked: whatever the arguments, the
    environment and the files are, if RunMain starts a daemon then its configuration was
    read whole from the named file, of at most 1 MiB, and accepted, it satisfies every
    condition on configurations, also once the controller group has been admitted, and all
    paths are absolute and without parent components. *)
Theorem RunMain_starts_checked EC_MAXSLAVE getenv files fs arguments c path text socketPath sysfsRoot udevDataRoot gid :
  0 < EC_MAXSLAVE -> option_ok in_u32 gid ->
  RunMain EC_MAXSLAVE getenv files fs arguments =
    inl (StartDaemon c path text socketPath sysfsRoot udevDataRoot) ->
  LoadConfigText EC_MAXSLAVE text = Fine c /\ config_ok EC_MAXSLAVE (admit_group gid c) /\
  ReadBoundedFile (files path) kMaximumConfigurationBytes = inl text /\ zlen text <= 1024 * 1024 /\
  Forall safe_path [path; socketPath; sysfsRoot; udevDataRoot].
Proof.
  intros HE Hg. unfold RunMain.
  destruct (EnvironmentPath getenv (str "EC_SYSTEMCORE_CONFIG") _) as [p0|] eqn:E0; [|done].
  destruct (parse_arguments _ _ _) as [o| |] eqn:Ep; [|done|done].
  apply parse_arguments_safe in Ep; [|by apply EnvironmentPath_safe in E0]. clear E0.
  unfold run_options. destruct (_ && _); [done|]. unfold LoadConfig.
  destruct (ReadBoundedFile _ _) as [t|] eqn:Er; [|done].
  destruct (LoadConfigText _ t) as [c'|] eqn:Ec; [|done]. destruct (validateOnly o); [done|].
  destruct (EnvironmentPath getenv (str "EC_SYSTEMCORE_SYSFS_ROOT") _) as [s|] eqn:Es; [|done].
  destruct (EnvironmentPath getenv (str "EC_SYSTEMCORE_UDEV_DATA_ROOT") _) as [u|] eqn:Eu; [|done].
  destruct (resolveOnly o); [done|].
  destruct (EnvironmentPath getenv (str "EC_SYSTEMCORE_SOCKET") _) as [k|] eqn:Ek; [|done].
  intros H. injection H as -> <- -> <- <- <-.
  apply EnvironmentPath_safe in Es, Eu, Ek. split_and!; try done.
  - apply admit_group_ok; [done|]. by eapply LoadConfigText_accepted.
  - apply (ReadBoundedFile_bound (files (configurationPath o)) kMaximumConfigurationBytes text); done.
  - repeat constructor; by apply safe_path_intro.
Qed.

(** C21: --resolve-adapters predicts the daemon: with the same adapters present, its exit status is
    0 exactly if the first scan of a new daemon finds the adapter of every configured bus,
    as its lock demands, and starts its thread; otherwise the status is 2. *)
Theorem resolve_predicts_start configuration EC_MAXSLAVE now identities joins epoch run :
  let report := resolve_report configuration identities in
  let status := main_status true (inl (Resolved report (forallb resolved report))) run in
  let d := ScanAdapters configuration EC_MAXSLAVE now true identities joins
             (new_daemon configuration EC_MAXSLAVE epoch) in
  (status = 0 <->
   forall i, (i < length (config_interfaces configuration))%nat ->
     exists a, adapters d !! i = Some a /\ workerStarted a = true) /\
  (status = 0 \/ status = 2).
Proof.
  cbn zeta. set (report := resolve_report _ _). cbn [main_status negb]. split; [|destruct (forallb _ _); auto].
  transitivity (forallb resolved report = true); [by destruct (forallb _ _)|].
  unfold report, resolve_report. rewrite forallb_forall. split.
  - intros H i Hi. apply lookup_lt_is_Some in Hi as [m Hm].
    destruct (first_scan configuration EC_MAXSLAVE now identities joins epoch i m Hm) as (a & Ha & Hs).
    exists a. split; [done|]. rewrite Hs, <- resolved_bound. apply H, in_map_iff. exists m. split; [done|].
    apply list_elem_of_In. by eapply list_elem_of_lookup_2.
  - intros H r (m & <- & [i Hm]%list_elem_of_In%list_elem_of_lookup_1)%in_map_iff.
    rewrite resolved_bound.
    destruct (first_scan configuration EC_MAXSLAVE now identities joins epoch i m Hm) as (a & Ha & Hs).
    destruct (H i ltac:(by apply lookup_lt_Some in Hm)) as (b & Hb & Hst). rewrite <- Hs. congruence.
Qed.

(** ** A sample start *)

Definition sample_files (path : bytes) : file_data :=
  if bool_decide (path = str "/etc/ec.json") then FileBlocks [sample_config] false else FileMissing.

Definition sample_arguments : list bytes := [str "--config"; str "/etc/ec.json"].

Definition sample_start_result : outcome + MainError :=
  RunMain 200 (fun _ => None) sample_files sample_fs sample_arguments.

Lemma RunMain_starts_checked_witness :
  exists c, sample_start_result =
    inl (StartDaemon c (str "/etc/ec.json") sample_config kDefaultSocketPath (str "/sys") (str "/run/udev/data")) /\
    config_ok 200 (admit_group (Some 1000) c).
Proof.
  eexists. split; [by vm_compute|].
  eapply (RunMain_starts_checked 200 (fun _ => None) sample_files sample_fs sample_arguments _
    (str "/etc/ec.json") sample_config kDefaultSocketPath (str "/sys") (str "/run/udev/data") (Some 1000));
    [lia|by vm_compute|by vm_compute].
Defined.
