(* ===== verification/Counters.v ===== *)
(** The counters of a bus that both threads use ([AtomicSaturatingIncrement], [AtomicMaximum])
    and the timing that the bus thread measures in each cycle of [RunCyclic]. *)

From S2P Require Import Prelude Protocol Clock Realtime Config Cycle Daemon.

(** ** Compare-and-exchange loops *)

(** One call of [compare_exchange_weak]: the value it finds, as the other threads have left
    it, and whether it fails spuriously. *)
Record attempt := mkAttempt { found_value : Z; spurious : bool }.

(** A loop [while (go current) && !compare_exchange_weak(current, next current)]. The result
    is the value found by the last look at the variable and the value left there; [None] while
    the attempts last without success. *)
Fixpoint exchange_loop (go : Z -> bool) (next : Z -> Z) (current : Z) (attempts : list attempt)
    : option (Z * Z) :=
  if negb (go current) then Some (current, current)
  else
    match attempts with
    | [] => None
    | a :: attempts =>
        if (found_value a =? current) && negb (spurious a) then Some (found_value a, next current)
        else exchange_loop go next (found_value a) attempts
    end.

(** The sum that [AtomicSaturatingIncrement] stores. *)
Definition saturated (maximum amount current : Z) : Z :=
  let available := maximum - current in
  if available <? amount then maximum else current + amount.

Definition AtomicSaturatingIncrement (maximum amount : Z) : Z -> list attempt -> option (Z * Z) :=
  exchange_loop (fun current => negb (current =? maximum)) (saturated maximum amount).

Definition AtomicMaximum (value : Z) : Z -> list attempt -> option (Z * Z) :=
  exchange_loop (fun current => current <? value) (fun _ => value).

(** A loop that ends has replaced what it found, at once. *)
Lemma exchange_loop_atomic go next f current attempts before after :
  (forall v, go v = true -> f v = next v) -> (forall v, go v = false -> f v = v) ->
  exchange_loop go next current attempts = Some (before, after) -> after = f before.
Proof.
  intros H1 H2. revert current. induction attempts as [|a attempts IH]; intros current; cbn [exchange_loop];
    (destruct (go current) eqn:E; cbn [negb]; [|intros [= <- <-]; by rewrite H2]); [done|].
  destruct (Z.eqb_spec (found_value a) current) as [->|]; cbn [andb]; [|apply IH].
  destruct (spurious a); cbn [negb]; [apply IH|]. intros [= <- <-]. by rewrite H1.
Qed.

(** An attempt on a value that has not changed ends the loop. *)
Lemma exchange_loop_progress go next current attempts v :
  exists r, exchange_loop go next current (attempts ++ [mkAttempt v true; mkAttempt v false]) = Some r.
Proof.
  revert current. induction attempts as [|a attempts IH]; intros current; cbn [app exchange_loop];
    (destruct (go current); cbn [negb]; [|by eexists]).
  - cbn [found_value spurious negb]. rewrite andb_false_r. destruct (go v); cbn [negb]; [|by eexists].
    rewrite Z.eqb_refl. by eexists.
  - destruct (_ && _); [by eexists|apply IH].
Qed.

(** Concurrent increments and maxima lose nothing: whatever the other threads do to the
    variable between the looks, an update that ends has replaced the value it found last by
    the saturated sum, or the maximum, in one step; and it ends as soon as the variable is
    left alone for two attempts. *)
Theorem atomic_updates_exact maximum amount value current attempts before after :
  0 <= amount ->
  (AtomicSaturatingIncrement maximum amount current attempts = Some (before, after) -> before <= maximum ->
   after = Z.min maximum (before + amount)) /\
  (AtomicMaximum value current attempts = Some (before, after) -> after = Z.max before value) /\
  (forall v, exists r, AtomicSaturatingIncrement maximum amount current
     (attempts ++ [mkAttempt v true; mkAttempt v false]) = Some r) /\
  (forall v, exists r, AtomicMaximum value current
     (attempts ++ [mkAttempt v true; mkAttempt v false]) = Some r).
Proof.
  intros Ha. split_and!.
  - intros H Hb. transitivity (if before =? maximum then maximum else saturated maximum amount before).
    + revert H. apply (exchange_loop_atomic _ _ (fun v => if v =? maximum then maximum else saturated maximum amount v));
        intros v E; destruct (Z.eqb_spec v maximum); try done; by subst.
    + unfold saturated. destruct (Z.eqb_spec before maximum); [lia|].
      destruct (Z.ltb_spec (maximum - before) amount); lia.
  - apply (exchange_loop_atomic _ _ (fun v => Z.max v value)); intros v E; lia.
  - intros v. apply exchange_loop_progress.
  - intros v. apply exchange_loop_progress.
Qed.

(** ** The measurements of a cycle *)

(** What one cycle of [RunCyclic] meets: the deadline and the time of waking, whether the
    counters are to be reset, the time at the end and the correction of the clock. *)
Record CycleTimes := mkTimes {
  deadline : timespec;
  woken : timespec;
  reset_requested : bool;
  finished : timespec;
  correctionNs : Z
}.

(** After waking: the jitter, and the reset. *)
Definition measure_wake (c : CycleTimes) (t : Timing) : Timing :=
  let jitter := DifferenceMicros (woken c) (deadline c) in
  let t := mkTiming (cycleOverruns t) jitter (Z.max (maximumJitterUs t) jitter) (schedulingMode t) in
  if reset_requested c then mkTiming 0 (currentJitterUs t) 0 (schedulingMode t) else t.

(** At the end: the missed cycles. *)
Definition count_overruns (period : Z) (c : CycleTimes) (t : Timing) : Timing :=
  let '(next, missed) := next_deadline (deadline c) (finished c) period (correctionNs c) in
  mkTiming (saturated U64_MAX missed (cycleOverruns t)) (currentJitterUs t) (maximumJitterUs t)
    (schedulingMode t).

Definition measure (period : Z) (t : Timing) (c : CycleTimes) : Timing :=
  count_overruns period c (measure_wake c t).

Definition jitter_of (c : CycleTimes) : Z := DifferenceMicros (woken c) (deadline c).
Definition missed_of (period : Z) (c : CycleTimes) : Z :=
  snd (next_deadline (deadline c) (finished c) period (correctionNs c)).

Lemma DifferenceMicros_range a b : 0 <= DifferenceMicros a b <= U32_MAX.
Proof.
  unfold DifferenceMicros. destruct (_ <? 0); [destruct (_ <? 0)|destruct (_ <? 0)]; try lia;
    unfold to_u64 at 1; match goal with |- context [?x mod ?m] => pose proof (Z.mod_pos_bound x m ltac:(lia)) end; lia.
Qed.

Lemma missed_nonneg period c : 0 < period -> 0 <= missed_of period c.
Proof.
  intros Hp. unfold missed_of, next_deadline. cbn zeta. destruct (TimespecLess _ _); [|done]. cbn [snd].
  match goal with |- context [DifferenceMicros ?a ?b] => pose proof (DifferenceMicros_range a b) end.
  pose proof (Z.div_pos (DifferenceMicros (finished c)
    (AddNanoseconds (deadline c) (period * 1000 + correctionNs c))) period). lia.
Qed.

(** The timing counters tell what happened since they were last reset: after any number of
    cycles without a reset, the reported maximum is the largest jitter of the cycles (and of
    what was reported before), the current jitter is that of the last cycle, and the overruns
    are the sum of the cycles missed, saturated at 64 bits. *)
Theorem timing_counters_exact period cycles t :
  0 < period -> Forall (fun c => reset_requested c = false) cycles ->
  0 <= cycleOverruns t <= U64_MAX ->
  let t' := fold_left (measure period) cycles t in
  maximumJitterUs t' = fold_left Z.max (map jitter_of cycles) (maximumJitterUs t) /\
  currentJitterUs t' = default (currentJitterUs t) (last (map jitter_of cycles)) /\
  cycleOverruns t' = Z.min U64_MAX (cycleOverruns t + fold_right Z.add 0 (map (missed_of period) cycles)).
Proof.
  intros Hp Hr. revert t. induction Hr as [|c cycles Hc _ IH]; intros t Ht.
  { cbn. split_and!; [done|done|lia]. }
  cbn [fold_left map fold_right]. pose proof (missed_nonneg period c Hp) as Hm.
  assert (exists o, measure period t c =
    mkTiming o (jitter_of c) (Z.max (maximumJitterUs t) (jitter_of c)) (schedulingMode t) /\
    o = Z.min U64_MAX (cycleOverruns t + missed_of period c)) as (o & -> & Eo).
  { unfold measure, measure_wake, count_overruns. rewrite Hc. cbn zeta. unfold missed_of in *.
    destruct (next_deadline _ _ _ _) as [next missed]. cbn [snd cycleOverruns currentJitterUs maximumJitterUs
      schedulingMode] in *. eexists. split; [reflexivity|]. unfold saturated.
    destruct (Z.ltb_spec (U64_MAX - cycleOverruns t) missed); lia. }
  assert (0 <= fold_right Z.add 0 (map (missed_of period) cycles)) as Hsum.
  { clear -Hp. induction cycles as [|c cycles IH]; cbn; [done|]. pose proof (missed_nonneg period c Hp). lia. }
  destruct (IH (mkTiming o (jitter_of c) (Z.max (maximumJitterUs t) (jitter_of c)) (schedulingMode t)))
    as (H1 & H2 & H3); [cbn; lia|]. cbn zeta in *. rewrite H1, H2, H3. cbn [cycleOverruns currentJitterUs maximumJitterUs].
  split_and!; [done| |lia]. rewrite last_cons. by destruct (last (map jitter_of cycles)).
Qed.

Lemma timing_counters_exact_witness :
  let c := mkTimes (mkTime 0 0) (mkTime 0 7000) false (mkTime 0 25000000) 0 in
  cycleOverruns (fold_left (measure 5000) [c; c] (mkTiming 1 0 3 Fifo)) = 11.
Proof.
  cbn zeta. set (c := mkTimes _ _ _ _ _).
  destruct (timing_counters_exact 5000 [c; c] (mkTiming 1 0 3 Fifo)) as (_ & _ & ->);
    [lia|by repeat constructor|cbn; lia|by vm_compute].
Defined.
