(* ===== verification/Timed.v ===== *)
(** The bus thread with its clock (main.cpp, EthercatBus): [Run] from its first statement,
    with the real-time configuration of the thread, the deadlines and the sleep of
    [RunCyclic], the timing counters and the topology report. The safety protocol is that of
    [Cycle.worker]; here the answers it takes from the clocks are computed from the system
    calls. *)

From S2P Require Import Prelude Protocol Clock Realtime Config DcSync IoMap BusIo Cycle Daemon.
From S2P Require Import Counters Discovery.

(** ** Real-time operations of the Linux kernel *)

(** The system calls behind [LinuxRealtimeOperations], as functions of the state of the
    system: [mlockall], [pthread_setschedparam], [pthread_setaffinity_np] and [sysconf] with
    their results, [pthread_getschedparam] with its result and the policy. *)
Record SystemCalls {W : Type} := mkSystemCalls {
  call_mlockall : W -> Z * W;
  call_setschedparam : Z -> W -> Z * W;
  call_setaffinity : Z -> W -> Z * W;
  call_sysconf : W -> Z * W;
  call_getschedparam : W -> (Z * Z) * W
}.
Arguments SystemCalls : clear implicits.

Definition SCHED_OTHER : Z := 0.
Definition EINTR : Z := 4.

Definition LinuxRealtimeOperations {W} (calls : SystemCalls W) : RealtimeOperations W :=
  mkRealtimeOperations (Some (call_mlockall calls)) (Some (call_setschedparam calls))
    (Some (call_setaffinity calls))
    (Some (fun w => let '(count, w) := call_sysconf calls w in
                    (if count <=? 0 then 0 else to_u32 count, w)))
    (Some (fun w => let '((result, policy), w) := call_getschedparam calls w in
                    (if negb (result =? 0) then SCHED_OTHER else policy, w))).

(** ** State *)

(** [next], [observedReset] and [correction] ([distributedClockCorrectionNs]) are the locals
    of [RunCyclic]; [timing] are the timing atomics. [lines] is the history of what was handed
    to the log, and [grid] that of the deadlines of this call of [RunCyclic]: the first one,
    the sum of the corrections, the cycles completed and the cycles skipped. *)
Record Grid := mkGrid { first : Z; corrected : Z; completed : Z; skipped : Z }.

Record timed := mkTimed {
  tbus : bus;
  next : timespec;
  observedReset : Z;
  correction : Z;
  counters : Timing;
  lastLoggedTopology : bytes;
  lines : list bytes;
  grid : Grid
}.

Definition with_bus b s := mkTimed b (next s) (observedReset s) (correction s) (counters s)
  (lastLoggedTopology s) (lines s) (grid s).
Definition with_next n g s := mkTimed (tbus s) n (observedReset s) (correction s) (counters s)
  (lastLoggedTopology s) (lines s) g.
Definition with_reset v s := mkTimed (tbus s) (next s) v (correction s) (counters s)
  (lastLoggedTopology s) (lines s) (grid s).
Definition with_correction v s := mkTimed (tbus s) (next s) (observedReset s) v (counters s)
  (lastLoggedTopology s) (lines s) (grid s).
Definition with_counters v s := mkTimed (tbus s) (next s) (observedReset s) (correction s) v
  (lastLoggedTopology s) (lines s) (grid s).
Definition with_lines last new s := mkTimed (tbus s) (next s) (observedReset s) (correction s)
  (counters s) last (lines s ++ new) (grid s).

(** The answers to one action: those of [Cycle.Io] that do not come from a clock, the result
    of [clock_gettime], the results of [clock_nanosleep], each with the value of [running_]
    read after it, the value of [resetCounterSequence_], and the state of the system. *)
Record Answers {W : Type} := mkAnswers {
  ans_io : Io;
  ans_now : option timespec;
  ans_sleeps : list (Z * bool);
  ans_reset : Z;
  ans_system : W
}.
Arguments Answers : clear implicits.

(** [do ... while (sleepResult == EINTR && running_)]; [None] while the thread still sleeps. *)
Fixpoint sleep_result (sleeps : list (Z * bool)) : option Z :=
  match sleeps with
  | [] => None
  | (result, running) :: sleeps =>
      if (result =? EINTR) && running then sleep_result sleeps else Some result
  end.

Definition obtained (now : option timespec) : bool := match now with Some _ => true | None => false end.

(** The published counters are of their widths. *)
Definition counters_ok (t : Timing) : Prop :=
  in_u64 (cycleOverruns t) /\ in_u32 (currentJitterUs t) /\ in_u32 (maximumJitterUs t).

Section Timed.
Context {W : Type} (calls : SystemCalls W) (realtimeConfiguration : RealtimeConfig).
Context (configuration : InterfaceConfig) (outputCommandTimeout cyclePeriod busIndex : Z).
Context (EC_MAXSLAVE EC_TIMEOUTRET : Z).

Abbreviation act := (worker configuration outputCommandTimeout cyclePeriod busIndex EC_MAXSLAVE).

(** The timeout of [ecx_receive_processdata], in microseconds. *)
Definition ReceiveTimeoutUs : Z := Z.max 500 (Z.min (Z.quot cyclePeriod 2) EC_TIMEOUTRET).

(** The first statements of [Run]. *)
Definition apply_realtime (w : W) : RealtimeResult :=
  fst (ApplyRealtimeConfiguration realtimeConfiguration (LinuxRealtimeOperations calls) w).

(** What the safety protocol sees of the clocks. *)
Definition clock_io (clock reset : bool) (bits : Z) (io : Io) : Io :=
  mkIo clock (io_micros io) (io_sent io) (io_workingCounter io) (io_received io) (io_DCtime io)
    reset (io_publicationPeriod io) bits (io_init io).

Definition answer (a : Answers W) (s : timed) : Io :=
  let clock :=
    match worker_pc (tbus s) with
    | AtWake => bool_decide (sleep_result (ans_sleeps a) = Some 0) && obtained (ans_now a)
    | _ => obtained (ans_now a)
    end in
  clock_io clock (negb (ans_reset a =? observedReset s)) (errorBits (apply_realtime (ans_system a)))
    (ans_io a).

(** Whether [Initialize] gets to [LogDiscoveredTopology]. *)
Definition mapped_io (io : InitIo) (s : bus) : bool :=
  let c := init_context io in
  init_opened io &&
  negb ((init_discovered io <=? 0) || (slavecount c <=? 0) || (EC_MAXSLAVE <=? slavecount c)) &&
  negb ((init_mapped io <? 0) || (if_maximumIoMapBytes configuration <? init_mapped io) ||
        (zlen (map_of s) <? init_mapped io)).

(** The jitter and the reset after waking at [wake]. *)
Definition wake_counters (wake : timespec) (reset : bool) (next : timespec) (t : Timing) : Timing :=
  measure_wake (mkTimes next wake reset wake 0) t.

(** The next action of the bus thread. *)
Definition timed_worker (a : Answers W) (s : timed) : timed :=
  let io := answer a s in
  let s' := with_bus (act io (tbus s)) s in
  match worker_pc (tbus s) with
  | AtStart =>
      let mode := Realtime.schedulingMode (apply_realtime (ans_system a)) in
      with_counters (mkTiming (cycleOverruns (counters s)) (currentJitterUs (counters s))
                       (maximumJitterUs (counters s)) mode) s'
  | AtInitialize =>
      if mapped_io (io_init io) (tbus s) then
        let '(last, new) := LogDiscoveredTopology (if_logicalName configuration)
                              (init_context (io_init io)) (lastLoggedTopology s) in
        with_lines last new s'
      else s'
  | AtEnter =>
      match ans_now a with
      | None => s'
      | Some now =>
          let next := AddToTimespec now cyclePeriod in
          with_reset (ans_reset a) (with_next next (mkGrid (ns next) 0 0 0) s')
      end
  | AtWake =>
      match sleep_result (ans_sleeps a) with
      | None => s
      | Some _ =>
          match (if io_clock io then ans_now a else None) with
          | None => s'
          | Some wake =>
              with_reset (ans_reset a)
                (with_counters (wake_counters wake (io_reset io) (next s) (counters s)) s')
          end
      end
  | AtClock workingCounter =>
      with_correction
        (if confirmed (tbus s) workingCounter && dcConfigured (private (tbus s))
         then Dc.correctionNs (fst (Dc.Update (dcController (private (tbus s))) (io_DCtime io)))
         else 0) s'
  | AtPublish _ =>
      match ans_now a with
      | None => s'
      | Some after =>
          let '(next', missed) := next_deadline (next s) after cyclePeriod (correction s) in
          let g := grid s in
          with_counters
            (count_overruns cyclePeriod (mkTimes (next s) after false after (correction s)) (counters s))
            (with_next next' (mkGrid (first g) (corrected g + correction s) (completed g + 1)
                                (skipped g + missed)) s')
      end
  | _ => s'
  end.

(** ** The thread among the others *)

(** The clocks are normalised, and the other answers are as in [Cycle.io_ok]. *)
Definition answers_ok (a : Answers W) : Prop :=
  io_ok (ans_io a) /\ forall t, ans_now a = Some t -> normal t.

(** An action of the thread, or a step of the main thread or of another bus. *)
Inductive timed_step (s : timed) : timed -> Prop :=
| timed_act a : answers_ok a -> timed_step s (timed_worker a s)
| timed_other b :
    step configuration outputCommandTimeout cyclePeriod busIndex EC_MAXSLAVE (tbus s) b ->
    worker_pc b = worker_pc (tbus s) -> timed_step s (with_bus b s).

Inductive timed_reached : timed -> Prop :=
| timed_start s : started EC_MAXSLAVE (tbus s) -> counters_ok (counters s) -> timed_reached s
| timed_next s s' : timed_reached s -> timed_step s s' -> timed_reached s'.

(** *** The bus without the clock *)

Lemma answer_ok a s : answers_ok a -> io_ok (answer a s).
Proof using Type. by intros [? _]. Qed.

Lemma timed_worker_bus a s :
  tbus (timed_worker a s) = act (answer a s) (tbus s) \/ timed_worker a s = s.
Proof using Type.
  unfold timed_worker. destruct (worker_pc (tbus s)); try (by left).
  - destruct (mapped_io _ _); [|by left]. destruct (LogDiscoveredTopology _ _ _). by left.
  - destruct (ans_now a); by left.
  - destruct (sleep_result _); [|by right]. destruct (if io_clock _ then _ else _); by left.
  - destruct (ans_now a); [|by left]. destruct (next_deadline _ _ _ _). by left.
Qed.

Lemma timed_step_steps s s' :
  timed_step s s' ->
  tbus s' = tbus s \/ step configuration outputCommandTimeout cyclePeriod busIndex EC_MAXSLAVE (tbus s) (tbus s').
Proof using Type.
  intros [a Ha|b Hb _]; [|by right].
  destruct (timed_worker_bus a s) as [->| ->]; [right|by left]. by apply step_worker, answer_ok.
Qed.

(** The invariants of [Cycle] hold of it, since its actions are those of [worker]. *)
Lemma timed_reached_bus s :
  timed_reached s -> reached configuration outputCommandTimeout cyclePeriod busIndex EC_MAXSLAVE (tbus s).
Proof using Type.
  intros H. induction H as [s Hst _|s s' _ (s0 & H0 & IH) Hst].
  - exists (tbus s). split; [done|constructor].
  - exists s0. split; [done|]. apply timed_step_steps in Hst as [->|Hst]; [done|by eapply steps_next].
Qed.

(** *** The deadlines *)

(** The actions of the loop of [RunCyclic]. *)
Definition cyclic (p : pc) : bool :=
  match p with
  | AtLoop | AtWake | AtEpoch | AtApplyEpoch | AtApplyPermitted _ | AtDrain _ _ _ | AtFreshness
  | AtPermitted _ | AtRecheckEpoch _ | AtRecheckPermitted _ | AtRecheckGlobal _ | AtSend _
  | AtAcknowledge _ _ _ | AtCount _ | AtClock _ | AtPublish _ => true
  | _ => false
  end.

(** The loop is entered by [AtEnter] only, with the clock read. *)
Lemma worker_cyclic io b :
  cyclic (worker_pc (act io b)) = true ->
  cyclic (worker_pc b) = true \/ worker_pc b = AtEnter /\ io_clock io = true.
Proof using Type.
  intros H. destruct (worker_pc b) eqn:Hpc; try (by left); unfold worker in H; rewrite Hpc in H;
    try (by repeat match type of H with context [if ?b then _ else _] => destruct b end).
  - repeat match type of H with context [if ?b then _ else _] => destruct b end; cbn in H; by rewrite ?Hpc in H.
  - revert H. cbn zeta. destruct (Initialize _ _ _ _ _) as [? []]; done.
  - destruct (io_clock io); [by right|done].
  - by destruct k.
  - by rewrite Hpc in H.
Qed.

(** The deadline is a whole number of periods and the corrections after the first one. *)
Definition on_grid (s : timed) : Prop :=
  normal (next s) /\ 0 <= completed (grid s) /\ 0 <= skipped (grid s) /\
  ns (next s) = first (grid s) + corrected (grid s)
                + (completed (grid s) + skipped (grid s)) * (cyclePeriod * 1000).

Definition timed_inv (s : timed) : Prop :=
  counters_ok (counters s) /\ (cyclic (worker_pc (tbus s)) = true -> on_grid s).

Lemma wake_counters_ok wake reset n t : counters_ok t -> counters_ok (wake_counters wake reset n t).
Proof using Type.
  intros (H1 & H2 & H3). unfold wake_counters, measure_wake. cbn zeta.
  pose proof (DifferenceMicros_range wake n). unfold in_u32, in_u64 in *.
  cbn [woken deadline reset_requested]. destruct reset; unfold counters_ok, in_u32, in_u64; cbn; lia.
Qed.

Lemma count_overruns_ok c t : 0 < cyclePeriod -> counters_ok t -> counters_ok (count_overruns cyclePeriod c t).
Proof using Type.
  intros Hp (H1 & H2 & H3). unfold count_overruns. pose proof (missed_nonneg cyclePeriod c Hp) as Hm.
  unfold missed_of in Hm. destruct (next_deadline _ _ _ _) as [n missed]. cbn [snd] in Hm.
  unfold counters_ok, in_u64, in_u32 in *. cbn. unfold saturated.
  destruct (Z.ltb_spec (U64_MAX - cycleOverruns t) missed); lia.
Qed.

(** An action that leaves the deadline alone. *)
Lemma grid_kept s s' :
  on_grid s -> next s' = next s -> grid s' = grid s -> on_grid s'.
Proof using Type. unfold on_grid. by intros H -> ->. Qed.

Section Actions.
Context (Hperiod : 0 < cyclePeriod <= 1000000).

Lemma publish_grid a s w :
  answers_ok a -> worker_pc (tbus s) = AtPublish w -> on_grid s -> on_grid (timed_worker a s).
Proof using Hperiod.
  intros [_ Hnow] Hpc Hg. unfold timed_worker. rewrite Hpc. destruct (ans_now a) as [after|]; [|done].
  specialize (Hnow after eq_refl). destruct Hg as (Hn & H1 & H2 & H3).
  pose proof (deadline_catches_up (next s) after cyclePeriod (correction s) Hn Hnow Hperiod) as H.
  destruct (next_deadline _ _ _ _) as [n missed]. destruct H as (Hn' & Hm & E & _).
  unfold on_grid. cbn. split_and!; [done|lia|lia|]. rewrite E, H3. lia.
Qed.

Lemma enter_grid a s :
  answers_ok a -> worker_pc (tbus s) = AtEnter -> ans_now a <> None -> on_grid (timed_worker a s).
Proof using Hperiod.
  intros [_ Hnow] Hpc Hne. unfold timed_worker. rewrite Hpc. destruct (ans_now a) as [now|]; [|done].
  destruct (AddToTimespec_exact now cyclePeriod (Hnow now eq_refl) ltac:(lia)) as [Hn _].
  unfold on_grid. cbn. split_and!; [done|lia|lia|lia].
Qed.

(** The other actions do not touch the deadline. *)
Lemma worker_grid a s :
  worker_pc (tbus s) <> AtEnter -> (forall w, worker_pc (tbus s) <> AtPublish w) ->
  next (timed_worker a s) = next s /\ grid (timed_worker a s) = grid s.
Proof using Type.
  intros H1 H2. unfold timed_worker. destruct (worker_pc (tbus s)); try done.
  - destruct (mapped_io _ _); [|done]. by destruct (LogDiscoveredTopology _ _ _).
  - destruct (sleep_result _); [|done]. by destruct (if io_clock _ then _ else _).
  - by destruct (H2 workingCounter).
Qed.

Lemma worker_counters a s : counters_ok (counters s) -> counters_ok (counters (timed_worker a s)).
Proof using Hperiod.
  intros H. unfold timed_worker. destruct (worker_pc (tbus s)); try done.
  - destruct (mapped_io _ _); [|done]. by destruct (LogDiscoveredTopology _ _ _).
  - by destruct (ans_now a).
  - destruct (sleep_result _); [|done]. destruct (if io_clock _ then _ else _); [|done].
    by apply wake_counters_ok.
  - destruct (ans_now a); [|done]. destruct (next_deadline _ _ _ _) eqn:E. apply count_overruns_ok; [lia|done].
Qed.

Lemma timed_worker_inv a s : answers_ok a -> timed_inv s -> timed_inv (timed_worker a s).
Proof using Hperiod.
  intros Ha [Hc Hg]. split; [by apply worker_counters|]. intros Hcy.
  destruct (timed_worker_bus a s) as [E|E]; [|by rewrite E in *; apply Hg].
  rewrite E in Hcy. apply worker_cyclic in Hcy as [Hcy|[Hpc Hck]].
  - specialize (Hg Hcy). destruct (worker_pc (tbus s)) eqn:Hpc; try done;
      try (by eapply publish_grid);
      destruct (worker_grid a s) as [E1 E2]; rewrite ?Hpc; try done; by apply (grid_kept s).
  - apply enter_grid; [done|done|]. unfold answer in Hck. rewrite Hpc in Hck. cbn in Hck.
    by destruct (ans_now a).
Qed.

Lemma timed_reached_inv s : timed_reached s -> timed_inv s.
Proof using Hperiod.
  intros H. induction H as [s Hst Hc|s s' _ IH Hst].
  - split; [done|]. destruct Hst as [-> _]. done.
  - destruct Hst as [a Ha|b Hb Hpc]; [by apply timed_worker_inv|].
    destruct IH as [Hc Hg]. split; [done|]. cbn. rewrite Hpc. intros Hcy. by apply (grid_kept s); [apply Hg|..].
Qed.
End Actions.
End Timed.

(** ** Properties *)

(** C36: the deadlines never drift: while the thread is in the loop of RunCyclic, its next
    deadline is a normalised time, exactly a whole number of periods (one per cycle completed
    and one per cycle skipped) and the sum of the clock corrections after the first one; and
    the published counters stay within their widths. *)
Theorem deadlines_on_grid {W} (calls : SystemCalls W) realtime configuration timeout period index EC_MAXSLAVE s :
  0 < period <= 1000000 ->
  timed_reached calls realtime configuration timeout period index EC_MAXSLAVE s ->
  counters_ok (counters s) /\
  (cyclic (worker_pc (tbus s)) = true ->
   normal (next s) /\ 0 <= completed (grid s) /\ 0 <= skipped (grid s) /\
   ns (next s) = first (grid s) + corrected (grid s)
                 + (completed (grid s) + skipped (grid s)) * (period * 1000)).
Proof. intros Hp Hr. by eapply timed_reached_inv in Hr. Qed.

(** The receive timeout is at least 500 microseconds and at most SOEM's own; a period of a
    millisecond or more leaves the other half of it. *)
Theorem ReceiveTimeoutUs_bounds period EC_TIMEOUTRET :
  500 <= EC_TIMEOUTRET ->
  500 <= ReceiveTimeoutUs period EC_TIMEOUTRET <= EC_TIMEOUTRET /\
  (1000 <= period -> 2 * ReceiveTimeoutUs period EC_TIMEOUTRET <= period).
Proof.
  intros H. unfold ReceiveTimeoutUs. split; [lia|]. intros Hp. rewrite Z.quot_div_nonneg by lia. dlia.
Qed.

(** *** The sample bus with a clock *)

(** A thread that gets everything it asks for, on four processors. *)
Definition sample_calls : SystemCalls unit :=
  mkSystemCalls unit (fun w => (0, w)) (fun _ w => (0, w)) (fun _ w => (0, w)) (fun w => (4, w))
    (fun w => ((0, 1), w)).

Definition sample_realtime : RealtimeConfig := mkRealtimeConfig true true 80 (Some 2).

Definition sample_answers (now : timespec) : Answers unit :=
  mkAnswers unit sample_io (Some now) [(EINTR, true); (0, true)] 7 tt.

Definition sample_timed : timed :=
  mkTimed sample_start (mkTime 0 0) 0 0 (mkTiming 0 0 0 Other) [] [] (mkGrid 0 0 0 0).

Abbreviation sample_timed_worker :=
  (timed_worker sample_calls sample_realtime sample_configuration 100 5000 0 3).
Abbreviation sample_timed_reached :=
  (timed_reached sample_calls sample_realtime sample_configuration 100 5000 0 3).

(** [n] actions, every one of which finds the clock at [now]. *)
Fixpoint run_timed (n : nat) (now : timespec) (s : timed) : timed :=
  match n with O => s | S n => sample_timed_worker (sample_answers now) (run_timed n now s) end.

Lemma run_timed_reached n now s :
  normal now -> sample_timed_reached s -> sample_timed_reached (run_timed n now s).
Proof.
  intros Hn Hs. induction n as [|n IH]; [done|]. eapply timed_next; [exact IH|]. apply timed_act.
  split; [apply sample_io_ok|]. by intros t [= <-].
Qed.

Lemma sample_timed_start : sample_timed_reached sample_timed.
Proof. apply timed_start; [apply sample_started|by vm_compute]. Qed.

(** The loop is entered at 7.000 s; the first cycle ends at 7.018 s, after two skipped ones. *)
Definition sample_late : timed := run_timed 12 (mkTime 7 18000000) (run_timed 4 (mkTime 7 0) sample_timed).

Lemma sample_late_reached : sample_timed_reached sample_late.
Proof.
  apply run_timed_reached; [by vm_compute|]. apply run_timed_reached; [by vm_compute|].
  apply sample_timed_start.
Qed.

Lemma deadlines_on_grid_witness :
  next sample_late = mkTime 7 20000000 /\ skipped (grid sample_late) = 2 /\
  ns (next sample_late) = first (grid sample_late) + corrected (grid sample_late)
    + (completed (grid sample_late) + skipped (grid sample_late)) * (5000 * 1000).
Proof.
  split; [by vm_compute|]. split; [by vm_compute|].
  apply (deadlines_on_grid sample_calls sample_realtime sample_configuration 100 5000 0 3 sample_late).
  - lia.
  - apply sample_late_reached.
  - by vm_compute.
Defined.

Lemma ReceiveTimeoutUs_bounds_witness : 2 * ReceiveTimeoutUs 5000 2000 <= 5000.
Proof. apply (ReceiveTimeoutUs_bounds 5000 2000); lia. Defined.
