(* ===== verification/Assembly.v ===== *)
(** The client's reassembly of process images from PdoInput messages: [AssembleInput] and the
    queue of complete images of [client.cpp]. Every image that the client hands out is whole
    and of one bus cycle, and the chunks that the daemon cuts an image into give the image
    back. *)

From S2P Require Import Prelude Protocol.

(** ** Data *)

Definition kMaximumPdoAssemblies : Z := 16.
Definition kMaximumPdoImages : Z := 32.
Definition kMaximumPdoAssemblyStorage : Z := 4 * 1024 * 1024.
Definition kMaximumPdoImageQueueStorage : Z := 4 * 1024 * 1024.

Record PdoImage := mkImage {
  image_busIndex : Z;
  image_subDeviceIndex : Z;
  image_epoch : Z;
  image_cycleSequence : Z;
  image_data : bytes
}.

Record PdoAssembly := mkAssembly {
  assembly_busIndex : Z;
  assembly_subDeviceIndex : Z;
  assembly_epoch : Z;
  assembly_cycleSequence : Z;
  assembly_data : bytes;
  received : bytes;
  receivedBytes : Z
}.

(** [assemblies_], [assemblyStorage_], [inputImages_] and [inputImageStorage_]. *)
Record Inbox := mkInbox {
  assemblies : list PdoAssembly;
  assemblyStorage : Z;
  inputImages : list PdoImage;
  inputImageStorage : Z
}.

Definition empty_inbox : Inbox := mkInbox [] 0 [] 0.

(** ** Operations *)

Definition same_target (input : PdoInputPayload) (a : PdoAssembly) : bool :=
  (assembly_busIndex a =? input_busIndex input) &&
  (assembly_subDeviceIndex a =? input_subDeviceIndex input).

Definition same_cycle (input : PdoInputPayload) (a : PdoAssembly) : bool :=
  (assembly_epoch a =? input_epoch input) &&
  (assembly_cycleSequence a =? input_cycleSequence input) &&
  (zlen (assembly_data a) =? input_totalSize input).

Definition storage_of (a : PdoAssembly) : Z := zlen (assembly_data a) + zlen (received a).
Definition image_size (i : PdoImage) : Z := zlen (image_data i).

Definition total_size {A} (size : A -> Z) (l : list A) : Z :=
  fold_left (fun total x => total + size x) l 0.

(** [required > limit - std::min(storage, limit)]. *)
Definition exceeds (limit storage required : Z) : bool := limit - Z.min storage limit <? required.

(** [while (!queue.empty() && (queue.size() >= count || ...)) queue.pop_front()]. *)
Fixpoint evict {A} (size : A -> Z) (count limit required : Z) (l : list A) (storage : Z)
    : list A * Z :=
  match l with
  | [] => ([], storage)
  | x :: rest =>
      if (count <=? zlen l) || exceeds limit storage required
      then evict size count limit required rest (storage - size x)
      else (l, storage)
  end.

Definition set_at (l : bytes) (index value : Z) : bytes := <[Z.to_nat index := value]> l.

(** The loop over [input.data]; [None] when a byte contradicts one received before. *)
Fixpoint store_bytes (data : bytes) (destination : Z) (a : PdoAssembly) : option PdoAssembly :=
  match data with
  | [] => Some a
  | value :: data =>
      let known := negb (byte_at (received a) destination =? 0) in
      if known && negb (byte_at (assembly_data a) destination =? value) then None
      else
        store_bytes data (destination + 1)
          (mkAssembly (assembly_busIndex a) (assembly_subDeviceIndex a) (assembly_epoch a)
             (assembly_cycleSequence a) (set_at (assembly_data a) destination value)
             (if known then received a else set_at (received a) destination 1)
             (if known then receivedBytes a else receivedBytes a + 1))
  end.

Definition new_assembly (input : PdoInputPayload) : PdoAssembly :=
  mkAssembly (input_busIndex input) (input_subDeviceIndex input) (input_epoch input)
    (input_cycleSequence input) (replicate (Z.to_nat (input_totalSize input)) 0)
    (replicate (Z.to_nat (input_totalSize input)) 0) 0.

(** The assemblies that are not of an older cycle of the same SubDevice. *)
Definition retained (input : PdoInputPayload) (b : Inbox) : list PdoAssembly :=
  List.filter (fun a => negb (same_target input a && negb (same_cycle input a))) (assemblies b).

(** The assembly that the chunk belongs to, found or created at the back of the queue: its
    position ([None] when there is no room), and the queue. *)
Definition select_assembly (input : PdoInputPayload) (b : Inbox) : option nat * Inbox :=
  let kept := retained input b in
  let storage := total_size storage_of kept in
  match list_find (fun a => same_target input a && same_cycle input a) kept with
  | Some (i, _) => (Some i, mkInbox kept storage (inputImages b) (inputImageStorage b))
  | None =>
      let required := input_totalSize input * 2 in
      let '(kept, storage) :=
        evict storage_of kMaximumPdoAssemblies kMaximumPdoAssemblyStorage required
          kept storage in
      if exceeds kMaximumPdoAssemblyStorage storage required
      then (None, mkInbox kept storage (inputImages b) (inputImageStorage b))
      else (Some (length kept),
            mkInbox (kept ++ [new_assembly input]) (storage + required)
              (inputImages b) (inputImageStorage b))
  end.

(** [assemblies_.erase(assembly)]. *)
Definition erase_assembly (i : nat) (a : PdoAssembly) (b : Inbox) : Inbox :=
  mkInbox (delete i (assemblies b)) (assemblyStorage b - storage_of a)
    (inputImages b) (inputImageStorage b).

(** The complete assembly becomes an image. *)
Definition finish_assembly (i : nat) (a : PdoAssembly) (b : Inbox) : Inbox :=
  let completedBytes := zlen (assembly_data a) in
  let '(images, storage) :=
    evict image_size kMaximumPdoImages kMaximumPdoImageQueueStorage completedBytes
      (inputImages b) (inputImageStorage b) in
  if exceeds kMaximumPdoImageQueueStorage storage completedBytes
  then erase_assembly i a (mkInbox (assemblies b) (assemblyStorage b) images storage)
  else
    erase_assembly i a
      (mkInbox (assemblies b) (assemblyStorage b)
         (images ++ [mkImage (assembly_busIndex a) (assembly_subDeviceIndex a)
                       (assembly_epoch a) (assembly_cycleSequence a) (assembly_data a)])
         (storage + completedBytes)).

Definition AssembleInput (input : PdoInputPayload) (b : Inbox) : Inbox :=
  match select_assembly input b with
  | (None, b) => b
  | (Some i, b) =>
      match assemblies b !! i with
      | None => b
      | Some a =>
          match store_bytes (input_data input) (input_offset input) a with
          | None => erase_assembly i a b
          | Some a =>
              let b := mkInbox (<[i := a]> (assemblies b)) (assemblyStorage b)
                         (inputImages b) (inputImageStorage b) in
              if negb (receivedBytes a =? zlen (assembly_data a)) then b
              else finish_assembly i a b
          end
      end
  end.

(** [PopInputImage]. *)
Definition PopInputImage (b : Inbox) : Inbox * option PdoImage :=
  match inputImages b with
  | [] => (b, None)
  | image :: images =>
      (mkInbox (assemblies b) (assemblyStorage b) images
         (inputImageStorage b - image_size image), Some image)
  end.

(** ** Eviction *)

Lemma total_size_acc {A} (size : A -> Z) l n :
  fold_left (fun total x => total + size x) l n = n + total_size size l.
Proof.
  unfold total_size. revert n. induction l as [|x l IH]; intros n; cbn [fold_left]; [lia|].
  rewrite (IH (n + size x)), (IH (0 + size x)). lia.
Qed.

Lemma total_size_cons {A} (size : A -> Z) x l : total_size size (x :: l) = size x + total_size size l.
Proof. unfold total_size at 1. cbn. by rewrite total_size_acc. Qed.

Lemma total_size_app {A} (size : A -> Z) l k :
  total_size size (l ++ k) = total_size size l + total_size size k.
Proof. induction l as [|x l IH]; [done|]. cbn [app]. rewrite !total_size_cons, IH. lia. Qed.

Lemma total_size_snoc {A} (size : A -> Z) l x : total_size size (l ++ [x]) = total_size size l + size x.
Proof. rewrite total_size_app, total_size_cons. change (total_size size []) with 0. lia. Qed.

Lemma total_size_nonneg {A} (size : A -> Z) l :
  (forall x, 0 <= size x) -> 0 <= total_size size l.
Proof.
  intros H. induction l as [|x l IH]; [done|]. rewrite total_size_cons. specialize (H x). lia.
Qed.

Lemma total_size_sublist {A} (size : A -> Z) l k :
  (forall x, 0 <= size x) -> l `sublist_of` k -> total_size size l <= total_size size k.
Proof.
  intros H Hs. induction Hs as [|x l k _ IH|x l k _ IH]; [done| |]; rewrite !total_size_cons;
    specialize (H x); lia.
Qed.

Lemma filter_sublist_of {A} f (l : list A) : List.filter f l `sublist_of` l.
Proof. induction l as [|x l IH]; [done|]. cbn. by destruct (f x); constructor. Qed.

Lemma total_size_delete {A} (size : A -> Z) (l : list A) i x :
  l !! i = Some x -> total_size size (delete i l) = total_size size l - size x.
Proof.
  intros H. rewrite <- (take_drop_middle l i x H) at 2. rewrite delete_take_drop, !total_size_app.
  rewrite total_size_cons. lia.
Qed.

Lemma total_size_insert {A} (size : A -> Z) (l : list A) i x y :
  l !! i = Some x -> size y = size x -> total_size size (<[i := y]> l) = total_size size l.
Proof.
  intros H E. rewrite <- (take_drop_middle l i x H) at 2.
  rewrite insert_take_drop by (by eapply lookup_lt_Some).
  rewrite !total_size_app, !total_size_cons. lia.
Qed.

Section Evict.
Context {A : Type} (size : A -> Z) (count limit required : Z).
Context (Hsize : forall x, 0 <= size x) (Hcount : 0 < count) (Hreq : 0 <= required <= limit).

(** A queue in its bounds loses elements from the front only, until a further element of the
    required size is within the bounds; a queue with that room loses none. *)
Lemma evict_spec l storage l' storage' :
  evict size count limit required l storage = (l', storage') ->
  storage = total_size size l -> storage <= limit ->
  (exists n, l' = drop n l) /\ storage' = total_size size l' /\ zlen l' < count /\
  storage' + required <= limit /\
  (zlen l < count -> storage + required <= limit -> l' = l).
Proof using Hcount Hreq Hsize.
  revert storage. induction l as [|x l IH]; intros storage He Hs Hl; cbn [evict] in He.
  - injection He as <- <-. cbn in Hs. subst storage. split_and!; try done.
    + by exists O.
    + cbn. lia.
  - rewrite total_size_cons in Hs. pose proof (total_size_nonneg size l Hsize) as Hn.
    specialize (Hsize x) as Hx. unfold exceeds in He. rewrite zlen_cons in *.
    destruct ((_ <=? _) || _) eqn:E.
    + destruct (IH _ He) as ([n ->] & H2 & H3 & H4 & _); [lia|lia|].
      split_and!; try done; [by exists (S n)|].
      apply orb_true_iff in E as [E|E]; lia.
    + injection He as <- <-. apply orb_false_iff in E as [E1 E2].
      split_and!; try done.
      * by exists O.
      * rewrite total_size_cons. lia.
      * rewrite zlen_cons. lia.
      * lia.
Qed.
End Evict.

(** ** The newest elements that a queue has room for *)

Section Newest.
Context {A : Type} (size : A -> Z) (count limit : Z).
Context (Hsize : forall x, 0 <= size x) (Hcount : 0 < count) (Hlimit : 0 <= limit).

Definition within (l : list A) : Prop := zlen l <= count /\ total_size size l <= limit.

#[export] Instance within_decision l : Decision (within l).
Proof using Type. unfold within. apply _. Defined.

(** The longest suffix within the bounds. *)
Fixpoint newest (l : list A) : list A :=
  match l with
  | [] => []
  | _ :: rest => if decide (within l) then l else newest rest
  end.

Lemma within_app_l l r : within (l ++ r) -> within l.
Proof using Hsize.
  unfold within. rewrite zlen_app, total_size_app. pose proof (zlen_nonneg r).
  pose proof (total_size_nonneg size r Hsize). lia.
Qed.

Lemma newest_within l : within l -> newest l = l.
Proof using Type. destruct l; [done|]. intros H. cbn [newest]. by rewrite decide_True. Qed.

Lemma newest_app l r : newest (newest l ++ r) = newest (l ++ r).
Proof using Hsize.
  induction l as [|x l IH]; [done|]. cbn [newest app]. destruct (decide (within (x :: l))) as [H|H].
  - done.
  - rewrite IH, decide_False; [done|]. intros H'. by apply H, (within_app_l _ r).
Qed.

Lemma newest_suffix l :
  exists n, newest l = drop n l /\ within (drop n l) /\ forall m, (m < n)%nat -> ~ within (drop m l).
Proof using Hcount Hlimit.
  induction l as [|x l (n & E & Hw & Hm)]; cbn [newest].
  - exists O. split_and!; [done| |intros; lia]. split; [rewrite drop_nil, zlen_nil; lia|by rewrite drop_nil].
  - destruct (decide (within (x :: l))) as [H|H]; [exists O; split_and!; [done|done|intros; lia]|].
    exists (S n). split_and!; [done|done|]. intros [|m] Hlt; [done|]. apply Hm. lia.
Qed.

(** Making room for an element and appending it keeps the newest. *)
Lemma evict_newest x l storage l' storage' :
  evict size count limit (size x) l storage = (l', storage') ->
  storage = total_size size l -> storage <= limit -> size x <= limit ->
  l' ++ [x] = newest (l ++ [x]).
Proof using Hcount Hsize.
  intros He Hs Hl Hx. revert storage He Hs Hl.
  induction l as [|y l IH]; intros storage He Hs Hl; cbn [evict] in He.
  - injection He as <- <-. symmetry. apply newest_within. unfold within.
    rewrite total_size_snoc, zlen_app, zlen_cons, zlen_nil. cbn. lia.
  - rewrite total_size_cons in Hs. specialize (Hsize x) as Hx0. specialize (Hsize y) as Hy.
    pose proof (total_size_nonneg size l Hsize) as Hn. unfold exceeds in He. cbn [app newest].
    rewrite zlen_cons in He. destruct ((_ <=? _) || _) eqn:E.
    + rewrite decide_False; [eapply IH; [exact He|lia|lia]|]. unfold within.
      rewrite total_size_cons, total_size_snoc, zlen_cons, zlen_app, zlen_cons, zlen_nil. lia.
    + injection He as <- <-. rewrite decide_True; [done|]. unfold within.
      rewrite total_size_cons, total_size_snoc, zlen_cons, zlen_app, zlen_cons, zlen_nil. lia.
Qed.
End Newest.

Lemma storage_of_nonneg a : 0 <= storage_of a.
Proof. unfold storage_of. pose proof (zlen_nonneg (assembly_data a)). pose proof (zlen_nonneg (received a)). lia. Qed.

Lemma image_size_nonneg i : 0 <= image_size i.
Proof. apply zlen_nonneg. Qed.

(** At most 32 images and 4 MiB. *)
Definition images_within : list PdoImage -> Prop :=
  within image_size kMaximumPdoImages kMaximumPdoImageQueueStorage.

Definition newest_images : list PdoImage -> list PdoImage :=
  newest image_size kMaximumPdoImages kMaximumPdoImageQueueStorage.

(** ** What has been received *)

(** The positions that [received] marks. *)
Definition marked (l : bytes) : Z := zlen (List.filter (fun b => negb (b =? 0)) l).

Lemma marked_cons b l : marked (b :: l) = bit (negb (b =? 0)) + marked l.
Proof. unfold marked. cbn. destruct (b =? 0); cbn [negb bit]; [done|]. by rewrite zlen_cons. Qed.

Lemma marked_set l i :
  0 <= i < zlen l -> byte_at l i = 0 -> marked (set_at l i 1) = marked l + 1.
Proof.
  unfold set_at, byte_at, zlen. intros Hi. remember (Z.to_nat i) as n eqn:En.
  assert (n < length l)%nat as Hn by lia. clear Hi En i. revert n Hn.
  induction l as [|b l IH]; intros n Hn H0; [cbn in Hn; lia|].
  destruct n as [|n]; cbn in Hn, H0 |- *; rewrite !marked_cons.
  - subst b. cbn. lia.
  - rewrite IH; [lia|lia|done].
Qed.

Lemma marked_full l : marked l = zlen l -> forall i, 0 <= i < zlen l -> byte_at l i <> 0.
Proof.
  assert (forall l, marked l <= zlen l) as Hle.
  { clear. induction l as [|b l IH]; [done|]. rewrite marked_cons, zlen_cons.
    pose proof (bit_le_1 (negb (b =? 0))). lia. }
  unfold byte_at. induction l as [|b l IH]; intros Hf i Hi.
  { unfold zlen in Hi. cbn [length] in Hi. lia. }
  rewrite marked_cons, zlen_cons in *. specialize (Hle l). destruct (Z.eqb_spec b 0) as [->|Hb]; cbn [negb bit] in Hf; [lia|].
  destruct (Z.eq_dec i 0) as [->|H0]; [done|].
  replace (Z.to_nat i) with (S (Z.to_nat (i - 1))) by lia. cbn. apply IH; lia.
Qed.

Lemma marked_zeros n : marked (replicate n 0) = 0.
Proof. induction n as [|n IH]; [done|]. cbn [replicate]. by rewrite marked_cons, IH. Qed.

Lemma zlen_set_at l i v : zlen (set_at l i v) = zlen l.
Proof. unfold zlen, set_at. by rewrite length_insert. Qed.

Lemma byte_at_set_at l i v j :
  0 <= i < zlen l -> 0 <= j -> byte_at (set_at l i v) j = if j =? i then v else byte_at l j.
Proof.
  unfold byte_at, set_at, zlen. intros Hi Hj. destruct (Z.eqb_spec j i) as [->|H].
  - by rewrite list_lookup_insert_eq by lia.
  - by rewrite list_lookup_insert_ne by lia.
Qed.

(** One of the messages [heard] says that byte [i] of the image that [a] collects is [v]. *)
Definition told (heard : list PdoInputPayload) (bus sub epoch cycle total i v : Z) : Prop :=
  exists x, x ∈ heard /\ input_busIndex x = bus /\ input_subDeviceIndex x = sub /\
    input_epoch x = epoch /\ input_cycleSequence x = cycle /\ input_totalSize x = total /\
    input_offset x <= i < input_offset x + zlen (input_data x) /\
    byte_at (input_data x) (i - input_offset x) = v.

Definition told_to heard (a : PdoAssembly) (i : Z) : Prop :=
  told heard (assembly_busIndex a) (assembly_subDeviceIndex a) (assembly_epoch a)
    (assembly_cycleSequence a) (zlen (assembly_data a)) i (byte_at (assembly_data a) i).

Record assembly_ok (heard : list PdoInputPayload) (a : PdoAssembly) : Prop := {
  assembly_sized : zlen (received a) = zlen (assembly_data a);
  assembly_size : 0 < zlen (assembly_data a) <= kMaximumPdoImage;
  assembly_count : receivedBytes a = marked (received a);
  assembly_told i : 0 <= i < zlen (received a) -> byte_at (received a) i <> 0 -> told_to heard a i
}.

(** Every byte of the image comes from messages about the same SubDevice, epoch and cycle. *)
Definition image_ok (heard : list PdoInputPayload) (m : PdoImage) : Prop :=
  0 < zlen (image_data m) <= kMaximumPdoImage /\
  forall i, 0 <= i < zlen (image_data m) ->
    told heard (image_busIndex m) (image_subDeviceIndex m) (image_epoch m) (image_cycleSequence m)
      (zlen (image_data m)) i (byte_at (image_data m) i).

Definition target_of (a : PdoAssembly) : Z * Z := (assembly_busIndex a, assembly_subDeviceIndex a).

Record inbox_ok (heard : list PdoInputPayload) (b : Inbox) : Prop := {
  inbox_assemblies : Forall (assembly_ok heard) (assemblies b);
  inbox_targets : NoDup (map target_of (assemblies b));
  inbox_count : zlen (assemblies b) <= kMaximumPdoAssemblies;
  inbox_storage : assemblyStorage b = total_size storage_of (assemblies b) /\
                  assemblyStorage b <= kMaximumPdoAssemblyStorage;
  inbox_images : Forall (image_ok heard) (inputImages b);
  inbox_images_count : zlen (inputImages b) <= kMaximumPdoImages;
  inbox_images_storage : inputImageStorage b = total_size image_size (inputImages b) /\
                         inputImageStorage b <= kMaximumPdoImageQueueStorage
}.

(** What the decoder guarantees of a message. *)
Record input_ok (x : PdoInputPayload) : Prop := {
  input_total_ok : 0 < input_totalSize x <= kMaximumPdoImage;
  input_fits : 0 <= input_offset x /\ input_offset x + zlen (input_data x) <= input_totalSize x
}.

(** ** Preservation *)

Lemma assembly_ok_more heard heard' a :
  (forall x, x ∈ heard -> x ∈ heard') -> assembly_ok heard a -> assembly_ok heard' a.
Proof.
  intros H [H1 H2 H3 H4]. split; try done. intros i Hi Hr.
  destruct (H4 i Hi Hr) as (x & Hx & Hrest). exists x. auto.
Qed.

Lemma image_ok_more heard heard' m :
  (forall x, x ∈ heard -> x ∈ heard') -> image_ok heard m -> image_ok heard' m.
Proof.
  intros H [H1 H2]. split; [done|]. intros i Hi.
  destruct (H2 i Hi) as (x & Hx & Hrest). exists x. auto.
Qed.

Lemma inbox_ok_more heard heard' b :
  (forall x, x ∈ heard -> x ∈ heard') -> inbox_ok heard b -> inbox_ok heard' b.
Proof.
  intros H [H1 H2 H3 H4 H5 H6 H7]. split; try done.
  - eapply Forall_impl; [exact H1|]. intros. by eapply assembly_ok_more.
  - eapply Forall_impl; [exact H5|]. intros. by eapply image_ok_more.
Qed.

Lemma new_assembly_ok heard x : input_ok x -> assembly_ok heard (new_assembly x).
Proof.
  intros [Ht _]. unfold kMaximumPdoImage in *. split; cbn [received assembly_data new_assembly receivedBytes].
  - done.
  - unfold zlen, kMaximumPdoImage. rewrite length_replicate. lia.
  - by rewrite marked_zeros.
  - intros i Hi Hr. destruct Hr. unfold byte_at.
    rewrite lookup_replicate_2; [done|]. unfold zlen in Hi. rewrite length_replicate in Hi. lia.
Qed.

(** What a chunk leaves as it is. *)
Definition same_key (a a' : PdoAssembly) : Prop :=
  target_of a' = target_of a /\ assembly_epoch a' = assembly_epoch a /\
  assembly_cycleSequence a' = assembly_cycleSequence a /\
  zlen (assembly_data a') = zlen (assembly_data a).

Lemma store_bytes_ok heard data destination a a' :
  store_bytes data destination a = Some a' ->
  assembly_ok heard a -> 0 <= destination -> destination + zlen data <= zlen (assembly_data a) ->
  (forall j, 0 <= j < zlen data ->
     told heard (assembly_busIndex a) (assembly_subDeviceIndex a) (assembly_epoch a)
       (assembly_cycleSequence a) (zlen (assembly_data a)) (destination + j) (byte_at data j)) ->
  assembly_ok heard a' /\ same_key a a'.
Proof.
  revert destination a. induction data as [|value data IH]; intros destination a Hs Ha Hd Hfit Htold.
  { injection Hs as <-. by repeat split; apply Ha. }
  cbn [store_bytes] in Hs. rewrite zlen_cons in Hfit. pose proof (zlen_nonneg data) as Hn.
  set (known := negb (byte_at (received a) destination =? 0)) in *.
  destruct (known && negb _) eqn:E; [discriminate|].
  destruct Ha as [Hsized Hsize Hcount Ha].
  apply IH in Hs as [H1 H2].
  - split; [done|]. destruct H2 as (K1 & K2 & K3 & K4). cbn in K1, K2, K3.
    cbn [assembly_data] in K4. rewrite zlen_set_at in K4. by repeat split.
  - assert (zlen (if known then received a else set_at (received a) destination 1) = zlen (received a)) as El
      by (destruct known; [done|apply zlen_set_at]).
    split; unfold told_to;
      cbn [received assembly_data receivedBytes assembly_busIndex assembly_subDeviceIndex
           assembly_epoch assembly_cycleSequence]; rewrite ?El, ?zlen_set_at; [done|done| |].
    + destruct known eqn:Ek; [done|]. rewrite marked_set; [lia|lia|].
      unfold known in Ek. apply negb_false_iff in Ek. lia.
    + intros i Hi Hr. rewrite byte_at_set_at by lia. destruct (Z.eqb_spec i destination) as [->|Hne].
      * specialize (Htold 0). rewrite Z.add_0_r in Htold. apply Htold. rewrite zlen_cons. lia.
      * apply Ha; [done|]. destruct known; [done|].
        rewrite byte_at_set_at in Hr by lia. by rewrite (proj2 (Z.eqb_neq _ _) Hne) in Hr.
  - lia.
  - cbn [assembly_data]. rewrite zlen_set_at. lia.
  - cbn [assembly_data assembly_busIndex assembly_subDeviceIndex assembly_epoch assembly_cycleSequence].
    rewrite zlen_set_at. intros j Hj. specialize (Htold (j + 1)).
    replace (destination + 1 + j) with (destination + (j + 1)) by lia.
    replace (byte_at data j) with (byte_at (value :: data) (j + 1)); [apply Htold; rewrite zlen_cons; lia|].
    unfold byte_at. by replace (Z.to_nat (j + 1)) with (S (Z.to_nat j)) by lia.
Qed.

(** The assembly of a message is the one with its key. *)
Definition belongs (x : PdoInputPayload) (a : PdoAssembly) : Prop :=
  assembly_busIndex a = input_busIndex x /\ assembly_subDeviceIndex a = input_subDeviceIndex x /\
  assembly_epoch a = input_epoch x /\ assembly_cycleSequence a = input_cycleSequence x /\
  zlen (assembly_data a) = input_totalSize x.

Lemma belongs_iff x a : same_target x a && same_cycle x a = true <-> belongs x a.
Proof. unfold same_target, same_cycle, belongs. rewrite !andb_true_iff, !Z.eqb_eq. tauto. Qed.

Lemma belongs_new x : input_ok x -> belongs x (new_assembly x).
Proof.
  intros [? _]. repeat split. cbn. unfold zlen. rewrite length_replicate. lia.
Qed.

Lemma store_input_ok heard x a a' :
  x ∈ heard -> input_ok x -> belongs x a -> assembly_ok heard a ->
  store_bytes (input_data x) (input_offset x) a = Some a' -> assembly_ok heard a' /\ same_key a a'.
Proof.
  intros Hx [_ [Ho Hf]] (B1 & B2 & B3 & B4 & B5) Ha Hs.
  eapply store_bytes_ok; [exact Hs|done|done|lia|]. intros j Hj. exists x.
  split_and!; try done; [lia|lia|]. f_equal. lia.
Qed.

Lemma sub_inbox heard b l :
  inbox_ok heard b -> l `sublist_of` assemblies b ->
  inbox_ok heard (mkInbox l (total_size storage_of l) (inputImages b) (inputImageStorage b)).
Proof.
  intros [H1 H2 H3 H4 H5 H6 H7] Hl. split; cbn; try done.
  - apply Forall_forall. intros a Ha. eapply Forall_forall; [exact H1|].
    by eapply elem_of_submseteq; [exact Ha|apply sublist_submseteq].
  - eapply sublist_NoDup; [exact H2|]. by apply (fmap_sublist target_of).
  - apply sublist_length in Hl. unfold zlen in *. lia.
  - split; [done|]. pose proof (total_size_sublist storage_of _ _ storage_of_nonneg Hl). lia.
Qed.

Lemma retained_target x b a : a ∈ retained x b -> same_target x a = true -> belongs x a.
Proof.
  intros Ha Ht. apply belongs_iff. apply list_elem_of_In, filter_In in Ha as [_ Ha].
  rewrite Ht in Ha |- *. cbn in *. by destruct (same_cycle x a).
Qed.

Lemma find_belongs x (l : list PdoAssembly) :
  match list_find (fun a => same_target x a && same_cycle x a) l with
  | Some (i, _) => exists a, l !! i = Some a /\ belongs x a
  | None => forall a, a ∈ l -> ~ belongs x a
  end.
Proof.
  destruct (list_find _ l) as [[i a]|] eqn:E.
  - apply list_find_Some in E as (Hi & Hb & _). exists a. split; [done|].
    by apply belongs_iff, Is_true_true.
  - apply list_find_None in E. intros a Ha Hb. rewrite Forall_forall in E.
    apply (E a Ha). by apply Is_true_true, belongs_iff.
Qed.

Lemma select_assembly_ok heard x b :
  inbox_ok heard b -> input_ok x ->
  let r := select_assembly x b in
  inbox_ok heard (snd r) /\ inputImages (snd r) = inputImages b /\
  exists i a, fst r = Some i /\ assemblies (snd r) !! i = Some a /\ belongs x a /\
    (a ∈ assemblies b \/ a = new_assembly x /\ forall a', a' ∈ assemblies b -> ~ belongs x a') /\
    (forall a', a' ∈ assemblies (snd r) -> a' ∈ assemblies b \/ a' = a).
Proof.
  intros Hb Hx. unfold select_assembly.
  pose proof (find_belongs x (retained x b)) as Hf.
  assert (retained x b `sublist_of` assemblies b) as Hsub by apply filter_sublist_of.
  destruct (list_find _ _) as [[i a]|].
  { destruct Hf as (a' & Ha' & Hbel). split; [by apply sub_inbox|]. split; [done|].
    assert (forall a0, a0 ∈ retained x b -> a0 ∈ assemblies b) as Hin
      by (intros a0 H0; by eapply elem_of_submseteq; [exact H0|apply sublist_submseteq]).
    exists i, a'. split_and!; try done; [left; by eapply Hin, list_elem_of_lookup_2|].
    intros a0 H0. left. by apply Hin. }
  pose proof (sub_inbox heard b _ Hb Hsub) as [_ _ _ [_ Hst] _ _ _].
  cbn [assemblies assemblyStorage inputImages inputImageStorage] in *.
  pose proof (input_total_ok x Hx) as Hsize. unfold kMaximumPdoImage in Hsize.
  destruct (evict _ _ _ _ _ _) as [kept storage] eqn:Ee.
  unshelve epose proof (evict_spec storage_of kMaximumPdoAssemblies kMaximumPdoAssemblyStorage
    (input_totalSize x * 2) storage_of_nonneg _ _ _ _ _ _ Ee eq_refl Hst) as ([n ->] & -> & Hc & Hr & _);
    [unfold kMaximumPdoAssemblies; lia|unfold kMaximumPdoAssemblyStorage; lia|].
  assert (drop n (retained x b) `sublist_of` assemblies b) as Hsub'
    by (etrans; [apply sublist_drop|done]).
  destruct (sub_inbox heard b _ Hb Hsub') as [H1 H2 H3 [H4 H4'] H5 H6 H7].
  cbn [assemblies assemblyStorage inputImages inputImageStorage] in *.
  replace (exceeds _ _ _) with false by (symmetry; unfold exceeds; lia).
  assert (storage_of (new_assembly x) = input_totalSize x * 2) as Hnew.
  { unfold storage_of, zlen. cbn. rewrite !length_replicate. lia. }
  split; [split; cbn [snd assemblies assemblyStorage inputImages inputImageStorage]; try done|].
  - apply Forall_app. split; [done|]. constructor; [by apply new_assembly_ok|done].
  - rewrite map_app. apply NoDup_app. split_and!; [done| |apply NoDup_singleton].
    intros t Ht Hn. apply list_elem_of_singleton in Hn as ->.
    apply list_elem_of_fmap in Ht as (a & Ht & Ha).
    apply (elem_of_submseteq _ (retained x b)) in Ha; [|apply sublist_submseteq, sublist_drop].
    apply (Hf a Ha), (retained_target x b a Ha). unfold same_target, target_of in *.
    injection Ht as -> ->. by rewrite !Z.eqb_refl.
  - rewrite zlen_app. change (zlen [new_assembly x]) with 1. lia.
  - rewrite total_size_snoc, Hnew. lia.
  - split; [done|]. exists (length (drop n (retained x b))), (new_assembly x). cbn [fst snd assemblies].
    split_and!; [done|by rewrite lookup_app_r, Nat.sub_diag by lia|by apply belongs_new| |].
    + right. split; [done|]. intros a' Ha' Hbel. apply (Hf a'); [|done].
      apply list_elem_of_In, filter_In. split; [by apply list_elem_of_In|].
      apply belongs_iff in Hbel. apply andb_true_iff in Hbel as [-> ->]. done.
    + intros a' [Ha'|Ha'%list_elem_of_singleton]%elem_of_app; [left|by right].
      by eapply elem_of_submseteq; [exact Ha'|apply sublist_submseteq].
Qed.

Lemma same_key_storage heard a a' :
  assembly_ok heard a -> assembly_ok heard a' -> same_key a a' -> storage_of a' = storage_of a.
Proof.
  intros Ha Ha' (_ & _ & _ & H). unfold storage_of.
  rewrite (assembly_sized _ _ Ha), (assembly_sized _ _ Ha'). lia.
Qed.

Lemma erase_assembly_ok heard i a b :
  inbox_ok heard b -> assemblies b !! i = Some a -> inbox_ok heard (erase_assembly i a b).
Proof.
  intros Hb Hi. unfold erase_assembly. destruct (inbox_storage _ _ Hb) as [-> _].
  rewrite <- (total_size_delete _ _ _ _ Hi). apply sub_inbox; [done|apply sublist_delete].
Qed.

Lemma put_assembly_ok heard i a a' b :
  inbox_ok heard b -> assemblies b !! i = Some a -> assembly_ok heard a' -> same_key a a' ->
  inbox_ok heard (mkInbox (<[i := a']> (assemblies b)) (assemblyStorage b)
                    (inputImages b) (inputImageStorage b)).
Proof.
  intros [H1 H2 H3 [H4 H4'] H5 H6 H7] Hi Ha' Hk. split; cbn [assemblies assemblyStorage inputImages inputImageStorage]; try done.
  - by apply Forall_insert.
  - assert (map target_of (<[i := a']> (assemblies b)) = map target_of (assemblies b)) as ->; [|done].
    change (target_of <$> <[i := a']> (assemblies b) = target_of <$> assemblies b).
    rewrite list_fmap_insert. apply list_insert_id. rewrite list_lookup_fmap, Hi. cbn.
    by destruct Hk as [-> _].
  - unfold zlen in *. by rewrite length_insert.
  - rewrite (total_size_insert _ _ _ a a'); [done..|].
    eapply same_key_storage; [by eapply Forall_lookup_1 in H1|done|done].
Qed.

Lemma finish_assembly_spec heard i a b :
  inbox_ok heard b -> assemblies b !! i = Some a -> receivedBytes a = zlen (assembly_data a) ->
  inbox_ok heard (finish_assembly i a b) /\
  assemblies (finish_assembly i a b) = delete i (assemblies b) /\
  inputImages (finish_assembly i a b) = newest_images (inputImages b ++
    [mkImage (assembly_busIndex a) (assembly_subDeviceIndex a) (assembly_epoch a)
       (assembly_cycleSequence a) (assembly_data a)]).
Proof.
  intros Hb Hi Hdone. pose proof Hb as [H1 H2 H3 H4 H5 H6 [H7 H7']]. unfold finish_assembly.
  assert (assembly_ok heard a) as Ha by by eapply Forall_lookup_1 in H1.
  pose proof (assembly_size _ _ Ha) as Hsize. unfold kMaximumPdoImage in Hsize.
  destruct (evict _ _ _ _ _ _) as [images storage] eqn:Ee.
  unshelve epose proof (evict_spec image_size kMaximumPdoImages kMaximumPdoImageQueueStorage
    (zlen (assembly_data a)) image_size_nonneg _ _ _ _ _ _ Ee H7 H7') as ([n ->] & -> & Hc & Hr & _);
    [unfold kMaximumPdoImages; lia|unfold kMaximumPdoImageQueueStorage; lia|].
  replace (exceeds _ _ _) with false by (symmetry; unfold exceeds; lia).
  split_and!.
  - refine (erase_assembly_ok heard i a (mkInbox _ _ _ _) _ Hi). split; cbn [assemblies assemblyStorage inputImages inputImageStorage]; try done.
    + apply Forall_app. split; [by apply Forall_drop|]. constructor; [|done]. split; [done|].
      cbn. intros j Hj. apply (assembly_told _ _ Ha); [by rewrite (assembly_sized _ _ Ha)|].
      apply marked_full; rewrite ?(assembly_sized _ _ Ha); [|done].
      by rewrite <- Hdone, (assembly_count _ _ Ha).
    + rewrite zlen_app, zlen_cons, zlen_nil. lia.
    + by rewrite total_size_snoc.
  - done.
  - cbn [inputImages erase_assembly]. set (image := mkImage _ _ _ _ _).
    eapply (evict_newest image_size kMaximumPdoImages kMaximumPdoImageQueueStorage image_size_nonneg
      ltac:(unfold kMaximumPdoImages; lia) image); [exact Ee|done|done|].
    unfold image_size, image, kMaximumPdoImageQueueStorage. cbn [image_data]. lia.
Qed.

Lemma AssembleInput_ok heard x b :
  x ∈ heard -> input_ok x -> inbox_ok heard b -> inbox_ok heard (AssembleInput x b).
Proof.
  intros Hx Hin Hb. unfold AssembleInput.
  destruct (select_assembly_ok heard x b Hb Hin) as (Hb' & _ & i & a & Hi & Ha & Hbel & _).
  destruct (select_assembly x b) as [o b']. cbn [fst snd] in *. subst o. rewrite Ha.
  assert (assembly_ok heard a) as Hok by by eapply Forall_lookup_1; [apply inbox_assemblies|].
  destruct (store_bytes _ _ a) as [a'|] eqn:Es; [|by apply erase_assembly_ok].
  destruct (store_input_ok heard x a a' Hx Hin Hbel Hok Es) as [Hok' Hk].
  pose proof (put_assembly_ok heard i a a' b' Hb' Ha Hok' Hk) as Hput.
  destruct (negb _) eqn:E; [done|]. apply finish_assembly_spec; [done| |by apply negb_false_iff, Z.eqb_eq in E].
  cbn [assemblies]. rewrite list_lookup_insert_eq; [done|by eapply lookup_lt_Some].
Qed.

Lemma PopInputImage_ok heard b : inbox_ok heard b -> inbox_ok heard (fst (PopInputImage b)).
Proof.
  intros Hb. unfold PopInputImage. destruct (inputImages b) as [|m l] eqn:E; [done|].
  destruct Hb as [H1 H2 H3 H4 H5 H6 [H7 H7']]. rewrite E in *.
  rewrite total_size_cons, zlen_cons in *. pose proof (image_size_nonneg m).
  split; cbn [fst assemblies assemblyStorage inputImages inputImageStorage]; try done.
  - by inversion H5.
  - lia.
  - lia.
Qed.

Lemma empty_inbox_ok heard : inbox_ok heard empty_inbox.
Proof. by split; try constructor. Qed.

(** ** An image comes back *)

Section Reassembly.
Context (bus sub epoch cycle : Z) (image : bytes).
Context (Himage : 0 < zlen image <= kMaximumPdoImage).

(** The message that carries the [k]-th piece of the image. *)
Definition piece (k : nat) : PdoInputPayload :=
  mkPdoInput bus sub (Z.of_nat k * kMaximumPdoChunk) (zlen image) epoch cycle
    (take 1024 (drop (k * 1024) image)).

(** The assembly that has the first [n] bytes. *)
Definition progress (n : nat) : PdoAssembly :=
  mkAssembly bus sub epoch cycle (take n image ++ replicate (length image - n) 0)
    (replicate (length (take n image)) 1 ++ replicate (length image - n) 0) (zlen (take n image)).

Lemma set_at_end pre x y rest : set_at (pre ++ x :: rest) (zlen pre) y = pre ++ y :: rest.
Proof using Type. unfold set_at. rewrite zlen_to_nat. by rewrite insert_app_r_alt, Nat.sub_diag by done. Qed.

Lemma byte_at_end pre (x : Z) rest : byte_at (pre ++ x :: rest) (zlen pre) = x.
Proof using Type. unfold byte_at. by rewrite zlen_to_nat, list_lookup_middle. Qed.

Lemma store_fresh chunk pre rest count :
  store_bytes chunk (zlen pre)
    (mkAssembly bus sub epoch cycle (pre ++ replicate (length chunk + rest) 0)
       (replicate (length pre) 1 ++ replicate (length chunk + rest) 0) count) =
  Some (mkAssembly bus sub epoch cycle ((pre ++ chunk) ++ replicate rest 0)
          (replicate (length (pre ++ chunk)) 1 ++ replicate rest 0) (count + zlen chunk)).
Proof using Type.
  revert pre count. induction chunk as [|v chunk IH]; intros pre count.
  { cbn [store_bytes length Nat.add]. by rewrite app_nil_r, Z.add_0_r. }
  cbn [store_bytes length Nat.add replicate received assembly_data receivedBytes assembly_busIndex
       assembly_subDeviceIndex assembly_epoch assembly_cycleSequence].
  assert (zlen pre = zlen (replicate (length pre) 1)) as E by (unfold zlen; by rewrite length_replicate).
  assert (byte_at (replicate (length pre) 1 ++ 0 :: replicate (length chunk + rest) 0) (zlen pre) = 0)
    as -> by (rewrite E; apply byte_at_end).
  assert (set_at (replicate (length pre) 1 ++ 0 :: replicate (length chunk + rest) 0) (zlen pre) 1 =
          replicate (length (pre ++ [v])) 1 ++ replicate (length chunk + rest) 0) as ->.
  { rewrite E, set_at_end, length_app, (replicate_add (length pre)). by rewrite <- app_assoc. }
  rewrite set_at_end. cbn [Z.eqb negb andb].
  replace (zlen pre + 1) with (zlen (pre ++ [v])) by (by rewrite zlen_app).
  specialize (IH (pre ++ [v]) (count + 1)). rewrite <- !app_assoc in IH. cbn [app] in IH.
  rewrite IH, zlen_cons, <- app_assoc. f_equal. f_equal. lia.
Qed.

Lemma store_piece k :
  (k * 1024 <= length image)%nat ->
  store_bytes (input_data (piece k)) (input_offset (piece k)) (progress (k * 1024)) =
  Some (progress (S k * 1024)).
Proof using Type.
  intros Hk. set (n := (k * 1024)%nat) in *. unfold piece, progress. cbn [input_data input_offset]. fold n.
  set (chunk := take 1024 (drop n image)).
  assert (length image - n = length chunk + (length image - (n + 1024)))%nat as ->.
  { unfold chunk. rewrite length_take, length_drop. lia. }
  replace (Z.of_nat k * kMaximumPdoChunk) with (zlen (take n image)).
  2:{ unfold zlen, kMaximumPdoChunk. rewrite length_take. lia. }
  rewrite store_fresh. replace (S k * 1024)%nat with (n + 1024)%nat by lia.
  unfold chunk. rewrite take_take_drop. f_equal. f_equal.
  by rewrite <- zlen_app, take_take_drop.
Qed.

Lemma progress_size n : zlen (assembly_data (progress n)) = zlen image.
Proof using Type. unfold zlen. cbn. rewrite length_app, length_take, length_replicate. lia. Qed.

Lemma progress_done n :
  receivedBytes (progress n) = zlen (assembly_data (progress n)) <-> (length image <= n)%nat.
Proof using Type. rewrite progress_size. cbn. unfold zlen. rewrite length_take. lia. Qed.

Lemma progress_belongs k n : belongs (piece k) (progress n).
Proof using Type. split_and!; try done. apply progress_size. Qed.

Lemma piece_ok k : (k * 1024 < length image)%nat -> input_ok (piece k).
Proof using Himage.
  intros Hk. split; cbn; [done|]. unfold zlen, kMaximumPdoChunk. rewrite length_take, length_drop. lia.
Qed.

(** [old] with the image's own assembly, of [n] bytes, at position [i]. *)
Record collecting (heard : list PdoInputPayload) (old : Inbox) (n i : nat) (b : Inbox) : Prop := {
  collecting_ok : inbox_ok heard b;
  collecting_here : assemblies b !! i = Some (progress n);
  collecting_rest a : a ∈ assemblies b -> a ∈ assemblies old \/ a = progress n;
  collecting_images : inputImages b = inputImages old
}.

Lemma target_unique heard b i a j a' :
  inbox_ok heard b -> assemblies b !! i = Some a -> assemblies b !! j = Some a' ->
  target_of a = target_of a' -> i = j.
Proof using Type.
  intros Hb Hi Hj Ht. eapply NoDup_lookup; [apply (inbox_targets _ _ Hb)| |];
    change (map target_of (assemblies b)) with (target_of <$> assemblies b);
    rewrite list_lookup_fmap, ?Hi, ?Hj; cbn; [done|by rewrite Ht].
Qed.

Lemma target_same heard b a a' :
  inbox_ok heard b -> a ∈ assemblies b -> a' ∈ assemblies b -> target_of a = target_of a' -> a = a'.
Proof using Type.
  intros Hb Ha Ha' Ht. apply list_elem_of_lookup in Ha as [i Hi], Ha' as [j Hj].
  pose proof (target_unique _ _ _ _ _ _ Hb Hi Hj Ht) as ->. congruence.
Qed.

(** Before piece [k]: nothing of the image yet, or its first [k] pieces. *)
Definition awaiting (heard : list PdoInputPayload) (old : Inbox) (k : nat) (b : Inbox) : Prop :=
  match k with
  | O => b = old /\ inbox_ok heard old /\ forall a, a ∈ assemblies old -> ~ belongs (piece 0) a
  | S _ => exists i, collecting heard old (k * 1024) i b
  end.

Lemma new_progress : new_assembly (piece 0) = progress 0.
Proof using Type.
  unfold new_assembly, piece, progress. cbn [input_totalSize input_busIndex input_subDeviceIndex
    input_epoch input_cycleSequence]. by rewrite zlen_to_nat, Nat.sub_0_r.
Qed.

Lemma select_piece heard old k b :
  (k * 1024 < length image)%nat -> awaiting heard old k b ->
  exists i, fst (select_assembly (piece k) b) = Some i /\
    collecting heard old (k * 1024) i (snd (select_assembly (piece k) b)).
Proof using Himage.
  intros Hk Ha.
  assert (inbox_ok heard b) as Hb by (destruct k; [destruct Ha as (-> & ? & _)|destruct Ha as [? []]]; done).
  destruct (select_assembly_ok heard (piece k) b Hb (piece_ok k Hk))
    as (Hb' & Him & i & a & Hi & Hl & Hbel & Hor & Hrest).
  exists i. split; [done|]. destruct k as [|k].
  - destruct Ha as (-> & _ & Hno). destruct Hor as [Hin|[-> _]]; [by destruct (Hno a)|].
    rewrite new_progress in *. by split.
  - destruct Ha as [j [_ Hj Hr Him']].
    assert (progress (S k * 1024) ∈ assemblies b) as Hp by by eapply list_elem_of_lookup_2.
    assert (a = progress (S k * 1024)) as ->.
    { destruct Hor as [Hin|[_ Hno]].
      - eapply target_same; [exact Hb|done|done|].
        destruct Hbel as (E1 & E2 & _). unfold target_of. by rewrite E1, E2.
      - exfalso. eapply Hno; [exact Hp|apply progress_belongs]. }
    split; [done|done| |by rewrite Him]. intros a [Ha|Ha]%Hrest; [by apply Hr|by right].
Qed.

Definition whole_image : PdoImage := mkImage bus sub epoch cycle image.

(** The image is the newest of the queue; as many older ones are kept as there is room for, and
    nothing of the image is left among the assemblies. *)
Definition delivered (heard : list PdoInputPayload) (old b : Inbox) : Prop :=
  inbox_ok heard b /\ (forall a, a ∈ assemblies b -> a ∈ assemblies old) /\
  inputImages b = newest_images (inputImages old ++ [whole_image]).

Lemma progress_whole n : (length image <= n)%nat ->
  mkImage (assembly_busIndex (progress n)) (assembly_subDeviceIndex (progress n))
    (assembly_epoch (progress n)) (assembly_cycleSequence (progress n))
    (assembly_data (progress n)) = whole_image.
Proof using Type.
  intros Hn. unfold whole_image. cbn. f_equal. rewrite take_ge by done.
  by replace (length image - n)%nat with O by lia; rewrite app_nil_r.
Qed.

Lemma finish_delivered heard old n i b :
  (length image <= n)%nat -> collecting heard old n i b ->
  delivered heard old (finish_assembly i (progress n) b).
Proof using Type.
  intros Hn [Hb Hi Hr Him].
  destruct (finish_assembly_spec heard i (progress n) b Hb Hi) as (H1 & H2 & H3);
    [by apply progress_done|].
  rewrite progress_whole, Him in H3 by done. split_and!; [done| |done].
  - rewrite H2. intros a Ha.
    apply list_elem_of_lookup in Ha as [j Hj].
    assert (a ∈ assemblies b) as Hab
      by (eapply elem_of_submseteq; [by eapply list_elem_of_lookup_2|apply sublist_submseteq, sublist_delete]).
    destruct (Hr a Hab) as [|Ha]; [done|]. exfalso. subst a.
    destruct (decide (j < i)%nat) as [Hlt|Hge].
    + rewrite list_lookup_delete_lt in Hj by done.
      pose proof (target_unique _ _ _ _ _ _ Hb Hi Hj eq_refl). lia.
    + rewrite list_lookup_delete_ge in Hj by lia.
      pose proof (target_unique _ _ _ _ _ _ Hb Hi Hj eq_refl). lia.
Qed.

Lemma piece_step heard old k b :
  piece k ∈ heard -> (k * 1024 < length image)%nat -> awaiting heard old k b ->
  if decide (S k * 1024 < length image)%nat
  then awaiting heard old (S k) (AssembleInput (piece k) b)
  else delivered heard old (AssembleInput (piece k) b).
Proof using Himage.
  intros Hx Hk Ha. destruct (select_piece heard old k b Hk Ha) as (i & Hi & Hc).
  unfold AssembleInput. destruct (select_assembly (piece k) b) as [o b']. cbn [fst snd] in *. subst o.
  pose proof Hc as [Hb Hl Hr Him].
  assert (assembly_ok heard (progress (k * 1024))) as Hok
    by by eapply Forall_lookup_1; [apply inbox_assemblies|].
  pose proof (store_piece k ltac:(lia)) as Hs.
  destruct (store_input_ok heard (piece k) _ _ Hx (piece_ok k Hk) (progress_belongs _ _) Hok Hs) as [Hok' Hk'].
  rewrite Hl, Hs.
  assert (collecting heard old (S k * 1024) i
    (mkInbox (<[i := progress (S k * 1024)]> (assemblies b')) (assemblyStorage b')
       (inputImages b') (inputImageStorage b'))) as Hc'.
  { split; cbn [assemblies inputImages]; [by eapply put_assembly_ok| | |done].
    - rewrite list_lookup_insert_eq; [done|by eapply lookup_lt_Some].
    - intros a Ha'. apply list_elem_of_lookup in Ha' as [j Hj].
      destruct (decide (i = j)) as [<-|Hne].
      + rewrite list_lookup_insert_eq in Hj by (by eapply lookup_lt_Some). right. congruence.
      + rewrite list_lookup_insert_ne in Hj by done.
        destruct (Hr a) as [|Ha']; [by eapply list_elem_of_lookup_2|by left|].
        subst a. exfalso. apply Hne. exact (target_unique _ _ _ _ _ _ Hb Hl Hj eq_refl). }
  destruct (decide _) as [Hd|Hd].
  - replace (negb _) with true; [by exists i|]. symmetry. apply negb_true_iff, Z.eqb_neq.
    rewrite progress_done. lia.
  - replace (negb _) with false; [apply finish_delivered; [lia|done]|].
    symmetry. apply negb_false_iff, Z.eqb_eq, progress_done. lia.
Qed.

(** All the pieces, in order. *)
Definition pieces : list PdoInputPayload :=
  map piece (seq 0 (Z.to_nat ((zlen image + kMaximumPdoChunk - 1) / kMaximumPdoChunk))).

Lemma pieces_delivered heard old :
  (forall x, x ∈ pieces -> x ∈ heard) -> inbox_ok heard old ->
  (forall a, a ∈ assemblies old -> ~ belongs (piece 0) a) ->
  delivered heard old (fold_left (fun b x => AssembleInput x b) pieces old).
Proof using Himage.
  intros Hh Hold Hno. unfold pieces in *. unfold zlen, kMaximumPdoChunk in *.
  set (m := Z.to_nat _) in *.
  assert ((m - 1) * 1024 < length image <= m * 1024)%nat as Hm by (unfold m; dlia).
  assert (forall r k b, (k + S r = m)%nat -> awaiting heard old k b ->
    delivered heard old (fold_left (fun b x => AssembleInput x b) (map piece (seq k (S r))) b)) as H.
  { induction r as [|r IH]; intros k b Hr Ha; cbn [seq map fold_left].
    - assert (piece k ∈ heard) as Hx by (apply Hh, list_elem_of_fmap; exists k; split; [done|apply elem_of_seq; lia]).
      pose proof (piece_step heard old k b Hx ltac:(lia) Ha) as Hs.
      by rewrite decide_False in Hs by lia.
    - assert (piece k ∈ heard) as Hx by (apply Hh, list_elem_of_fmap; exists k; split; [done|apply elem_of_seq; lia]).
      pose proof (piece_step heard old k b Hx ltac:(lia) Ha) as Hs.
      rewrite decide_True in Hs by lia. by apply (IH (S k)); [lia|]. }
  destruct m as [|m]; [lia|]. by apply (H m O).
Qed.
End Reassembly.
