(* ===== verification/ClientLibrary.v ===== *)
(** The C++ client library ([client.hpp], [client.cpp]): its state and every operation of
    [Client::Implementation]. Each public operation holds the recursive mutex for its whole
    duration, so the operations of the user's threads and of the background thread follow
    each other and an operation is a function of the state.

    The answers of the system calls are arguments. A loop that waits is driven by a list
    with an entry per iteration; the end of the list is the deadline. One clock reading
    stands for those of one iteration. [std::bad_alloc] is not modelled. *)

From S2P Require Import Prelude Protocol Frame Sockets Assembly.

Module Client.

(** ** Data *)

Definition kMaximumClientQueue : Z := 64 * 1024.
Definition kMaximumReceivedInputs : Z := 128.
Definition kMaximumReceivedBusInformation : Z := 64.
(** In milliseconds. *)
Definition kMaximumClientDuration : Z := 60 * 1000.

Inductive ClientError :=
| NoError | InvalidArgument | NotConnected | ControllerDenied | SocketError
| ProtocolError | Timeout | ServerRejected | OutOfMemory.

#[export] Instance ClientError_eq_dec : EqDecision ClientError.
Proof. solve_decision. Defined.

(** Durations are in milliseconds. *)
Record ClientOptions := mkOptions {
  socketPath : bytes;
  option_role : ClientRole;
  option_subscribeInputs : bool;
  option_inputPeriodMs : Z;
  connectTimeout : Z;
  requestTimeout : Z;
  initialReconnectBackoff : Z;
  maximumReconnectBackoff : Z;
  heartbeatPeriod : Z
}.

(** What happened on one connection (a history, which no operation looks at): the frames
    given to the queue, the bytes the socket took, the frames received. *)
Record Transcript := mkTranscript {
  queued : list bytes;
  wire : bytes;
  heard : list Frame
}.

Definition quiet_line : Transcript := mkTranscript [] [] [].

(** [session]: the members that describe the granted session. *)
Record Session := mkSession {
  connected : bool;
  controllerGranted : bool;
  outputsEnabled : bool;
  epoch : Z;
  lastSeenEpoch : Z;
  status : StatusPayload
}.

(** The members that belong to one socket, [open] being [descriptor_ >= 0]. An
    acknowledgement is a request id and a status. *)
Record Channel := mkChannel {
  open : bool;
  outgoing : list bytes;
  outgoingOffset : Z;
  outgoingBytes : Z;
  decoder : FrameDecoder.t;
  acknowledgements : list (Z * AckStatus);
  expectedHelloRequest : Z;
  helloReceived : bool;
  heartbeatRequests : list Z
}.

Definition closed_channel : Channel := mkChannel false [] 0 0 FrameDecoder.init [] 0 false [].

(** What the user has not taken yet. *)
Record Received := mkReceived {
  inputs : list PdoInputPayload;
  busInformation : list BusInfoPayload;
  inbox : Inbox
}.

Definition nothing_received : Received := mkReceived [] [] empty_inbox.

(** [nextHeartbeat], [nextReconnect] are in nanoseconds, the other two in milliseconds. *)
Record Schedule := mkSchedule {
  nextHeartbeat : Z;
  nextReconnect : Z;
  reconnectBackoff : Z;
  effectiveHeartbeatPeriod : Z
}.

Record Report := mkReport {
  lastError : ClientError;
  lastServerStatus : AckStatus;
  lastErrorMessage : bytes
}.

Record t := mk {
  options : ClientOptions;
  session : Session;
  channel : Channel;
  store : Received;
  schedule : Schedule;
  report : Report;
  nextRequestId : Z;
  line : Transcript;
  past : list Transcript
}.

Definition on_options f c := mk (f (options c)) (session c) (channel c) (store c) (schedule c)
  (report c) (nextRequestId c) (line c) (past c).
Definition on_session f c := mk (options c) (f (session c)) (channel c) (store c) (schedule c)
  (report c) (nextRequestId c) (line c) (past c).
Definition on_channel f c := mk (options c) (session c) (f (channel c)) (store c) (schedule c)
  (report c) (nextRequestId c) (line c) (past c).
Definition on_store f c := mk (options c) (session c) (channel c) (f (store c)) (schedule c)
  (report c) (nextRequestId c) (line c) (past c).
Definition on_schedule f c := mk (options c) (session c) (channel c) (store c) (f (schedule c))
  (report c) (nextRequestId c) (line c) (past c).
Definition set_report v c := mk (options c) (session c) (channel c) (store c) (schedule c)
  v (nextRequestId c) (line c) (past c).
Definition set_nextRequestId v c := mk (options c) (session c) (channel c) (store c) (schedule c)
  (report c) v (line c) (past c).
Definition on_line f c := mk (options c) (session c) (channel c) (store c) (schedule c)
  (report c) (nextRequestId c) (f (line c)) (past c).
Definition hang_up c := mk (options c) (session c) (channel c) (store c) (schedule c)
  (report c) (nextRequestId c) quiet_line (past c ++ [line c]).

(** [StatusPayload{}]. *)
Definition no_status : StatusPayload := mkStatus 0 0 0 0 0 0 0 0 0 0 0 0 Other 0 0.

Definition create (o : ClientOptions) : t :=
  mk o (mkSession false false false 0 0 no_status) closed_channel nothing_received
    (mkSchedule 0 0 (initialReconnectBackoff o) 50) (mkReport NoError Ok []) 0 quiet_line [].

(** ** Errors *)

Definition Fail (error : ClientError) (message : bytes) (serverStatus : AckStatus) (c : t) : t :=
  set_report (mkReport error serverStatus (take 255 message)) c.

(** [return Fail(error, message);] with the default status. *)
Definition failed (error : ClientError) (message : string) (c : t) : t * bool :=
  (Fail error (str message) InternalError c, false).

Definition ClearError (c : t) : t := set_report (mkReport NoError Ok []) c.

Definition ErrorForStatus (s : AckStatus) : ClientError :=
  if bool_decide (s = Ok) then NoError else ServerRejected.

Definition FailForRequestStatus (s : AckStatus) (message : string) (c : t) : t * bool :=
  match lastError (report c) with
  | Timeout | NotConnected | SocketError | ProtocolError | OutOfMemory => (c, false)
  | _ => (Fail (ErrorForStatus s) (str message) s c, false)
  end.

(** ** Closing *)

Definition CloseSocket (c : t) : t :=
  on_channel (fun _ => closed_channel) (if open (channel c) then hang_up c else c).

(** [now] in nanoseconds. *)
Definition ScheduleReconnect (now : Z) (c : t) : t :=
  let maximum := maximumReconnectBackoff (options c) in
  on_schedule
    (fun s =>
       mkSchedule (nextHeartbeat s) (now + reconnectBackoff s * 1000000)
         (if Z.quot maximum 2 <? reconnectBackoff s then maximum
          else Z.min maximum (reconnectBackoff s * 2))
         (effectiveHeartbeatPeriod s)) c.

Definition HandleDisconnect (now : Z) (c : t) : t :=
  let lastSeen := if negb (epoch (session c) =? 0) then epoch (session c)
                  else lastSeenEpoch (session c) in
  let c := CloseSocket c in
  let c := on_session (fun _ => mkSession false false false 0 lastSeen no_status) c in
  let c := on_store (fun _ => nothing_received) c in
  ScheduleReconnect now c.

Definition InvalidateSession (replacementEpoch : Z) (c : t) : t :=
  let c := on_session (fun _ => mkSession false false false 0 replacementEpoch no_status) c in
  let c := on_channel (fun k => mkChannel (open k) [] 0 0 (decoder k) [] (expectedHelloRequest k)
                                  (helloReceived k) []) c in
  on_store (fun _ => nothing_received) c.

(** ** Sending *)

Definition NextRequestId (c : t) : t * Z :=
  let id := to_u32 (nextRequestId c + 1) in
  let id := if id =? 0 then 1 else id in
  (set_nextRequestId id c, id).

Definition Queue (frame : bytes) (c : t) : t * bool :=
  let k := channel c in
  if negb (open k) || bool_decide (frame = []) ||
     (kMaximumClientQueue - Z.min (outgoingBytes k) kMaximumClientQueue <? zlen frame)
  then failed OutOfMemory "client output queue is full" c
  else
    (on_line (fun l => mkTranscript (queued l ++ [frame]) (wire l) (heard l))
       (on_channel (fun k => mkChannel (open k) (outgoing k ++ [frame]) (outgoingOffset k)
                               (outgoingBytes k + zlen frame) (decoder k) (acknowledgements k)
                               (expectedHelloRequest k) (helloReceived k) (heartbeatRequests k)) c),
     true).

(** The socket has taken [n] bytes of the front frame. *)
Definition advance (n : Z) (c : t) : t :=
  let k := channel c in
  on_line (fun l => mkTranscript (queued l)
                      (wire l ++ sent_bytes n (outgoing k) (outgoingOffset k)) (heard l))
    (on_channel (fun k => mkChannel (open k) (sent_frames n (outgoing k) (outgoingOffset k))
                            (sent_offset n (outgoing k) (outgoingOffset k)) (outgoingBytes k - n)
                            (decoder k) (acknowledgements k) (expectedHelloRequest k)
                            (helloReceived k) (heartbeatRequests k)) c).

(** How much of the front frame a socket with room for [room] bytes takes. *)
Definition taken (room : Z) (k : Channel) : Z :=
  Z.min (Z.max 0 room) (zlen (default [] (head (outgoing k))) - outgoingOffset k).

(** [Flush]: one call of [send] per answer, whose count is the room in the socket; the socket
    is full when the answers are used up. *)
Fixpoint Flush (now : Z) (answers : list send_answer) (c : t) : t * bool :=
  if negb (open (channel c)) || bool_decide (outgoing (channel c) = [])
  then (c, open (channel c))
  else
    match answers with
    | [] | SendAgain :: _ => (c, true)
    | SendIntr :: answers => Flush now answers c
    | SendError :: _ => failed SocketError "IPC send failed" (HandleDisconnect now c)
    | SendCount room :: answers =>
        let n := taken room (channel c) in
        if n =? 0 then failed NotConnected "IPC connection closed" (HandleDisconnect now c)
        else Flush now answers (advance n c)
    end.

(** ** Receiving *)

(** [if (queue.size() >= limit) queue.pop_front(); queue.push_back(x)]. *)
Definition push_bounded {A} (limit : Z) (x : A) (l : list A) : list A :=
  (if limit <=? zlen l then tail l else l) ++ [x].

(** [erase(find(...))]. *)
Fixpoint erase_first {A} (f : A -> bool) (l : list A) : list A :=
  match l with
  | [] => []
  | x :: l => if f x then l else x :: erase_first f l
  end.

Definition set_acknowledgements v k := mkChannel (open k) (outgoing k) (outgoingOffset k)
  (outgoingBytes k) (decoder k) v (expectedHelloRequest k) (helloReceived k) (heartbeatRequests k).
Definition set_heartbeatRequests v k := mkChannel (open k) (outgoing k) (outgoingOffset k)
  (outgoingBytes k) (decoder k) (acknowledgements k) (expectedHelloRequest k) (helloReceived k) v.
Definition set_hello id received k := mkChannel (open k) (outgoing k) (outgoingOffset k)
  (outgoingBytes k) (decoder k) (acknowledgements k) id received (heartbeatRequests k).
Definition set_decoder v k := mkChannel (open k) (outgoing k) (outgoingOffset k)
  (outgoingBytes k) v (acknowledgements k) (expectedHelloRequest k) (helloReceived k)
  (heartbeatRequests k).
Definition set_status v s := mkSession (connected s) (controllerGranted s) (outputsEnabled s)
  (epoch s) (lastSeenEpoch s) v.
Definition set_outputsEnabled v s := mkSession (connected s) (controllerGranted s) v
  (epoch s) (lastSeenEpoch s) (status s).
Definition set_connected v s := mkSession v (controllerGranted s) (outputsEnabled s)
  (epoch s) (lastSeenEpoch s) (status s).

(** [std::max(std::min(options_.heartbeatPeriod, heartbeatTimeout / 3), 10ms)]. *)
Definition effective_period (period heartbeatTimeout : Z) : Z :=
  Z.max (Z.min period (Z.quot heartbeatTimeout 3)) 10.

Definition process_hello (frame : Frame) (c : t) : t * bool :=
  match (if negb (frame_requestId frame =? expectedHelloRequest (channel c)) then None
         else DecodeHelloAckPayload (frame_payload frame)) with
  | None => failed ProtocolError "invalid HELLO acknowledgement" c
  | Some acknowledgement =>
      if helloack_outputsEnabled acknowledgement
      then failed ProtocolError "server resumed outputs during HELLO" c
      else if helloack_heartbeatTimeoutMs acknowledgement <=? 20
      then failed ProtocolError "server heartbeat timeout is unsafe" c
      else
        let e := helloack_epoch acknowledgement in
        let c := on_schedule (fun s =>
                   mkSchedule (nextHeartbeat s) (nextReconnect s) (reconnectBackoff s)
                     (effective_period (heartbeatPeriod (options c))
                        (helloack_heartbeatTimeoutMs acknowledgement))) c in
        let c := on_session (fun s =>
                   mkSession (connected s)
                     (bool_decide (helloack_grantedRole acknowledgement = Controller)) false e e
                     (status s)) c in
        (on_channel (fun k => set_hello (expectedHelloRequest k) true k) c, true)
  end.

Definition process_status (frame : Frame) (c : t) : t * bool :=
  match (if negb (frame_requestId frame =? 0) then None
         else DecodeStatusPayload (frame_payload frame)) with
  | None => failed ProtocolError "invalid STATUS payload" c
  | Some decoded =>
      if negb (epoch (session c) =? 0) && negb (status_epoch decoded =? epoch (session c))
      then (on_session (set_status decoded) (InvalidateSession (status_epoch decoded) c), false)
      else (on_session (set_status decoded) c, true)
  end.

Definition process_ack (frame : Frame) (c : t) : t * bool :=
  match DecodeAckPayload (frame_payload frame) with
  | None => failed ProtocolError "invalid ACK payload" c
  | Some acknowledgement =>
      let acknowledged := ack_status acknowledgement in
      let id := frame_requestId frame in
      if existsb (Z.eqb id) (heartbeatRequests (channel c)) then
        let c := on_channel (fun k => set_heartbeatRequests
                   (erase_first (Z.eqb id) (heartbeatRequests k)) k) c in
        if negb (bool_decide (acknowledged = Ok)) then
          (Fail ServerRejected (str "heartbeat was rejected") acknowledged
             (InvalidateSession (epoch (session c)) c), false)
        else (c, true)
      else
        let c := on_channel (fun k => set_acknowledgements
                   (push_bounded 128 (id, acknowledged) (acknowledgements k)) k) c in
        (set_report (mkReport (lastError (report c)) acknowledged (lastErrorMessage (report c))) c,
         true)
  end.

Definition process_input (frame : Frame) (c : t) : t * bool :=
  match (if negb (frame_requestId frame =? 0) then None
         else DecodePdoInputPayload kMaximumPdoImage (frame_payload frame)) with
  | None => failed ProtocolError "invalid PDO input payload" c
  | Some input =>
      if negb (input_epoch input =? epoch (session c)) then (c, true)
      else
        (on_store (fun s => mkReceived (push_bounded kMaximumReceivedInputs input (inputs s))
                              (busInformation s) (AssembleInput input (inbox s))) c, true)
  end.

Definition process_information (frame : Frame) (c : t) : t * bool :=
  match (if negb (frame_requestId frame =? 0) then None
         else DecodeBusInfoPayload (frame_payload frame)) with
  | None => failed ProtocolError "invalid BUS_INFO payload" c
  | Some information =>
      if negb (businfo_epoch information =? epoch (session c)) then (c, true)
      else
        (on_store (fun s => mkReceived (inputs s)
                    (push_bounded kMaximumReceivedBusInformation information (busInformation s))
                    (inbox s)) c, true)
  end.

Definition process_disabled (frame : Frame) (c : t) : t * bool :=
  match (if negb (frame_requestId frame =? 0) then None
         else DecodeOutputsDisabledPayload (frame_payload frame)) with
  | None => failed ProtocolError "invalid outputs-disabled payload" c
  | Some disabled =>
      let c := on_session (set_outputsEnabled false) c in
      if negb (disabled_epoch disabled =? epoch (session c)) ||
         negb (bool_decide (disabled_reason disabled = Requested))
      then (InvalidateSession (disabled_epoch disabled) c, false)
      else (c, true)
  end.

Definition Process (frame : Frame) (c : t) : t * bool :=
  let c := on_line (fun l => mkTranscript (queued l) (wire l) (heard l ++ [frame])) c in
  match frame_type frame with
  | HelloAck => process_hello frame c
  | Status => process_status frame c
  | Ack | Error => process_ack frame c
  | PdoInput => process_input frame c
  | BusInfo => process_information frame c
  | OutputsDisabled => process_disabled frame c
  | _ => failed ProtocolError "unexpected server frame type" c
  end.

Fixpoint process_all (frames : list Frame) (c : t) : t * bool :=
  match frames with
  | [] => (c, true)
  | frame :: frames =>
      match Process frame c with
      | (c, true) => process_all frames c
      | (c, false) => (c, false)
      end
  end.

(** [Read]: one call of [recv] per answer; nothing is left when they are used up. *)
Fixpoint Read (now : Z) (answers : list recv_answer) (c : t) : t * bool :=
  match answers with
  | [] | RecvAgain :: _ => (c, true)
  | RecvIntr :: answers => Read now answers c
  | RecvClosed :: _ => failed NotConnected "IPC connection closed" (HandleDisconnect now c)
  | RecvError :: _ => failed SocketError "IPC receive failed" (HandleDisconnect now c)
  | RecvBytes data :: answers =>
      let '(dec, frames, valid) := FrameDecoder.Feed (decoder (channel c)) data in
      let c := on_channel (set_decoder dec) c in
      if negb valid then failed ProtocolError "invalid IPC frame" (HandleDisconnect now c)
      else
        match process_all frames c with
        | (c, true) => Read now answers c
        | (c, false) => (HandleDisconnect now c, false)
        end
  end.

(** ** Waiting *)

(** The answers of [poll] on one descriptor: [error] is POLLERR, POLLHUP or POLLNVAL. *)
Inductive poll_answer :=
| PollFailed | PollInterrupted | PollTimeout
| PollReady (error writable readable : bool).

(** One call of [PumpUntil]: the clock and the answers it gets. *)
Record Pump := mkPump {
  pump_now : Z;
  pump_flush : list send_answer;
  pump_poll : poll_answer;
  pump_send : list send_answer;
  pump_recv : list recv_answer
}.

(** What follows [poll] in [PumpUntil] and in [Poll]. *)
Definition serve (now : Z) (writable readable : bool) (sends : list send_answer)
    (recvs : list recv_answer) (c : t) : t * bool :=
  let '(c, flushed) := if writable then Flush now sends c else (c, true) in
  if negb flushed then (c, false)
  else if readable then Read now recvs c else (c, true).

Definition PumpUntil (deadline : Z) (p : Pump) (c : t) : t * bool :=
  let now := pump_now p in
  match Flush now (pump_flush p) c with
  | (c, false) => (c, false)
  | (c, true) =>
      if Z.quot (deadline - now) 1000000 <=? 0 then (c, false)
      else
        match pump_poll p with
        | PollFailed | PollTimeout => (c, false)
        | PollInterrupted => (c, true)
        | PollReady true _ _ => (HandleDisconnect now c, false)
        | PollReady false writable readable =>
            serve now writable readable (pump_send p) (pump_recv p) c
        end
  end.

(** [WaitForSocket(POLLOUT, ...)]: one call of [poll] per answer. *)
Fixpoint WaitForSocket (answers : list poll_answer) : bool :=
  match answers with
  | PollReady error writable _ :: _ => writable && negb error
  | PollInterrupted :: answers => WaitForSocket answers
  | _ => false
  end.

(** The loop of [Request]: [None] when it ends without an acknowledgement. *)
Fixpoint await_ack (deadline : Z) (id : Z) (rounds : list Pump) (c : t) : t * option AckStatus :=
  match rounds with
  | [] => (c, None)
  | p :: rounds =>
      if negb (pump_now p <? deadline) then (c, None)
      else
        match List.find (fun a => fst a =? id) (acknowledgements (channel c)) with
        | Some a =>
            (on_channel (fun k => set_acknowledgements
               (erase_first (fun a => fst a =? id) (acknowledgements k)) k) c, Some (snd a))
        | None =>
            match PumpUntil deadline p c with
            | (c, true) => await_ack deadline id rounds c
            | (c, false) => (c, None)
            end
        end
  end.

(** The clock readings and answers of a request: when it is queued, the iterations, and the
    clock when it is given up. *)
Record RequestIo := mkRequestIo {
  io_start : Z;
  io_rounds : list Pump;
  io_end : Z
}.

Definition Request (io : RequestIo) (frame : bytes) (id : Z) (c : t) : t * AckStatus :=
  match Queue frame c with
  | (c, false) => (c, InternalError)
  | (c, true) =>
      let deadline := io_start io + requestTimeout (options c) * 1000000 in
      match await_ack deadline id (io_rounds io) c with
      | (c, Some s) => (c, s)
      | (c, None) =>
          (Fail Timeout (str "request timed out") InternalError (HandleDisconnect (io_end io) c),
           InternalError)
      end
  end.

(** ** Connecting *)

(** [sizeof(sockaddr_un::sun_path)]. *)
Definition sun_path_size : Z := 108.

Definition duration_ok (d : Z) : bool := (0 <? d) && (d <=? kMaximumClientDuration).

Definition ValidateOptions (o : ClientOptions) : bool :=
  match socketPath o with
  | first :: _ => first =? 47
  | [] => false
  end &&
  (zlen (socketPath o) <? sun_path_size) &&
  (10 <=? option_inputPeriodMs o) && (option_inputPeriodMs o <=? 1000) &&
  duration_ok (connectTimeout o) && duration_ok (requestTimeout o) &&
  duration_ok (initialReconnectBackoff o) &&
  (initialReconnectBackoff o <=? maximumReconnectBackoff o) &&
  (maximumReconnectBackoff o <=? kMaximumClientDuration) &&
  duration_ok (heartbeatPeriod o) && negb (existsb (Z.eqb 0) (socketPath o)).

Inductive connect_answer := ConnectDone | ConnectInProgress | ConnectRefused.

(** The clock and the answers of the calls of [Connect]: [connect_error] is whether
    [getsockopt] fails or reports an error, [connect_hello] the clock when the HELLO is
    queued, [connect_end] when the loop is left. *)
Record ConnectIo := mkConnectIo {
  connect_now : Z;
  connect_socket : bool;
  connect_result : connect_answer;
  connect_wait : list poll_answer;
  connect_error : bool;
  connect_hello : Z;
  connect_rounds : list Pump;
  connect_end : Z
}.

(** The loop [while (!helloReceived_ && now < deadline)]. *)
Fixpoint await_hello (deadline : Z) (rounds : list Pump) (c : t) : t :=
  match rounds with
  | [] => c
  | p :: rounds =>
      if helloReceived (channel c) || negb (pump_now p <? deadline) then c
      else
        match PumpUntil deadline p c with
        | (c, true) => await_hello deadline rounds c
        | (c, false) => c
        end
  end.

(** [ScheduleReconnect(); CloseSocket(); return Fail(error, message);]. *)
Definition abandon (now : Z) (error : ClientError) (message : string) (c : t) : t * bool :=
  failed error message (CloseSocket (ScheduleReconnect now c)).

(** After [connect]: the exchange of HELLO. *)
Definition greet (io : ConnectIo) (c : t) : t * bool :=
  let '(c, id) := NextRequestId c in
  let o := options c in
  let hello := mkHello (option_role o) (option_subscribeInputs o) (option_inputPeriodMs o)
                 (lastSeenEpoch (session c)) in
  match Queue (EncodeFrame Hello id (EncodeHelloPayload hello)) c with
  | (c, false) => (CloseSocket c, false)
  | (c, true) =>
      let c := on_channel (set_hello id false) c in
      let deadline := connect_hello io + connectTimeout o * 1000000 in
      let c := await_hello deadline (connect_rounds io) c in
      if negb (helloReceived (channel c))
      then abandon (connect_end io) Timeout "HELLO acknowledgement timed out" c
      else if bool_decide (option_role o = Controller) && negb (controllerGranted (session c))
      then abandon (connect_end io) ControllerDenied "controller role was denied" c
      else
        let c := on_session (set_connected true) c in
        let c := on_schedule (fun s =>
                   mkSchedule (connect_end io + effectiveHeartbeatPeriod s * 1000000) 0
                     (initialReconnectBackoff o) (effectiveHeartbeatPeriod s)) c in
        (ClearError c, true)
  end.

Definition open_channel (k : Channel) : Channel :=
  mkChannel true (outgoing k) (outgoingOffset k) (outgoingBytes k) (decoder k)
    (acknowledgements k) (expectedHelloRequest k) (helloReceived k) (heartbeatRequests k).

Definition Connect (io : ConnectIo) (c : t) : t * bool :=
  if connected (session c) then (c, true)
  else if negb (ValidateOptions (options c))
  then failed InvalidArgument "invalid client options" c
  else if connect_now io <? nextReconnect (schedule c) then (c, false)
  else
    let c := CloseSocket c in
    if negb (connect_socket io)
    then failed SocketError "unable to create IPC socket" (ScheduleReconnect (connect_now io) c)
    else
      let c := on_channel open_channel c in
      match connect_result io with
      | ConnectRefused =>
          abandon (connect_now io) SocketError "unable to connect to ec-systemcore" c
      | answer =>
          if match answer with ConnectInProgress => negb (WaitForSocket (connect_wait io))
             | _ => false end
          then abandon (connect_now io) Timeout "IPC connect timed out" c
          else if connect_error io
          then abandon (connect_now io) SocketError "IPC connect failed" c
          else greet io c
      end.

(** ** Requests *)

Definition RequireController (c : t) : t * bool :=
  if negb (connected (session c)) || negb (controllerGranted (session c)) ||
     (epoch (session c) =? 0)
  then failed NotConnected "controller session is unavailable" c
  else (c, true).

(** The end that the requests share: the status decides. *)
Definition concluded (message : string) (done : t -> t) (answer : t * AckStatus) : t * bool :=
  let '(c, s) := answer in
  if negb (bool_decide (s = Ok)) then FailForRequestStatus s message c
  else (ClearError (done c), true).

Definition SendHeartbeat (io : option RequestIo) (c : t) : t * bool :=
  match RequireController c with
  | (c, false) => (c, false)
  | (c, true) =>
      let '(c, id) := NextRequestId c in
      let frame := EncodeFrame Heartbeat id (EncodeEpochPayload (epoch (session c))) in
      match io with
      | None =>
          if 16 <=? zlen (heartbeatRequests (channel c))
          then failed Timeout "heartbeat acknowledgements stalled"
                 (InvalidateSession (epoch (session c)) c)
          else
            match Queue frame c with
            | (c, false) => (c, false)
            | (c, true) =>
                (on_channel (fun k => set_heartbeatRequests (heartbeatRequests k ++ [id]) k) c,
                 true)
            end
      | Some io => concluded "heartbeat was rejected" (fun c => c) (Request io frame id c)
      end
  end.

Definition EnableOutputs (io : RequestIo) (enabled : bool) (c : t) : t * bool :=
  match RequireController c with
  | (c, false) => (c, false)
  | (c, true) =>
      let '(c, id) := NextRequestId c in
      let frame := EncodeFrame OutputEnable id
                     (EncodeOutputEnablePayload (mkOutputEnable (epoch (session c)) enabled)) in
      concluded "output enable request was rejected" (on_session (set_outputsEnabled enabled))
        (Request io frame id c)
  end.

Definition WriteOutput (io : RequestIo) (busIndex subDeviceIndex offset : Z) (data : bytes) (c : t)
    : t * bool :=
  let '(c, allowed) := RequireController c in
  if negb allowed || negb (outputsEnabled (session c))
  then failed NotConnected "outputs are not enabled" c
  else
    let payload := EncodeOutputWritePayload
                     (mkOutputWrite (epoch (session c)) busIndex subDeviceIndex offset data) in
    if bool_decide (payload = []) then failed InvalidArgument "invalid output write" c
    else
      let '(c, id) := NextRequestId c in
      concluded "output write was rejected" (fun c => c)
        (Request io (EncodeFrame OutputWrite id payload) id c).

Definition ReleaseControl (io : RequestIo) (c : t) : t * bool :=
  match RequireController c with
  | (c, false) => (c, false)
  | (c, true) =>
      let '(c, id) := NextRequestId c in
      let frame := EncodeFrame ReleaseControl id (EncodeEpochPayload (epoch (session c))) in
      concluded "release was rejected"
        (on_session (fun s => mkSession (connected s) false false (epoch s) (lastSeenEpoch s)
                                (status s)))
        (Request io frame id c)
  end.

Definition SubscribeInputs (io : RequestIo) (enabled : bool) (periodMs : Z) (c : t) : t * bool :=
  if negb (connected (session c)) then failed NotConnected "client is disconnected" c
  else
    let payload := EncodeSubscribeInputsPayload (mkSubscribe enabled periodMs) in
    if bool_decide (payload = []) then failed InvalidArgument "invalid input subscription" c
    else
      let '(c, id) := NextRequestId c in
      concluded "subscription was rejected"
        (on_options (fun o => mkOptions (socketPath o) (option_role o) enabled periodMs
           (connectTimeout o) (requestTimeout o) (initialReconnectBackoff o)
           (maximumReconnectBackoff o) (heartbeatPeriod o)))
        (Request io (EncodeFrame SubscribeInputs id payload) id c).

Definition EmptyRequest (io : RequestIo) (type : MessageType) (c : t) : t * bool :=
  if negb (connected (session c)) then failed NotConnected "client is disconnected" c
  else
    let '(c, id) := NextRequestId c in
    concluded "request was rejected" (fun c => c) (Request io (EncodeFrame type id []) id c).

Definition RuntimeUnlockAdapter (io : RequestIo) (busIndex : Z) (c : t) : t * bool :=
  match RequireController c with
  | (c, false) => (c, false)
  | (c, true) =>
      let '(c, id) := NextRequestId c in
      let frame := EncodeFrame AdapterUnlock id
                     (EncodeAdapterUnlockPayload (mkAdapterUnlock (epoch (session c)) busIndex)) in
      concluded "runtime unlock was rejected" (on_session (set_outputsEnabled false))
        (Request io frame id c)
  end.

(** ** Polling *)

Record PollIo := mkPollIo {
  poll_now : Z;
  poll_result : poll_answer;
  poll_send : list send_answer;
  poll_recv : list recv_answer
}.

Definition Poll (io : PollIo) (c : t) : t * bool :=
  if negb (connected (session c)) || negb (open (channel c))
  then failed NotConnected "client is disconnected" c
  else
    let now := poll_now io in
    let '(c, beaten) :=
      if controllerGranted (session c) && (nextHeartbeat (schedule c) <=? now) then
        match SendHeartbeat None c with
        | (c, false) => (c, false)
        | (c, true) =>
            (on_schedule (fun s =>
               mkSchedule (now + effectiveHeartbeatPeriod s * 1000000) (nextReconnect s)
                 (reconnectBackoff s) (effectiveHeartbeatPeriod s)) c, true)
        end
      else (c, true) in
    if negb beaten then (c, false)
    else
      match poll_result io with
      | PollFailed => failed SocketError "IPC poll failed" (HandleDisconnect now c)
      | PollInterrupted | PollTimeout => (c, true)
      | PollReady true _ _ => failed NotConnected "IPC connection closed" (HandleDisconnect now c)
      | PollReady false writable readable =>
          serve now writable readable (poll_send io) (poll_recv io) c
      end.

(** The loop of [Disconnect]: one call of [Flush] per entry. *)
Fixpoint drain (rounds : list (Z * list send_answer)) (c : t) : t :=
  match rounds with
  | [] => c
  | (now, sends) :: rounds =>
      if bool_decide (outgoing (channel c) = []) then c
      else
        match Flush now sends c with
        | (c, true) => drain rounds c
        | (c, false) => c
        end
  end.

Definition Disconnect (rounds : list (Z * list send_answer)) (c : t) : t :=
  let c :=
    if open (channel c) && connected (session c) && controllerGranted (session c) &&
       negb (epoch (session c) =? 0) then
      let '(c, id) := NextRequestId c in
      let frame := EncodeFrame OutputEnable id
                     (EncodeOutputEnablePayload (mkOutputEnable (epoch (session c)) false)) in
      drain rounds (fst (Queue frame c))
    else c in
  let c := CloseSocket c in
  on_session (fun s => mkSession false false false 0 (lastSeenEpoch s) no_status) c.

(** ** Taking what was received *)

Definition PopInput (c : t) : t * option PdoInputPayload :=
  match inputs (store c) with
  | [] => (c, None)
  | x :: l => (on_store (fun s => mkReceived l (busInformation s) (inbox s)) c, Some x)
  end.

Definition PopInputImage (c : t) : t * option PdoImage :=
  let '(b, image) := PopInputImage (inbox (store c)) in
  (on_store (fun s => mkReceived (inputs s) (busInformation s) b) c, image).

Definition PopBusInfo (c : t) : t * option BusInfoPayload :=
  match busInformation (store c) with
  | [] => (c, None)
  | x :: l => (on_store (fun s => mkReceived (inputs s) l (inbox s)) c, Some x)
  end.

(** ** Calls *)

(** A call of the interface, with the answers it will get from the system. [CallMaintain]
    and the background thread poll when connected and connect otherwise. *)
Inductive call :=
| CallConnect (io : ConnectIo)
| CallPoll (io : PollIo)
| CallMaintain (io : PollIo) (io' : ConnectIo)
| CallDisconnect (rounds : list (Z * list send_answer))
| CallHeartbeat (io : RequestIo)
| CallEnableOutputs (io : RequestIo) (enabled : bool)
| CallWriteOutput (io : RequestIo) (busIndex subDeviceIndex offset : Z) (data : bytes)
| CallReleaseControl (io : RequestIo)
| CallSubscribeInputs (io : RequestIo) (enabled : bool) (periodMs : Z)
| CallClearCounters (io : RequestIo)
| CallRescanAdapters (io : RequestIo)
| CallUnlockAdapter (io : RequestIo) (busIndex : Z)
| CallPopInput
| CallPopInputImage
| CallPopBusInfo.

Definition MaintainConnection (io : PollIo) (io' : ConnectIo) (c : t) : t * bool :=
  if connected (session c) then Poll io c else Connect io' c.

Definition perform (x : call) (c : t) : t :=
  match x with
  | CallConnect io => fst (Connect io c)
  | CallPoll io => fst (Poll io c)
  | CallMaintain io io' => fst (MaintainConnection io io' c)
  | CallDisconnect rounds => Disconnect rounds c
  | CallHeartbeat io => fst (SendHeartbeat (Some io) c)
  | CallEnableOutputs io enabled => fst (EnableOutputs io enabled c)
  | CallWriteOutput io busIndex subDeviceIndex offset data =>
      fst (WriteOutput io busIndex subDeviceIndex offset data c)
  | CallReleaseControl io => fst (ReleaseControl io c)
  | CallSubscribeInputs io enabled periodMs => fst (SubscribeInputs io enabled periodMs c)
  | CallClearCounters io => fst (EmptyRequest io ClearCounters c)
  | CallRescanAdapters io => fst (EmptyRequest io AdapterRescan c)
  | CallUnlockAdapter io busIndex => fst (RuntimeUnlockAdapter io busIndex c)
  | CallPopInput => fst (PopInput c)
  | CallPopInputImage => fst (PopInputImage c)
  | CallPopBusInfo => fst (PopBusInfo c)
  end.

(** What the background thread does: the calls of [BackgroundLoop], by what [connected()] said
    just before each. Other calls may come between them. *)
Definition background_call (said_connected : bool) (io : PollIo) (io' : ConnectIo) : call :=
  if said_connected then CallPoll io else CallConnect io'.

Definition BackgroundLoop (turns : list (bool * PollIo * ConnectIo)) (c : t) : t :=
  fold_left (fun c '(said_connected, io, io') => perform (background_call said_connected io io') c) turns c.
End Client.
