(* ===== verification/ClientHandle.v ===== *)
(** The handle of the client library ([Client] of [client.hpp]): an owning pointer to the
    implementation, null after a failed allocation or a move. The objects of a program and the
    implementations they own are a small heap; every implementation has exactly one owner and
    is destroyed exactly once, with its background thread joined and its socket closed. *)

From stdpp Require Import gmap.
From S2P Require Import Prelude Protocol Frame Sockets Assembly ClientLibrary.

(** ** Stopping *)

(** What the teardown of an implementation meets: the last turns of the background thread
    until it is joined, and the answers to the frames of the farewell. *)
Record Teardown := mkTeardown {
  down_turns : list (bool * Client.PollIo * Client.ConnectIo);
  down_rounds : list (Z * list send_answer)
}.

Definition StopAndDisconnect (io : Teardown) (c : Client.t) : Client.t :=
  Client.Disconnect (down_rounds io) (Client.BackgroundLoop (down_turns io) c).

(** ** The interface through the pointer *)

(** [implementation_ != nullptr && implementation_->f()]. *)
Definition forward {A} (f : Client.t -> Client.t * A) (null : A) (p : option Client.t)
    : option Client.t * A :=
  match p with
  | None => (None, null)
  | Some c => let '(c, result) := f c in (Some c, result)
  end.

Definition Connect (io : Client.ConnectIo) := forward (Client.Connect io) false.
Definition MaintainConnection (io : Client.PollIo) (io' : Client.ConnectIo) :=
  forward (Client.MaintainConnection io io') false.
Definition Poll (io : Client.PollIo) := forward (Client.Poll io) false.
Definition Disconnect (io : Teardown) := forward (fun c => (StopAndDisconnect io c, tt)) tt.
Definition Heartbeat (io : Client.RequestIo) := forward (Client.SendHeartbeat (Some io)) false.
Definition EnableOutputs (io : Client.RequestIo) (enabled : bool) :=
  forward (Client.EnableOutputs io enabled) false.
Definition WriteOutput (io : Client.RequestIo) (busIndex subDeviceIndex offset : Z) (data : bytes) :=
  forward (Client.WriteOutput io busIndex subDeviceIndex offset data) false.
Definition ReleaseControl (io : Client.RequestIo) := forward (Client.ReleaseControl io) false.
Definition SubscribeInputs (io : Client.RequestIo) (enabled : bool) (periodMs : Z) :=
  forward (Client.SubscribeInputs io enabled periodMs) false.
Definition ClearCounters (io : Client.RequestIo) :=
  forward (Client.EmptyRequest io Protocol.ClearCounters) false.
Definition RescanAdapters (io : Client.RequestIo) :=
  forward (Client.EmptyRequest io Protocol.AdapterRescan) false.
Definition RuntimeUnlockAdapter (io : Client.RequestIo) (busIndex : Z) :=
  forward (Client.RuntimeUnlockAdapter io busIndex) false.
Definition PopInput := forward Client.PopInput None.
Definition PopInputImage := forward Client.PopInputImage None.
Definition PopBusInfo := forward Client.PopBusInfo None.

(** The accessors, with what they say of a null handle. *)
Definition observe {A} (f : Client.t -> A) (null : A) (p : option Client.t) : A :=
  match p with None => null | Some c => f c end.

Definition connected := observe (fun c => Client.connected (Client.session c)) false.
Definition controllerGranted := observe (fun c => Client.controllerGranted (Client.session c)) false.
Definition outputsEnabled := observe (fun c => Client.outputsEnabled (Client.session c)) false.
Definition epoch := observe (fun c => Client.epoch (Client.session c)) 0.
Definition status := observe (fun c => Client.status (Client.session c)) Client.no_status.
Definition lastError := observe (fun c => Client.lastError (Client.report c)) Client.OutOfMemory.
Definition lastServerStatus := observe (fun c => Client.lastServerStatus (Client.report c)) InternalError.
Definition errorSnapshot := observe Client.report
  (Client.mkReport Client.OutOfMemory InternalError (str "client allocation failed")).

(** ** Objects and what they own *)

(** [objects] are the [Client] objects in scope with their [implementation_]; [owned] the
    implementations that exist; [deleted] and [ended] are the history: the addresses given to
    [delete], and the states in which the destructors left what was there; [fresh] is the next
    address of the allocator. *)
Record heap := mkHeap {
  objects : gmap nat (option nat);
  owned : gmap nat Client.t;
  deleted : list nat;
  ended : list Client.t;
  fresh : nat
}.

(** [delete implementation]. *)
Definition delete_implementation (io : Teardown) (p : option nat) (h : heap) : heap :=
  match p with
  | None => h
  | Some a =>
      mkHeap (objects h) (delete a (owned h)) (deleted h ++ [a])
        (ended h ++ match owned h !! a with None => [] | Some c => [StopAndDisconnect io c] end)
        (fresh h)
  end.

Definition put_object (x : nat) (p : option nat) (h : heap) : heap :=
  mkHeap (<[x := p]> (objects h)) (owned h) (deleted h) (ended h) (fresh h).

(** [Client(options)]: [None] when [new (std::nothrow)] fails or the constructor throws. *)
Definition construct (x : nat) (options : Client.ClientOptions) (allocated : bool) (h : heap) : heap :=
  if allocated
  then mkHeap (<[x := Some (fresh h)]> (objects h)) (<[fresh h := Client.create options]> (owned h))
         (deleted h) (ended h) (S (fresh h))
  else put_object x None h.

(** The pointer of an object in scope. *)
Definition pointer (x : nat) (h : heap) : option nat := default None (objects h !! x).

(** [Client(Client&& other)]: [std::exchange(other.implementation_, nullptr)]. *)
Definition move_construct (x other : nat) (h : heap) : heap :=
  put_object x (pointer other h) (put_object other None h).

(** [operator=(Client&& other)]. *)
Definition move_assign (io : Teardown) (x other : nat) (h : heap) : heap :=
  if negb (x =? other)%nat then
    let h := delete_implementation io (pointer x h) h in
    put_object x (pointer other h) (put_object other None h)
  else h.

(** [~Client()]. *)
Definition destroy (io : Teardown) (x : nat) (h : heap) : heap :=
  let h := delete_implementation io (pointer x h) h in
  mkHeap (delete x (objects h)) (owned h) (deleted h) (ended h) (fresh h).

(** A call of the interface through [x]. *)
Definition use (f : Client.t -> Client.t) (x : nat) (h : heap) : heap :=
  match pointer x h with
  | None => h
  | Some a => mkHeap (objects h) (alter f a (owned h)) (deleted h) (ended h) (fresh h)
  end.

(** What a program may do: construct an object that is not in scope, and name only objects
    that are. *)
Inductive heap_step (h : heap) : heap -> Prop :=
| step_construct x options allocated :
    objects h !! x = None -> heap_step h (construct x options allocated h)
| step_move_construct x other :
    objects h !! x = None -> is_Some (objects h !! other) -> heap_step h (move_construct x other h)
| step_move_assign io x other :
    is_Some (objects h !! x) -> is_Some (objects h !! other) -> heap_step h (move_assign io x other h)
| step_destroy io x : is_Some (objects h !! x) -> heap_step h (destroy io x h)
| step_use f x : is_Some (objects h !! x) -> heap_step h (use f x h).

Inductive heap_reached : heap -> Prop :=
| heap_empty : heap_reached (mkHeap ∅ ∅ [] [] O)
| heap_next h h' : heap_reached h -> heap_step h h' -> heap_reached h'.

(** ** Ownership *)

(** An implementation that was torn down: no socket, no session. *)
Definition torn_down (c : Client.t) : Prop :=
  Client.open (Client.channel c) = false /\ Client.connected (Client.session c) = false /\
  Client.controllerGranted (Client.session c) = false.

Lemma StopAndDisconnect_torn_down io c : torn_down (StopAndDisconnect io c).
Proof. unfold StopAndDisconnect, Client.Disconnect. by destruct (_ && _). Qed.

Record heap_inv (h : heap) : Prop := {
  own_live x a : objects h !! x = Some (Some a) -> is_Some (owned h !! a);
  own_one x y a : objects h !! x = Some (Some a) -> objects h !! y = Some (Some a) -> x = y;
  own_all a : is_Some (owned h !! a) -> exists x, objects h !! x = Some (Some a);
  own_fresh a : is_Some (owned h !! a) -> (a < fresh h)%nat;
  own_deleted a : a ∈ deleted h -> owned h !! a = None /\ (a < fresh h)%nat;
  own_once : NoDup (deleted h);
  own_ended : length (ended h) = length (deleted h) /\ Forall torn_down (ended h)
}.

(** The implementation of [x] is deleted and its pointer cleared. *)
Lemma delete_inv io x p h :
  heap_inv h -> objects h !! x = Some p -> heap_inv (put_object x None (delete_implementation io p h)).
Proof.
  intros [L O A F D N E] Hx. destruct p as [a|].
  - destruct (L x a Hx) as [c Hc]. split; cbn.
    + intros y b. rewrite lookup_insert_Some. intros [[_ [=]]|[Hne Hy]].
      destruct (L y b Hy) as [c' Hc']. exists c'. rewrite lookup_delete_ne; [done|]. intros ->.
      by destruct Hne; apply (O x y b).
    + intros y z b. rewrite !lookup_insert_Some. intros [[_ [=]]|[_ Hy]] [[_ [=]]|[_ Hz]]. by apply (O y z b).
    + intros b [c' Hb]. apply lookup_delete_Some in Hb as [Hne Hb].
      destruct (A b ltac:(by exists c')) as [y Hy]. exists y. rewrite lookup_insert_ne; [done|].
      intros ->. congruence.
    + intros b [c' Hb]. apply lookup_delete_Some in Hb as [_ Hb]. apply F. by exists c'.
    + intros b Hb. apply elem_of_app in Hb as [Hb|Hb%list_elem_of_singleton].
      * destruct (D b Hb) as [H1 H2]. split; [|done]. by apply lookup_delete_None; right.
      * subst b. split; [apply lookup_delete_None; by left|]. apply F. by exists c.
    + apply NoDup_app. split_and!; [done| |apply NoDup_singleton].
      intros b Hb Hs%list_elem_of_singleton. subst b. destruct (D a Hb). congruence.
    + rewrite Hc, !length_app. destruct E as [E1 E2]. split; [cbn; lia|].
      apply Forall_app. split; [done|]. constructor; [apply StopAndDisconnect_torn_down|done].
  - split; cbn; try done.
    + intros y b. rewrite lookup_insert_Some. intros [[_ [=]]|[_ Hy]]. by apply (L y).
    + intros y z b. rewrite !lookup_insert_Some. intros [[_ [=]]|[_ Hy]] [[_ [=]]|[_ Hz]]. by apply (O y z b).
    + intros b Hb. destruct (A b Hb) as [y Hy]. exists y. rewrite lookup_insert_ne; [done|]. congruence.
Qed.

(** The implementation passes from [other] to [x], which has none. *)
Lemma transfer_inv x other p h :
  heap_inv h -> default None (objects h !! x) = None -> objects h !! other = Some p -> x <> other ->
  heap_inv (put_object x p (put_object other None h)).
Proof.
  intros [L O A F D N E] Hx Ho Hne.
  assert (forall y a, <[x:=p]> (<[other:=None]> (objects h)) !! y = Some (Some a) ->
            y = x /\ objects h !! other = Some (Some a) \/
            y <> x /\ y <> other /\ objects h !! y = Some (Some a)) as Hlook.
  { intros y a. rewrite !lookup_insert_Some. intros [[<- ->]|[? [[_ [=]]|[? ?]]]]; [by left|right]. auto. }
  split; cbn; try done.
  - intros y a [[_ H]|(_ & _ & H)]%Hlook; by eapply L.
  - intros y z a [[-> H]|(H1 & H2 & H)]%Hlook [[-> H']|(H1' & H2' & H')]%Hlook; try done.
    + by destruct H2'; apply (O z other a).
    + by destruct H2; apply (O y other a).
    + by apply (O y z a).
  - intros a Ha. destruct (A a Ha) as [y Hy]. destruct (decide (y = other)) as [->|Hyo].
    + exists x. rewrite lookup_insert_eq. congruence.
    + exists y. rewrite lookup_insert_ne, lookup_insert_ne; [done|done|]. intros ->. by rewrite Hy in Hx.
Qed.

(** An object without an implementation comes or goes. *)
Lemma null_inv (o : gmap nat (option nat)) h :
  heap_inv h -> (forall x a, o !! x = Some (Some a) <-> objects h !! x = Some (Some a)) ->
  heap_inv (mkHeap o (owned h) (deleted h) (ended h) (fresh h)).
Proof.
  intros [L O A F D N E] H. split; cbn; try done.
  - intros x a Hx. apply (L x). by apply H.
  - intros x y a Hx Hy. apply (O x y a); by apply H.
  - intros a Ha. destruct (A a Ha) as [x Hx]. exists x. by apply H.
Qed.

Lemma pointer_Some x h : is_Some (objects h !! x) -> objects h !! x = Some (pointer x h).
Proof. unfold pointer. by intros [p ->]. Qed.

Lemma construct_inv x options allocated h :
  heap_inv h -> objects h !! x = None -> heap_inv (construct x options allocated h).
Proof.
  intros Hi Hx. destruct allocated; cbn [construct].
  2: { apply null_inv; [done|]. intros y a. rewrite lookup_insert_Some. split; [by intros [[_ [=]]|[_ ?]]|].
       intros Hy. right. split; [|done]. congruence. }
  destruct Hi as [L O A F D N E].
  assert (forall y, objects h !! y <> Some (Some (fresh h))) as Hnew.
  { intros y Hy. specialize (F _ (L _ _ Hy)). lia. }
  split; cbn; try done.
  - intros y a. rewrite lookup_insert_Some. intros [[<- [= <-]]|[_ Hy]]; [rewrite lookup_insert_eq; eauto|].
    rewrite lookup_insert_is_Some'. right. by apply (L y).
  - intros y z a. rewrite !lookup_insert_Some.
    intros [[Exy Ey]|[_ Hy]] [[Exz Ez]|[_ Hz]].
    + congruence.
    + injection Ey as <-. by apply Hnew in Hz.
    + injection Ez as <-. by apply Hnew in Hy.
    + by apply (O y z a).
  - intros a. rewrite lookup_insert_is_Some'. intros [<-|Ha]; [exists x; apply lookup_insert_eq|].
    destruct (A a Ha) as [y Hy]. exists y. rewrite lookup_insert_ne; [done|]. congruence.
  - intros a. rewrite lookup_insert_is_Some'. intros [<-|Ha]; [lia|]. specialize (F a Ha). lia.
  - intros a Ha. destruct (D a Ha) as [H1 H2]. split; [|lia]. rewrite lookup_insert_ne; [done|]. lia.
Qed.

Lemma move_assign_inv io x other h :
  heap_inv h -> is_Some (objects h !! x) -> is_Some (objects h !! other) ->
  heap_inv (move_assign io x other h).
Proof.
  intros Hi Hx Ho. unfold move_assign. destruct (Nat.eqb_spec x other) as [|Hne]; [done|]. cbn [negb].
  pose proof (delete_inv io x _ h Hi (pointer_Some x h Hx)) as Hd.
  assert (objects (delete_implementation io (pointer x h) h) = objects h) as Eo by (by destruct (pointer x h)).
  set (h1 := delete_implementation io (pointer x h) h) in *. clearbody h1.
  assert (pointer other h1 = pointer other h) as Ep by (unfold pointer; by rewrite Eo).
  pose proof (transfer_inv x other (pointer other h1) (put_object x None h1) Hd) as Ht.
  replace (put_object x (pointer other h1) (put_object other None h1))
    with (put_object x (pointer other h1) (put_object other None (put_object x None h1))).
  - apply Ht; [by cbn; rewrite lookup_insert_eq| |done]. cbn. rewrite lookup_insert_ne by done.
    rewrite Ep, Eo. by apply pointer_Some.
  - unfold put_object. cbn. f_equal. rewrite (insert_insert_ne _ other x) by done. apply insert_insert_eq.
Qed.

Lemma destroy_inv io x h : heap_inv h -> is_Some (objects h !! x) -> heap_inv (destroy io x h).
Proof.
  intros Hi Hx. pose proof (delete_inv io x _ h Hi (pointer_Some x h Hx)) as Hd. unfold destroy.
  set (h1 := delete_implementation io (pointer x h) h) in *. clearbody h1.
  apply (null_inv (delete x (objects h1))) in Hd; [exact Hd|]. intros y a. cbn.
  rewrite lookup_delete_Some, lookup_insert_Some. split.
  - intros [H1 H2]. by right.
  - by intros [[_ [=]]|H].
Qed.

Lemma use_inv f x h : heap_inv h -> heap_inv (use f x h).
Proof.
  intros [L O A F D N E]. unfold use. destruct (pointer x h) as [a|]; [|done]. split; cbn; try done.
  - intros y b Hy. apply lookup_alter_is_Some. by apply (L y).
  - intros b Hb%lookup_alter_is_Some. by apply A.
  - intros b Hb%lookup_alter_is_Some. by apply F.
  - intros b Hb. destruct (D b Hb) as [H1 H2]. split; [|done]. by apply lookup_alter_None.
Qed.

Lemma heap_reached_inv h : heap_reached h -> heap_inv h.
Proof.
  intros Hr. induction Hr as [|h h' _ IH Hs].
  - split; cbn; try done.
    + intros a [c Hc]. by rewrite lookup_empty in Hc.
    + intros a [c Hc]. by rewrite lookup_empty in Hc.
    + intros a Ha. by apply elem_of_nil in Ha.
    + constructor.
  - destruct Hs as [x o al Hx|x other Hx Ho|io x other Hx Ho|io x Hx|f x Hx].
    + by apply construct_inv.
    + unfold move_construct. apply transfer_inv; [done|by rewrite Hx|by apply pointer_Some|].
      intros ->. rewrite Hx in Ho. by destruct Ho.
    + by apply move_assign_inv.
    + by apply destroy_inv.
    + by apply use_inv.
Qed.

(** ** Properties *)

(** Ownership of client implementations: whatever a program does with client objects
    (construct, move, assign, also to itself, use and destroy), no object ever points to a
    deleted implementation, no two objects own the same one, none is leaked, none is deleted
    twice, and each one deleted had been torn down: its socket closed and its session over. *)
Theorem clients_owned_once h :
  heap_reached h ->
  (forall x a, objects h !! x = Some (Some a) -> is_Some (owned h !! a)) /\
  (forall a, is_Some (owned h !! a) -> exists! x, objects h !! x = Some (Some a)) /\
  NoDup (deleted h) /\ (forall a, a ∈ deleted h -> owned h !! a = None) /\
  length (ended h) = length (deleted h) /\ Forall torn_down (ended h).
Proof.
  intros Hr. apply heap_reached_inv in Hr as [L O A F D N [E1 E2]]. split_and!; try done.
  - intros a Ha. destruct (A a Ha) as [x Hx]. exists x. split; [done|]. intros y Hy. by apply (O x y a).
  - intros a Ha. by apply D.
Qed.

(** An object is constructed, moved from, assigned back, assigned to itself and destroyed. *)
Definition sample_options : Client.ClientOptions :=
  Client.mkOptions [] Observer false 0 50 50 1000 1000 1000.

Definition sample_quiet : Teardown := mkTeardown [] [].

Definition sample_heap : heap :=
  destroy sample_quiet 0 (move_assign sample_quiet 0 0 (move_assign sample_quiet 0 1
    (move_construct 1 0 (construct 0 sample_options true (mkHeap ∅ ∅ [] [] O))))).

Lemma clients_owned_once_witness : heap_reached sample_heap /\ NoDup (deleted sample_heap) /\
  deleted sample_heap = [0%nat] /\ Forall torn_down (ended sample_heap).
Proof.
  assert (heap_reached sample_heap) as H.
  { eapply heap_next; [|apply step_destroy; eexists; by vm_compute].
    eapply heap_next; [|apply step_move_assign; eexists; by vm_compute].
    eapply heap_next; [|apply step_move_assign; eexists; by vm_compute].
    eapply heap_next; [|apply step_move_construct; [by vm_compute|eexists; by vm_compute]].
    eapply heap_next; [apply heap_empty|]. by apply step_construct. }
  split; [exact H|]. destruct (clients_owned_once sample_heap H) as (_ & _ & H1 & _ & _ & H2).
  split; [exact H1|]. split; [by vm_compute|exact H2].
Defined.
