(* ===== verification/ClientSession.v ===== *)
(** What the client library guarantees, whatever the server, the network and the clock do:
    the invariant of [Client.t], kept by every call, and the theorems about every state that
    calls can reach. *)

From S2P Require Import Prelude Protocol Codec Payloads Frame Sockets Assembly ClientLibrary.
Import Client.

(** ** What a connection may carry *)

(** A command of a controller session of epoch [e]. *)
Inductive speaks (e : Z) : MessageType -> bytes -> Prop :=
| say_heartbeat : speaks e Heartbeat (EncodeEpochPayload e)
| say_enable b : speaks e OutputEnable (EncodeOutputEnablePayload (mkOutputEnable e b))
| say_write bus sub offset data :
    speaks e OutputWrite (EncodeOutputWritePayload (mkOutputWrite e bus sub offset data))
| say_release : speaks e Protocol.ReleaseControl (EncodeEpochPayload e)
| say_unlock bus : speaks e AdapterUnlock (EncodeAdapterUnlockPayload (mkAdapterUnlock e bus)).

(** Requests that need no control. *)
Definition harmless (type : MessageType) : Prop :=
  type = Protocol.SubscribeInputs \/ type = ClearCounters \/ type = AdapterRescan.

(** The server has granted a session of epoch [e], for which the heartbeat period leaves room
    for two heartbeats in the server's timeout. *)
Definition welcomed (heard : list Frame) (e period : Z) : Prop :=
  exists f a, f ∈ heard /\ frame_type f = HelloAck /\
    DecodeHelloAckPayload (frame_payload f) = Some a /\ helloack_epoch a = e /\
    10 <= period /\ 2 * period < helloack_heartbeatTimeoutMs a.

(** It has granted control. *)
Definition granted (heard : list Frame) (e : Z) : Prop :=
  exists f a, f ∈ heard /\ frame_type f = HelloAck /\
    DecodeHelloAckPayload (frame_payload f) = Some a /\ helloack_epoch a = e /\
    helloack_grantedRole a = Controller.

(** A frame that follows the HELLO. *)
Definition command_ok (heard : list Frame) (frame : bytes) : Prop :=
  exists type id payload, frame = EncodeFrame type id payload /\
    (harmless type \/ exists e, granted heard e /\ speaks e type payload).

(** A connection starts with a HELLO; each command after it belongs to a session that the
    server granted on this very connection. *)
Definition script_ok (t : Transcript) : Prop :=
  match queued t with
  | [] => True
  | first :: commands =>
      (exists id hello, first = EncodeFrame Hello id (EncodeHelloPayload hello)) /\
      Forall (command_ok (heard t)) commands
  end.

Definition transcript_ok (t : Transcript) : Prop :=
  wire t `prefix_of` concat (queued t) /\ script_ok t.

(** ** The invariant *)

(** The messages about inputs among the frames received. *)
Definition input_of (f : Frame) : option PdoInputPayload :=
  if bool_decide (frame_type f = PdoInput)
  then DecodePdoInputPayload kMaximumPdoImage (frame_payload f) else None.

Definition all_heard (c : Client.t) : list Frame :=
  concat (map heard (past c)) ++ heard (line c).

Record store_ok (inputs_heard : list PdoInputPayload) (s : Received) : Prop := {
  store_inputs : zlen (inputs s) <= kMaximumReceivedInputs;
  store_information : zlen (busInformation s) <= kMaximumReceivedBusInformation;
  store_inbox : inbox_ok inputs_heard (inbox s)
}.

(** The delays stay in the range of the options. *)
Definition schedule_ok (o : ClientOptions) (s : Schedule) : Prop :=
  10 <= effectiveHeartbeatPeriod s /\
  (0 < initialReconnectBackoff o <= maximumReconnectBackoff o ->
   initialReconnectBackoff o <= reconnectBackoff s <= maximumReconnectBackoff o).

Record common (c : Client.t) : Prop := {
  common_past : Forall transcript_ok (past c);
  common_store : store_ok (omap input_of (all_heard c)) (store c);
  common_schedule : schedule_ok (options c) (schedule c)
}.

Record channel_ok (k : Channel) : Prop := {
  channel_cursor : cursor_ok (outgoing k) (outgoingOffset k);
  channel_bytes : outgoingBytes k = zlen (unsent (outgoing k) (outgoingOffset k));
  channel_limit : outgoingBytes k <= kMaximumClientQueue;
  channel_acknowledgements : zlen (acknowledgements k) <= 128;
  channel_heartbeats : zlen (heartbeatRequests k) <= 16;
  channel_decoder : decoder_inv (decoder k)
}.

(** Every acknowledgement kept was received on this connection. *)
Definition acknowledged (heard : list Frame) (a : Z * AckStatus) : Prop :=
  exists f p, f ∈ heard /\ (frame_type f = Ack \/ frame_type f = Error) /\
    frame_requestId f = fst a /\ DecodeAckPayload (frame_payload f) = Some p /\
    ack_status p = snd a.

(** The connection is up: all that was queued is on the wire or pending, and once the
    server has said hello the session is one it granted on this connection. *)
Record active (c : Client.t) : Prop := {
  active_common : common c;
  active_open : open (channel c) = true;
  active_channel : channel_ok (channel c);
  active_live : concat (queued (line c)) =
                wire (line c) ++ unsent (outgoing (channel c)) (outgoingOffset (channel c));
  active_script : script_ok (line c);
  active_acks : Forall (acknowledged (heard (line c))) (acknowledgements (channel c));
  active_session : helloReceived (channel c) = true ->
    welcomed (heard (line c)) (epoch (session c)) (effectiveHeartbeatPeriod (schedule c));
  active_granted : controllerGranted (session c) = true ->
    granted (heard (line c)) (epoch (session c))
}.

(** There is no connection. *)
Record shut (c : Client.t) : Prop := {
  shut_common : common c;
  shut_channel : channel c = closed_channel;
  shut_line : line c = quiet_line;
  shut_session : connected (session c) = false /\ controllerGranted (session c) = false /\
                 outputsEnabled (session c) = false
}.

(** What can be closed. *)
Record breakable (c : Client.t) : Prop := {
  breakable_common : common c;
  breakable_line : transcript_ok (line c);
  breakable_closed : open (channel c) = false -> line c = quiet_line
}.

(** The session was given up while the socket is still open; nothing is queued. *)
Record stale (c : Client.t) : Prop := {
  stale_breakable : breakable c;
  stale_queue : outgoing (channel c) = [] /\ outgoingBytes (channel c) = 0;
  stale_session : connected (session c) = false /\ controllerGranted (session c) = false /\
                  outputsEnabled (session c) = false
}.

(** ** Lemmas on the parts *)

Lemma common_same c c' :
  past c' = past c -> line c' = line c -> store c' = store c -> schedule c' = schedule c ->
  options c' = options c -> common c -> common c'.
Proof. intros E1 E2 E3 E4 E5 []. split; unfold all_heard in *; by rewrite ?E1, ?E2, ?E3, ?E4, ?E5. Qed.

Lemma store_ok_more l l' s : (forall x, x ∈ l -> x ∈ l') -> store_ok l s -> store_ok l' s.
Proof. intros H []. split; [done|done|]. by eapply inbox_ok_more. Qed.

Lemma nothing_ok l : store_ok l nothing_received.
Proof. split; [done|done|apply empty_inbox_ok]. Qed.

Lemma quiet_line_ok : transcript_ok quiet_line.
Proof. split; [apply prefix_nil|done]. Qed.

Lemma closed_channel_ok : channel_ok closed_channel.
Proof.
  split; [apply cursor_nil|done|done|done|done|].
  split_and!; [apply bytes_ok_nil|by vm_compute|by left].
Qed.

Lemma granted_more heard f e : granted heard e -> granted (heard ++ [f]) e.
Proof. intros (x & a & Hx & H). exists x, a. split; [|done]. apply elem_of_app. by left. Qed.

Lemma welcomed_more heard f e p : welcomed heard e p -> welcomed (heard ++ [f]) e p.
Proof. intros (x & a & Hx & H). exists x, a. split; [|done]. apply elem_of_app. by left. Qed.

Lemma acknowledged_more heard f a : acknowledged heard a -> acknowledged (heard ++ [f]) a.
Proof. intros (x & p & Hx & H). exists x, p. split; [|done]. apply elem_of_app. by left. Qed.

Lemma script_more q w w' heard f :
  script_ok (mkTranscript q w heard) -> script_ok (mkTranscript q w' (heard ++ [f])).
Proof.
  unfold script_ok. cbn. destruct q as [|x q]; [done|]. intros [H1 H2]. split; [done|].
  eapply Forall_impl; [exact H2|]. intros y (type & id & payload & -> & H).
  exists type, id, payload. split; [done|]. destruct H as [H|(e & H & Hs)]; [by left|right].
  exists e. split; [by apply granted_more|done].
Qed.

Lemma active_breakable c : active c -> breakable c.
Proof.
  intros []. split; [done| |by rewrite active_open0].
  split; [|done]. rewrite active_live0. by apply prefix_app_r.
Qed.

Lemma shut_breakable c : shut c -> breakable c.
Proof. intros [? ? E ?]. split; [done| |done]. rewrite E. apply quiet_line_ok. Qed.

Create HintDb client.
#[local] Hint Resolve active_breakable shut_breakable stale_breakable : client.

(** ** Closing *)

Lemma hang_up_heard c : all_heard (hang_up c) = all_heard c.
Proof. unfold all_heard. cbn. by rewrite map_app, concat_app, app_nil_r; cbn; rewrite app_nil_r. Qed.

Lemma CloseSocket_spec c :
  breakable c ->
  common (CloseSocket c) /\ channel (CloseSocket c) = closed_channel /\
  line (CloseSocket c) = quiet_line /\ session (CloseSocket c) = session c /\
  options (CloseSocket c) = options c /\ schedule (CloseSocket c) = schedule c /\
  past (CloseSocket c) = past c ++ (if open (channel c) then [line c] else []).
Proof.
  intros [[Hp Hs Hc] Ht Hq]. unfold CloseSocket. destruct (open (channel c)) eqn:E.
  - split_and!; try done. eapply (common_same (hang_up c)); try done. split; cbn [hang_up past]; [|by rewrite hang_up_heard|done].
    by apply Forall_app_2, Forall_singleton.
  - specialize (Hq eq_refl). rewrite app_nil_r. by split_and!.
Qed.

Lemma backoff_ok now c : common c -> common (ScheduleReconnect now c).
Proof.
  intros [Hp Hs [Hc Hb]]. split; [done|done|]. split; [done|]. cbn. intros Hi. specialize (Hb Hi).
  destruct (_ <? _) eqn:E; [lia|]. lia.
Qed.

Lemma HandleDisconnect_shut now c :
  breakable c ->
  shut (HandleDisconnect now c) /\ epoch (session (HandleDisconnect now c)) = 0 /\
  store (HandleDisconnect now c) = nothing_received /\
  past (HandleDisconnect now c) = past c ++ (if open (channel c) then [line c] else []).
Proof.
  intros Hb. destruct (CloseSocket_spec c Hb) as (Hc & H1 & H2 & H3 & H4 & H5 & H6).
  unfold HandleDisconnect. split_and!; try done.
  split; try done. apply backoff_ok. split; cbn [past on_store on_session].
  - apply (common_past _ Hc).
  - apply nothing_ok.
  - apply (common_schedule _ Hc).
Qed.

(** ** What happens to a connection *)

(** It goes on. *)
Record kept (c c' : Client.t) : Prop := {
  kept_connected : connected (session c') = connected (session c);
  kept_queued : queued (line c') = queued (line c);
  kept_heard : heard (line c) `prefix_of` heard (line c');
  kept_past : past c' = past c;
  kept_options : options c' = options c;
  kept_hello : helloReceived (channel c) = true -> helloReceived (channel c') = true;
  kept_enabled : outputsEnabled (session c') = true -> outputsEnabled (session c) = true;
  kept_control : helloReceived (channel c') = false ->
                 controllerGranted (session c') = controllerGranted (session c)
}.

(** It is closed; its transcript is the last of the past. *)
Record broken (c c' : Client.t) : Prop := {
  broken_shut : shut c';
  broken_options : options c' = options c;
  broken_past : exists l, past c' = past c ++ [l] /\ queued l = queued (line c) /\
                heard (line c) `prefix_of` heard l
}.

(** [true] for a connection that goes on, [false] for one that is closed. *)
Definition outcome (c : Client.t) (r : Client.t * bool) : Prop :=
  if snd r then active (fst r) /\ kept c (fst r) else broken c (fst r).

Lemma kept_refl c : kept c c.
Proof. by split. Qed.

Lemma kept_trans c1 c2 c3 : kept c1 c2 -> kept c2 c3 -> kept c1 c3.
Proof.
  intros [] []. split; try congruence; [by etrans|auto|auto|]. intros Hh.
  rewrite kept_control1 by done. apply kept_control0.
  destruct (helloReceived (channel c2)) eqn:E; [|done]. by rewrite kept_hello1 in Hh.
Qed.

Lemma kept_broken c1 c2 c3 : kept c1 c2 -> broken c2 c3 -> broken c1 c3.
Proof.
  intros [E1 E2 E3 E4 E5 _ _ _] [H1 H2 (l & H3 & H4 & H5)]. split; [done|congruence|].
  exists l. split_and!; [congruence|congruence|by etrans].
Qed.

Lemma outcome_after c1 c2 r : kept c1 c2 -> outcome c2 r -> outcome c1 r.
Proof.
  intros Hk. unfold outcome. destruct (snd r); [|by apply kept_broken].
  intros [? ?]. split; [done|by eapply kept_trans].
Qed.

Lemma broken_report r c c' : broken c c' -> broken c (set_report r c').
Proof.
  intros [[H1 H2 H3 H4] H5 H6]. split; try done. split; try done. by apply (common_same c').
Qed.

(** Closing a connection that is open. *)
Lemma disconnect_broken now c c' :
  breakable c' -> open (channel c') = true -> queued (line c') = queued (line c) ->
  heard (line c) `prefix_of` heard (line c') -> past c' = past c -> options c' = options c ->
  broken c (HandleDisconnect now c').
Proof.
  intros Hb Ho Hq Hh Hp Hopt. destruct (HandleDisconnect_shut now c' Hb) as (H1 & _ & _ & H4).
  rewrite Ho in H4. destruct (CloseSocket_spec c' Hb) as (_ & _ & _ & _ & H5 & _).
  split; [done| |].
  { change (options (CloseSocket c') = options c). by rewrite H5. }
  exists (line c'). by rewrite H4, Hp.
Qed.

Lemma disconnect_active now c : active c -> broken c (HandleDisconnect now c).
Proof. intros H. apply disconnect_broken; try done; [by apply active_breakable|by destruct H]. Qed.

Lemma failed_outcome e m c c' : broken c c' -> outcome c (failed e m c').
Proof. apply broken_report. Qed.

(** ** Sending *)

Lemma taken_ok room c :
  active c -> outgoing (channel c) <> [] ->
  send_count_ok (taken room (channel c)) (outgoing (channel c)) (outgoingOffset (channel c)).
Proof.
  intros [_ _ [[_ ? Hh] _ _ _ _ _] _ _ _ _ _] Hne. unfold send_count_ok, taken.
  destruct (outgoing (channel c)) as [|f fs]; [done|]. cbn in *. unfold id in *. lia.
Qed.

Lemma advance_active room c :
  active c -> outgoing (channel c) <> [] -> taken room (channel c) <> 0 ->
  active (advance (taken room (channel c)) c) /\ kept c (advance (taken room (channel c)) c).
Proof.
  intros Ha Hne Hz. pose proof (taken_ok room c Ha Hne) as Hn.
  set (n := taken room (channel c)) in *. destruct Ha as [Hc Ho [K1 K2 K3 K4 K5 K6] Hl Hs Hk Hse Hg].
  destruct (cursor_sent n _ _ K1 Hne Hn Hz) as [K1' Hp]. pose proof (sent_bytes_length n _ _ K1 Hn) as Hlen.
  split; [|by split].
  assert (Hsz : outgoingBytes (channel c) - n =
    zlen (unsent (sent_frames n (outgoing (channel c)) (outgoingOffset (channel c)))
      (sent_offset n (outgoing (channel c)) (outgoingOffset (channel c))))).
  { rewrite K2, Hp, zlen_app. lia. }
  assert (0 <= n) by (unfold send_count_ok in Hn; lia).
  split; try done.
  - destruct Hc as [C1 C2 C3]. by split.
  - split; cbn [advance channel on_line on_channel outgoing outgoingOffset outgoingBytes]; try done. lia.
  - cbn [advance line on_line channel on_channel queued wire outgoing outgoingOffset].
    by rewrite <- app_assoc, <- Hp.
Qed.

Lemma Flush_outcome now answers c : active c -> outcome c (Flush now answers c).
Proof.
  revert c. induction answers as [|a answers IH]; intros c Ha; cbn [Flush];
    rewrite (active_open c Ha); cbn [negb orb].
  { case_bool_decide; split; [done|apply kept_refl|done|apply kept_refl]. }
  case_bool_decide as Hne; [by split; [|apply kept_refl]|]. destruct a as [room| | |].
  - destruct (Z.eqb_spec (taken room (channel c)) 0) as [Hz|Hz].
    + by apply failed_outcome, disconnect_active.
    + destruct (advance_active room c Ha Hne Hz). eapply outcome_after; [done|by apply IH].
  - by split; [|apply kept_refl].
  - by apply IH.
  - by apply failed_outcome, disconnect_active.
Qed.

(** [command] may be queued on the connection. *)
Definition may_say (c : Client.t) (frame : bytes) : Prop :=
  match queued (line c) with
  | [] => exists id hello, frame = EncodeFrame Hello id (EncodeHelloPayload hello)
  | _ => command_ok (heard (line c)) frame
  end.

Lemma Queue_true frame c c' :
  Queue frame c = (c', true) -> active c -> may_say c frame ->
  active c' /\ queued (line c') = queued (line c) ++ [frame] /\ heard (line c') = heard (line c) /\
  past c' = past c /\ options c' = options c /\ session c' = session c /\ schedule c' = schedule c /\
  frame <> [].
Proof.
  unfold Queue. destruct (_ || _ || _) eqn:E; [done|]. intros [= <-] Ha Hm.
  apply orb_false_iff in E as [[_ Hf]%orb_false_iff Hroom]. apply bool_decide_eq_false_1 in Hf.
  destruct Ha as [Hc Ho [K1 K2 K3 K4 K5 K6] Hl Hs Hk Hse Hg].
  split; [|by split_and!]. split; try done.
  - destruct Hc as [C1 C2 C3]. by split.
  - split; cbn [channel on_line on_channel outgoing outgoingOffset outgoingBytes]; try done.
    + by apply cursor_app, Forall_singleton.
    + rewrite unsent_app, zlen_app by done. cbn [concat]. rewrite app_nil_r. lia.
    + lia.
  - cbn [line on_line channel on_channel queued wire outgoing outgoingOffset].
    rewrite unsent_app by done. by rewrite concat_app, Hl, app_assoc.
  - unfold script_ok, may_say in *. cbn [line on_line on_channel queued heard] in *.
    destruct (queued (line c)) as [|x q] eqn:Eq; cbn [app]; [by split|].
    destruct Hs as [H1 H2]. split; [done|]. by apply Forall_app_2, Forall_singleton.
Qed.

Lemma Queue_false frame c c' :
  Queue frame c = (c', false) -> c' = Fail OutOfMemory (str "client output queue is full") InternalError c.
Proof. unfold Queue, failed. destruct (_ || _ || _); intros E; [by injection E|discriminate E]. Qed.

(** ** Receiving *)

(** The connection is to be closed. *)
Record dropped (c c' : Client.t) : Prop := {
  dropped_breakable : breakable c';
  dropped_open : open (channel c') = true;
  dropped_queued : queued (line c') = queued (line c);
  dropped_heard : heard (line c) `prefix_of` heard (line c');
  dropped_past : past c' = past c;
  dropped_options : options c' = options c
}.

Definition processed (c : Client.t) (r : Client.t * bool) : Prop :=
  if snd r then active (fst r) /\ kept c (fst r) else dropped c (fst r).

Lemma active_dropped c c' : active c' -> kept c c' -> dropped c c'.
Proof. intros Ha []. split; try done; [by apply active_breakable|by destruct Ha]. Qed.

Lemma dropped_report r c c' : dropped c c' -> dropped c (set_report r c').
Proof. intros [[H1 H2 H3] ? ? ? ? ?]. split; try done. split; try done. by apply (common_same c'). Qed.

Lemma dropped_session f c c' : dropped c c' -> dropped c (on_session f c').
Proof. intros [[H1 H2 H3] ? ? ? ? ?]. split; try done. split; try done. by apply (common_same c'). Qed.

Lemma dropped_invalid e c c' : dropped c c' -> dropped c (InvalidateSession e c').
Proof.
  intros [[H1 H2 H3] ? ? ? ? ?]. split; try done. split; try done.
  destruct H1 as [C1 C2 C3]. split; try done. apply nothing_ok.
Qed.

Lemma failed_processed e m c c' : active c' -> kept c c' -> processed c (failed e m c').
Proof. intros Ha Hk. by apply dropped_report, active_dropped. Qed.

Lemma processed_after c1 c2 r : kept c1 c2 -> processed c2 r -> processed c1 r.
Proof.
  intros Hk. unfold processed. destruct (snd r).
  - intros [? ?]. split; [done|by eapply kept_trans].
  - destruct Hk as [? E1 E2 E3 E4 _ _ _]. intros [? ? F1 F2 F3 F4].
    split; try done; try congruence. by etrans.
Qed.

(** Changing the session, the channel, the store. *)
Lemma session_active f c :
  active c ->
  (controllerGranted (f (session c)) = true -> granted (heard (line c)) (epoch (f (session c)))) ->
  (helloReceived (channel c) = true ->
   welcomed (heard (line c)) (epoch (f (session c))) (effectiveHeartbeatPeriod (schedule c))) ->
  active (on_session f c).
Proof. intros [] ? ?. split; try done. by apply (common_same c). Qed.

Lemma channel_active f c :
  active c -> channel_ok (f (channel c)) -> open (f (channel c)) = true ->
  outgoing (f (channel c)) = outgoing (channel c) ->
  outgoingOffset (f (channel c)) = outgoingOffset (channel c) ->
  helloReceived (f (channel c)) = helloReceived (channel c) ->
  Forall (acknowledged (heard (line c))) (acknowledgements (f (channel c))) ->
  active (on_channel f c).
Proof.
  intros [] Hk Ho E1 E2 E3 E4. split; cbn [channel on_channel line session schedule]; try done.
  - by apply (common_same c).
  - by rewrite E1, E2.
  - by rewrite E3.
Qed.

Lemma store_active f c :
  active c -> store_ok (omap input_of (all_heard c)) (f (store c)) -> active (on_store f c).
Proof. intros [[C1 C2 C3]] ?. by split. Qed.

Lemma report_active r c : active c -> active (set_report r c).
Proof. intros []. split; try done. by apply (common_same c). Qed.

Definition hear (f : Frame) (c : Client.t) : Client.t :=
  on_line (fun l => mkTranscript (queued l) (wire l) (heard l ++ [f])) c.

Lemma elem_of_omap_app {A B} (f : A -> option B) l k x :
  x ∈ omap f l -> x ∈ omap f (l ++ k).
Proof. rewrite omap_app. intros. apply elem_of_app. by left. Qed.

Lemma hear_heard f c : all_heard (hear f c) = all_heard c ++ [f].
Proof. unfold all_heard. cbn [hear on_line line past heard]. by rewrite app_assoc. Qed.

Lemma hear_active f c : active c -> active (hear f c) /\ kept c (hear f c).
Proof.
  intros [[C1 C2 C3] Ho K Hl Hs Hk Hse Hg]. split; [|by split; try done; apply prefix_app_r].
  split; try done.
  - split; [done| |done]. rewrite hear_heard. eapply store_ok_more; [|exact C2].
    intros x. apply elem_of_omap_app.
  - unfold hear. cbn [on_line line]. destruct (line c) as [q w h]. by apply (script_more q w).
  - eapply Forall_impl; [exact Hk|]. intros a. apply acknowledged_more.
  - intros. by apply welcomed_more, Hse.
  - intros. by apply granted_more, Hg.
Qed.

Lemma heard_last f c : f ∈ heard (line (hear f c)).
Proof. apply elem_of_app. right. by apply list_elem_of_singleton. Qed.

(** The heartbeat period leaves room for two heartbeats. *)
Lemma effective_period_ok period timeout :
  20 < timeout -> 10 <= effective_period period timeout /\ 2 * effective_period period timeout < timeout.
Proof.
  intros H. unfold effective_period. rewrite Z.quot_div_nonneg by lia.
  assert (3 * (timeout / 3) <= timeout) by (apply Z.mul_div_le; lia). lia.
Qed.

Lemma push_bounded_length {A} limit (x : A) l :
  0 < limit -> zlen l <= limit -> zlen (push_bounded limit x l) <= limit.
Proof.
  intros H0 Hl. unfold push_bounded. rewrite zlen_app. change (zlen [x]) with 1.
  destruct (Z.leb_spec limit (zlen l)); [|lia]. destruct l as [|y l]; cbn [tail];
    rewrite ?zlen_cons, ?zlen_nil in *; lia.
Qed.

Lemma push_bounded_Forall {A} (P : A -> Prop) limit x l :
  Forall P l -> P x -> Forall P (push_bounded limit x l).
Proof.
  intros Hl Hx. apply Forall_app_2, Forall_singleton; [|done].
  destruct (_ <=? _); [by apply Forall_tail|done].
Qed.

Lemma erase_first_length {A} g (l : list A) : zlen (erase_first g l) <= zlen l.
Proof. induction l as [|x l IH]; [done|]. cbn [erase_first]. destruct (g x); rewrite ?zlen_cons; lia. Qed.

Lemma erase_first_Forall {A} (P : A -> Prop) g l : Forall P l -> Forall P (erase_first g l).
Proof. induction 1 as [|x l Hx Hl IH]; [done|]. cbn. destruct (g x); by repeat constructor. Qed.

Section Processing.
Context (f : Frame) (c : Client.t) (Hf : frame_wf f) (Ha : active (hear f c)).

Lemma process_hello_ok : frame_type f = HelloAck -> processed (hear f c) (process_hello f (hear f c)).
Proof using Ha.
  intros Ht. unfold process_hello. set (h := hear f c) in *.
  destruct (if negb _ then None else _) as [a|] eqn:E; [|apply failed_processed; [done|apply kept_refl]].
  destruct (negb _) in E; [discriminate E|].
  destruct (helloack_outputsEnabled a); [apply failed_processed; [done|apply kept_refl]|].
  destruct (Z.leb_spec (helloack_heartbeatTimeoutMs a) 20) as [Hle|Hgt].
  { apply failed_processed; [done|apply kept_refl]. }
  destruct (effective_period_ok (heartbeatPeriod (options h)) _ Hgt) as [Hp1 Hp2].
  assert (f ∈ heard (line h)) as Hin by apply heard_last.
  split; [|by split]. destruct Ha as [[C1 C2 [C3 C4]] Ho K Hl Hs Hk Hse Hg].
  cbn [fst]. split; try done.
  - destruct K as [K1 K2 K3 K4 K5 K6]. by split.
  - intros _. exists f, a. by split_and!.
  - cbn. intros Hr. apply bool_decide_eq_true_1 in Hr. exists f, a. by split_and!.
Qed.

Lemma process_status_ok : processed (hear f c) (process_status f (hear f c)).
Proof using Ha.
  unfold process_status. set (h := hear f c) in *.
  destruct (if negb _ then None else _) as [s|]; [|apply failed_processed; [done|apply kept_refl]].
  destruct (_ && _).
  - by apply dropped_session, dropped_invalid, active_dropped, kept_refl.
  - split; [|by split]. apply session_active; [done| |]; apply Ha.
Qed.

Lemma process_ack_ok :
  frame_type f = Ack \/ frame_type f = Error -> processed (hear f c) (process_ack f (hear f c)).
Proof using Ha.
  intros Ht. unfold process_ack. set (h := hear f c) in *.
  destruct (DecodeAckPayload _) as [a|] eqn:Ea; [|apply failed_processed; [done|apply kept_refl]].
  assert (f ∈ heard (line h)) as Hin by apply heard_last.
  pose proof (active_channel _ Ha) as [K1 K2 K3 K4 K5 K6].
  destruct (existsb _ _).
  - set (h1 := on_channel _ h).
    assert (active h1 /\ kept h h1) as [Ha1 Hk1].
    { split; [|by split]. apply channel_active; try done; try apply Ha. split; try done.
      etrans; [apply erase_first_length|done]. }
    case_bool_decide; cbn [negb]; [by split|].
    by apply dropped_report, dropped_invalid, active_dropped.
  - split; [|by split]. apply report_active, channel_active; try done; try apply Ha.
    + split; try done. by apply push_bounded_length.
    + apply push_bounded_Forall; [apply (active_acks _ Ha)|]. by exists f, a.
Qed.

Lemma process_disabled_ok : processed (hear f c) (process_disabled f (hear f c)).
Proof using Ha.
  unfold process_disabled. set (h := hear f c) in *.
  destruct (if negb _ then None else _) as [s|]; [|apply failed_processed; [done|apply kept_refl]].
  assert (active (on_session (set_outputsEnabled false) h)) as H1 by (apply session_active; [done| |]; apply Ha).
  assert (kept h (on_session (set_outputsEnabled false) h)) as H2 by by split.
  destruct (_ || _); [|by split]. by apply dropped_invalid, active_dropped.
Qed.

(** What the decoder accepts fits the image it announces. *)
Lemma decoded_input_ok payload x :
  bytes_ok payload -> DecodePdoInputPayload kMaximumPdoImage payload = Some x -> input_ok x.
Proof using Type.
  intros Hb Hd. destruct (input_encode_decode payload x Hb Hd) as (He & Hne & Hwf).
  unfold EncodePdoInputPayload in He. destruct (_ || _) eqn:E; [by subst|].
  repeat apply orb_false_iff in E as [E ?]. destruct Hwf as (_ & _ & Ho & Ht & _).
  unfold in_u32 in *. pose proof (zlen_nonneg (input_data x)). split; [lia|]. split; lia.
Qed.

Lemma process_input_ok : frame_type f = PdoInput -> processed (hear f c) (process_input f (hear f c)).
Proof using Ha Hf.
  intros Ht. unfold process_input. set (h := hear f c) in *.
  destruct (if negb _ then None else _) as [x|] eqn:E; [|apply failed_processed; [done|apply kept_refl]].
  destruct (negb _) in E; [discriminate E|].
  destruct (negb _); [split; [done|apply kept_refl]|].
  split; [|by split]. apply store_active; [done|].
  destruct (common_store _ (active_common _ Ha)) as [S1 S2 S3].
  split; cbn [inputs busInformation inbox]; [by apply push_bounded_length|done|].
  apply AssembleInput_ok; [|by eapply decoded_input_ok; [apply Hf|]|done].
  unfold h. rewrite hear_heard, omap_app. apply elem_of_app. right.
  apply list_elem_of_omap. exists f. split; [by apply list_elem_of_singleton|].
  unfold input_of. by rewrite bool_decide_true.
Qed.

Lemma process_information_ok : processed (hear f c) (process_information f (hear f c)).
Proof using Ha.
  unfold process_information. set (h := hear f c) in *.
  destruct (if negb _ then None else _) as [x|]; [|apply failed_processed; [done|apply kept_refl]].
  destruct (negb _); [split; [done|apply kept_refl]|].
  split; [|by split]. apply store_active; [done|].
  destruct (common_store _ (active_common _ Ha)) as [S1 S2 S3].
  by split; [|apply push_bounded_length|].
Qed.
End Processing.

Lemma Process_ok f c : frame_wf f -> active c -> processed c (Process f c).
Proof.
  intros Hf Ha. destruct (hear_active f c Ha) as [Hh Hk]. eapply processed_after; [exact Hk|].
  change (Process f c) with
    (match frame_type f with
     | HelloAck => process_hello f (hear f c) | Status => process_status f (hear f c)
     | Ack | Error => process_ack f (hear f c) | PdoInput => process_input f (hear f c)
     | BusInfo => process_information f (hear f c)
     | OutputsDisabled => process_disabled f (hear f c)
     | _ => failed ProtocolError "unexpected server frame type" (hear f c) end).
  destruct (frame_type f) eqn:E; try (apply failed_processed; [done|apply kept_refl]).
  - by apply process_hello_ok.
  - by apply process_status_ok.
  - apply process_ack_ok; [done|by left].
  - by apply process_input_ok.
  - by apply process_information_ok.
  - apply process_ack_ok; [done|by right].
  - by apply process_disabled_ok.
Qed.

Lemma process_all_ok fs c : Forall frame_wf fs -> active c -> processed c (process_all fs c).
Proof.
  intros Hfs. revert c. induction Hfs as [|f fs Hf Hfs IH]; intros c Ha; [by split; [|apply kept_refl]|].
  cbn [process_all]. pose proof (Process_ok f c Hf Ha) as H. destruct (Process f c) as [c1 [|]]; [|done].
  destruct H as [H1 H2]. eapply processed_after; [exact H2|by apply IH].
Qed.

Lemma dropped_broken now c c' : dropped c c' -> broken c (HandleDisconnect now c').
Proof. intros []. by apply disconnect_broken. Qed.

Lemma Read_outcome now answers c : Forall recv_ok answers -> active c -> outcome c (Read now answers c).
Proof.
  intros Hr. revert c. induction Hr as [|a answers Ha' Hr IH]; intros c Ha; cbn [Read].
  { by split; [|apply kept_refl]. }
  destruct a as [data| | | |];
    [|by split; [|apply kept_refl]|by apply IH|by apply failed_outcome, disconnect_active..].
  destruct (FrameDecoder.Feed (decoder (channel c)) data) as [[dec fs] valid] eqn:E.
  pose proof (active_channel _ Ha) as [K1 K2 K3 K4 K5 K6].
  assert (active (on_channel (set_decoder dec) c)) as H1.
  { apply channel_active; try done; try apply Ha. split; try done. by eapply Feed_inv. }
  assert (kept c (on_channel (set_decoder dec) c)) as H2 by by split.
  destruct valid; cbn [negb].
  - assert (Forall frame_wf fs) as Hfs
      by (destruct K6 as (Hb & _ & _); by apply Feed_true in E as (_ & _ & ? & _)).
    pose proof (process_all_ok fs _ Hfs H1) as H.
    destruct (process_all fs _) as [c1 [|]].
    + destruct H as [H3 H4]. eapply outcome_after; [by eapply kept_trans|]. by apply IH.
    + by eapply kept_broken, dropped_broken.
  - apply failed_outcome. eapply kept_broken; [done|by apply disconnect_active].
Qed.

(** ** Waiting *)

Lemma serve_outcome now writable readable sends recvs c :
  Forall recv_ok recvs -> active c -> outcome c (serve now writable readable sends recvs c).
Proof.
  intros Hr Ha. unfold serve.
  assert (outcome c (if writable then Flush now sends c else (c, true))) as H
    by (destruct writable; [by apply Flush_outcome|by split; [|apply kept_refl]]).
  destruct (if writable then _ else _) as [c1 [|]]; [|done].
  destruct H as [H1 H2]. destruct readable; [|by split].
  eapply outcome_after; [exact H2|by apply Read_outcome].
Qed.

Definition pump_ok (p : Pump) : Prop := Forall recv_ok (pump_recv p).

(** [PumpUntil] leaves the connection as it is or closes it. *)
Definition pumped (c c' : Client.t) : Prop := active c' /\ kept c c' \/ broken c c'.

Lemma PumpUntil_pumped deadline p c :
  pump_ok p -> active c ->
  let r := PumpUntil deadline p c in
  (snd r = true -> active (fst r) /\ kept c (fst r)) /\ pumped c (fst r).
Proof.
  intros Hp Ha. unfold PumpUntil.
  pose proof (Flush_outcome (pump_now p) (pump_flush p) c Ha) as H.
  destruct (Flush _ _ c) as [c1 [|]]; [|by split; [|right]]. destruct H as [H1 H2].
  destruct (_ <=? _); [by split; [|left]|].
  destruct (pump_poll p) as [| | |[|] writable readable]; try by split; [|left].
  - split; [done|]. right. eapply kept_broken; [exact H2|by apply disconnect_active].
  - pose proof (serve_outcome (pump_now p) writable readable (pump_send p) (pump_recv p) c1 Hp H1) as H.
    destruct (serve _ _ _ _ _ c1) as [c2 [|]].
    + destruct H as [? ?]. assert (kept c c2) by by eapply kept_trans. by split; [|left].
    + split; [done|]. right. by eapply kept_broken.
Qed.

Lemma await_ack_ok deadline id rounds c :
  Forall pump_ok rounds -> active c ->
  match await_ack deadline id rounds c with
  | (c', Some s) => active c' /\ kept c c' /\ acknowledged (heard (line c')) (id, s)
  | (c', None) => pumped c c'
  end.
Proof.
  intros Hr. revert c. induction Hr as [|p rounds Hp Hr IH]; intros c Ha; cbn [await_ack].
  { left. split; [done|apply kept_refl]. }
  destruct (negb _); [left; split; [done|apply kept_refl]|].
  destruct (List.find _ _) as [a|] eqn:Ef.
  - apply find_some in Ef as [Hin E]. apply Z.eqb_eq in E. apply list_elem_of_In in Hin.
    pose proof (active_acks _ Ha) as Hacks. pose proof (active_channel _ Ha) as [K1 K2 K3 K4 K5 K6].
    split_and!.
    + apply channel_active; try done; try apply Ha; [split; try done|by apply erase_first_Forall].
      etrans; [apply erase_first_length|done].
    + by split.
    + rewrite Forall_forall in Hacks. specialize (Hacks a Hin). destruct a as [i s]. cbn in E |- *. by subst.
  - destruct (PumpUntil_pumped deadline p c Hp Ha) as [H1 H2].
    destruct (PumpUntil deadline p c) as [c1 [|]]; [|done]. destruct (H1 eq_refl) as [Ha1 Hk1].
    specialize (IH c1 Ha1). destruct (await_ack _ _ rounds c1) as [c2 [s|]].
    + destruct IH as (? & ? & ?). split_and!; try done. by eapply kept_trans.
    + destruct IH as [[? ?]|?]; [left|right]; [|by eapply kept_broken].
      split; [done|by eapply kept_trans].
Qed.

(** How a request ends: it was not queued; it was answered on its connection; or the
    connection is gone, with nothing of the request left to send. *)
Inductive requested (c : Client.t) (frame : bytes) (id : Z) : Client.t -> AckStatus -> Prop :=
| not_queued r : requested c frame id (set_report r c) InternalError
| answered c' s :
    active c' -> connected (session c') = connected (session c) ->
    queued (line c') = queued (line c) ++ [frame] -> past c' = past c -> options c' = options c ->
    (helloReceived (channel c) = true -> helloReceived (channel c') = true) ->
    acknowledged (heard (line c')) (id, s) -> requested c frame id c' s
| given_up c' l :
    shut c' -> epoch (session c') = 0 -> options c' = options c ->
    past c' = past c ++ [l] -> queued l = queued (line c) ++ [frame] ->
    requested c frame id c' InternalError.

Lemma shut_disconnect now c :
  shut c -> shut (HandleDisconnect now c) /\ epoch (session (HandleDisconnect now c)) = 0 /\
  past (HandleDisconnect now c) = past c /\ options (HandleDisconnect now c) = options c.
Proof.
  intros Hs. pose proof (shut_channel _ Hs) as Hc.
  destruct (HandleDisconnect_shut now c (shut_breakable _ Hs)) as (H1 & H2 & _ & H4).
  destruct (CloseSocket_spec c (shut_breakable _ Hs)) as (_ & _ & _ & _ & H5 & _).
  rewrite Hc, app_nil_r in H4. by split_and!.
Qed.

Lemma Queue_hello frame c c' b :
  Queue frame c = (c', b) -> helloReceived (channel c') = helloReceived (channel c).
Proof. unfold Queue. by destruct (_ || _ || _); intros [= <- _]. Qed.

Definition request_ok (io : RequestIo) : Prop := Forall pump_ok (io_rounds io).

Lemma Request_requested io frame id c :
  request_ok io -> active c -> may_say c frame ->
  requested c frame id (fst (Request io frame id c)) (snd (Request io frame id c)).
Proof.
  intros Hio Ha Hm. unfold Request. destruct (Queue frame c) as [c1 [|]] eqn:Eq.
  2:{ apply Queue_false in Eq as ->. apply not_queued. }
  pose proof (Queue_hello _ _ _ _ Eq) as Hh.
  destruct (Queue_true _ _ _ Eq Ha Hm) as (Ha1 & Q1 & Q2 & Q3 & Q4 & Q5 & _ & _).
  pose proof (await_ack_ok (io_start io + requestTimeout (options c1) * 1000000) id (io_rounds io) c1 Hio Ha1) as H.
  destruct (await_ack _ _ _ c1) as [c2 [s|]].
  - destruct H as (H1 & [E1 E2 E3 E4 E5 E6 _ _] & H3). cbn [fst snd]. apply answered; try done; try congruence.
    rewrite <- Hh. exact E6.
  - assert (exists l, shut (HandleDisconnect (io_end io) c2) /\
      epoch (session (HandleDisconnect (io_end io) c2)) = 0 /\
      options (HandleDisconnect (io_end io) c2) = options c1 /\
      past (HandleDisconnect (io_end io) c2) = past c1 ++ [l] /\ queued l = queued (line c1))
      as (l & H1 & H2 & H3 & H4 & H5).
    { destruct H as [[Ha2 Hk]|[Hb Ho (l & H1 & H2 & _)]].
      - destruct (kept_broken _ _ _ Hk (disconnect_active (io_end io) c2 Ha2)) as [S1 S2 (l & S3 & S4 & _)].
        by exists l.
      - destruct (shut_disconnect (io_end io) c2 Hb) as (S1 & S2 & S3 & S4).
        exists l. split_and!; try done; congruence. }
    set (h := HandleDisconnect (io_end io) c2) in *. clearbody h.
    apply (given_up _ _ _ _ l); try done; try (cbn; congruence).
    destruct H1 as [S1 S2 S3 S4]. split; try done. by apply (common_same h).
Qed.

(** ** Between calls *)

Record online (c : Client.t) : Prop := {
  online_active : active c;
  online_connected : connected (session c) = true;
  online_hello : helloReceived (channel c) = true;
  online_queued : queued (line c) <> []
}.

(** The states between calls. *)
Definition client_ok (c : Client.t) : Prop := online c \/ shut c \/ stale c.

Lemma report_ok r c : client_ok c -> client_ok (set_report r c).
Proof.
  intros [[Ha ? ? ?]|[[H1 ? ? ?]|[[H1 ? ?] ? ?]]].
  - left. split; try done. by apply report_active.
  - right; left. split; try done. by apply (common_same c).
  - right; right. split; try done. split; try done. by apply (common_same c).
Qed.

Lemma failed_ok e m c : client_ok c -> client_ok (fst (failed e m c)).
Proof. apply report_ok. Qed.

Lemma request_id_active v c : active c -> active (set_nextRequestId v c).
Proof. intros []. split; try done. by apply (common_same c). Qed.

Lemma request_id_online v c : online c -> online (set_nextRequestId v c).
Proof. intros []. split; try done. by apply request_id_active. Qed.

Lemma connected_online c : client_ok c -> connected (session c) = true -> online c.
Proof.
  intros [H|[[_ _ _ [H _]]|[_ _ [H _]]]] Hc; [done|congruence|congruence].
Qed.

Lemma kept_online c c' : online c -> active c' -> kept c c' -> online c'.
Proof. intros [_ H1 H2 H3] Ha [E1 E2 _ _ _ E6 _ _]. split; [done|congruence|auto|congruence]. Qed.

Lemma outcome_ok c r : online c -> outcome c r -> client_ok (fst r).
Proof.
  intros Ho. unfold outcome. destruct (snd r).
  - intros [Ha Hk]. left. by eapply kept_online.
  - intros [H _ _]. right; by left.
Qed.

Lemma requested_ok c frame id c' s : online c -> requested c frame id c' s ->
  client_ok c' /\ (s = Ok -> online c' /\ acknowledged (heard (line c')) (id, Ok)).
Proof.
  intros Ho Hr. destruct Hr as [r|c' s Ha Hc Hq _ _ Hh Hk|c' l Hs _ _ _ _].
  - split; [|done]. by apply report_ok; left.
  - assert (online c') as Ho'.
    { destruct Ho as [_ H1 H2 H3]. split; [done|congruence|auto|]. rewrite Hq. by destruct (queued (line c)). }
    split; [by left|]. by intros ->.
  - split; [by right; left|done].
Qed.

Lemma concluded_ok m done c frame id r :
  online c -> requested c frame id (fst r) (snd r) ->
  (forall c', online c' -> online (done c')) -> client_ok (fst (concluded m done r)).
Proof.
  intros Ho Hr Hd. destruct (requested_ok _ _ _ _ _ Ho Hr) as [H1 H2]. destruct r as [c' s].
  cbn [fst snd] in *. unfold concluded. case_bool_decide as Hs; cbn [negb].
  - apply report_ok. left. by apply Hd, H2.
  - unfold FailForRequestStatus. destruct (lastError (report c')); by try apply report_ok.
Qed.

Lemma RequireController_spec c :
  client_ok c ->
  match RequireController c with
  | (c', true) => c' = c /\ online c /\ granted (heard (line c)) (epoch (session c)) /\ epoch (session c) <> 0
  | (c', false) => client_ok c'
  end.
Proof.
  intros Hc. unfold RequireController. destruct (_ || _) eqn:E; [by apply report_ok|].
  apply orb_false_iff in E as [[E1 E2]%orb_false_iff E3].
  apply negb_false_iff in E1, E2. apply Z.eqb_neq in E3.
  pose proof (connected_online c Hc E1) as Ho. split_and!; try done.
  by apply (active_granted _ (online_active _ Ho)).
Qed.

(** A command of the granted session may be queued. *)
Lemma may_command c v type id payload :
  online c -> harmless type \/ granted (heard (line c)) (epoch (session c)) /\
    speaks (epoch (session c)) type payload ->
  may_say (set_nextRequestId v c) (EncodeFrame type id payload).
Proof.
  intros Ho H. unfold may_say. cbn. destruct (queued (line c)) eqn:E; [by destruct (online_queued _ Ho)|].
  exists type, id, payload. split; [done|]. destruct H as [H|[H1 H2]]; [by left|right; eauto].
Qed.

(** A request made while online. *)
Lemma request_step io m done c type payload :
  request_ok io -> online c ->
  harmless type \/ granted (heard (line c)) (epoch (session c)) /\
    speaks (epoch (session c)) type payload ->
  (forall c', online c' -> online (done c')) ->
  let '(c1, id) := NextRequestId c in
  client_ok (fst (concluded m done (Request io (EncodeFrame type id payload) id c1))).
Proof.
  intros Hio Ho Hs Hd. unfold NextRequestId. set (id := if _ =? 0 then _ else _).
  eapply concluded_ok; [by apply request_id_online| |done].
  apply Request_requested; [done|by apply request_id_active, online_active|by apply may_command].
Qed.

Lemma session_online f c :
  online c -> connected (f (session c)) = true -> epoch (f (session c)) = epoch (session c) ->
  (controllerGranted (f (session c)) = true -> controllerGranted (session c) = true) ->
  online (on_session f c).
Proof.
  intros [Ha H1 H2 H3] E1 E2 E3. split; try done. apply session_active; [done| |]; rewrite E2.
  - intros. by apply (active_granted _ Ha), E3.
  - by apply Ha.
Qed.

(** ** Every call *)

Lemma invalid_stale e c : active c -> stale (InvalidateSession e c).
Proof.
  intros Ha. destruct (dropped_invalid e c c (active_dropped c c Ha (kept_refl c))) as [H _ _ _ _ _].
  by split.
Qed.

Lemma stale_report r c : stale c -> stale (set_report r c).
Proof. intros [[H1 ? ?] ? ?]. split; try done. split; try done. by apply (common_same c). Qed.

Lemma SendHeartbeat_ok io c :
  client_ok c -> match io with Some io => request_ok io | None => True end ->
  client_ok (fst (SendHeartbeat io c)) /\
  (io = None -> snd (SendHeartbeat io c) = true -> online (fst (SendHeartbeat io c))).
Proof.
  intros Hc Hio. unfold SendHeartbeat. pose proof (RequireController_spec c Hc) as H.
  destruct (RequireController c) as [c1 [|]]; [|by split]. destruct H as (-> & Ho & Hg & _).
  destruct io as [io|].
  { split; [|done]. pose proof (request_step io "heartbeat was rejected" (fun c => c) c Heartbeat
      (EncodeEpochPayload (epoch (session c))) Hio Ho) as H.
    unfold NextRequestId in *. apply H; [|done]. right. split; [done|constructor]. }
  unfold NextRequestId. set (id := if _ =? 0 then _ else _).
  pose proof (request_id_online id c Ho) as Ho1. set (c1 := set_nextRequestId id c) in *.
  destruct (16 <=? _) eqn:E.
  { split; [|done]. right; right. apply stale_report, invalid_stale, Ho1. }
  destruct (Queue _ c1) as [c2 [|]] eqn:Eq.
  2:{ apply Queue_false in Eq as ->. split; [|done]. by apply report_ok; left. }
  pose proof (Queue_hello _ _ _ _ Eq) as Hh.
  assert (heartbeatRequests (channel c2) = heartbeatRequests (channel c1)) as Hb.
  { revert Eq. unfold Queue. by destruct (_ || _ || _); intros [= <-]. }
  apply Queue_true in Eq as (Ha & Q1 & Q2 & Q3 & Q4 & Q5 & _ & _);
    [|apply Ho1|apply may_command; [done|]; right; split; [done|constructor]].
  cbn [fst snd].
  assert (online (on_channel (fun k => set_heartbeatRequests (heartbeatRequests k ++ [id]) k) c2)) as H.
  { pose proof (active_channel _ Ha) as [K1 K2 K3 K4 K5 K6].
    destruct Ho1 as [_ O1 O2 O3]. split.
    - apply channel_active; try done; try apply Ha. split; try done.
      cbn. rewrite zlen_app, Hb. change (zlen [id]) with 1. lia.
    - cbn. by rewrite Q5.
    - cbn. by rewrite Hh.
    - cbn. rewrite Q1. by destruct (queued (line c1)). }
  split; [by left|done].
Qed.

Lemma EnableOutputs_ok io b c : client_ok c -> request_ok io -> client_ok (fst (EnableOutputs io b c)).
Proof.
  intros Hc Hio. unfold EnableOutputs. pose proof (RequireController_spec c Hc) as H.
  destruct (RequireController c) as [c1 [|]]; [|done]. destruct H as (-> & Ho & Hg & _).
  apply (request_step io _ _ c OutputEnable); [done|done|right; split; [done|constructor]|].
  intros c' Ho'. apply session_online; try done. apply Ho'.
Qed.

Lemma WriteOutput_ok io bus sub offset data c :
  client_ok c -> request_ok io -> client_ok (fst (WriteOutput io bus sub offset data c)).
Proof.
  intros Hc Hio. unfold WriteOutput. pose proof (RequireController_spec c Hc) as H.
  destruct (RequireController c) as [c1 [|]]; [|by apply report_ok]. destruct H as (-> & Ho & Hg & _).
  destruct (_ || _); [by apply report_ok|]. case_bool_decide; [by apply report_ok|].
  apply (request_step io _ _ c OutputWrite); [done|done|right; split; [done|constructor]|done].
Qed.

Lemma ReleaseControl_ok io c : client_ok c -> request_ok io -> client_ok (fst (ReleaseControl io c)).
Proof.
  intros Hc Hio. unfold ReleaseControl. pose proof (RequireController_spec c Hc) as H.
  destruct (RequireController c) as [c1 [|]]; [|done]. destruct H as (-> & Ho & Hg & _).
  apply (request_step io _ _ c Protocol.ReleaseControl); [done|done|right; split; [done|constructor]|].
  intros c' Ho'. apply session_online; try done. apply Ho'.
Qed.

Lemma RuntimeUnlockAdapter_ok io bus c :
  client_ok c -> request_ok io -> client_ok (fst (RuntimeUnlockAdapter io bus c)).
Proof.
  intros Hc Hio. unfold RuntimeUnlockAdapter. pose proof (RequireController_spec c Hc) as H.
  destruct (RequireController c) as [c1 [|]]; [|done]. destruct H as (-> & Ho & Hg & _).
  apply (request_step io _ _ c AdapterUnlock); [done|done|right; split; [done|constructor]|].
  intros c' Ho'. apply session_online; try done. apply Ho'.
Qed.

Lemma SubscribeInputs_ok io b period c :
  client_ok c -> request_ok io -> client_ok (fst (SubscribeInputs io b period c)).
Proof.
  intros Hc Hio. unfold SubscribeInputs. destruct (connected (session c)) eqn:E; [|by apply report_ok].
  pose proof (connected_online c Hc E) as Ho. cbn [negb]. case_bool_decide; [by apply report_ok|].
  apply (request_step io _ _ c Protocol.SubscribeInputs); [done|done|by left; left|].
  intros c' [[[C1 C2 C3] ? ? ? ? ? ? ?] ? ? ?]. by split.
Qed.

Lemma EmptyRequest_ok io type c :
  client_ok c -> request_ok io -> harmless type -> client_ok (fst (EmptyRequest io type c)).
Proof.
  intros Hc Hio Ht. unfold EmptyRequest. destruct (connected (session c)) eqn:E; [|by apply report_ok].
  pose proof (connected_online c Hc E) as Ho. cbn [negb].
  by apply (request_step io _ _ c type []); [| |left|].
Qed.

Definition poll_ok (io : PollIo) : Prop := Forall recv_ok (poll_recv io).

Lemma Poll_ok io c : client_ok c -> poll_ok io -> client_ok (fst (Poll io c)).
Proof.
  intros Hc Hio. unfold Poll. destruct (connected (session c)) eqn:E; [|by apply report_ok].
  pose proof (connected_online c Hc E) as Ho. cbn [negb orb]. destruct (negb _); [by apply report_ok|].
  set (beat := if _ && _ then _ else _).
  assert (client_ok (fst beat) /\ (snd beat = true -> online (fst beat))) as [H1 H2].
  { unfold beat. destruct (_ && _); [|by split; [left|]].
    destruct (SendHeartbeat_ok None c Hc I) as [H1 H2].
    destruct (SendHeartbeat None c) as [c1 [|]]; [|by split]. destruct (H2 eq_refl eq_refl) as [Ha ? ? ?].
    assert (online (on_schedule (fun s => mkSchedule (poll_now io + effectiveHeartbeatPeriod s * 1000000)
      (nextReconnect s) (reconnectBackoff s) (effectiveHeartbeatPeriod s)) c1)); [|by split; [left|]].
    split; try done. destruct Ha as [[C1 C2 C3] ? ? ? ? ? ? ?]. by split. }
  destruct beat as [c1 [|]]; [|done]. specialize (H2 eq_refl). cbn [negb fst] in *.
  destruct (poll_result io) as [| | |[|] writable readable]; try by left.
  - apply report_ok. right; left. by apply HandleDisconnect_shut, active_breakable, H2.
  - apply report_ok. right; left. by apply HandleDisconnect_shut, active_breakable, H2.
  - eapply outcome_ok; [exact H2|]. by apply serve_outcome; [|apply H2].
Qed.

(** *** Heartbeats *)

(** The heartbeat that [Poll] would send. *)
Definition heartbeat_frame (c : Client.t) : bytes :=
  EncodeFrame Heartbeat (snd (NextRequestId c)) (EncodeEpochPayload (epoch (session c))).

Definition heartbeat_due (now : Z) (c : Client.t) : bool :=
  controllerGranted (session c) && (nextHeartbeat (schedule c) <=? now).

Lemma SendHeartbeat_queues c c' :
  SendHeartbeat None c = (c', true) ->
  queued (line c') = queued (line c) ++ [heartbeat_frame c] /\ schedule c' = schedule c.
Proof.
  unfold SendHeartbeat, RequireController. destruct (_ || _); [done|]. unfold NextRequestId, heartbeat_frame.
  destruct (16 <=? _); [done|]. unfold Queue. destruct (_ || _ || _); [done|]. by intros [= <-].
Qed.

Lemma HandleDisconnect_heartbeat now c :
  nextHeartbeat (schedule (HandleDisconnect now c)) = nextHeartbeat (schedule c).
Proof. unfold HandleDisconnect, CloseSocket. by destruct (open (channel c)). Qed.

Lemma Flush_heartbeat now answers c :
  nextHeartbeat (schedule (fst (Flush now answers c))) = nextHeartbeat (schedule c).
Proof.
  revert c. induction answers as [|a answers IH]; intros c; cbn [Flush]; destruct (_ || _); try done.
  destruct a; try done; [|by rewrite ?IH..|apply HandleDisconnect_heartbeat].
  destruct (_ =? 0); [apply HandleDisconnect_heartbeat|by rewrite IH].
Qed.

Lemma Process_heartbeat f c : nextHeartbeat (schedule (fst (Process f c))) = nextHeartbeat (schedule c).
Proof.
  unfold Process, process_hello, process_status, process_ack, process_input, process_information,
    process_disabled.
  destruct (frame_type f); try done; repeat (case_match; try done).
Qed.

Lemma process_all_heartbeat fs c :
  nextHeartbeat (schedule (fst (process_all fs c))) = nextHeartbeat (schedule c).
Proof.
  revert c. induction fs as [|f fs IH]; intros c; [done|]. cbn [process_all].
  pose proof (Process_heartbeat f c) as H. destruct (Process f c) as [c1 [|]]; [by rewrite IH|done].
Qed.

Lemma Read_heartbeat now answers c :
  nextHeartbeat (schedule (fst (Read now answers c))) = nextHeartbeat (schedule c).
Proof.
  revert c. induction answers as [|a answers IH]; intros c; [done|]. cbn [Read].
  destruct a; try done; [|apply HandleDisconnect_heartbeat..].
  destruct (FrameDecoder.Feed _ _) as [[dec frames] [|]]; cbn [negb];
    [|exact (HandleDisconnect_heartbeat now (on_channel (set_decoder dec) c))].
  pose proof (process_all_heartbeat frames (on_channel (set_decoder dec) c)) as H.
  destruct (process_all frames _) as [c1 [|]]; [by rewrite IH|]. cbn [fst] in *.
  by rewrite HandleDisconnect_heartbeat.
Qed.

Lemma serve_heartbeat now writable readable sends recvs c :
  nextHeartbeat (schedule (fst (serve now writable readable sends recvs c))) = nextHeartbeat (schedule c).
Proof.
  unfold serve. assert (nextHeartbeat (schedule (fst (if writable then Flush now sends c else (c, true)))) =
    nextHeartbeat (schedule c)) as H by (destruct writable; [apply Flush_heartbeat|done]).
  destruct (if writable then _ else _) as [c1 [|]]; [|done]. destruct readable; [|done].
  cbn [negb]. by rewrite Read_heartbeat.
Qed.

(** A poll that succeeds sends the heartbeat that is due, and nothing else. *)
Lemma Poll_beats io c :
  client_ok c -> poll_ok io -> snd (Poll io c) = true ->
  let c' := fst (Poll io c) in
  if heartbeat_due (poll_now io) c
  then queued (line c') = queued (line c) ++ [heartbeat_frame c] /\
       nextHeartbeat (schedule c') = poll_now io + effectiveHeartbeatPeriod (schedule c) * 1000000
  else queued (line c') = queued (line c) /\ nextHeartbeat (schedule c') = nextHeartbeat (schedule c).
Proof.
  intros Hc Hio. unfold Poll. destruct (connected (session c)) eqn:E; [|done].
  destruct (open (channel c)); [|done]. cbn [negb orb]. fold (heartbeat_due (poll_now io) c).
  set (beat := if heartbeat_due _ _ then _ else _).
  assert (snd beat = true -> active (fst beat) /\
    if heartbeat_due (poll_now io) c
    then queued (line (fst beat)) = queued (line c) ++ [heartbeat_frame c] /\
         nextHeartbeat (schedule (fst beat)) = poll_now io + effectiveHeartbeatPeriod (schedule c) * 1000000
    else queued (line (fst beat)) = queued (line c) /\
         nextHeartbeat (schedule (fst beat)) = nextHeartbeat (schedule c)) as Hb.
  { unfold beat. destruct (heartbeat_due _ _).
    - destruct (SendHeartbeat_ok None c Hc I) as [_ H2].
      destruct (SendHeartbeat None c) as [c1 [|]] eqn:Es; [|done]. intros _.
      apply SendHeartbeat_queues in Es as [E1 E2]. destruct (H2 eq_refl eq_refl) as [Ha _ _ _].
      split; [|cbn; by rewrite E1, E2]. destruct Ha as [[C1 C2 C3] ? ? ? ? ? ? ?]. by split.
    - intros _. split; [|done]. by apply (online_active _ (connected_online c Hc E)). }
  destruct beat as [c1 [|]]; [|done]. destruct (Hb eq_refl) as [Ha H]. cbn [negb fst] in *.
  destruct (poll_result io) as [| | |[|] writable readable]; try done.
  intros Hok. pose proof (serve_outcome (poll_now io) writable readable (poll_send io) (poll_recv io) c1 Hio Ha) as Ho.
  unfold outcome in Ho. rewrite Hok in Ho. destruct Ho as [_ Hk]. rewrite (kept_queued _ _ Hk), serve_heartbeat.
  exact H.
Qed.

Lemma client_breakable c : client_ok c -> breakable c.
Proof. intros [[H _ _ _]|[H|[H _ _]]]; [by apply active_breakable|by apply shut_breakable|done]. Qed.

Lemma drain_breakable rounds c : active c -> breakable (drain rounds c).
Proof.
  revert c. induction rounds as [|[now sends] rounds IH]; intros c Ha; cbn [drain]; [by apply active_breakable|].
  case_bool_decide; [by apply active_breakable|].
  pose proof (Flush_outcome now sends c Ha) as Ho. destruct (Flush now sends c) as [c1 [|]].
  - apply IH, Ho.
  - apply shut_breakable. by destruct Ho.
Qed.

Lemma CloseSocket_shut c : breakable c -> connected (session c) = false ->
  controllerGranted (session c) = false -> outputsEnabled (session c) = false -> shut (CloseSocket c).
Proof.
  intros Hb E1 E2 E3. destruct (CloseSocket_spec c Hb) as (H1 & H2 & H3 & H4 & _).
  split; try done. by rewrite H4.
Qed.

Lemma Disconnect_shut rounds c : client_ok c -> shut (Disconnect rounds c).
Proof.
  intros Hc. unfold Disconnect. set (c1 := if _ && _ && _ && _ then _ else c).
  assert (breakable c1) as Hb.
  { unfold c1. destruct (_ && _ && _ && _) eqn:E; [|by apply client_breakable].
    apply andb_true_iff in E as [[[_ E1]%andb_true_iff E2]%andb_true_iff _].
    pose proof (connected_online c Hc E1) as Ho. unfold NextRequestId.
    set (id := if _ =? 0 then _ else _).
    apply drain_breakable. destruct (Queue _ _) as [c2 [|]] eqn:Eq; cbn [fst].
    - apply Queue_true in Eq as [Ha' _]; [done|by apply request_id_active, Ho|].
      apply may_command; [done|]. right. split; [|constructor].
      by apply (active_granted _ (online_active _ Ho)).
    - apply Queue_false in Eq as ->. by apply report_active, request_id_active, Ho. }
  clearbody c1. destruct (CloseSocket_spec c1 Hb) as (H1 & H2 & H3 & _).
  split; try done. by apply (common_same (CloseSocket c1)).
Qed.

(** ** Connecting *)

Definition connect_ok (io : ConnectIo) : Prop := Forall pump_ok (connect_rounds io).

Lemma await_hello_pumped deadline rounds c :
  Forall pump_ok rounds -> active c -> pumped c (await_hello deadline rounds c).
Proof.
  intros Hr. revert c. induction Hr as [|p rounds Hp Hr IH]; intros c Ha; cbn [await_hello].
  { left. split; [done|apply kept_refl]. }
  destruct (_ || _); [left; split; [done|apply kept_refl]|].
  destruct (PumpUntil_pumped deadline p c Hp Ha) as [H1 H2].
  destruct (PumpUntil deadline p c) as [c1 [|]]; [|done]. destruct (H1 eq_refl) as [Ha1 Hk1].
  destruct (IH c1 Ha1) as [[? ?]|?]; [left|right]; [|by eapply kept_broken].
  split; [done|by eapply kept_trans].
Qed.

Lemma abandon_shut now e m c :
  breakable c -> connected (session c) = false -> controllerGranted (session c) = false ->
  outputsEnabled (session c) = false -> shut (fst (abandon now e m c)).
Proof.
  intros [H1 H2 H3] E1 E2 E3. unfold abandon, failed.
  assert (breakable (ScheduleReconnect now c)) as Hb by (split; try done; by apply backoff_ok).
  destruct (CloseSocket_shut _ Hb E1 E2 E3) as [S1 S2 S3 S4].
  split; try done. by apply (common_same (CloseSocket (ScheduleReconnect now c))).
Qed.

(** The state in which the socket has just been opened. *)
Lemma opened_active c :
  shut c -> active (on_channel open_channel c).
Proof.
  intros [H1 H2 H3 (S1 & S2 & S3)].
  split; cbn [channel on_channel line session schedule]; rewrite ?H2, ?H3; try done.
  - by apply (common_same c).
  - destruct closed_channel_ok as [K1 K2 K3 K4 K5 K6]. by split.
  - by rewrite S2.
Qed.

Lemma greet_ok io c :
  connect_ok io -> shut c -> client_ok (fst (greet io (on_channel open_channel c))).
Proof.
  intros Hio Hs. pose proof (opened_active c Hs) as Ha. destruct Hs as [_ Hk Hl (S1 & S2 & S3)].
  unfold greet, NextRequestId. set (id := if _ =? 0 then _ else _).
  set (c0 := set_nextRequestId id (on_channel open_channel c)).
  assert (active c0) as Ha0 by by apply request_id_active.
  destruct (Queue _ c0) as [c1 [|]] eqn:Eq.
  2:{ apply Queue_false in Eq as ->. right; left. apply CloseSocket_shut; try done.
      by apply active_breakable, report_active. }
  assert (helloReceived (channel c1) = false) as Hh
    by (rewrite (Queue_hello _ _ _ _ Eq); cbn; by rewrite Hk).
  apply Queue_true in Eq as (Ha1 & Q1 & Q2 & Q3 & Q4 & Q5 & _ & _); [|done|].
  2:{ unfold may_say. cbn. rewrite Hl. cbn. by eexists _, _. }
  set (c2 := on_channel (set_hello id false) c1).
  assert (active c2) as Ha2.
  { destruct (active_channel _ Ha1). apply channel_active; try done; apply Ha1. }
  set (o := options c0) in *. set (deadline := connect_hello io + _).
  destruct (await_hello_pumped deadline (connect_rounds io) c2 Hio Ha2) as [[Ha3 Hk3]|Hb3];
    set (c3 := await_hello _ _ c2) in *; clearbody c3.
  2:{ destruct Hb3 as [Hs3 _ _]. rewrite (shut_channel _ Hs3). cbn [negb helloReceived closed_channel].
      pose proof (shut_session _ Hs3) as (? & ? & ?).
      right; left. by apply abandon_shut; [apply shut_breakable|..]. }
  destruct Hk3 as [E1 E2 _ _ E5 _ E7 E8]. cbn in E1, E2, E5, E7, E8. rewrite Q5 in *. cbn in E1, E7, E8.
  assert (outputsEnabled (session c3) = false) as Hoff
    by (apply not_true_iff_false; intros H; apply E7 in H; congruence).
  destruct (helloReceived (channel c3)) eqn:Eh; cbn [negb].
  2:{ right; left. apply abandon_shut; try done; [by apply active_breakable|congruence|].
      rewrite E8 by done. congruence. }
  destruct (bool_decide (option_role o = Controller) && _) eqn:Ed.
  { right; left. apply andb_true_iff in Ed as [_ Ed]. apply negb_true_iff in Ed.
    apply abandon_shut; try done; [by apply active_breakable|congruence]. }
  left. destruct Ha3 as [[C1 C2 [C3 C4]] A2 A3 A4 A5 A6 A7 A8]. split; try done.
  - split; try done. split; try done. split; [done|]. rewrite Q4 in E5.
    change (0 < initialReconnectBackoff (options c3) <= maximumReconnectBackoff (options c3) ->
      initialReconnectBackoff (options c3) <= initialReconnectBackoff o <=
      maximumReconnectBackoff (options c3)).
    rewrite E5. intros Hi.
    split; [reflexivity|apply Hi].
  - cbn. rewrite E2, Q1. by destruct (queued (line c0)).
Qed.

Lemma Connect_ok io c : client_ok c -> connect_ok io -> client_ok (fst (Connect io c)).
Proof.
  intros Hc Hio. unfold Connect. destruct (connected (session c)) eqn:E; [done|].
  destruct (negb _); [by apply report_ok|]. destruct (_ <? _); [done|].
  assert (shut (CloseSocket c)) as Hs.
  { destruct Hc as [[_ ? _ _]|[Hs|[Hb _ (? & ? & ?)]]]; [congruence| |by apply CloseSocket_shut].
    pose proof (shut_session _ Hs) as (? & ? & ?). by apply CloseSocket_shut; [apply shut_breakable|..]. }
  set (c1 := CloseSocket c) in *. clearbody c1.
  assert (forall e m now, shut (fst (abandon now e m (on_channel open_channel c1)))) as Hgive.
  { intros. pose proof (shut_session _ Hs) as (? & ? & ?).
    by apply abandon_shut; [apply active_breakable, opened_active|..]. }
  destruct (negb _).
  { apply report_ok. right; left. destruct Hs as [? ? ? ?]. split; try done. by apply backoff_ok. }
  destruct (connect_result io); [| |by right; left].
  - destruct (connect_error io); [by right; left|by apply greet_ok].
  - destruct (negb _); [by right; left|]. destruct (connect_error io); [by right; left|by apply greet_ok].
Qed.

(** ** Reachable states *)

Definition call_ok (x : call) : Prop :=
  match x with
  | CallConnect io => connect_ok io
  | CallPoll io => poll_ok io
  | CallMaintain io io' => poll_ok io /\ connect_ok io'
  | CallHeartbeat io | CallEnableOutputs io _ | CallWriteOutput io _ _ _ _ | CallReleaseControl io
  | CallSubscribeInputs io _ _ | CallClearCounters io | CallRescanAdapters io
  | CallUnlockAdapter io _ => request_ok io
  | _ => True
  end.

Lemma store_client_ok f c :
  client_ok c -> store_ok (omap input_of (all_heard c)) (f (store c)) -> client_ok (on_store f c).
Proof.
  intros [[[[C1 C2 C3] ? ? ? ? ? ? ?] ? ? ?]|[[[C1 C2 C3] ? ? ?]|[[[C1 C2 C3] ? ?] ? ?]]] Hs.
  - left. by split.
  - right; left. by split.
  - right; right. by split.
Qed.

Lemma perform_ok x c : call_ok x -> client_ok c -> client_ok (perform x c).
Proof.
  intros Hx Hc. pose proof (common_store _ (breakable_common _ (client_breakable c Hc))) as [S1 S2 S3].
  destruct x; cbn [call_ok perform] in *.
  - by apply Connect_ok.
  - by apply Poll_ok.
  - unfold MaintainConnection. destruct Hx. destruct (connected (session c)); [by apply Poll_ok|by apply Connect_ok].
  - right; left. by apply Disconnect_shut.
  - by apply SendHeartbeat_ok.
  - by apply EnableOutputs_ok.
  - by apply WriteOutput_ok.
  - by apply ReleaseControl_ok.
  - by apply SubscribeInputs_ok.
  - by apply EmptyRequest_ok; [| |right; left].
  - by apply EmptyRequest_ok; [| |right; right].
  - by apply RuntimeUnlockAdapter_ok.
  - unfold PopInput. destruct (inputs (store c)) eqn:E; [done|]. apply store_client_ok; [done|].
    split; try done. cbn [inputs]. rewrite zlen_cons in S1. lia.
  - unfold PopInputImage. pose proof (PopInputImage_ok _ _ S3) as H.
    destruct (Assembly.PopInputImage _) as [b m]. apply store_client_ok; [done|]. by split.
  - unfold PopBusInfo. destruct (busInformation (store c)) eqn:E; [done|]. apply store_client_ok; [done|].
    split; try done. cbn [busInformation]. rewrite zlen_cons in S2. lia.
Qed.

Inductive client_reached (o : ClientOptions) : Client.t -> Prop :=
| client_created : client_reached o (create o)
| client_called x c : client_reached o c -> call_ok x -> client_reached o (perform x c).

Lemma create_shut o : shut (create o).
Proof. split; try done. split; [constructor|apply nothing_ok|]. split; [done|]. cbn. lia. Qed.

Lemma client_reached_ok o c : client_reached o c -> client_ok c.
Proof. induction 1 as [|x c _ IH Hx]; [by right; left; apply create_shut|by apply perform_ok]. Qed.

(** The background thread makes calls like any other. *)
Lemma BackgroundLoop_reached o turns c :
  client_reached o c ->
  Forall (fun '(said_connected, io, io') => call_ok (background_call said_connected io io')) turns ->
  client_reached o (BackgroundLoop turns c).
Proof.
  unfold BackgroundLoop. intros Hc Ht. revert c Hc.
  induction Ht as [|[[said io] io'] turns Hx _ IH]; intros c Hc; [done|]. cbn [fold_left].
  apply IH. by apply client_called.
Qed.

(** ** A sample run *)

Definition sample_options : ClientOptions :=
  mkOptions (str "/run/ec.sock") Controller true 100 500 250 50 1000 50.

(** The server sends [frames] at time [now]. *)
Definition server_sends (now : Z) (frames : list bytes) : Pump :=
  mkPump now [SendCount 1000] (PollReady false false true) [] [RecvBytes (concat frames)].

Definition sample_welcome : bytes :=
  EncodeFrame HelloAck 1 (EncodeHelloAckPayload (mkHelloAck Controller false 250 5 42 0)).
Definition sample_ack (id : Z) : bytes := EncodeFrame Ack id (EncodeAckPayload Ok 0).

Definition sample_connect : call :=
  CallConnect (mkConnectIo 0 true ConnectDone [] false 0 [server_sends 1 [sample_welcome]] 2).

Definition answered_at (now id : Z) : RequestIo :=
  mkRequestIo now [server_sends (now + 1) [sample_ack id]; server_sends (now + 2) []] (now + 3).

Definition sample_input (offset : Z) (data : bytes) : bytes :=
  EncodeFrame PdoInput 0 (EncodePdoInputPayload (mkPdoInput 0 1 offset 4 5 9 data)).

Definition sample_calls : list call :=
  [sample_connect; CallEnableOutputs (answered_at 10 2) true;
   CallPoll (mkPollIo 20 (PollReady false false true) []
     [RecvBytes (sample_input 0 [1; 2] ++ sample_input 2 [3; 4])])].

Definition sample_session : Client.t :=
  fold_left (fun c x => perform x c) sample_calls (create sample_options).

Lemma sample_session_reached : client_reached sample_options sample_session.
Proof.
  unfold sample_session, sample_calls. cbn [fold_left].
  repeat apply client_called; [apply client_created|..]; cbn; repeat constructor; by vm_compute.
Qed.

(** ** Properties *)

(** C25: the client never speaks for another session: on every connection it has ever had, the
    bytes that reached the socket are a prefix of the frames it queued there; the first of
    them is a HELLO; and each later one is a request that needs no control or a command
    whose epoch the server granted, with control, on that very connection. So no command is
    carried over from one connection or epoch to the next. *)
Theorem client_speaks_for_its_session o c t :
  client_reached o c -> t ∈ line c :: past c ->
  wire t `prefix_of` concat (queued t) /\
  (forall first, head (queued t) = Some first ->
     exists id hello, first = EncodeFrame Hello id (EncodeHelloPayload hello)) /\
  (forall frame, frame ∈ tail (queued t) ->
     exists type id payload, frame = EncodeFrame type id payload /\
       (harmless type \/ exists e, granted (heard t) e /\ speaks e type payload)).
Proof.
  intros Hr Ht. apply client_reached_ok, client_breakable in Hr as [Hc Hl _].
  assert (transcript_ok t) as [Hp Hs].
  { apply elem_of_cons in Ht as [->|Ht]; [done|].
    pose proof (common_past _ Hc) as Hpast. rewrite Forall_forall in Hpast. by apply Hpast. }
  split; [done|]. unfold script_ok in Hs. destruct (queued t) as [|first commands].
  { split; [done|]. intros frame Hf. by apply not_elem_of_nil in Hf. }
  destruct Hs as [H1 H2]. split; [by intros ? [= <-]|]. intros frame Hf.
  rewrite Forall_forall in H2. by apply H2.
Qed.

Lemma client_speaks_for_its_session_witness :
  wire (line sample_session) `prefix_of` concat (queued (line sample_session)) /\
  (forall first, head (queued (line sample_session)) = Some first ->
     exists id hello, first = EncodeFrame Hello id (EncodeHelloPayload hello)) /\
  (forall frame, frame ∈ tail (queued (line sample_session)) ->
     exists type id payload, frame = EncodeFrame type id payload /\
       (harmless type \/ exists e, granted (heard (line sample_session)) e /\ speaks e type payload)).
Proof.
  apply (client_speaks_for_its_session sample_options sample_session);
    [apply sample_session_reached|by left].
Defined.

(** The frame of a write. *)
Definition write_frame (c : Client.t) (id bus sub offset : Z) (data : bytes) : bytes :=
  EncodeFrame OutputWrite id
    (EncodeOutputWritePayload (mkOutputWrite (epoch (session c)) bus sub offset data)).

(** C26: writeOutput ends in one of four ways. It returns true only if outputs were enabled,
    the write was queued under the session's epoch, and the server acknowledged that very
    request with Ok. When it returns false, either nothing was queued; or the server
    refused the request; or the connection is closed, and with it everything that had not
    been sent: a write that timed out is never sent later. *)
Theorem WriteOutput_outcome o c io bus sub offset data :
  client_reached o c -> request_ok io ->
  let r := WriteOutput io bus sub offset data c in
  let c' := fst r in
  if snd r
  then outputsEnabled (session c) = true /\ exists id,
    queued (line c') = queued (line c) ++ [write_frame c id bus sub offset data] /\
    acknowledged (heard (line c')) (id, Ok)
  else
    line c' = line c /\ past c' = past c /\ channel c' = channel c \/
    (exists id s, s <> Ok /\
       queued (line c') = queued (line c) ++ [write_frame c id bus sub offset data] /\
       acknowledged (heard (line c')) (id, s)) \/
    (channel c' = closed_channel /\ epoch (session c') = 0 /\ exists l id,
       past c' = past c ++ [l] /\
       queued l = queued (line c) ++ [write_frame c id bus sub offset data]).
Proof.
  intros Hr Hio. apply client_reached_ok in Hr as Hc. unfold WriteOutput.
  pose proof (RequireController_spec c Hc) as H. unfold RequireController in *.
  destruct (_ || _ || _); [by left|]. destruct H as (_ & Ho & Hg & _). cbn [negb orb].
  destruct (outputsEnabled (session c)) eqn:Hen; cbn [negb]; [|by left].
  case_bool_decide; [by left|]. unfold NextRequestId. set (id := if _ =? 0 then _ else _).
  set (c1 := set_nextRequestId id c). set (frame := EncodeFrame OutputWrite id _).
  assert (requested c1 frame id (fst (Request io frame id c1)) (snd (Request io frame id c1))) as Hq.
  { apply Request_requested; [done|by apply request_id_active, Ho|].
    apply may_command; [done|]. right. split; [done|constructor]. }
  destruct (Request io frame id c1) as [c2 s]. cbn [fst snd] in Hq.
  assert (forall c' b, FailForRequestStatus s "output write was rejected" c2 = (c', b) ->
    b = false /\ line c' = line c2 /\ past c' = past c2 /\ channel c' = channel c2 /\
    session c' = session c2) as Hfail.
  { unfold FailForRequestStatus. intros c' b. destruct (lastError (report c2)); by intros [= <- <-]. }
  unfold concluded. case_bool_decide as Hs; cbn [negb].
  - subst s. inversion Hq as [|c' s Ha Hcon Hqd Hp Hopt Hh Hk|]; subst. cbn [snd fst].
    split; [done|]. by exists id.
  - destruct (FailForRequestStatus s _ c2) as [c3 b]. destruct (Hfail c3 b eq_refl) as (-> & F1 & F2 & F3 & F4).
    cbn [fst snd]. rewrite F1, F2, F3, F4. inversion Hq as [r|c' s' Ha Hcon Hqd Hp Hopt Hh Hk|c' l Hsh He Hopt Hp Hl]; subst.
    + by left.
    + right; left. by exists id, s.
    + right; right. split; [apply (shut_channel _ Hsh)|]. split; [done|]. by exists l, id.
Qed.

Lemma WriteOutput_outcome_witness :
  let c' := fst (WriteOutput (answered_at 30 3) 0 1 0 [7; 9] sample_session) in
  outputsEnabled (session sample_session) = true /\ exists id,
    queued (line c') = queued (line sample_session) ++ [write_frame sample_session id 0 1 0 [7; 9]] /\
    acknowledged (heard (line c')) (id, Ok).
Proof.
  assert (request_ok (answered_at 30 3)) as Hio by (repeat constructor; by vm_compute).
  assert (snd (WriteOutput (answered_at 30 3) 0 1 0 [7; 9] sample_session) = true) as Ht by by vm_compute.
  pose proof (WriteOutput_outcome sample_options sample_session (answered_at 30 3) 0 1 0 [7; 9]
    sample_session_reached Hio) as H.
  cbv zeta in H. rewrite Ht in H. exact H.
Defined.

(** C27: the session state of the client is truthful: a connected client has a socket and an
    epoch that the server granted on this connection, and its heartbeat period, at least 10 ms,
    is less than half of the heartbeat timeout of that server; it counts as controller only
    while it is connected with control granted in this epoch, and as having outputs enabled only
    while it is connected. A call of Poll that succeeds queues exactly one heartbeat, for the
    epoch of the session, if the client is controller and its next heartbeat is due, and then
    the next one is due a period after this call; otherwise, and so for an observer, it queues
    nothing and leaves the due time as it is. Nothing is said of a client that is not polled. *)
Theorem client_session_truthful o c :
  client_reached o c ->
  (connected (session c) = true ->
     open (channel c) = true /\ epoch (session c) <> 0 /\
     welcomed (heard (line c)) (epoch (session c)) (effectiveHeartbeatPeriod (schedule c))) /\
  (controllerGranted (session c) = true ->
     connected (session c) = true /\ granted (heard (line c)) (epoch (session c))) /\
  (outputsEnabled (session c) = true -> connected (session c) = true) /\
  forall io, poll_ok io -> snd (Poll io c) = true ->
    let c' := fst (Poll io c) in
    if controllerGranted (session c) && (nextHeartbeat (schedule c) <=? poll_now io)
    then queued (line c') = queued (line c) ++
           [EncodeFrame Heartbeat (snd (NextRequestId c)) (EncodeEpochPayload (epoch (session c)))] /\
         nextHeartbeat (schedule c') = poll_now io + effectiveHeartbeatPeriod (schedule c) * 1000000
    else queued (line c') = queued (line c) /\ nextHeartbeat (schedule c') = nextHeartbeat (schedule c).
Proof.
  intros Hr. apply client_reached_ok in Hr. pose proof (fun io => Poll_beats io c Hr) as Hp.
  destruct Hr as [[Ha Hc Hh _]|[[_ _ _ (E1 & E2 & E3)]|[_ _ (E1 & E2 & E3)]]];
    [|split_and!; try (intros; congruence); exact Hp..].
  pose proof (active_session _ Ha Hh) as Hw. split_and!; try done.
  - intros _. split_and!; [apply Ha| |done]. destruct Hw as (f & a & _ & _ & Hd & <- & _).
    unfold DecodeHelloAckPayload in Hd. opt_inv. subst a. cbn. lia.
  - intros Hg. split; [done|by apply (active_granted _ Ha)].
Qed.

(** The sample session is polled when its next heartbeat is due. *)
Definition sample_poll : PollIo :=
  mkPollIo (nextHeartbeat (schedule sample_session)) (PollReady false true false) [SendCount 1000] [].

Lemma client_session_truthful_witness :
  welcomed (heard (line sample_session)) 5 50 /\ granted (heard (line sample_session)) 5 /\
  queued (line (fst (Poll sample_poll sample_session))) =
    queued (line sample_session) ++ [EncodeFrame Heartbeat (snd (NextRequestId sample_session)) (EncodeEpochPayload 5)].
Proof.
  destruct (client_session_truthful sample_options sample_session sample_session_reached)
    as (H1 & H2 & _ & H4). split_and!.
  - apply H1. by vm_compute.
  - apply H2. by vm_compute.
  - specialize (H4 sample_poll ltac:(constructor) ltac:(by vm_compute)). cbv zeta in H4.
    assert (controllerGranted (session sample_session) &&
      (nextHeartbeat (schedule sample_session) <=? poll_now sample_poll) = true) as E by by vm_compute.
    rewrite E in H4. destruct H4 as [H4 _]. exact H4.
Defined.

(** The client's memory is bounded, whatever the server sends: at most 64 KiB of requests,
    128 acknowledgements, 16 unanswered heartbeats, 128 input messages, 64 bus messages, 16
    unfinished images in 4 MiB and 32 finished ones in 4 MiB; the byte counters are exact;
    and the reconnection delay stays between the two configured ones. *)
Theorem client_bounded o c :
  client_reached o c ->
  outgoingBytes (channel c) = zlen (unsent (outgoing (channel c)) (outgoingOffset (channel c))) /\
  outgoingBytes (channel c) <= 65536 /\
  (connected (session c) = true ->
     zlen (acknowledgements (channel c)) <= 128 /\ zlen (heartbeatRequests (channel c)) <= 16) /\
  zlen (inputs (store c)) <= 128 /\ zlen (busInformation (store c)) <= 64 /\
  zlen (assemblies (inbox (store c))) <= 16 /\
  assemblyStorage (inbox (store c)) = total_size storage_of (assemblies (inbox (store c))) /\
  assemblyStorage (inbox (store c)) <= 4194304 /\
  zlen (inputImages (inbox (store c))) <= 32 /\
  inputImageStorage (inbox (store c)) = total_size image_size (inputImages (inbox (store c))) /\
  inputImageStorage (inbox (store c)) <= 4194304 /\
  (0 < initialReconnectBackoff (options c) <= maximumReconnectBackoff (options c) ->
   initialReconnectBackoff (options c) <= reconnectBackoff (schedule c)
     <= maximumReconnectBackoff (options c)).
Proof.
  intros Hr. apply client_reached_ok in Hr as Hc.
  destruct (client_breakable c Hc) as [[_ [S1 S2 [_ _ I3 [I4 I4'] _ I6 [I7 I7']]] [_ S4]] _ _].
  assert (outgoingBytes (channel c) = zlen (unsent (outgoing (channel c)) (outgoingOffset (channel c))) /\
    outgoingBytes (channel c) <= 65536 /\
    (connected (session c) = true -> zlen (acknowledgements (channel c)) <= 128 /\
       zlen (heartbeatRequests (channel c)) <= 16)) as (K1 & K2 & K3).
  { destruct Hc as [[Ha _ _ _]|[[_ -> _ _]|[_ [-> ->] [E _]]]].
    - by destruct (active_channel _ Ha) as [_ ? ? ? ? _].
    - done.
    - rewrite E. split_and!; try done. unfold unsent. cbn [concat]. by rewrite drop_nil. }
  split_and!; done.
Qed.

Lemma client_bounded_witness : zlen (inputs (store sample_session)) <= 128.
Proof.
  by destruct (client_bounded sample_options sample_session sample_session_reached)
    as (_ & _ & _ & H & _).
Defined.

(** C28: the client never hands out a torn image: each byte of an image in its queue was
    reported by the server, on some connection of this client, in a message about that very
    bus, SubDevice, epoch, bus cycle and image size. *)
Theorem images_whole o c m i :
  client_reached o c -> m ∈ inputImages (inbox (store c)) -> 0 <= i < zlen (image_data m) ->
  exists f x, f ∈ all_heard c /\ frame_type f = PdoInput /\
    DecodePdoInputPayload kMaximumPdoImage (frame_payload f) = Some x /\
    input_busIndex x = image_busIndex m /\ input_subDeviceIndex x = image_subDeviceIndex m /\
    input_epoch x = image_epoch m /\ input_cycleSequence x = image_cycleSequence m /\
    input_totalSize x = zlen (image_data m) /\
    input_offset x <= i < input_offset x + zlen (input_data x) /\
    byte_at (input_data x) (i - input_offset x) = byte_at (image_data m) i.
Proof.
  intros Hr Hm Hi. apply client_reached_ok, client_breakable in Hr as [[_ [_ _ Hb] _] _ _].
  pose proof (inbox_images _ _ Hb) as Him. rewrite Forall_forall in Him.
  destruct (Him m Hm) as [_ H]. destruct (H i Hi) as (x & Hx & Hrest).
  apply list_elem_of_omap in Hx as (f & Hf & Hd). exists f, x. unfold input_of in Hd.
  case_bool_decide; [|done]. by split_and!; try apply Hrest.
Qed.

Lemma images_whole_witness :
  exists f x, f ∈ all_heard sample_session /\ frame_type f = PdoInput /\
    DecodePdoInputPayload kMaximumPdoImage (frame_payload f) = Some x /\
    input_busIndex x = 0 /\ input_subDeviceIndex x = 1 /\ input_epoch x = 5 /\
    input_cycleSequence x = 9 /\ input_totalSize x = 4 /\
    input_offset x <= 2 < input_offset x + zlen (input_data x) /\
    byte_at (input_data x) (2 - input_offset x) = 3.
Proof.
  apply (images_whole sample_options sample_session (mkImage 0 1 5 9 [1; 2; 3; 4]) 2).
  - apply sample_session_reached.
  - replace (inputImages (inbox (store sample_session))) with [mkImage 0 1 5 9 [1; 2; 3; 4]]
      by by vm_compute. by apply list_elem_of_singleton.
  - done.
Defined.

(** A request that the server refuses is not reported as such after an earlier local error:
    FailForRequestStatus keeps the older NotConnected. *)
Lemma rejection_hidden :
  let refused := EncodeFrame Ack 2 (EncodeAckPayload Disabled 0) in
  let c := perform sample_connect (create sample_options) in
  let c := perform (CallWriteOutput (answered_at 5 2) 0 1 0 [7]) c in
  let r := EnableOutputs (mkRequestIo 10 [server_sends 11 [refused]; server_sends 12 []] 13) true c in
  snd r = false /\ lastError (report (fst r)) = NotConnected /\ connected (session (fst r)) = true.
Proof. by vm_compute. Qed.
