(* ===== verification/Publication.v ===== *)
(** Inputs from the bus to the user: the snapshot that the bus thread puts into its ring
    ([BusIo]) is gathered by the daemon, queued to the clients that are due ([Telemetry]), read
    by the client library, and reassembled there into the images of the SubDevices. *)

From stdpp Require Import list_numbers.
From S2P Require Import Prelude LittleEndian Protocol Codec Payloads Frame SafetyGate SpscQueue Config Pdo IoMap BusIo Cycle.
From S2P Require Import Sockets Connection Daemon Telemetry System Assembly Guarantees.

(** ** The messages of a snapshot *)

(** The message that [accumulate] makes of a chunk. *)
Definition chunk_payload (chunk : InputChunk) : PdoInputPayload :=
  let h := chunk_header chunk in
  mkPdoInput (input_busIndex h) (input_subDeviceIndex h) (input_offset h) (input_totalSize h)
    (input_epoch h) (input_cycleSequence h) (chunk_data chunk).

Definition chunk_frame (chunk : InputChunk) : Frame :=
  Frame.mkFrame PdoInput 0 (EncodePdoInputPayload (chunk_payload chunk)).

(** The image that a SubDevice publishes, if it has inputs. *)
Definition slave_image (m : bytes) (c : ecx_contextt) (index : Z) : option bytes :=
  let d := slave c index in
  let size := PdoImageByteLength (Ibits d) in
  let mappedBytes := PdoMappedByteLength (Ibits d) (Istartbit d) in
  match inputs d with
  | None => None
  | Some p =>
      if (size =? 0) || negb (PointerRangeInIoMap (zlen m) (Some p) mappedBytes) then None
      else ReadPackedPdoChunk (span m p mappedBytes) (Istartbit d) (Ibits d) 0 (Z.to_nat size)
  end.

Definition published_images (m : bytes) (c : ecx_contextt) : list (Z * bytes) :=
  omap (fun a => pair a <$> slave_image m c a) (indices c).

Lemma imap_map {A B} (f : A -> B) l : imap (fun _ => f) l = f <$> l.
Proof. apply list_eq. intros i. by rewrite list_lookup_imap, list_lookup_fmap. Qed.

Lemma insert_alter {A} (f : A -> A) (l : list A) i x : <[i := x]> (alter f i l) = <[i := x]> l.
Proof. revert i. induction l as [|y l IH]; intros [|i]; cbn; [done..|]. f_equal. apply IH. Qed.

Lemma two_chunks : (2 <= kMaximumInputChunks)%nat.
Proof. vm_compute. lia. Qed.

Section Snapshot.
Context (c : ecx_contextt) (m : bytes) (busIndex epoch sequence : Z).
Context (Hm : bytes_ok m) (Htyped : forall a, a ∈ indices c -> slave_typed (slave c a)).
Context (Hcount : slavecount c <= U16_MAX).
Context (Hstart : forall a, a ∈ indices c -> Istartbit (slave c a) <= 7 \/ Ibits (slave c a) = 0).
Context (Hbus : in_u16 busIndex) (Hepoch : 1 <= epoch <= U64_MAX) (Hsequence : 1 <= sequence <= U64_MAX).

Lemma slave_image_chunks a :
  a ∈ indices c ->
  match slave_image m c a with
  | None => slave_chunks m c a = []
  | Some image =>
      zlen image = PdoImageByteLength (Ibits (slave c a)) /\ 0 < zlen image <= 8192 /\ bytes_ok image /\
      slave_chunks m c a
      = map (fun k => (a, Z.of_nat k * kMaximumPdoChunk, take 1024 (drop (k * 1024) image)))
          (seq 0 (Z.to_nat ((zlen image + kMaximumPdoChunk - 1) / kMaximumPdoChunk)))
  end.
Proof using Hm Htyped Hstart.
  intros Ha. unfold slave_image. destruct (inputs (slave c a)) as [p|] eqn:Ep.
  2:{ unfold slave_chunks. by rewrite Ep. }
  destruct ((_ =? 0) || _) eqn:E; [unfold slave_chunks; by rewrite Ep, E|].
  pose proof (Htyped a Ha) as (_ & _ & Hbits & Hsb). unfold in_u16, in_u8 in *.
  assert (Istartbit (slave c a) <= 7) as Hs.
  { destruct (Hstart a Ha) as [|H0]; [done|]. unfold PdoImageByteLength in E. rewrite H0 in E. done. }
  destruct (slave_chunks_readable c m Hm Htyped a p Ha Ep E Hs) as (image & H1 & H2 & H3 & H4 & H5).
  rewrite H4. apply orb_false_iff in E as [E0 _]. apply Z.eqb_neq in E0.
  unfold PdoImageByteLength in *. split_and!; [done|dlia|dlia| |by rewrite H3].
  destruct (read_viewed (Istartbit (slave c a)) (Ibits (slave c a)) ltac:(lia) ltac:(unfold in_u16; lia)
    (span m p (PdoMappedByteLength (Ibits (slave c a)) (Istartbit (slave c a)))) 0
    (Z.to_nat ((Ibits (slave c a) + 7) / 8))) as (d & Hd & Hv & _).
  - by apply bytes_ok_span.
  - apply (read_Some _ _ _ _ _ _ H4). lia.
  - lia.
  - unfold PdoImageByteLength. dlia.
  - rewrite H4 in Hd. by injection Hd as ->.
Qed.

Lemma snapshot_payloads :
  map chunk_payload (snapshot c m busIndex epoch sequence) =
  concat (map (fun x => pieces busIndex (fst x) epoch sequence (snd x)) (published_images m c)).
Proof using Hm Htyped Hstart.
  unfold snapshot, snapshot_parts, published_images.
  change (map chunk_payload ?l) with (chunk_payload <$> l). rewrite fmap_imap.
  set (payload := fun part : Z * Z * bytes => let '(index, offset, data) := part in
    mkPdoInput busIndex index offset (PdoImageByteLength (Ibits (slave c index))) epoch sequence data).
  rewrite (imap_ext _ (fun _ => payload)) by (by intros i [[? ?] ?] _).
  rewrite imap_map. assert (forall l, (forall a, a ∈ l -> a ∈ indices c) ->
    payload <$> concat (map (slave_chunks m c) l) =
    concat (map (fun x => pieces busIndex (fst x) epoch sequence (snd x))
      (omap (fun a => pair a <$> slave_image m c a) l))) as H; [|by apply H].
  induction l as [|a l IH]; intros Hl; [done|]. cbn [map concat]. rewrite fmap_app, IH by (intros; by apply Hl; right).
  pose proof (slave_image_chunks a ltac:(by apply Hl; left)) as Hi. cbn [omap list_omap].
  destruct (slave_image m c a) as [image|]; cbn [fmap option_fmap option_map].
  - destruct Hi as (H1 & _ & _ & ->). cbn [map concat fst snd]. f_equal.
    unfold pieces. change (payload <$> map ?f ?l) with (map payload (map f l)). rewrite map_map.
    apply map_ext. intros k. unfold payload, piece. by rewrite H1.
  - by rewrite Hi.
Qed.

(** Every message of the snapshot is well formed and fits a frame. *)
Record message_ok (x : PdoInputPayload) : Prop := {
  message_wf : input_wf x;
  message_encodes : EncodePdoInputPayload x <> [];
  message_size : zlen (EncodePdoInputPayload x) <= 32 + 1024
}.

Lemma in_pieces a image x :
  0 < zlen image -> x ∈ pieces busIndex a epoch sequence image ->
  exists k, (k * 1024 < length image)%nat /\ x = piece busIndex a epoch sequence image k.
Proof using Type.
  intros Hi Hx. apply list_elem_of_fmap in Hx as (k & -> & Hk). apply elem_of_seq in Hk.
  exists k. split; [|done]. unfold zlen, kMaximumPdoChunk in *. dlia.
Qed.

Lemma piece_message a image k :
  1 <= a <= U16_MAX -> 0 < zlen image <= 8192 -> bytes_ok image -> (k * 1024 < length image)%nat ->
  message_ok (piece busIndex a epoch sequence image k).
Proof using Hbus Hepoch Hsequence.
  intros Ha Hi Hb Hk.
  assert (input_wf (piece busIndex a epoch sequence image k)) as Hwf.
  { unfold input_wf, piece, in_u16, in_u32, in_u64, kMaximumPdoChunk, zlen in *.
    cbn [input_busIndex input_subDeviceIndex input_offset input_totalSize input_epoch
         input_cycleSequence input_data].
    split_and!; try lia. by apply bytes_ok_take, bytes_ok_drop. }
  assert (zlen (input_data (piece busIndex a epoch sequence image k)) =
          Z.min 1024 (zlen image - Z.of_nat k * 1024)) as Hlen.
  { unfold piece, zlen. cbn [input_data]. rewrite length_take, length_drop. lia. }
  assert (EncodePdoInputPayload (piece busIndex a epoch sequence image k) <> []) as Hne.
  { unfold EncodePdoInputPayload. rewrite Hlen.
    unfold kMaximumPdoChunk, kMaximumPdoImage, piece, kMaximumPdoChunk, zlen in *.
    cbn [input_subDeviceIndex input_epoch input_cycleSequence input_totalSize input_offset].
    destruct (_ || _) eqn:E; [exfalso; lia|]. intros [_ Hd]%app_nil.
    cbn in Hlen, Hd. rewrite Hd in Hlen. cbn in Hlen. lia. }
  split; [done|done|]. encoder EncodePdoInputPayload. autorewrite with zlen. rewrite Hlen. lia.
Qed.

Lemma snapshot_messages ch :
  ch ∈ snapshot c m busIndex epoch sequence -> message_ok (chunk_payload ch).
Proof using Hm Htyped Hstart Hcount Hbus Hepoch Hsequence.
  intros Hch. assert (chunk_payload ch ∈ map chunk_payload (snapshot c m busIndex epoch sequence)) as Hx
    by (by apply list_elem_of_fmap; exists ch).
  rewrite snapshot_payloads in Hx. apply list_elem_of_In, in_concat in Hx as (l & Hl & Hx).
  apply list_elem_of_In, list_elem_of_fmap in Hl as ([a image] & -> & Ha).
  apply list_elem_of_omap in Ha as (a' & Ha & Hi). cbn [fst snd] in Hx.
  pose proof (slave_image_chunks a' Ha) as Hs. apply elem_of_indices in Ha.
  destruct (slave_image m c a') as [image'|]; [|done]. injection Hi as -> ->.
  destruct Hs as (_ & H1 & H2 & _). apply list_elem_of_In, in_pieces in Hx as (k & Hk & ->); [|lia].
  apply piece_message; [lia|done..].
Qed.

Lemma snapshot_numbered k ch :
  let s := snapshot c m busIndex epoch sequence in
  s !! k = Some ch ->
  snapshotChunkIndex ch = Z.of_nat k /\ snapshotChunkCount ch = zlen s /\
  input_epoch (chunk_header ch) = epoch /\ input_cycleSequence (chunk_header ch) = sequence.
Proof using Type.
  intros s Hk. unfold s, snapshot in Hk. rewrite list_lookup_imap in Hk.
  destruct (snapshot_parts m c !! k) as [[[a offset] data]|]; [|done]. injection Hk as <-.
  split_and!; try done.
  unfold s, snapshot, zlen. by rewrite length_imap.
Qed.
End Snapshot.

(** ** Gathering *)

(** A run of chunks that belong together, as the bus thread numbers them. *)
Record complete_snapshot (epoch sequence : Z) (s : list InputChunk) : Prop := {
  complete_count : (1 <= length s <= 128)%nat;
  complete_chunk k ch : s !! k = Some ch ->
    snapshotChunkIndex ch = Z.of_nat k /\ snapshotChunkCount ch = zlen s /\
    input_epoch (chunk_header ch) = epoch /\ input_cycleSequence (chunk_header ch) = sequence /\
    message_ok (chunk_payload ch)
}.

Section Gathering.
Context (epoch sequence : Z) (s : list InputChunk) (Hs : complete_snapshot epoch sequence s).

Definition snapshot_frames : list bytes := map (fun ch => frame_bytes (chunk_frame ch)) s.

(** The accumulator with the first [n] chunks. *)
Definition gathered (n : nat) : InputPublicationAccumulator :=
  mkAccumulator epoch sequence (zlen s) (Z.of_nat n) (zlen (concat (take n snapshot_frames)))
    (take n snapshot_frames).

Lemma chunk_frame_wf ch : message_ok (chunk_payload ch) -> frame_wf (chunk_frame ch).
Proof using Type.
  intros [H1 _ H3]. split_and!; cbn; [unfold in_u32; lia|by apply input_encode_ok|].
  unfold kMaximumFrameLength, kEnvelopeSize. lia.
Qed.

Lemma chunk_frame_size ch : message_ok (chunk_payload ch) -> 0 < zlen (frame_bytes (chunk_frame ch)) <= 1072.
Proof using Type.
  intros H. rewrite zlen_frame_bytes by by apply chunk_frame_wf. destruct H as [_ _ H3].
  pose proof (zlen_nonneg (frame_payload (chunk_frame ch))). cbn [frame_payload chunk_frame] in *. lia.
Qed.

Lemma gathered_size n : 0 <= zlen (concat (take n snapshot_frames)) <= 1072 * Z.of_nat n.
Proof using Hs.
  split; [apply zlen_nonneg|]. induction n as [|n IH]; [done|].
  destruct (snapshot_frames !! n) as [f|] eqn:E.
  - rewrite (take_S_r _ _ f), concat_app, zlen_app by done. cbn [concat]. rewrite app_nil_r.
    unfold snapshot_frames in E. change (map ?g s) with (g <$> s) in E. rewrite list_lookup_fmap in E.
    destruct (s !! n) as [ch|] eqn:Ech; [|done]. injection E as <-.
    pose proof (chunk_frame_size ch ltac:(apply (complete_chunk _ _ _ Hs n ch Ech))). lia.
  - apply lookup_ge_None in E. rewrite (take_ge _ (S n)) by lia. rewrite (take_ge _ n) in IH by lia. lia.
Qed.

Lemma accumulate_gathered n ch acc :
  s !! n = Some ch -> (n = O \/ acc = gathered n) ->
  accumulate ch acc = (gathered (S n), bool_decide (S n = length s)).
Proof using Hs.
  intros Hn Hacc. destruct (complete_chunk _ _ _ Hs n ch Hn) as (H1 & H2 & H3 & H4 & H5).
  pose proof (complete_count _ _ _ Hs) as H6. pose proof (lookup_lt_Some _ _ _ Hn) as Hlt.
  pose proof (chunk_frame_size ch H5) as Hz.
  pose proof (gathered_size n) as Hg. unfold accumulate.
  change (EncodePdoInputPayload (mkPdoInput (input_busIndex _) _ _ _ _ _ _))
    with (EncodePdoInputPayload (chunk_payload ch)).
  change (EncodeFrame PdoInput 0 (EncodePdoInputPayload (chunk_payload ch)))
    with (frame_bytes (chunk_frame ch)).
  rewrite H1, H2.
  destruct ((zlen s =? 0) || _ || _) eqn:E; [exfalso; unfold zlen in E; lia|]. clear E.
  assert ((if Z.of_nat n =? 0
           then mkAccumulator (input_epoch (chunk_header ch)) (input_cycleSequence (chunk_header ch))
                  (zlen s) 0 0 [] else acc) = gathered n) as ->.
  { destruct n; [cbn; by rewrite H3, H4|]. by destruct Hacc as [?|Hacc]. }
  cbn [acc_epoch acc_cycleSequence expectedChunks nextChunk totalBytes frames gathered].
  rewrite H3, H4, !Z.eqb_refl. cbn [negb orb].
  assert (is_empty (EncodePdoInputPayload (chunk_payload ch)) = false) as ->
    by (destruct H5 as [_ H5 _]; by destruct (EncodePdoInputPayload _)).
  assert (is_empty (frame_bytes (chunk_frame ch)) = false) as ->
    by (destruct (frame_bytes (chunk_frame ch)) eqn:Ef; [exfalso; unfold zlen in Hz; cbn in Hz; lia|done]).
  unfold kMaximumClientOutputBytes.
  destruct (_ || _) eqn:E; [exfalso; cbn [orb] in E; lia|]. clear E.
  unfold gathered, to_u16. rewrite Z.mod_small by lia.
  rewrite (take_S_r snapshot_frames n (frame_bytes (chunk_frame ch))).
  2:{ unfold snapshot_frames. change (map ?g s) with (g <$> s). by rewrite list_lookup_fmap, Hn. }
  rewrite concat_app, zlen_app. cbn [concat]. rewrite app_nil_r. f_equal.
  - f_equal. lia.
  - case_bool_decide; unfold zlen; cbn [nextChunk expectedChunks]; lia.
Qed.

(** ** Publishing *)

Context (now : Z) (busIndex : nat).

(** [now >= client.nextPublication[busIndex]]. *)
Definition due (c : ClientConnection) : bool :=
  subscriber c && negb (now <? default 0 (nextPublication (session c) !! busIndex)).

(** A client that is due gets the whole snapshot, and its next turn. *)
Definition publish_to (c : ClientConnection) : ClientConnection :=
  if due c
  then on_queue (push_frames snapshot_frames (zlen (concat snapshot_frames)))
         (on_session (fun x => mkSession (helloReceived x) (role x) (subscribeInputs x)
            (inputPeriodMs x) (<[busIndex := now + inputPeriodMs x * 1000000]> (nextPublication x))) c)
  else c.

Definition has_room (c : ClientConnection) : Prop :=
  due c = true -> no_room (queue c) (zlen (concat snapshot_frames)) = false.

Lemma gathered_all :
  totalBytes (gathered (length s)) = zlen (concat snapshot_frames) /\
  frames (gathered (length s)) = snapshot_frames.
Proof using Type.
  unfold gathered, snapshot_frames. cbn [totalBytes frames].
  rewrite take_ge by (by rewrite length_map). done.
Qed.

Lemma deliver_publishes d i c :
  clients d !! i = Some c -> has_room c -> Gate.epoch (gate d) = epoch ->
  deliver now busIndex (gathered (length s)) d i = with_clients (<[i := publish_to c]> (clients d)) d.
Proof using Type.
  intros Hi Hr He. destruct gathered_all as [Ht Hf].
  assert (with_clients (<[i := c]> (clients d)) d = d) as Hid
    by (rewrite list_insert_id by done; by destruct d).
  unfold deliver. rewrite Hi. unfold publish_to, has_room, due in *.
  destruct (subscriber c) eqn:Es; cbn [negb andb] in *; [|by rewrite Hid].
  destruct (now <? _) eqn:En; cbn [negb] in *; [by rewrite Hid|]. specialize (Hr eq_refl).
  cbn [gate on_client with_clients clients]. cbn [acc_epoch gathered]. rewrite He, Z.eqb_refl.
  rewrite Ht, Hf. unfold QueueFramesAtomically. cbn [clients on_client with_clients].
  rewrite list_lookup_alter_eq, Hi. cbn [fmap option_fmap option_map].
  unfold offer_all. cbn [descriptor queue on_session]. rewrite Hr.
  assert (descriptor c = true) as ->
    by (unfold subscriber in Es; apply andb_true_iff in Es as [_ ?]; done).
  cbn [negb orb]. unfold put_client, with_clients. cbn [clients fst]. f_equal.
  apply insert_alter.
Qed.

Lemma deliver_all todo done d :
  clients d = map publish_to done ++ todo -> Forall has_room todo -> Gate.epoch (gate d) = epoch ->
  fold_left (deliver now busIndex (gathered (length s))) (seq (length done) (length todo)) d =
  with_clients (map publish_to (done ++ todo)) d.
Proof using Type.
  revert done d. induction todo as [|c todo IH]; intros done d Hd Hr He; cbn [length seq fold_left].
  - rewrite app_nil_r in *. rewrite <- Hd. by destruct d.
  - inversion Hr as [|? ? Hc Hr']; subst. rewrite (deliver_publishes d _ c); [|  |done|done].
    2:{ rewrite Hd. by rewrite lookup_app_r, length_map, Nat.sub_diag by by rewrite length_map. }
    specialize (IH (done ++ [c]) (with_clients (<[length done := publish_to c]> (clients d)) d)).
    rewrite length_app in IH. cbn [length] in IH. rewrite Nat.add_1_r in IH. rewrite IH; [|  |done|done].
    + by rewrite <- app_assoc.
    + cbn [clients with_clients]. rewrite Hd, insert_app_r_alt, length_map, Nat.sub_diag
        by by rewrite length_map. cbn. by rewrite map_app, <- app_assoc.
Qed.

(** The daemon once the ring is empty: its ring is [q]. *)
Definition drained (p : port) (q : @Ring InputChunk) (d : daemon) : daemon :=
  with_publications (<[busIndex := empty_accumulator]> (publications d))
    (with_ports (<[busIndex := on_thread (with_chunks q) p]> (ports d)) d).

Lemma drain_publishes r n fuel d p acc :
  (n + S r = length s)%nat -> (S r < fuel)%nat -> ports d !! busIndex = Some p ->
  represents kMaximumInputChunks (inputChunks (thread p)) (drop n s) ->
  publications d !! busIndex = Some acc -> (n = O \/ acc = gathered n) ->
  Forall has_room (clients d) -> Gate.epoch (gate d) = epoch ->
  exists q, represents kMaximumInputChunks q [] /\
    drain_loop fuel now busIndex true d = drained p q (with_clients (map publish_to (clients d)) d).
Proof using Hs.
  revert n fuel d p acc. induction r as [|r IH]; intros n fuel d p acc Hn Hf Hp Hq Ha Hacc Hr He;
    (destruct fuel as [|fuel]; [lia|]);
    (destruct (lookup_lt_is_Some_2 s n ltac:(lia)) as [ch Hch]);
    rewrite (drop_S _ _ _ Hch) in Hq; pose proof (pop_represents _ two_chunks _ _ Hq) as (q & Eq & Hq');
    pose proof (lookup_lt_Some _ _ _ Hp) as Hlp; pose proof (lookup_lt_Some _ _ _ Ha) as Hla;
    cbn [drain_loop]; rewrite Hp, Eq; unfold drain_chunk; cbn [negb publications with_ports]; rewrite Ha;
    cbn [default from_option id]; rewrite (accumulate_gathered n ch acc Hch Hacc).
  - rewrite bool_decide_true by lia. replace (S n) with (length s) by lia.
    cbn [put_accumulator clients with_publications with_ports].
    rewrite (deliver_all (clients d) []) by done. rewrite drop_ge in Hq' by lia.
    exists q. split; [done|]. destruct fuel as [|fuel]; [lia|]. cbn [drain_loop].
    pose proof (pop_represents _ two_chunks _ _ Hq') as E. cbn in E.
    cbn [ports put_accumulator with_publications with_clients with_ports].
    rewrite list_lookup_insert_eq by done. cbn [thread on_thread inputChunks with_chunks].
    rewrite E. unfold drained, put_accumulator, with_publications, with_clients, with_ports. cbn.
    by rewrite list_insert_insert_eq.
  - rewrite bool_decide_false by lia.
    set (d1 := put_accumulator _ _ _).
    destruct (IH (S n) fuel d1 (on_thread (with_chunks q) p) (gathered (S n))) as (q1 & H1 & ->); try done; try lia.
    + cbn. by rewrite list_lookup_insert_eq.
    + cbn. by rewrite list_lookup_insert_eq.
    + by right.
    + exists q1. split; [done|]. unfold d1, drained. cbn.
      rewrite !list_insert_insert_eq. done.
Qed.

(** Without subscribers the ring is only emptied. *)
Lemma drain_discards l fuel d p :
  (0 < length l < fuel)%nat -> ports d !! busIndex = Some p ->
  represents kMaximumInputChunks (inputChunks (thread p)) l ->
  exists q, represents kMaximumInputChunks q [] /\
    drain_loop fuel now busIndex false d = drained p q d.
Proof using Type.
  revert fuel d p. induction l as [|ch l IH]; intros fuel d p Hf Hp Hq; [cbn in Hf; lia|].
  destruct fuel as [|fuel]; [cbn in Hf; lia|].
  pose proof (pop_represents _ two_chunks _ _ Hq) as (q & Eq & Hq').
  pose proof (lookup_lt_Some _ _ _ Hp) as Hlp. cbn [drain_loop]. rewrite Hp, Eq.
  unfold drain_chunk. cbn [negb]. destruct l as [|ch' l].
  - exists q. split; [done|]. destruct fuel as [|fuel]; [cbn in Hf; lia|].
    pose proof (pop_represents _ two_chunks _ _ Hq') as E. cbn in E.
    cbn [drain_loop ports put_accumulator with_publications with_ports].
    rewrite list_lookup_insert_eq by done. cbn [thread on_thread inputChunks with_chunks]. by rewrite E.
  - set (d1 := put_accumulator _ _ _).
    destruct (IH fuel d1 (on_thread (with_chunks q) p)) as (q1 & H1 & ->);
      [cbn in Hf |- *; lia|cbn; by rewrite list_lookup_insert_eq|done|].
    exists q1. split; [done|]. unfold d1, drained. cbn. by rewrite !list_insert_insert_eq.
Qed.

Lemma publish_nobody l : existsb subscriber l = false -> map publish_to l = l.
Proof using Type.
  induction l as [|c l IH]; [done|]. cbn. intros [Hc Hl]%orb_false_iff. rewrite IH by done.
  unfold publish_to, due. by rewrite Hc.
Qed.
End Gathering.

(** What the bus thread publishes is complete. *)
Lemma snapshot_complete c m busIndex epoch sequence :
  bytes_ok m -> (forall a, a ∈ indices c -> slave_typed (slave c a)) -> slavecount c <= U16_MAX ->
  (forall a, a ∈ indices c -> Istartbit (slave c a) <= 7 \/ Ibits (slave c a) = 0) ->
  in_u16 busIndex -> 1 <= epoch <= U64_MAX -> 1 <= sequence <= U64_MAX ->
  0 < zlen (snapshot c m busIndex epoch sequence) <= 128 ->
  complete_snapshot epoch sequence (snapshot c m busIndex epoch sequence).
Proof.
  intros H1 H2 H3 H4 H5 H6 H7 H8. split; [unfold zlen in *; lia|]. intros k ch Hk.
  destruct (snapshot_numbered c m busIndex epoch sequence k ch Hk) as (K1 & K2 & K3 & K4).
  split_and!; try done. apply (snapshot_messages c m busIndex epoch sequence); try done.
  by eapply list_elem_of_lookup_2.
Qed.

(** C30: drainInputs publishes whole snapshots: when the ring of a bus holds the snapshot of one
    cycle, taken in the current epoch, and every subscriber that is due has room for it, then
    each of these gets all its messages, in order and behind what was queued before, and its
    next turn is one period later; the other clients are left alone, the ring and the
    accumulator are empty afterwards, and nothing else of the daemon changes. *)
Theorem drain_bus_publishes d i p acc now c m busIndex sequence :
  bytes_ok m -> (forall a, a ∈ indices c -> slave_typed (slave c a)) -> slavecount c <= U16_MAX ->
  (forall a, a ∈ indices c -> Istartbit (slave c a) <= 7 \/ Ibits (slave c a) = 0) ->
  in_u16 busIndex -> 1 <= sequence <= U64_MAX -> 1 <= Gate.epoch (gate d) <= U64_MAX ->
  let s := snapshot c m busIndex (Gate.epoch (gate d)) sequence in
  0 < zlen s <= 128 ->
  ports d !! i = Some p -> represents kMaximumInputChunks (inputChunks (thread p)) s ->
  publications d !! i = Some acc -> Forall (has_room s now i) (clients d) ->
  exists q, represents kMaximumInputChunks q [] /\
    drain_bus now d i = drained i p q (with_clients (map (publish_to s now i) (clients d)) d).
Proof.
  intros H1 H2 H3 H4 H5 H6 H7 s H8 Hp Hq Ha Hr. unfold drain_bus.
  assert (complete_snapshot (Gate.epoch (gate d)) sequence s) as Hs by by apply snapshot_complete.
  assert ((0 < length s <= 128)%nat) as Hl by (unfold zlen in H8; lia).
  assert (kMaximumInputChunks = 256%nat) as Hk by by vm_compute.
  destruct (existsb subscriber (clients d)) eqn:E.
  - apply (drain_publishes _ sequence s Hs now i (length s - 1) O _ d p acc); try done; try lia.
  - destruct (drain_discards now i s kMaximumInputChunks d p) as (q & Hq' & ->); [lia|done|done|].
    exists q. split; [done|]. rewrite publish_nobody by done. by destruct d.
Qed.

(** A SubDevice with 1100 bytes of inputs, whose snapshot takes two chunks. *)
Definition wide_context : ecx_contextt :=
  mkContext 1 [no_slave; mkSlave 1 2 3 0 0 0 None 8800 1100 0 (Some 0)]
    (mkGroup (Some 0) 0 (Some 0) 1100 1 1 false).

Definition wide_map : bytes := map (fun k => Z.of_nat k mod 251) (seq 0 1100).

Definition wide_snapshot : list InputChunk := snapshot wide_context wide_map 0 5 9.

Lemma wide_index a : a ∈ indices wide_context -> a = 1.
Proof. rewrite elem_of_indices. cbn. lia. Qed.

Lemma wide_typed a : a ∈ indices wide_context -> slave_typed (slave wide_context a).
Proof.
  intros ->%wide_index. unfold slave_typed, in_u8, in_u16.
  change (slave wide_context 1) with (mkSlave 1 2 3 0 0 0 None 8800 1100 0 (Some 0)).
  cbn [Obits Ostartbit Ibits Istartbit]. lia.
Qed.

Lemma wide_map_ok : bytes_ok wide_map.
Proof.
  unfold wide_map. apply Forall_forall. intros b Hb. apply list_elem_of_fmap in Hb as (k & -> & _).
  unfold in_u8. dlia.
Qed.

Definition wide_ring : @Ring InputChunk :=
  fold_left (fun q ch => fst (TryPush kMaximumInputChunks q ch)) wide_snapshot
    (empty_ring kMaximumInputChunks).

Definition wide_subscriber : ClientConnection :=
  on_session (fun x => mkSession true Observer true 20 (nextPublication x))
    (new_client 1 0 (mkCredentials 42 0 0 None)).

Definition wide_daemon : daemon :=
  with_clients [wide_subscriber]
    (with_ports (map (on_thread (with_chunks wide_ring)) (ports sample_new)) sample_new).

Lemma wide_ring_represents : represents kMaximumInputChunks wide_ring wide_snapshot.
Proof.
  assert (forall (l : list InputChunk) q l0, represents kMaximumInputChunks q l0 -> (length l0 + length l < kMaximumInputChunks)%nat ->
    represents kMaximumInputChunks (fold_left (fun q ch => fst (TryPush kMaximumInputChunks q ch)) l q) (l0 ++ l))
    as H.
  { induction l as [|x l IH]; intros q l0 Hq Hl; cbn [fold_left length] in *; [by rewrite app_nil_r|].
    pose proof (push_represents _ two_chunks q l0 x Hq) as Hp.
    destruct (Nat.ltb_spec (length l0) (kMaximumInputChunks - 1)); [|lia]. destruct Hp as (q' & -> & Hq'). cbn [fst].
    specialize (IH q' (l0 ++ [x]) Hq'). rewrite <- app_assoc in IH. apply IH. rewrite length_app. cbn. lia. }
  apply (H wide_snapshot _ []); [apply represents_empty, two_chunks|].
  replace (length wide_snapshot) with 2%nat by (by vm_compute). vm_compute. lia.
Qed.

Definition wide_port : port :=
  default (mkPort (new_bus sample_daemon_config 3) 0 0 (mkTiming 0 0 0 Other)) (ports wide_daemon !! O).

Lemma drain_bus_publishes_witness :
  exists c, clients (drain_bus 1000 wide_daemon 0) = [c] /\
    outgoing (queue c) = snapshot_frames wide_snapshot /\ length (outgoing (queue c)) = 2%nat.
Proof.
  destruct (drain_bus_publishes wide_daemon 0 wide_port empty_accumulator 1000 wide_context wide_map 0 9)
    as (q & _ & ->).
  - apply wide_map_ok.
  - apply wide_typed.
  - done.
  - intros a ->%wide_index. by left.
  - unfold in_u16. lia.
  - done.
  - done.
  - by vm_compute.
  - done.
  - apply wide_ring_represents.
  - done.
  - repeat constructor.
  - eexists. split; [done|]. split; [done|]. by vm_compute.
Defined.
