(* ===== verification/Interop.v ===== *)
(** The daemon and the client library together: the input snapshot that the daemon publishes
    ([Publication]) is reassembled by the client ([ClientLibrary], [Assembly]) into the images
    of the SubDevices, and the HELLO exchange between [HandleHello] and [Connect]. *)

From stdpp Require Import list_numbers.
From S2P Require Import Prelude LittleEndian Protocol Codec Payloads Frame SafetyGate SpscQueue Config.
From S2P Require Import Pdo IoMap BusIo Cycle Sockets Connection Daemon Control System Guarantees.
From S2P Require Import Assembly Publication ClientLibrary ClientSession.

(** ** The daemon's answer to HELLO *)

Lemma QueueFrame_room now i frame c d :
  clients d !! i = Some c -> descriptor c = true -> frame <> [] -> no_room (queue c) (zlen frame) = false ->
  QueueFrame now i frame true d = (put_client i (on_queue (push_frames [frame] (zlen frame)) c) d, true).
Proof.
  intros Hi Hd Hf Hr. unfold QueueFrame, queue_frame. rewrite Hi. unfold offer. rewrite Hd, Hr.
  by destruct frame.
Qed.

(** The acknowledgement [a] tells the state of the gate. *)
Record truthful_ack (configuration : DaemonConfig) (client : ClientConnection) (g : Gate.t)
    (a : HelloAckPayload) : Prop := {
  ack_outputs : helloack_outputsEnabled a = Gate.outputsEnabled g;
  ack_epoch : helloack_epoch a = Gate.epoch g;
  ack_timeout : helloack_heartbeatTimeoutMs a = to_u16 (config_heartbeatTimeout configuration);
  ack_pid : helloack_peerPid a = client_pid (peer client);
  ack_capabilities : in_u32 (helloack_capabilities a);
  ack_control : helloack_grantedRole a = Controller ->
    Gate.outputsEnabled g = false /\ Gate.controllerId g = Some (client_of client)
}.

Lemma helloack_size a :
  helloack_heartbeatTimeoutMs a <> 0 -> helloack_epoch a <> 0 -> zlen (EncodeHelloAckPayload a) = 20.
Proof.
  intros H1 H2. unfold EncodeHelloAckPayload. destruct (_ || _) eqn:E; [lia|].
  norm_append. by autorewrite with zlen.
Qed.

Lemma HandleHello_replies configuration now i client id payload hello d :
  DecodeHelloPayload payload = Some hello -> clients d !! i = Some client ->
  descriptor client = true -> no_room (queue client) 36 = false ->
  100 <= config_heartbeatTimeout configuration <= 5000 -> 1 <= Gate.epoch (gate d) <= U64_MAX ->
  in_u32 (client_pid (peer client)) -> in_u32 id ->
  exists d' a client', HandleHello configuration now i client (Frame.mkFrame Hello id payload) d = (d', true) /\
    truthful_ack configuration client (gate d') a /\ Gate.epoch (gate d') = Gate.epoch (gate d) /\
    (hello_role hello = Observer -> gate d' = gate d) /\
    clients d' !! i = Some client' /\ greeted client' = true /\
    role (session client') = helloack_grantedRole a /\
    outgoing (queue client') = outgoing (queue client) ++ [EncodeFrame HelloAck id (EncodeHelloAckPayload a)].
Proof.
  intros Hdec Hi Hd Hr Ht He Hp Hid. unfold HandleHello. cbn [frame_payload frame_requestId]. rewrite Hdec.
  set (r := if bool_decide (hello_role hello = Controller) && _ then _ else _).
  assert (exists d1 granted c1, r = (d1, granted) /\ clients d1 !! i = Some c1 /\ queue c1 = queue client /\
    descriptor c1 = true /\ Gate.epoch (gate d1) = Gate.epoch (gate d) /\
    (hello_role hello = Observer -> gate d1 = gate d) /\
    (granted = Controller -> Gate.outputsEnabled (gate d1) = false /\
       Gate.controllerId (gate d1) = Some (client_of client))) as (d1 & granted & c1 & -> & Hc1 & Hq & Hd1 & He1 & Ho1 & Hg1).
  { unfold r. clear r. destruct (bool_decide (hello_role hello = Controller) && _) eqn:E.
    2:{ exists d, Observer, client. split_and!; done. }
    apply andb_true_iff in E as [E _]. apply bool_decide_eq_true in E.
    unfold Gate.Acquire. destruct (client_of client =? 0).
    { exists (with_gate (gate d) d), Observer, client. split_and!; done. }
    destruct (match Gate.controller (gate d) with Some _ => _ | None => _ end).
    { exists (with_gate (gate d) d), Observer, client. split_and!; done. }
    cbn [Gate.status]. rewrite bool_decide_true by done.
    eexists _, _, _. split; [done|]. split.
    { cbn [clients ApplySafetyToBuses with_ports on_client with_clients with_gate].
      by rewrite list_lookup_alter_eq, Hi. }
    split_and!; done || by rewrite E. }
  set (a := mkHelloAck _ _ _ _ _ _).
  assert (truthful_ack configuration client (gate d1) a) as Ha.
  { split; try done. unfold a. cbn [helloack_capabilities]. destruct (OutputCapabilityAvailable _); by vm_compute. }
  assert (zlen (frame_bytes (Frame.mkFrame HelloAck id (EncodeHelloAckPayload a))) = 36) as Hz.
  { rewrite zlen_frame_bytes; [cbn [frame_payload]|split_and!; [done|apply helloack_encode_ok|apply helloack_fits]].
    rewrite helloack_size; [lia| |]; rewrite ?(ack_timeout _ _ _ _ Ha), ?(ack_epoch _ _ _ _ Ha); unfold to_u16; dlia. }
  rewrite (QueueFrame_room now i _ (on_session (fun s => mkSession true granted (hello_subscribeInputs hello)
             (hello_inputPeriodMs hello) (nextPublication s)) c1)).
  - eexists _, a, _. split; [done|]. split; [done|]. split; [done|]. split; [done|].
    cbn [clients put_client with_clients UpdateInputPublicationDemand with_ports on_client].
    rewrite list_lookup_insert_eq by (rewrite length_alter; by eapply lookup_lt_Some).
    split_and!; [done|done|done|]. cbn [queue on_queue on_session outgoing push_frames]. by rewrite Hq.
  - cbn [clients UpdateInputPublicationDemand with_ports on_client with_clients]. by rewrite list_lookup_alter_eq, Hc1.
  - done.
  - intros E. unfold frame_bytes in Hz. cbn [frame_type frame_requestId frame_payload] in Hz. by rewrite E in Hz.
  - cbn [queue on_session]. unfold frame_bytes in Hz. cbn [frame_type frame_requestId frame_payload] in Hz.
    by rewrite Hq, Hz.
Qed.

Import Client.

(** ** Reading inputs *)

(** A message about inputs of the current epoch is kept, and joins its image. *)
Definition take_input (x : PdoInputPayload) (c : Client.t) : Client.t :=
  on_store (fun s => mkReceived (push_bounded kMaximumReceivedInputs x (inputs s))
                       (busInformation s) (AssembleInput x (inbox s)))
    (hear (Frame.mkFrame PdoInput 0 (EncodePdoInputPayload x)) c).

Definition input_frame (x : PdoInputPayload) : Frame :=
  Frame.mkFrame PdoInput 0 (EncodePdoInputPayload x).

Lemma Process_take x c :
  message_ok x -> input_epoch x = epoch (session c) ->
  Process (input_frame x) c = (take_input x c, true).
Proof.
  intros [Hwf Hne _] He. unfold Process, process_input, input_frame. cbn [frame_type frame_requestId frame_payload].
  rewrite (input_decode_encode x Hwf Hne). cbn [Z.eqb negb].
  unfold on_line at 1. cbn [session]. by rewrite He, Z.eqb_refl.
Qed.

Lemma process_all_take xs c :
  Forall message_ok xs -> Forall (fun x => input_epoch x = epoch (session c)) xs ->
  process_all (map input_frame xs) c = (fold_left (fun c x => take_input x c) xs c, true).
Proof.
  revert c. induction xs as [|x xs IH]; intros c Hm He; [done|].
  inversion Hm; subst. inversion He; subst. cbn [map process_all].
  rewrite Process_take by done. by apply IH.
Qed.

Lemma take_decoder d xs c :
  fold_left (fun c x => take_input x c) xs (on_channel (set_decoder d) c) =
  on_channel (set_decoder d) (fold_left (fun c x => take_input x c) xs c).
Proof. revert c. induction xs as [|x xs IH]; intros c; [done|]. cbn [fold_left]. by rewrite <- IH. Qed.

Lemma take_session xs c : session (fold_left (fun c x => take_input x c) xs c) = session c.
Proof. revert c. induction xs as [|x xs IH]; intros c; [done|]. cbn [fold_left]. by rewrite IH. Qed.

Lemma Read_take now parts c xs d :
  FrameDecoder.feed_all (decoder (channel c)) parts = (d, map input_frame xs, true) ->
  Forall message_ok xs -> Forall (fun x => input_epoch x = epoch (session c)) xs ->
  Read now (map RecvBytes parts) c =
  (on_channel (set_decoder d) (fold_left (fun c x => take_input x c) xs c), true).
Proof.
  revert c xs. induction parts as [|p parts IH]; intros c xs Hf Hm He; cbn [map Read FrameDecoder.feed_all] in *.
  - injection Hf as <- Hx. destruct xs; [|done]. cbn. by destruct c as [? ? []].
  - destruct (FrameDecoder.Feed (decoder (channel c)) p) as [[d1 fs1] [|]]; [|done].
    destruct (FrameDecoder.feed_all d1 parts) as [[d2 fs2] ok] eqn:E2. injection Hf as <- Hx ->.
    symmetry in Hx. change (map input_frame xs) with (input_frame <$> xs) in Hx.
    apply fmap_app_inv in Hx as (xs1 & xs2 & -> & -> & ->).
    apply Forall_app in Hm as [Hm1 Hm2], He as [He1 He2]. cbn [negb].
    change (input_frame <$> xs1) with (map input_frame xs1).
    rewrite process_all_take by done. rewrite fold_left_app, take_decoder.
    rewrite (IH _ xs2); [by rewrite take_decoder|done|done|].
    cbn [session on_channel]. by rewrite take_session.
Qed.

Lemma take_inbox xs c :
  inbox (store (fold_left (fun c x => take_input x c) xs c)) =
  fold_left (fun b x => AssembleInput x b) xs (inbox (store c)).
Proof. revert c. induction xs as [|x xs IH]; intros c; [done|]. cbn [fold_left]. by rewrite IH. Qed.

(** ** Reassembly of a snapshot *)

Section Images.
Context (bus e cycle : Z).

Definition image_messages (l : list (Z * bytes)) : list PdoInputPayload :=
  concat (map (fun x => pieces bus (fst x) e cycle (snd x)) l).

Definition images_of (l : list (Z * bytes)) : list PdoImage :=
  map (fun x => mkImage bus (fst x) e cycle (snd x)) l.

(** No message of this cycle of the bus has arrived yet. *)
Definition fresh_cycle (b : Inbox) : Prop :=
  forall a, a ∈ assemblies b ->
    ~ (assembly_busIndex a = bus /\ assembly_epoch a = e /\ assembly_cycleSequence a = cycle).

Lemma images_delivered heard l b :
  Forall (fun x => 0 < zlen (snd x) <= kMaximumPdoImage) l ->
  (forall x, x ∈ image_messages l -> x ∈ heard) -> inbox_ok heard b -> fresh_cycle b ->
  inputImages (fold_left (fun b x => AssembleInput x b) (image_messages l) b) =
  newest_images (inputImages b ++ images_of l).
Proof using Type.
  revert b. induction l as [|[a image] l IH]; intros b Hl Hh Hb Hf.
  { rewrite app_nil_r. symmetry. apply newest_within.
    destruct Hb as [_ _ _ _ _ Hc [E Hs]]. rewrite E in Hs. by split. }
  inversion Hl as [|? ? Hi Hl']; subst. cbn [snd] in Hi.
  unfold image_messages in *. cbn [map concat fst snd] in *. rewrite fold_left_app.
  destruct (pieces_delivered bus a e cycle image Hi heard b) as (Hb1 & Ha1 & Hn);
    [intros x Hx; apply Hh, elem_of_app; by left|done| |].
  { intros x Hx (H1 & _ & H2 & H3 & _). by apply (Hf x Hx). }
  set (b1 := fold_left _ (pieces bus a e cycle image) b) in *.
  rewrite IH; [|done|intros x Hx; apply Hh, elem_of_app; by right|done|].
  - rewrite Hn. unfold newest_images. rewrite newest_app by apply image_size_nonneg.
    by rewrite <- app_assoc.
  - intros x Hx. by apply Hf, Ha1.
Qed.
End Images.

Lemma published_size m c a image :
  bytes_ok m -> (forall a, a ∈ indices c -> slave_typed (slave c a)) ->
  (forall a, a ∈ indices c -> Istartbit (slave c a) <= 7 \/ Ibits (slave c a) = 0) ->
  (a, image) ∈ published_images m c -> 0 < zlen image <= kMaximumPdoImage.
Proof.
  intros H1 H2 H3 Ha. apply list_elem_of_omap in Ha as (a' & Ha & Hi).
  pose proof (slave_image_chunks c m H1 H2 H3 a' Ha) as Hs.
  destruct (slave_image m c a'); [|done]. injection Hi as -> ->. unfold kMaximumPdoImage. lia.
Qed.

(** C29: inputs reach the user intact: let the client library be connected in the epoch of the
    snapshot, with no part of a frame pending in its decoder and no message of this cycle of
    the bus received before; when it reads the messages that the daemon publishes for one cycle
    of the bus (whose SubDevices have metadata that Initialize accepts; the bytes may arrive
    cut anywhere), the read succeeds and the session stands,
    and the image queue is exactly the longest suffix, within 32 images and 4 MiB, of the old
    queue followed by the images of the SubDevices with mapped inputs in order, each byte for
    byte what the bus read from its map in that cycle. So nothing is lost while there is room;
    otherwise the oldest images go first and no more of them than necessary, which includes
    images of the snapshot itself if it alone exceeds the queue. *)
Theorem snapshot_reassembled o c cx m busIndex sequence now parts :
  bytes_ok m -> (forall a, a ∈ indices cx -> slave_typed (slave cx a)) -> slavecount cx <= U16_MAX ->
  (forall a, a ∈ indices cx -> Istartbit (slave cx a) <= 7 \/ Ibits (slave cx a) = 0) ->
  in_u16 busIndex -> 1 <= sequence <= U64_MAX ->
  client_reached o c -> decoder (channel c) = FrameDecoder.init ->
  let e := epoch (session c) in 1 <= e <= U64_MAX ->
  fresh_cycle busIndex e sequence (inbox (store c)) -> Forall Frame.chunk_ok parts ->
  concat parts = concat (snapshot_frames (snapshot cx m busIndex e sequence)) ->
  let '(c', ok) := Read now (map RecvBytes parts) c in
  ok = true /\ session c' = session c /\ decoder (channel c') = FrameDecoder.init /\
  let images := inputImages (inbox (store c)) ++ images_of busIndex e sequence (published_images m cx) in
  exists n, inputImages (inbox (store c')) = drop n images /\
    images_within (drop n images) /\ forall k, (k < n)%nat -> ~ images_within (drop k images).
Proof.
  intros H1 H2 H3 H4 H5 H6 Hc Hd e He Hf Hp Hs.
  set (s := snapshot cx m busIndex e sequence) in *.
  set (xs := map chunk_payload s).
  assert (xs = image_messages busIndex e sequence (published_images m cx)) as Hxs by by apply snapshot_payloads.
  assert (Forall message_ok xs) as Hm.
  { apply Forall_fmap, Forall_forall. intros ch Hch. by apply (snapshot_messages cx m busIndex e sequence). }
  assert (Forall (fun x => input_epoch x = epoch (session c)) xs) as Hep.
  { apply Forall_fmap, Forall_forall. intros ch [k Hk]%list_elem_of_lookup.
    apply (snapshot_numbered cx m busIndex e sequence k ch Hk). }
  assert (FrameDecoder.feed_all (decoder (channel c)) parts = (FrameDecoder.init, map input_frame xs, true)) as Hfeed.
  { rewrite Hd. apply feed_all_stream; [|done|].
    - unfold xs. rewrite map_map. apply Forall_fmap, Forall_forall. intros ch Hch.
      apply chunk_frame_wf. by apply (snapshot_messages cx m busIndex e sequence).
    - rewrite Hs. unfold xs, stream, snapshot_frames. by rewrite !map_map. }
  rewrite (Read_take now parts c xs _ Hfeed Hm Hep).
  cbn [session on_channel channel set_decoder decoder store]. rewrite take_session, take_inbox.
  split_and!; [done..|]. rewrite Hxs. cbv zeta.
  rewrite (images_delivered busIndex e sequence (omap input_of (all_heard c) ++ xs));
    [by apply newest_suffix| | | |].
  - apply Forall_forall. intros [a image] Ha. by apply (published_size m cx a image).
  - intros x Hx. rewrite Hxs. apply elem_of_app. by right.
  - apply client_reached_ok, client_breakable in Hc as [[_ [_ _ Hb] _] _ _].
    eapply inbox_ok_more; [|exact Hb]. intros x Hx. apply elem_of_app. by left.
  - done.
Qed.

(** The 1100 bytes of inputs of [wide_context] arrive in three parts, the cuts inside the
    messages. *)
Definition wide_stream : bytes := concat (snapshot_frames (snapshot wide_context wide_map 0 5 10)).
Definition wide_parts : list bytes :=
  [take 7 wide_stream; take 900 (drop 7 wide_stream); drop 907 wide_stream].

Lemma snapshot_reassembled_witness :
  let r := Read 99 (map RecvBytes wide_parts) sample_session in
  snd r = true /\ inputImages (inbox (store (fst r))) =
    inputImages (inbox (store sample_session)) ++ [mkImage 0 1 5 10 wide_map].
Proof.
  intros r. assert (epoch (session sample_session) = 5) as E5 by by vm_compute.
  pose proof (snapshot_reassembled sample_options sample_session wide_context wide_map 0 10 99 wide_parts
    wide_map_ok wide_typed) as H. rewrite E5 in H. clear E5.
  fold r in H. clearbody r. destruct r as [c ok].
  destruct H as (-> & _ & _ & n & Hn & _ & H0).
  - done.
  - intros a ->%wide_index. by left.
  - unfold in_u16. lia.
  - done.
  - apply sample_session_reached.
  - by vm_compute.
  - done.
  - intros a Ha. replace (assemblies (inbox (store sample_session))) with (@nil PdoAssembly) in Ha by (by vm_compute).
    by apply elem_of_nil in Ha.
  - repeat constructor; by vm_compute.
  - unfold wide_parts, wide_stream. cbn [concat]. rewrite app_nil_r.
    rewrite <- (drop_drop _ 7 900), !take_drop. done.
  - split; [done|]. cbn [fst]. rewrite Hn. destruct n as [|n]; [by rewrite drop_0|].
    exfalso. apply (H0 O); [lia|]. split; by vm_compute.
Defined.

(** ** HELLO *)

(** The HELLO that [Connect] sends. *)
Definition hello_of (c : Client.t) : HelloPayload :=
  mkHello (option_role (options c)) (option_subscribeInputs (options c))
    (option_inputPeriodMs (options c)) (lastSeenEpoch (session c)).

Lemma hello_understood c :
  ValidateOptions (options c) = true -> in_u64 (lastSeenEpoch (session c)) ->
  DecodeHelloPayload (EncodeHelloPayload (hello_of c)) = Some (hello_of c).
Proof.
  intros Hv Hl. unfold ValidateOptions in Hv. rewrite !andb_true_iff, !Z.leb_le in Hv.
  destruct Hv as [[[[[[[[[[_ _] H1] H2] _] _] _] _] _] _] _].
  apply hello_decode_encode; [split; [unfold in_u16; cbn; lia|done]|].
  unfold EncodeHelloPayload. cbn [hello_inputPeriodMs hello_of].
  destruct (_ || _) eqn:E; [exfalso; lia|]. by norm_append.
Qed.

(** C31: the two ends of a HELLO agree: when a client library whose options are valid is connected
    to the daemon and says hello, the daemon queues one acknowledgement, which the library
    accepts exactly when outputs are disabled. A client that is made controller is always
    accepted, is the one the gate knows, and no outputs are enabled at that moment. Once
    accepted, both ends have the same epoch, role and output state, and the library's
    heartbeat period lets it miss one heartbeat within the daemon's timeout. *)
Theorem hello_agreement configuration EC_MAXSLAVE preempt d i client now c id :
  0 <= EC_MAXSLAVE -> 100 <= config_heartbeatTimeout configuration <= 5000 ->
  reached configuration EC_MAXSLAVE preempt d -> wrapped d = false ->
  clients d !! i = Some client -> descriptor client = true ->
  in_u32 (client_pid (peer client)) -> no_room (queue client) 36 = false ->
  ValidateOptions (options c) = true -> in_u64 (lastSeenEpoch (session c)) ->
  in_u32 id -> expectedHelloRequest (channel c) = id ->
  exists d' client' reply,
    HandleHello configuration now i client (Frame.mkFrame Hello id (EncodeHelloPayload (hello_of c))) d
    = (d', true) /\
    clients d' !! i = Some client' /\
    Connection.outgoing (queue client') = Connection.outgoing (queue client) ++ [frame_bytes reply] /\
    let controller := bool_decide (role (Connection.session client') = Controller) in
    let '(c', accepted) := Process reply c in
    accepted = negb (Gate.outputsEnabled (gate d')) /\
    (option_role (options c) = Observer -> gate d' = gate d) /\
    (controller = true -> accepted = true /\ Gate.controllerId (gate d') = Some (client_of client)) /\
    (accepted = true -> helloReceived (channel c') = true /\ epoch (session c') = Gate.epoch (gate d') /\
       controllerGranted (session c') = controller /\ outputsEnabled (session c') = false /\
       2 * effectiveHeartbeatPeriod (schedule c') < config_heartbeatTimeout configuration).
Proof.
  intros HE Hhb Hr Hw Hi Hd Hp Hroom Hv Hl Hid Hx.
  apply reached_whole in Hr as [[_ _ Hs] _]; [|done]. destruct (sound_gate _ _ _ (Hs Hw)) as (Hg & _).
  destruct (HandleHello_replies configuration now i client id _ _ d (hello_understood c Hv Hl) Hi Hd Hroom Hhb Hg Hp Hid)
    as (d' & a & client' & -> & [A1 A2 A3 A4 A5 A6] & He & Ho & Hi' & _ & Hrole & Hout).
  exists d', client', (Frame.mkFrame HelloAck id (EncodeHelloAckPayload a)).
  split; [done|]. split; [done|]. split; [done|]. rewrite Hrole.
  assert (DecodeHelloAckPayload (EncodeHelloAckPayload a) = Some a) as Hdec.
  { apply helloack_decode_encode.
    - unfold helloack_wf, in_u16, in_u64, in_u32, to_u16 in *. rewrite A2, A3, A4, He. split_and!; try done; dlia.
    - intros E. pose proof (helloack_size a ltac:(rewrite A3; unfold to_u16; dlia) ltac:(rewrite A2; lia)) as Hz.
      by rewrite E in Hz. }
  unfold Process. cbn [frame_type]. unfold process_hello. cbn [frame_requestId frame_payload channel on_line].
  rewrite Hx, Z.eqb_refl. cbn [negb]. rewrite Hdec, A1.
  destruct (Gate.outputsEnabled (gate d')) eqn:Eo; cbn [negb failed].
  { split_and!; try done. intros Hc%bool_decide_eq_true. by destruct (A6 Hc). }
  assert (helloack_heartbeatTimeoutMs a = config_heartbeatTimeout configuration) as A3'
    by (rewrite A3; unfold to_u16; apply Z.mod_small; lia).
  rewrite A3'. destruct (Z.leb_spec (config_heartbeatTimeout configuration) 20); [lia|].
  cbv zeta. split_and!; [done|done| |].
  { intros Hc%bool_decide_eq_true. by destruct (A6 Hc). }
  intros _. split_and!; [done|done|done|done|].
  apply (effective_period_ok (heartbeatPeriod (options c))). lia.
Qed.

(** A second client has just connected while the controller has outputs enabled. *)
Definition sample_visited : daemon :=
  run_events [EvAccept [Accepted (Some (mkCredentials 43 0 0 None))]] sample_running.

Definition sample_visitor : ClientConnection := default sample_client (clients sample_visited !! 1%nat).

Lemma sample_visited_reached : reached sample_daemon_config 3 false sample_visited.
Proof. apply run_events_reached; [by repeat constructor|apply sample_running_reached]. Qed.

Definition sample_observer : Client.t :=
  on_channel (set_hello 1 false)
    (create (mkOptions (str "/run/ec.sock") Observer true 100 500 250 50 1000 50)).

(** Its HELLO as an observer is refused by the library itself. *)
Lemma hello_agreement_witness :
  exists d' reply,
    fst (HandleHello sample_daemon_config 2000 1 sample_visitor
           (Frame.mkFrame Hello 1 (EncodeHelloPayload (hello_of sample_observer))) sample_visited) = d' /\
    Gate.outputsEnabled (gate d') = true /\
    snd (Process reply sample_observer) = false.
Proof.
  destruct (hello_agreement sample_daemon_config 3 false sample_visited 1 sample_visitor 2000 sample_observer 1)
    as (d' & client' & reply & E & _ & _ & H).
  - lia.
  - cbn. lia.
  - apply sample_visited_reached.
  - by vm_compute.
  - apply default_Some. by vm_compute.
  - by vm_compute.
  - by vm_compute.
  - by vm_compute.
  - by vm_compute.
  - by vm_compute.
  - by vm_compute.
  - by vm_compute.
  - exists d', reply. rewrite E. destruct (Process reply sample_observer) as [c' accepted].
    destruct H as (-> & Hg & _). specialize (Hg eq_refl). rewrite Hg. clear.
    assert (Gate.outputsEnabled (gate sample_visited) = true) as -> by by vm_compute. done.
Defined.
